(** * AI Job Companion: job scoring and scrape orchestration

    A shallow embedding of the two services of the backend that carry the
    algorithmic design,

    - [JobScoringService] (jobs/job-scoring.service.ts), together with the
      batch entry point [JobsService.scoreJobs] and
      [JobsService.upsertFromScraper] (jobs/jobs.service.ts);
    - [ScrapersService] (scrapers/scrapers.service.ts),

    and the properties of them that the design document states.

    Conventions of the embedding.

    - JavaScript strings are Rocq strings, that is sequences of 8-bit
      characters; the string primitives ([toLowerCase], [trim], [split],
      [includes]) are the JavaScript ones on ASCII text.
    - JavaScript numbers are exact: integers are [Z] or [nat], the other
      scores are rationals [Q].  Rounding errors of IEEE doubles are not
      modelled there; the module [Binary64] holds the scoring methods once
      more with the arithmetic of doubles, and the property of the weighted
      sum is stated of it.
    - Code that can throw returns an [outcome]; asynchronous, stateful code
      lives in the monad [M], a state monad over the [World] whose results
      are outcomes.  A state change made before a throw stays made, as in
      JavaScript.  Promises that run concurrently run one after the other
      here, and the clock stands still during a call.
    - What the platform supplies ([JSON.parse], and whether a Prisma call
      rejects) is a parameter, the class [Platform].
    - Logging ([Logger], [console.error]) is left out. *)

From Stdlib Require Import ZArith QArith Qround Qminmax Lia Lqa.
From Stdlib Require Import String Ascii List DecimalString.
From Stdlib Require Import DecimalZ DecimalPos Permutation.
From Stdlib Require Import Qpower Qabs.
From stdpp Require Import base gmap strings list.
Import ListNotations.

(* ===================================================================== *)
(** * JavaScript primitives *)
(* ===================================================================== *)

Module Js.

(** ** Strings *)

Definition is_upper (c : ascii) : bool :=
  let n := nat_of_ascii c in (65 <=? n)%nat && (n <=? 90)%nat.

Definition lower_char (c : ascii) : ascii :=
  if is_upper c then ascii_of_nat (nat_of_ascii c + 32) else c.

(** [String.prototype.toLowerCase] *)
Fixpoint toLowerCase (s : string) : string :=
  match s with
  | EmptyString => EmptyString
  | String c r => String (lower_char c) (toLowerCase r)
  end.

(** White space and line terminators that [trim] removes: TAB, LF, VT, FF,
    CR and SPACE. *)
Definition is_space (c : ascii) : bool :=
  let n := nat_of_ascii c in
  ((9 <=? n)%nat && (n <=? 13)%nat) || (n =? 32)%nat.

Fixpoint trimStart (s : string) : string :=
  match s with
  | EmptyString => EmptyString
  | String c r => if is_space c then trimStart r else s
  end.

Fixpoint trimEnd (s : string) : string :=
  match s with
  | EmptyString => EmptyString
  | String c r =>
      match trimEnd r with
      | EmptyString => if is_space c then EmptyString else String c EmptyString
      | r' => String c r'
      end
  end.

(** [String.prototype.trim] *)
Definition trim (s : string) : string := trimEnd (trimStart s).

(** [s.split(sep)] for a one-character separator; the result is never
    empty: the empty string splits into one empty piece. *)
Fixpoint split (sep : ascii) (s : string) : list string :=
  match s with
  | EmptyString => [EmptyString]
  | String c r =>
      if Ascii.eqb c sep then EmptyString :: split sep r
      else match split sep r with
           | h :: t => String c h :: t
           | [] => [String c EmptyString]
           end
  end.

(** [s.includes(sub)]: [sub] occurs in [s] as a substring. *)
Fixpoint includes (s sub : string) : bool :=
  if String.prefix sub s then true
  else match s with
       | EmptyString => false
       | String _ r => includes r sub
       end.

(** [arr.includes(x)] on an array of strings *)
Definition arr_includes (arr : list string) (x : string) : bool :=
  existsb (String.eqb x) arr.

(** [arr.slice(i, j)] *)
Definition slice {A} (i j : nat) (arr : list A) : list A :=
  take (j - i) (drop i arr).

(** ** Numbers *)

(** [Math.round]: to the nearest integer, halves towards plus infinity. *)
Definition Math_round (x : Q) : Z := Qfloor (x + (1 # 2)).

(** [Math.max] *)
Definition Math_max (x y : Q) : Q := Qmax x y.

(** Truthiness of an optional integer: [null], [undefined] and [0] are
    falsy. *)
Definition truthy (n : option Z) : bool :=
  match n with
  | Some v => negb (v =? 0)%Z
  | None => false
  end.

(** Decimal rendering of an integer, as a template literal prints it. *)
Definition string_of_Z (z : Z) : string :=
  NilZero.string_of_int (Z.to_int z).

(** Decimal rendering of a number with at most one decimal digit, as a
    template literal prints it: [4], [4.5], [-0.3].  It is applied only
    to multiples of one tenth, on which it is exact. *)
Definition string_of_tenths (q : Q) : string :=
  let t := Qfloor (q * 10) in
  let a := Z.abs t in
  let sign := if (t <? 0)%Z then "-"%string else ""%string in
  let whole := string_of_Z (a / 10) in
  let frac := (a mod 10)%Z in
  if (frac =? 0)%Z then (sign ++ whole)%string
  else (sign ++ whole ++ "." ++ string_of_Z frac)%string.

(** ** Dates *)

(** A [Date] object: its time value in milliseconds and the calendar fields
    the code reads (local time, months counted from 0).  Prisma hands out
    valid dates only, so the invalid date (time value NaN) is not a value
    of this type. *)
Record Instant := mkInstant {
  getTime : Z;
  getFullYear : Z;
  getMonth : Z
}.

(** ** JSON values, and what [String(v)] makes of them *)

#[warnings="-register-all"]
Inductive json :=
| JNull
| JBool (b : bool)
| JNumber (repr : string)   (* a number, carried as [String] prints it *)
| JString (s : string)
| JArray (elems : list json)
| JObject (members : list (string * json)).

(** [String(v)].  An array prints its elements joined by commas, [null]
    elements as nothing; an object prints as [[object Object]]. *)
Fixpoint String_ (v : json) : string :=
  match v with
  | JNull => "null"
  | JBool true => "true"
  | JBool false => "false"
  | JNumber repr => repr
  | JString s => s
  | JArray elems =>
      let item (e : json) : string :=
        match e with JNull => ""%string | _ => String_ e end in
      (fix join (l : list json) : string :=
         match l with
         | [] => ""%string
         | [e] => item e
         | e :: rest => (item e ++ "," ++ join rest)%string
         end) elems
  | JObject _ => "[object Object]"
  end.

(** ** Exceptions *)

Inductive outcome (A : Type) :=
| Ok (a : A)
| Throw (message : string).
Arguments Ok {A} a.
Arguments Throw {A} message.

End Js.
Export Js.


(* ===================================================================== *)
(** * Data model *)
(* ===================================================================== *)

(** ** Rows of the Prisma models (prisma/schema.prisma)

    Only the columns that the modelled services read or write are kept;
    identifiers ([cuid()] strings in the schema) are natural numbers for
    the rows this code creates. *)

Record Skill := mkSkill {
  skill_userId : string;
  skill_name : string
}.

Record JobTarget := mkJobTarget {
  target_userId : string;
  targetRoles : option string;        (* JSON array *)
  minSalary : option Z;
  maxSalary : option Z;
  target_salaryCurrency : string;
  preferredLocations : option string; (* JSON array *)
  remotePreference : option string    (* remote, hybrid, onsite, any *)
}.

(** [startDate] is a required column; the guards of [calculateTotalYears]
    against a missing start date, an invalid date or an exception while
    reading an entry cannot fire on such rows and have no counterpart
    here. *)
Record Experience := mkExperience {
  exp_userId : string;
  startDate : Instant;
  endDate : option Instant;
  isCurrent : bool
}.

Record Job := mkJob {
  job_id : nat;
  job_externalId : option string;
  job_source : string;
  job_sourceUrl : option string;
  job_title : string;
  job_company : string;
  job_companyLogoUrl : option string;
  job_location : option string;
  job_isRemote : option bool;
  job_employmentType : option string;
  job_experienceMin : option Z;
  job_experienceMax : option Z;
  job_salaryMin : option Z;
  job_salaryMax : option Z;
  job_salaryCurrency : option string;
  job_description : option string;
  job_requirements : option string;
  job_responsibilities : option string;
  job_benefits : option string;
  job_skillsRequired : option string;  (* JSON array *)
  job_postedDate : option Instant;
  job_companySize : option string;
  job_industry : option string
}.

Record ScraperRun := mkScraperRun {
  run_id : nat;
  run_source : string;
  run_status : string;                 (* running, success, failed *)
  run_startedAt : Instant;
  run_completedAt : option Instant;
  run_jobsFound : nat;
  run_jobsNew : nat;
  run_jobsUpdated : nat;
  run_errorMessage : option string
}.

(** ** Values of the scoring service *)

Record Breakdown := mkBreakdown {
  experienceAnalysis : string;
  salaryAnalysis : string;
  locationAnalysis : string;
  pros : list string;
  cons : list string
}.

(** interface ScoreResult *)
Record ScoreResult := mkScoreResult {
  overallScore : Q;
  semanticScore : Q;
  skillMatchScore : Q;
  experienceMatchScore : Q;
  salaryMatchScore : Q;
  locationMatchScore : Q;
  matchedSkills : list string;
  missingSkills : list string;
  breakdown : Breakdown
}.

(** ** Values of the scraper interface (interfaces/scraper.interface.ts) *)

(** interface ScraperConfig.  [locations] is whatever [JSON.parse] made of
    the stored preference, [location] its element 0. *)
Record ScraperConfig := mkScraperConfig {
  keywords : list string;
  location : option json;
  locations : json;
  remote : bool;
  experienceYears : Z;
  salaryMin : option Z;
  salaryCurrency : string
}.

(** Partial<ScraperConfig>: the keys a caller overrides. *)
Record PartialConfig := mkPartialConfig {
  custom_keywords : option (list string);
  custom_location : option string;
  custom_remote : option bool;
  custom_salaryMin : option Z
}.

(** interface ScrapedJob *)
Record ScrapedJob := mkScrapedJob {
  externalId : string;
  source : string;
  sourceUrl : string;
  title : string;
  company : string;
  sj_location : option string;
  isRemote : option bool;
  description : option string;
  requirements : option string;
  responsibilities : option string;
  skillsRequired : option string;
  sj_salaryMin : option Z;
  salaryMax : option Z;
  sj_salaryCurrency : option string;
  experienceMin : option Z;
  experienceMax : option Z;
  employmentType : option string;
  postedDate : option Instant;
  companyLogoUrl : option string;
  benefits : option string;
  industry : option string;
  companySize : option string
}.

(** interface ScraperResult *)
Record ScraperResult := mkScraperResult {
  result_source : string;
  success : bool;
  jobsFound : nat;
  jobsNew : nat;
  jobsUpdated : nat;
  error : option string;
  blocked : option bool;
  duration : Z
}.

(** interface SourceHealth *)
Record SourceHealth := mkSourceHealth {
  health_source : string;
  enabled : bool;
  isBlocked : bool;
  blockedAt : option Instant;
  consecutiveFailures : nat;
  lastSuccess : option Instant;
  lastRun : option Instant
}.

(** interface IScraper: a portal adapter.  What [scrape] yields is up to
    the portal; it may depend on the search configuration and on when it is
    asked, and it may throw. *)
Record IScraper := mkScraper {
  name : string;
  scraper_enabled : bool;
  scrape : ScraperConfig -> Instant -> outcome (list ScrapedJob)
}.

(** ** The store and the world *)

Record Database := mkDatabase {
  skills : list Skill;
  jobTargets : list JobTarget;
  experiences : list Experience;
  jobs : list Job;
  jobScores : gmap (nat * string) ScoreResult;  (* @@unique([jobId, userId]) *)
  scraperRuns : list ScraperRun
}.

(** The world a service call runs in: the database, the clock, the number
    of Prisma calls made so far, and the two in-memory maps of
    [ScrapersService] (the registry keeps insertion order, as a JavaScript
    [Map] does). *)
Record World := mkWorld {
  db : Database;
  now : Instant;
  tick : nat;
  scrapers : list (string * IScraper);
  sourceHealth : gmap string SourceHealth
}.

(** ** The platform *)

(** The Prisma calls of the two services, by model and action. *)
Inductive PrismaCall :=
| SkillFindMany
| JobTargetFindUnique
| ExperienceFindMany
| JobScoreUpsert
| JobFindMany
| JobFindFirst
| JobUpsert
| ScraperRunCreate
| ScraperRunUpdate.

(** [JSON_parse s] is [None] when [JSON.parse(s)] throws a SyntaxError.
    [prisma_rejects n call] is [Some message] when the Prisma call number
    [n] of the process, which is the call [call], rejects (connection loss,
    validation error, ...). *)
Class Platform := {
  JSON_parse : string -> option json;
  prisma_rejects : nat -> PrismaCall -> option string
}.

(* ===================================================================== *)
(** * The monad of service code *)
(* ===================================================================== *)

Definition M (A : Type) : Type := World -> outcome A * World.

Definition ret {A} (a : A) : M A := fun w => (Ok a, w).

Definition bind {A B} (m : M A) (k : A -> M B) : M B :=
  fun w =>
    match m w with
    | (Ok a, w') => k a w'
    | (Throw e, w') => (Throw e, w')
    end.

Notation "'let*' x ':=' m 'in' k" := (bind m (fun x => k))
  (at level 10, x binder, k at level 200).

(** A pure computation that may throw, run inside service code. *)
Definition lift {A} (o : outcome A) : M A := fun w => (o, w).

(** [try { body } catch (error) { handler }]; the handler sees the world
    as the body left it. *)
Definition try_catch {A} (body : M A) (handler : string -> M A) : M A :=
  fun w =>
    match body w with
    | (Ok a, w') => (Ok a, w')
    | (Throw e, w') => handler e w'
    end.

(** [Promise.all([p, q])]: both computations run; the result is the pair of
    their values, or the first rejection.  Concurrent promises are
    serialised here: [p] runs to completion before [q] starts. *)
Definition Promise_both {A B} (p : M A) (q : M B) : M (A * B) :=
  fun w =>
    let (r1, w1) := p w in
    let (r2, w2) := q w1 in
    (match r1, r2 with
     | Ok a, Ok b => Ok (a, b)
     | Throw e, _ => Throw e
     | _, Throw e => Throw e
     end, w2).

(** [Promise.all(ps)] *)
Fixpoint Promise_all {A} (ps : list (M A)) : M (list A) :=
  match ps with
  | [] => ret []
  | p :: rest =>
      fun w =>
        match Promise_both p (Promise_all rest) w with
        | (Ok (a, l), w') => (Ok (a :: l), w')
        | (Throw e, w') => (Throw e, w')
        end
  end.

(** [new Date()] *)
Definition new_Date : M Instant := fun w => (Ok (now w), w).

(** [Date.now()] *)
Definition Date_now : M Z := fun w => (Ok (getTime (now w)), w).

(** ** Prisma calls *)

Definition set_db (d : Database) (w : World) : World :=
  mkWorld d (now w) (tick w) (scrapers w) (sourceHealth w).

Definition set_tick (n : nat) (w : World) : World :=
  mkWorld (db w) (now w) n (scrapers w) (sourceHealth w).

Definition set_now (t : Instant) (w : World) : World :=
  mkWorld (db w) t (tick w) (scrapers w) (sourceHealth w).

Definition set_scrapers (r : list (string * IScraper)) (w : World) : World :=
  mkWorld (db w) (now w) (tick w) r (sourceHealth w).

Definition set_sourceHealth (h : gmap string SourceHealth) (w : World) : World :=
  mkWorld (db w) (now w) (tick w) (scrapers w) h.

(** A Prisma call: it counts as one call, and either rejects, as the
    platform decides, or runs its query on the database. *)
Definition prisma `{Platform} {A} (call : PrismaCall)
    (query : Database -> outcome A * Database) : M A :=
  fun w =>
    let w' := set_tick (S (tick w)) w in
    match prisma_rejects (tick w) call with
    | Some message => (Throw message, w')
    | None => let (r, d) := query (db w) in (r, set_db d w')
    end.

Definition set_jobs (l : list Job) (d : Database) : Database :=
  mkDatabase (skills d) (jobTargets d) (experiences d) l (jobScores d) (scraperRuns d).

Definition set_jobScores (s : gmap (nat * string) ScoreResult) (d : Database) : Database :=
  mkDatabase (skills d) (jobTargets d) (experiences d) (jobs d) s (scraperRuns d).

Definition set_scraperRuns (l : list ScraperRun) (d : Database) : Database :=
  mkDatabase (skills d) (jobTargets d) (experiences d) (jobs d) (jobScores d) l.

(** The rows of a user that the queries of the services select. *)
Definition user_skills (userId : string) (d : Database) : list Skill :=
  List.filter (fun s => String.eqb (skill_userId s) userId) (skills d).

Definition user_target (userId : string) (d : Database) : option JobTarget :=
  List.find (fun t => String.eqb (target_userId t) userId) (jobTargets d).

Definition user_experiences (userId : string) (d : Database) : list Experience :=
  List.filter (fun e => String.eqb (exp_userId e) userId) (experiences d).

(** prisma.skill.findMany({ where: { userId } }) *)
Definition skill_findMany `{Platform} (userId : string) : M (list Skill) :=
  prisma SkillFindMany (fun d => (Ok (user_skills userId d), d)).

(** prisma.jobTarget.findUnique({ where: { userId } }) *)
Definition jobTarget_findUnique `{Platform} (userId : string) : M (option JobTarget) :=
  prisma JobTargetFindUnique (fun d => (Ok (user_target userId d), d)).

(** prisma.experience.findMany({ where: { userId } }) *)
Definition experience_findMany `{Platform} (userId : string) : M (list Experience) :=
  prisma ExperienceFindMany (fun d => (Ok (user_experiences userId d), d)).

(** prisma.jobScore.upsert({ where: { jobId_userId }, update, create }):
    the row of the pair (jobId, userId) holds the scores, the two skill
    lists and the breakdown of [r] afterwards (the lists and the breakdown
    as JSON text in the real columns). *)
Definition jobScore_upsert `{Platform} (jobId : nat) (userId : string)
    (r : ScoreResult) : M unit :=
  prisma JobScoreUpsert
    (fun d => (Ok tt, set_jobScores (<[(jobId, userId) := r]> (jobScores d)) d)).

(** prisma.job.findMany({ where: { id: { in: jobIds } } }) *)
Definition job_findMany_in `{Platform} (jobIds : list nat) : M (list Job) :=
  prisma JobFindMany (fun d =>
    (Ok (List.filter (fun j => existsb (Nat.eqb (job_id j)) jobIds) (jobs d)), d)).

(** prisma.job.findMany({ take }) *)
Definition job_findMany_take `{Platform} (n : nat) : M (list Job) :=
  prisma JobFindMany (fun d => (Ok (take n (jobs d)), d)).

Definition same_posting (src : string) (ext : string) (j : Job) : bool :=
  String.eqb (job_source j) src &&
  match job_externalId j with
  | Some e => String.eqb e ext
  | None => false
  end.

(** prisma.job.findFirst({ where: { source, externalId } }) *)
Definition job_findFirst `{Platform} (src ext : string) : M (option Job) :=
  prisma JobFindFirst (fun d => (Ok (List.find (same_posting src ext) (jobs d)), d)).

(** The identifier of a row to be created: one that no row has. *)
Definition fresh_job_id (l : list Job) : nat :=
  S (list_max (map job_id l)).

(** The row [create: data] makes; columns without a value are NULL. *)
Definition job_create (i : nat) (data : ScrapedJob) : Job :=
  {| job_id := i;
     job_externalId := Some (externalId data);
     job_source := source data;
     job_sourceUrl := Some (sourceUrl data);
     job_title := title data;
     job_company := company data;
     job_companyLogoUrl := companyLogoUrl data;
     job_location := sj_location data;
     job_isRemote := isRemote data;
     job_employmentType := employmentType data;
     job_experienceMin := experienceMin data;
     job_experienceMax := experienceMax data;
     job_salaryMin := sj_salaryMin data;
     job_salaryMax := salaryMax data;
     job_salaryCurrency := sj_salaryCurrency data;
     job_description := description data;
     job_requirements := requirements data;
     job_responsibilities := responsibilities data;
     job_benefits := benefits data;
     job_skillsRequired := skillsRequired data;
     job_postedDate := postedDate data;
     job_companySize := companySize data;
     job_industry := industry data |}.

(** A column under [update: data]: an undefined value leaves it alone. *)
Definition keep_or {A} (new old : option A) : option A :=
  match new with
  | Some v => Some v
  | None => old
  end.

(** The row [update: data] makes of an existing row. *)
Definition job_update (j : Job) (data : ScrapedJob) : Job :=
  {| job_id := job_id j;
     job_externalId := Some (externalId data);
     job_source := source data;
     job_sourceUrl := Some (sourceUrl data);
     job_title := title data;
     job_company := company data;
     job_companyLogoUrl := keep_or (companyLogoUrl data) (job_companyLogoUrl j);
     job_location := keep_or (sj_location data) (job_location j);
     job_isRemote := keep_or (isRemote data) (job_isRemote j);
     job_employmentType := keep_or (employmentType data) (job_employmentType j);
     job_experienceMin := keep_or (experienceMin data) (job_experienceMin j);
     job_experienceMax := keep_or (experienceMax data) (job_experienceMax j);
     job_salaryMin := keep_or (sj_salaryMin data) (job_salaryMin j);
     job_salaryMax := keep_or (salaryMax data) (job_salaryMax j);
     job_salaryCurrency := keep_or (sj_salaryCurrency data) (job_salaryCurrency j);
     job_description := keep_or (description data) (job_description j);
     job_requirements := keep_or (requirements data) (job_requirements j);
     job_responsibilities := keep_or (responsibilities data) (job_responsibilities j);
     job_benefits := keep_or (benefits data) (job_benefits j);
     job_skillsRequired := keep_or (skillsRequired data) (job_skillsRequired j);
     job_postedDate := keep_or (postedDate data) (job_postedDate j);
     job_companySize := keep_or (companySize data) (job_companySize j);
     job_industry := keep_or (industry data) (job_industry j) |}.

(** The table after [upsert] on the unique key (source, externalId): the
    row that has the key is updated in place; without one a row is
    appended. *)
Fixpoint upsert_rows (data : ScrapedJob) (fresh : nat) (l : list Job) : list Job :=
  match l with
  | [] => [job_create fresh data]
  | j :: rest =>
      if same_posting (source data) (externalId data) j
      then job_update j data :: rest
      else j :: upsert_rows data fresh rest
  end.

(** prisma.job.upsert({ where: { source_externalId }, update, create }) *)
Definition job_upsert `{Platform} (data : ScrapedJob) : M unit :=
  prisma JobUpsert (fun d =>
    (Ok tt, set_jobs (upsert_rows data (fresh_job_id (jobs d)) (jobs d)) d)).

(** prisma.scraperRun.create({ data: { source, status, startedAt } }) *)
Definition scraperRun_create `{Platform} (src status : string)
    (startedAt : Instant) : M ScraperRun :=
  prisma ScraperRunCreate (fun d =>
    let run := mkScraperRun (S (list_max (map run_id (scraperRuns d))))
                 src status startedAt None 0 0 0 None in
    (Ok run, set_scraperRuns (scraperRuns d ++ [run]) d)).

(** prisma.scraperRun.update({ where: { id }, data }): rejects when no row
    has the identifier. *)
Definition scraperRun_update `{Platform} (i : nat)
    (data : ScraperRun -> ScraperRun) : M unit :=
  prisma ScraperRunUpdate (fun d =>
    if existsb (fun r => Nat.eqb (run_id r) i) (scraperRuns d)
    then (Ok tt,
          set_scraperRuns
            (map (fun r => if Nat.eqb (run_id r) i then data r else r) (scraperRuns d)) d)
    else (Throw "Record to update not found.", d)).

(* ===================================================================== *)
(** * JobScoringService (jobs/job-scoring.service.ts) *)
(* ===================================================================== *)

(** const SKILL_SYNONYMS, in the order of the object literal *)
Definition SKILL_SYNONYMS : list (string * list string) :=
  [ ("javascript", ["js"; "ecmascript"; "es6"]);
    ("typescript", ["ts"]);
    ("react", ["reactjs"; "react.js"]);
    ("node.js", ["nodejs"; "node"]);
    ("postgresql", ["postgres"; "psql"]);
    ("mongodb", ["mongo"]);
    ("aws", ["amazon web services"]);
    ("gcp", ["google cloud"; "google cloud platform"]);
    ("kubernetes", ["k8s"]);
    ("machine learning", ["ml"]);
    ("artificial intelligence", ["ai"]);
    ("ci/cd", ["cicd"; "continuous integration"]) ]%string.

(** The properties every object literal inherits from [Object.prototype]. *)
Definition Object_prototype_keys : list string :=
  [ "constructor"; "__proto__"; "hasOwnProperty"; "isPrototypeOf";
    "propertyIsEnumerable"; "toLocaleString"; "toString"; "valueOf";
    "__defineGetter__"; "__defineSetter__"; "__lookupGetter__";
    "__lookupSetter__" ]%string.

(** What the property access [SKILL_SYNONYMS[skill]] finds: an entry of the
    table, a member inherited from the prototype (a function or an object,
    never an array), or nothing. *)
Inductive property :=
| Own (synonyms : list string)
| Inherited
| Undefined.

Fixpoint assoc (key : string) (table : list (string * list string)) : option (list string) :=
  match table with
  | [] => None
  | (k, v) :: rest => if String.eqb key k then Some v else assoc key rest
  end.

Definition SKILL_SYNONYMS_get (skill : string) : property :=
  match assoc skill SKILL_SYNONYMS with
  | Some synonyms => Own synonyms
  | None => if arr_includes Object_prototype_keys skill then Inherited else Undefined
  end.

Definition nonempty (s : string) : bool := (0 <? String.length s)%nat.

(** private parseSkillsString(skills: string | null): string[] *)
Definition parseSkillsString `{Platform} (skills : option string) : list string :=
  match skills with
  | None => []
  | Some s =>
      if String.eqb s "" || String.eqb (trim s) "" then []
      else match JSON_parse s with
           | Some (JArray parsed) =>
               List.filter nonempty (map (fun e => trim (String_ e)) parsed)
           | Some (JString parsed) =>
               List.filter nonempty (map trim (split "," parsed))
           | Some _ => []
           | None => List.filter nonempty (map trim (split "," s))
           end
  end.

(** private normalizeSkill(skill: string): string *)
Fixpoint normalize_in (table : list (string * list string)) (lower : string) : string :=
  match table with
  | [] => lower
  | (canonical, synonyms) :: rest =>
      if String.eqb lower canonical || arr_includes synonyms lower
      then canonical
      else normalize_in rest lower
  end.

Definition normalizeSkill (skill : string) : string :=
  normalize_in SKILL_SYNONYMS (trim (toLowerCase skill)).

(** One row of the matrix of [levenshteinDistance]: [c] is the character
    b[i-1], [prev] the part of row i-1 from column j-1 on, [left] the cell
    matrix[i][j-1]; the result is row i from column j on. *)
Fixpoint lev_row (c : ascii) (a : list ascii) (prev : list nat) (left : nat) : list nat :=
  match a, prev with
  | aj :: a', diag :: ((up :: _) as prev') =>
      let cell :=
        if Ascii.eqb c aj then diag
        else Nat.min (diag + 1) (Nat.min (left + 1) (up + 1)) in
      cell :: lev_row c a' prev' cell
  | _, _ => []
  end.

(** The rows of the matrix below [prev], which is row i-1; the result is
    the last row. *)
Fixpoint lev_rows (b a : list ascii) (i : nat) (prev : list nat) : list nat :=
  match b with
  | [] => prev
  | c :: b' => lev_rows b' a (S i) (S i :: lev_row c a prev (S i))
  end.

(** private levenshteinDistance(a: string, b: string): number *)
Definition levenshteinDistance (a b : string) : nat :=
  if (String.length a =? 0)%nat then String.length b
  else if (String.length b =? 0)%nat then String.length a
  else
    let la := list_ascii_of_string a in
    let lb := list_ascii_of_string b in
    List.last (lev_rows lb la 0 (seq 0 (S (length la)))) 0%nat.

Definition fuzzy (skill userSkill : string) : bool :=
  includes userSkill skill || includes skill userSkill ||
  (levenshteinDistance skill userSkill <=? 2)%nat.

(** private skillMatches(skill: string, userSkills: string[]): boolean.
    Iterating over an inherited member of the table is a TypeError. *)
Definition skillMatches (skill : string) (userSkills : list string) : outcome bool :=
  if arr_includes userSkills skill then Ok true
  else match SKILL_SYNONYMS_get skill with
       | Inherited => Throw "synonyms is not iterable"
       | found =>
           let synonyms := match found with Own l => l | _ => [] end in
           if existsb (arr_includes userSkills) synonyms then Ok true
           else Ok (existsb (fuzzy skill) userSkills)
       end.

Record SkillScore := mkSkillScore {
  skill_score : Q;
  skill_matched : list string;
  skill_missing : list string
}.

(** The loop of [calculateSkillMatch] over the required skills. *)
Fixpoint match_loop (userSkillNames : list string) (requiredSkills : list string)
    (matched missing : list string) : outcome (list string * list string) :=
  match requiredSkills with
  | [] => Ok (matched, missing)
  | required :: rest =>
      match skillMatches (normalizeSkill required) userSkillNames with
      | Throw e => Throw e
      | Ok true => match_loop userSkillNames rest (matched ++ [required]) missing
      | Ok false => match_loop userSkillNames rest matched (missing ++ [required])
      end
  end.

(** private calculateSkillMatch(job: Job, userSkills: Skill[]) *)
Definition calculateSkillMatch `{Platform} (job : Job) (userSkills : list Skill)
    : outcome SkillScore :=
  let requiredSkills := parseSkillsString (job_skillsRequired job) in
  if (length requiredSkills =? 0)%nat then Ok (mkSkillScore 75 [] [])
  else
    let userSkillNames := map (fun s => normalizeSkill (skill_name s)) userSkills in
    match match_loop userSkillNames requiredSkills [] [] with
    | Throw e => Throw e
    | Ok (matched, missing) =>
        let matchRatio :=
          (inject_Z (Z.of_nat (length matched)) /
           inject_Z (Z.of_nat (length requiredSkills)))%Q in
        Ok (mkSkillScore (inject_Z (Math_round (matchRatio * 100))) matched missing)
    end.

(** The month count of one experience entry. *)
Definition months_of (today : Instant) (exp : Experience) : Z :=
  let endD := if isCurrent exp then today
              else match endDate exp with Some d => d | None => today end in
  ((getFullYear endD - getFullYear (startDate exp)) * 12 +
   (getMonth endD - getMonth (startDate exp)))%Z.

(** private calculateTotalYears(experiences: any[]): number; [today] is the
    value of [new Date()]. *)
Definition calculateTotalYears (today : Instant) (exps : list Experience) : Q :=
  let totalMonths :=
    fold_left (fun total exp =>
                 let months := months_of today exp in
                 if (0 <? months)%Z then (total + months)%Z else total)
              exps 0%Z in
  (inject_Z (Math_round ((inject_Z totalMonths / 12) * 10)) / 10)%Q.

Record Analysed := mkAnalysed {
  score : Q;
  analysis : string
}.

Definition Qlt_bool (x y : Q) : bool := negb (Qle_bool y x).

(** private calculateExperienceMatch(job: Job, experiences: any[]).
    [max] is [None] for Infinity. *)
Definition calculateExperienceMatch (today : Instant) (job : Job)
    (exps : list Experience) : Analysed :=
  let totalYears := calculateTotalYears today exps in
  if negb (truthy (job_experienceMin job)) && negb (truthy (job_experienceMax job))
  then mkAnalysed 80 "No experience requirement specified"
  else
    let min : Z := match job_experienceMin job with Some v => v | None => 0%Z end in
    let max : option Z :=
      if truthy (job_experienceMax job) then job_experienceMax job else None in
    let below_max :=
      match max with Some m => Qle_bool totalYears (inject_Z m) | None => true end in
    let max_text :=
      match max with Some m => string_of_Z m | None => "Infinity"%string end in
    if Qle_bool (inject_Z min) totalYears && below_max then
      mkAnalysed 100
        ("Your " ++ string_of_tenths totalYears ++ " years matches the " ++
         string_of_Z min ++ "-" ++ max_text ++ " year requirement")%string
    else if Qlt_bool totalYears (inject_Z min) then
      let gap := (inject_Z min - totalYears)%Q in
      mkAnalysed (Math_max 0 (100 - gap * 15))
        ("You have " ++ string_of_tenths totalYears ++ " years but " ++
         string_of_Z min ++ "+ is required (" ++ string_of_tenths gap ++
         " year gap)")%string
    else
      match max with
      | Some m =>
          let excess := (totalYears - inject_Z m)%Q in
          mkAnalysed (Math_max 60 (100 - excess * 5))
            ("You have " ++ string_of_tenths totalYears ++
             " years which exceeds the " ++ max_text ++ " year max")%string
      | None =>
          (* not reached: without a maximum the two tests above are
             exhaustive *)
          mkAnalysed 100 ""
      end.

(** [targets?.field] *)
Definition opt_field {A} (targets : option JobTarget) (field : JobTarget -> option A)
    : option A :=
  match targets with
  | Some t => field t
  | None => None
  end.

(** The number a truthy optional holds. *)
Definition num (n : option Z) : Z :=
  match n with
  | Some v => v
  | None => 0%Z
  end.

(** private calculateSalaryMatch(job: Job, targets: JobTarget | null) *)
Definition calculateSalaryMatch (job : Job) (targets : option JobTarget) : Analysed :=
  if negb (truthy (job_salaryMin job)) && negb (truthy (job_salaryMax job))
  then mkAnalysed 70 "Salary not disclosed"
  else if negb (truthy (opt_field targets minSalary))
  then mkAnalysed 80 "No salary preference set"
  else
    let target_min := num (opt_field targets minSalary) in
    let target_max := opt_field targets maxSalary in
    if truthy (job_salaryMax job) && (num (job_salaryMax job) <? target_min)%Z then
      let gap :=
        ((inject_Z (target_min - num (job_salaryMax job)) / inject_Z target_min) * 100)%Q in
      mkAnalysed (Math_max 0 (100 - gap)) "Max salary is below your minimum expectation"
    else if truthy (job_salaryMin job) && truthy target_max &&
            (num target_max <? num (job_salaryMin job))%Z
    then mkAnalysed 95 "Salary exceeds your target range"
    else mkAnalysed 85 "Salary range aligns with your target".

(** private parseLocationsString(locations: string | null): string[] *)
Definition parseLocationsString `{Platform} (locs : option string) : list string :=
  match locs with
  | None => []
  | Some s =>
      if String.eqb s "" || String.eqb (trim s) "" then []
      else match JSON_parse s with
           | Some (JArray parsed) =>
               List.filter nonempty (map (fun e => trim (String_ e)) parsed)
           | Some (JString parsed) =>
               List.filter nonempty (map trim (split "," parsed))
           | Some _ => []
           | None => List.filter nonempty (map trim (split "," s))
           end
  end.

Definition is_string (o : option string) (s : string) : bool :=
  match o with
  | Some v => String.eqb v s
  | None => false
  end.

(** private calculateLocationMatch(job: Job, targets: JobTarget | null) *)
Definition calculateLocationMatch `{Platform} (job : Job) (targets : option JobTarget)
    : Analysed :=
  if is_string (opt_field targets remotePreference) "remote" then
    match job_isRemote job with
    | Some true => mkAnalysed 100 "Remote position matches your preference"
    | _ => mkAnalysed 30 "Not remote, but you prefer remote work"
    end
  else if is_string (opt_field targets remotePreference) "any" then
    mkAnalysed 90 "You are flexible on location"
  else
    match opt_field targets preferredLocations with
    | None => mkAnalysed 80 "No location preference set"
    | Some stored =>
        if String.eqb stored "" then mkAnalysed 80 "No location preference set"
        else
          let preferred := parseLocationsString (Some stored) in
          let jobLocation :=
            match job_location job with
            | Some l => toLowerCase l
            | None => ""%string
            end in
          if (length preferred =? 0)%nat then mkAnalysed 80 "No location preference set"
          else if existsb (fun loc => includes jobLocation (toLowerCase loc)) preferred
          then mkAnalysed 100 "Location matches your preferences"
          else mkAnalysed 40 "Location not in your preferred locations"
    end.

(** The scores a failed scoring run answers with. *)
Definition neutral_result : ScoreResult :=
  {| overallScore := 50;
     semanticScore := 50;
     skillMatchScore := 50;
     experienceMatchScore := 50;
     salaryMatchScore := 50;
     locationMatchScore := 50;
     matchedSkills := [];
     missingSkills := [];
     breakdown :=
       {| experienceAnalysis := "Unable to analyze";
          salaryAnalysis := "Unable to analyze";
          locationAnalysis := "Unable to analyze";
          pros := [];
          cons := ["Error occurred during scoring"%string] |} |}.

(** The weighted overall score of the five components. *)
Definition weighted (semantic skill experience salary loc : Q) : Q :=
  inject_Z (Math_round (semantic * (3 # 10) + skill * (3 # 10) +
                        experience * (2 # 10) + salary * (1 # 10) +
                        loc * (1 # 10))).

Definition string_of_nat (n : nat) : string := string_of_Z (Z.of_nat n).

(** The pros compiled from the four scores. *)
Definition compile_pros (skillScore : SkillScore)
    (experienceScore salaryScore locationScore : Analysed) : list string :=
  (if Qle_bool 70 (skill_score skillScore)
   then [(string_of_nat (length (skill_matched skillScore)) ++ " skills match")%string]
   else []) ++
  (if Qle_bool 80 (score experienceScore)
   then ["Experience level matches well"%string] else []) ++
  (if Qle_bool 80 (score salaryScore)
   then ["Salary range aligns"%string] else []) ++
  (if Qle_bool 80 (score locationScore)
   then ["Location/remote preference matches"%string] else []).

(** The cons compiled from the scores. *)
Definition compile_cons (skillScore : SkillScore)
    (experienceScore salaryScore : Analysed) : list string :=
  (if Qle_bool 70 (skill_score skillScore) then []
   else if (0 <? length (skill_missing skillScore))%nat
   then [("Missing " ++ string_of_nat (length (skill_missing skillScore)) ++
          " skills")%string]
   else []) ++
  (if Qle_bool 80 (score experienceScore) then []
   else if Qlt_bool (score experienceScore) 50
   then ["Experience level mismatch"%string] else []) ++
  (if Qle_bool 80 (score salaryScore) then []
   else if Qlt_bool (score salaryScore) 50
   then ["Salary below expectations"%string] else []).

(** The object that [scoreJob] stores and returns. *)
Definition score_result (skillScore : SkillScore)
    (experienceScore salaryScore locationScore : Analysed) : ScoreResult :=
  (* Semantic score placeholder *)
  let semantic := 70%Q in
  {| overallScore :=
       weighted semantic (skill_score skillScore) (score experienceScore)
         (score salaryScore) (score locationScore);
     semanticScore := semantic;
     skillMatchScore := skill_score skillScore;
     experienceMatchScore := score experienceScore;
     salaryMatchScore := score salaryScore;
     locationMatchScore := score locationScore;
     matchedSkills := skill_matched skillScore;
     missingSkills := skill_missing skillScore;
     breakdown :=
       {| experienceAnalysis := analysis experienceScore;
          salaryAnalysis := analysis salaryScore;
          locationAnalysis := analysis locationScore;
          pros := compile_pros skillScore experienceScore salaryScore locationScore;
          cons := compile_cons skillScore experienceScore salaryScore |} |}.

(** The block that [scoreJob] guards with [try]. *)
Definition scoreJob_try `{Platform} (userId : string) (job : Job) : M ScoreResult :=
  let* '(skills, (jobTargets, experiences)) :=
    Promise_both (skill_findMany userId)
      (Promise_both (jobTarget_findUnique userId) (experience_findMany userId)) in
  let* skillScore := lift (calculateSkillMatch job skills) in
  let* today := new_Date in
  let experienceScore := calculateExperienceMatch today job experiences in
  let salaryScore := calculateSalaryMatch job jobTargets in
  let locationScore := calculateLocationMatch job jobTargets in
  let result := score_result skillScore experienceScore salaryScore locationScore in
  (* Save score to database *)
  let* _ := jobScore_upsert (job_id job) userId result in
  ret result.

(** async scoreJob(userId: string, job: Job): Promise<ScoreResult> *)
Definition scoreJob `{Platform} (userId : string) (job : Job) : M ScoreResult :=
  try_catch (scoreJob_try userId job) (fun _ => ret neutral_result).

(* ===================================================================== *)
(** * The scores in double precision *)
(* ===================================================================== *)

(** The scores above are exact rationals.  The engine computes them in
    IEEE 754 binary64, and at a tie the last digit of a sum decides which
    way [Math.round] goes.  This module holds the arithmetic of doubles and
    the scoring methods once more, with every operation rounded as the
    engine rounds it.  A finite double is the rational it stands for; the
    values of these methods stay far below 2^1024, so infinities and NaN
    do not arise (the integer columns of the schema are 32-bit). *)

Module Binary64.

(** ** Doubles *)

Definition pow2 (e : Z) : Q := (2 ^ e)%Q.

(** The binary exponent of a positive number [x]: the [e] with
    [2^e <= x < 2^(e+1)]. *)
Definition ilog2 (x : Q) : Z :=
  let k := (Z.log2 (Qnum x) - Z.log2 (Zpos (Qden x)))%Z in
  if Qle_bool (pow2 k) x then k else (k - 1)%Z.

(** To the nearest integer, a tie to the even one. *)
Definition nearest_even (t : Q) : Z :=
  let f := Qfloor t in
  match (t - inject_Z f ?= 1 # 2)%Q with
  | Lt => f
  | Gt => (f + 1)%Z
  | Eq => if Z.even f then f else (f + 1)%Z
  end.

(** The unit in the last place at [x]: 52 binary places below the exponent
    of [x], and [2^-1074] for the subnormal numbers. *)
Definition ulp (x : Q) : Q := pow2 (Z.max (ilog2 (Qabs x)) (-1022) - 52).

(** The double nearest to a real number, a tie to the even mantissa: what
    every arithmetic operation of the engine returns for its exact
    result. *)
Definition nearest_double (x : Q) : Q :=
  if Qeq_bool x 0 then 0%Q
  else Qred (inject_Z (nearest_even (x / ulp x)) * ulp x).

(** [x + y], [x - y], [x * y] and [x / y] on numbers *)
Definition add (x y : Q) : Q := nearest_double (x + y).
Definition sub (x y : Q) : Q := nearest_double (x - y).
Definition mul (x y : Q) : Q := nearest_double (x * y).
Definition div (x y : Q) : Q := nearest_double (x / y).

(** The number literals [0.3], [0.2] and [0.1] *)
Definition literal_0_3 : Q := nearest_double (3 # 10).
Definition literal_0_2 : Q := nearest_double (2 # 10).
Definition literal_0_1 : Q := nearest_double (1 # 10).

(** ** Numbers in template literals *)

(** The decimal exponent of a positive number [x]: the [n] with
    [10^(n-1) <= x < 10^n]. *)
Fixpoint exponent10_below (fuel : nat) (x : Q) (n : Z) : Z :=
  match fuel with
  | O => n
  | S fuel' =>
      if Qle_bool (1 # 10) x then n else exponent10_below fuel' (x * 10) (n - 1)
  end.

Definition exponent10 (x : Q) : Z :=
  if Qle_bool 1 x then Z.of_nat (String.length (string_of_Z (Qfloor x)))
  else exponent10_below 400 x 0.

(** The decimal numerals of [k] digits next to [x], below and above, as
    pairs of the digits [s] and the exponent [n]: the numeral stands for
    [s * 10^(n-k)]. *)
Definition numeral_value (k : Z) (sn : Z * Z) : Q :=
  (inject_Z (fst sn) * 10 ^ (snd sn - k))%Q.

Definition round_trips (x : Q) (k : Z) (sn : Z * Z) : bool :=
  Qeq_bool (nearest_double (numeral_value k sn)) x.

(** The shortest numeral that reads back as [x], from [k] digits on; of
    two numerals of the same length the one nearer to [x], and the even one
    when both are as near. *)
Fixpoint shortest_numeral (fuel : nat) (x : Q) (n : Z) (k : Z) : Z * Z * Z :=
  match fuel with
  | O => (Qfloor (x / 10 ^ (n - k)), n, k)
  | S fuel' =>
      let below := Qfloor (x / 10 ^ (n - k)) in
      let lo := (below, n) in
      let hi := if (below + 1 =? 10 ^ k)%Z then (10 ^ (k - 1), n + 1)%Z
                else (below + 1, n)%Z in
      let pick (sn : Z * Z) := (fst sn, snd sn, k) in
      match round_trips x k lo, round_trips x k hi with
      | true, false => pick lo
      | false, true => pick hi
      | true, true =>
          match (x - numeral_value k lo ?= numeral_value k hi - x)%Q with
          | Lt => pick lo
          | Gt => pick hi
          | Eq => if Z.even below then pick lo else pick hi
          end
      | false, false => shortest_numeral fuel' x n (k + 1)
      end
  end.

Fixpoint zeros (n : nat) : string :=
  match n with
  | O => ""
  | S n' => String "0" (zeros n')
  end.

Definition substring_from (i : nat) (s : string) : string :=
  String.substring i (String.length s - i) s.

(** [Number::toString] for a positive number whose shortest numeral has
    the digits [s] and the exponent [n]. *)
Definition format_numeral (s n : Z) : string :=
  let digits := string_of_Z s in
  let k := Z.of_nat (String.length digits) in
  if ((k <=? n) && (n <=? 21))%Z then
    (digits ++ zeros (Z.to_nat (n - k)))%string
  else if ((0 <? n) && (n <=? 21))%Z then
    (String.substring 0 (Z.to_nat n) digits ++ "." ++
     substring_from (Z.to_nat n) digits)%string
  else if ((-6 <? n) && (n <=? 0))%Z then
    ("0." ++ zeros (Z.to_nat (- n)) ++ digits)%string
  else
    let e := (n - 1)%Z in
    let sign := if (e <? 0)%Z then "-"%string else "+"%string in
    let mantissa :=
      if (k =? 1)%Z then digits
      else (String.substring 0 1 digits ++ "." ++ substring_from 1 digits)%string in
    (mantissa ++ "e" ++ sign ++ string_of_Z (Z.abs e))%string.

(** [String(x)] for a finite number, as a template literal prints it. *)
Definition Number_toString (x : Q) : string :=
  if Qeq_bool x 0 then "0"%string
  else
    let a := Qabs x in
    let '(s, n, _) := shortest_numeral 17 a (exponent10 a) 1 in
    ((if Qle_bool 0 x then "" else "-") ++ format_numeral s n)%string.


(** ** The scoring methods *)

Section Scoring.
Context `{Platform}.

(** private calculateSkillMatch(job: Job, userSkills: Skill[]); the two
    lengths are exact as doubles. *)
Definition calculateSkillMatch (job : Job) (userSkills : list Skill)
    : outcome SkillScore :=
  let requiredSkills := parseSkillsString (job_skillsRequired job) in
  if (length requiredSkills =? 0)%nat then Ok (mkSkillScore 75 [] [])
  else
    let userSkillNames := map (fun s => normalizeSkill (skill_name s)) userSkills in
    match match_loop userSkillNames requiredSkills [] [] with
    | Throw e => Throw e
    | Ok (matched, missing) =>
        let matchRatio :=
          div (inject_Z (Z.of_nat (length matched)))
              (inject_Z (Z.of_nat (length requiredSkills))) in
        let score := inject_Z (Math_round (mul matchRatio 100)) in
        Ok (mkSkillScore score matched missing)
    end.

(** private calculateTotalYears(experiences: any[]): number *)
Definition calculateTotalYears (today : Instant) (exps : list Experience) : Q :=
  let totalMonths :=
    fold_left (fun total exp =>
                 let months := months_of today exp in
                 if (0 <? months)%Z then (total + months)%Z else total)
              exps 0%Z in
  div (inject_Z (Math_round (mul (div (inject_Z totalMonths) 12) 10))) 10.

(** private calculateExperienceMatch(job: Job, experiences: any[]) *)
Definition calculateExperienceMatch (today : Instant) (job : Job)
    (exps : list Experience) : Analysed :=
  let totalYears := calculateTotalYears today exps in
  if negb (truthy (job_experienceMin job)) && negb (truthy (job_experienceMax job))
  then mkAnalysed 80 "No experience requirement specified"
  else
    let min : Z := match job_experienceMin job with Some v => v | None => 0%Z end in
    let max : option Z :=
      if truthy (job_experienceMax job) then job_experienceMax job else None in
    let below_max :=
      match max with Some m => Qle_bool totalYears (inject_Z m) | None => true end in
    let max_text :=
      match max with Some m => string_of_Z m | None => "Infinity"%string end in
    if Qle_bool (inject_Z min) totalYears && below_max then
      mkAnalysed 100
        ("Your " ++ Number_toString totalYears ++ " years matches the " ++
         string_of_Z min ++ "-" ++ max_text ++ " year requirement")%string
    else if Qlt_bool totalYears (inject_Z min) then
      let gap := sub (inject_Z min) totalYears in
      let score := Math_max 0 (sub 100 (mul gap 15)) in
      mkAnalysed score
        ("You have " ++ Number_toString totalYears ++ " years but " ++
         string_of_Z min ++ "+ is required (" ++ Number_toString gap ++
         " year gap)")%string
    else
      match max with
      | Some m =>
          let excess := sub totalYears (inject_Z m) in
          let score := Math_max 60 (sub 100 (mul excess 5)) in
          mkAnalysed score
            ("You have " ++ Number_toString totalYears ++
             " years which exceeds the " ++ max_text ++ " year max")%string
      | None =>
          (* not reached: without a maximum the two tests above are
             exhaustive *)
          mkAnalysed 100 ""
      end.

(** private calculateSalaryMatch(job: Job, targets: JobTarget | null) *)
Definition calculateSalaryMatch (job : Job) (targets : option JobTarget) : Analysed :=
  if negb (truthy (job_salaryMin job)) && negb (truthy (job_salaryMax job))
  then mkAnalysed 70 "Salary not disclosed"
  else if negb (truthy (opt_field targets minSalary))
  then mkAnalysed 80 "No salary preference set"
  else
    let target_min := num (opt_field targets minSalary) in
    let target_max := opt_field targets maxSalary in
    if truthy (job_salaryMax job) && (num (job_salaryMax job) <? target_min)%Z then
      let gap :=
        mul (div (sub (inject_Z target_min) (inject_Z (num (job_salaryMax job))))
                 (inject_Z target_min))
            100 in
      let score := Math_max 0 (sub 100 gap) in
      mkAnalysed score "Max salary is below your minimum expectation"
    else if truthy (job_salaryMin job) && truthy target_max &&
            (num target_max <? num (job_salaryMin job))%Z
    then mkAnalysed 95 "Salary exceeds your target range"
    else mkAnalysed 85 "Salary range aligns with your target".

(** The sum that [scoreJob] hands to [Math.round], added from left to
    right. *)
Definition weighted_sum (semantic skill experience salary loc : Q) : Q :=
  add (add (add (add (mul semantic literal_0_3) (mul skill literal_0_3))
                (mul experience literal_0_2))
           (mul salary literal_0_1))
      (mul loc literal_0_1).

(** The object that [scoreJob] stores and returns. *)
Definition score_result (skillScore : SkillScore)
    (experienceScore salaryScore locationScore : Analysed) : ScoreResult :=
  (* Semantic score placeholder *)
  let semantic := 70%Q in
  (* Weighted overall score *)
  let overallScore :=
    inject_Z (Math_round (weighted_sum semantic (skill_score skillScore)
                            (score experienceScore) (score salaryScore)
                            (score locationScore))) in
  {| overallScore := overallScore;
     semanticScore := semantic;
     skillMatchScore := skill_score skillScore;
     experienceMatchScore := score experienceScore;
     salaryMatchScore := score salaryScore;
     locationMatchScore := score locationScore;
     matchedSkills := skill_matched skillScore;
     missingSkills := skill_missing skillScore;
     breakdown :=
       {| experienceAnalysis := analysis experienceScore;
          salaryAnalysis := analysis salaryScore;
          locationAnalysis := analysis locationScore;
          pros := compile_pros skillScore experienceScore salaryScore locationScore;
          cons := compile_cons skillScore experienceScore salaryScore |} |}.

(** The block that [scoreJob] guards with [try]. *)
Definition scoreJob_try (userId : string) (job : Job) : M ScoreResult :=
  let* '(skills, (jobTargets, experiences)) :=
    Promise_both (skill_findMany userId)
      (Promise_both (jobTarget_findUnique userId) (experience_findMany userId)) in
  let* skillScore := lift (calculateSkillMatch job skills) in
  let* today := new_Date in
  let experienceScore := calculateExperienceMatch today job experiences in
  let salaryScore := calculateSalaryMatch job jobTargets in
  let locationScore := calculateLocationMatch job jobTargets in
  let result := score_result skillScore experienceScore salaryScore locationScore in
  (* Save score to database *)
  let* _ := jobScore_upsert (job_id job) userId result in
  ret result.

(** async scoreJob(userId: string, job: Job): Promise<ScoreResult> *)
Definition scoreJob (userId : string) (job : Job) : M ScoreResult :=
  try_catch (scoreJob_try userId job) (fun _ => ret neutral_result).

End Scoring.

End Binary64.

(* ===================================================================== *)
(** * JobsService (jobs/jobs.service.ts) *)
(* ===================================================================== *)

(** The loop of [scoreJobs]; an entry is the job's id with its scores. *)
Fixpoint scoreJobs_loop `{Platform} (userId : string) (jobs : list Job)
    (results : list (nat * ScoreResult)) : M (list (nat * ScoreResult)) :=
  match jobs with
  | [] => ret results
  | job :: rest =>
      let* score := scoreJob userId job in
      scoreJobs_loop userId rest (results ++ [(job_id job, score)])
  end.

(** async scoreJobs(userId: string, jobIds?: string[]) *)
Definition scoreJobs `{Platform} (userId : string) (jobIds : option (list nat))
    : M (list (nat * ScoreResult)) :=
  let* jobs :=
    match jobIds with
    | Some ids => job_findMany_in ids
    | None => job_findMany_take 100
    end in
  scoreJobs_loop userId jobs [].

(** async upsertFromScraper(data: any) *)
Definition upsertFromScraper `{Platform} (data : ScrapedJob) : M unit :=
  job_upsert data.

(* ===================================================================== *)
(** * ScrapersService (scrapers/scrapers.service.ts) *)
(* ===================================================================== *)

(** Configuration *)
Definition maxConcurrency : nat := 3.
Definition maxConsecutiveFailures : nat := 3.
Definition blockDuration : Z := 24 * 60 * 60 * 1000.

(** ** The two maps *)

(** [Map.prototype.get] on the registry *)
Definition registry_get (key : string) (r : list (string * IScraper)) : option IScraper :=
  match List.find (fun e => String.eqb (fst e) key) r with
  | Some e => Some (snd e)
  | None => None
  end.

(** [Map.prototype.set] on the registry: a known key keeps its place. *)
Fixpoint registry_set (key : string) (s : IScraper) (r : list (string * IScraper))
    : list (string * IScraper) :=
  match r with
  | [] => [(key, s)]
  | (k, old) :: rest =>
      if String.eqb k key then (k, s) :: rest
      else (k, old) :: registry_set key s rest
  end.

(** The health record a source starts with. *)
Definition initial_health (scraper : IScraper) : SourceHealth :=
  {| health_source := name scraper;
     enabled := scraper_enabled scraper;
     isBlocked := false;
     blockedAt := None;
     consecutiveFailures := 0;
     lastSuccess := None;
     lastRun := None |}.

(** private initializeScrapers(): void, on the instances the constructor
    lists. *)
Definition initializeScrapers (scraperInstances : list IScraper) (w : World) : World :=
  fold_left
    (fun w scraper =>
       set_sourceHealth (<[name scraper := initial_health scraper]> (sourceHealth w))
         (set_scrapers (registry_set (name scraper) scraper (scrapers w)) w))
    scraperInstances w.

(** The names of the seven portal classes, in the order the constructor
    instantiates them. *)
Definition portal_names : list string :=
  ["indeed"; "naukri"; "linkedin"; "wellfound"; "foundit"; "hirist"; "cutshort"]%string.

(** The seven instances; a [BaseScraper] starts enabled.  What each portal
    answers is left open. *)
Definition scraperInstances
    (portal : string -> ScraperConfig -> Instant -> outcome (list ScrapedJob))
    : list IScraper :=
  map (fun n => mkScraper n true (portal n)) portal_names.

(** ** Source health *)

Definition reset_block (h : SourceHealth) : SourceHealth :=
  {| health_source := health_source h;
     enabled := enabled h;
     isBlocked := false;
     blockedAt := None;
     consecutiveFailures := 0;
     lastSuccess := lastSuccess h;
     lastRun := lastRun h |}.

(** private isSourceAvailable(source: string): boolean *)
Definition isSourceAvailable (src : string) : M bool :=
  fun w =>
    match sourceHealth w !! src with
    | None => (Ok false, w)
    | Some health =>
        if isBlocked health then
          match blockedAt health with
          | Some at_ =>
              let blockedDuration := (getTime (now w) - getTime at_)%Z in
              if (blockDuration <=? blockedDuration)%Z then
                (* Unblock and allow retry *)
                (Ok true,
                 set_sourceHealth (<[src := reset_block health]> (sourceHealth w)) w)
              else (Ok false, w)
          | None => (Ok false, w)
          end
        else (Ok (enabled health), w)
    end.

Definition record_success (t : Instant) (h : SourceHealth) : SourceHealth :=
  {| health_source := health_source h;
     enabled := enabled h;
     isBlocked := false;
     blockedAt := None;
     consecutiveFailures := 0;
     lastSuccess := Some t;
     lastRun := Some t |}.

Definition record_failure (t : Instant) (h : SourceHealth) : SourceHealth :=
  {| health_source := health_source h;
     enabled := enabled h;
     isBlocked := isBlocked h;
     blockedAt := blockedAt h;
     consecutiveFailures := S (consecutiveFailures h);
     lastSuccess := lastSuccess h;
     lastRun := Some t |}.

Definition block (t : Instant) (h : SourceHealth) : SourceHealth :=
  {| health_source := health_source h;
     enabled := enabled h;
     isBlocked := true;
     blockedAt := Some t;
     consecutiveFailures := consecutiveFailures h;
     lastSuccess := lastSuccess h;
     lastRun := lastRun h |}.

(** private updateSourceHealth(source: string, success: boolean): boolean *)
Definition updateSourceHealth (src : string) (ok : bool) : M bool :=
  fun w =>
    match sourceHealth w !! src with
    | None => (Ok false, w)
    | Some health =>
        if ok then
          (Ok false,
           set_sourceHealth (<[src := record_success (now w) health]> (sourceHealth w)) w)
        else
          let failed := record_failure (now w) health in
          if (maxConsecutiveFailures <=? consecutiveFailures failed)%nat then
            (Ok true,
             set_sourceHealth (<[src := block (now w) failed]> (sourceHealth w)) w)
          else
            (Ok false, set_sourceHealth (<[src := failed]> (sourceHealth w)) w)
    end.

Definition set_enabled (b : bool) (h : SourceHealth) : SourceHealth :=
  {| health_source := health_source h;
     enabled := b;
     isBlocked := isBlocked h;
     blockedAt := blockedAt h;
     consecutiveFailures := consecutiveFailures h;
     lastSuccess := lastSuccess h;
     lastRun := lastRun h |}.

(** setSourceEnabled(source: string, enabled: boolean): boolean *)
Definition setSourceEnabled (src : string) (b : bool) : M bool :=
  fun w =>
    match sourceHealth w !! src with
    | None => (Ok false, w)
    | Some health =>
        let w1 := set_sourceHealth (<[src := set_enabled b health]> (sourceHealth w)) w in
        match registry_get src (scrapers w1) with
        | Some scraper =>
            (Ok true,
             set_scrapers
               (registry_set src (mkScraper (name scraper) b (scrape scraper))
                  (scrapers w1)) w1)
        | None => (Ok true, w1)
        end
    end.

(** unblockSource(source: string): boolean *)
Definition unblockSource (src : string) : M bool :=
  fun w =>
    match sourceHealth w !! src with
    | None => (Ok false, w)
    | Some health =>
        (Ok true, set_sourceHealth (<[src := reset_block health]> (sourceHealth w)) w)
    end.

(** ** Search configuration *)

(** prisma.skill.findMany({ where: { userId }, select: { name: true } }) *)
Definition skill_names `{Platform} (userId : string) : M (list string) :=
  let* rows := skill_findMany userId in
  ret (map skill_name rows).

(** The callback [k => k && k.trim()] of the keyword filter, on whatever
    [JSON.parse] put into the array: a string is kept when something is
    left of it after trimming, a falsy value is dropped, and anything else
    has no [trim] to call. *)
Definition keep_keyword (k : json) : outcome (option string) :=
  match k with
  | JString s => Ok (if nonempty (trim s) then Some s else None)
  | JNull => Ok None
  | JBool false => Ok None
  | JNumber repr =>
      if String.eqb repr "0" then Ok None else Throw "k.trim is not a function"
  | _ => Throw "k.trim is not a function"
  end.

Fixpoint filter_keywords (ks : list json) : outcome (list string) :=
  match ks with
  | [] => Ok []
  | k :: rest =>
      match keep_keyword k with
      | Throw e => Throw e
      | Ok kept =>
          match filter_keywords rest with
          | Throw e => Throw e
          | Ok l => Ok (match kept with Some s => s :: l | None => l end)
          end
      end
  end.

(** The value of an object member, the last one of that key. *)
Fixpoint member (key : string) (members : list (string * json)) : option json :=
  match members with
  | [] => None
  | (k, v) :: rest =>
      match member key rest with
      | Some later => Some later
      | None => if String.eqb k key then Some v else None
      end
  end.

(** [locations[0]] *)
Definition element0 (v : json) : outcome (option json) :=
  match v with
  | JArray elems => Ok (head elems)
  | JString (String c _) => Ok (Some (JString (String c EmptyString)))
  | JString EmptyString => Ok None
  | JObject members => Ok (member "0" members)
  | JNull => Throw "Cannot read properties of null (reading '0')"
  | _ => Ok None
  end.

Definition comma_separated (s : string) : list json :=
  map (fun piece => JString (trim piece)) (split "," s).

(** async buildSearchConfig(userId: string): Promise<ScraperConfig> *)
Definition buildSearchConfig `{Platform} (userId : string) : M ScraperConfig :=
  let* jobTarget := jobTarget_findUnique userId in
  let* skills := skill_names userId in
  let* experiences := experience_findMany userId in
  let* today := new_Date in
  (* Calculate total years of experience *)
  let totalMonths :=
    fold_left (fun total exp => (total + months_of today exp)%Z) experiences 0%Z in
  let years := Math_round (inject_Z totalMonths / 12) in
  (* Add target roles *)
  let roles : list json :=
    match opt_field jobTarget targetRoles with
    | None => []
    | Some stored =>
        if String.eqb stored "" then []
        else match JSON_parse stored with
             | Some (JArray roles) => roles
             | Some _ => []
             | None => comma_separated stored
             end
    end in
  (* Add top skills as keywords *)
  let topSkills := map JString (slice 0 5 skills) in
  let keywords := roles ++ topSkills in
  (* Parse locations *)
  let locations : json :=
    match opt_field jobTarget preferredLocations with
    | None => JArray []
    | Some stored =>
        if String.eqb stored "" then JArray []
        else match JSON_parse stored with
             | Some parsed => parsed
             | None => JArray (comma_separated stored)
             end
    end in
  (* Determine remote preference *)
  let remote :=
    is_string (opt_field jobTarget remotePreference) "remote" ||
    is_string (opt_field jobTarget remotePreference) "any" in
  let* kept := lift (filter_keywords keywords) in
  let* first := lift (element0 locations) in
  ret {| keywords := kept;
         location := first;
         locations := locations;
         remote := remote;
         experienceYears := years;
         salaryMin := if truthy (opt_field jobTarget minSalary)
                      then opt_field jobTarget minSalary else None;
         salaryCurrency :=
           match jobTarget with
           | Some t => if String.eqb (target_salaryCurrency t) "" then "INR"
                       else target_salaryCurrency t
           | None => "INR"
           end |}.

(** [{ ...baseConfig, ...customConfig }]: a key of the caller wins. *)
Definition merge_config (base : ScraperConfig) (custom : PartialConfig) : ScraperConfig :=
  {| keywords := match custom_keywords custom with Some k => k | None => keywords base end;
     location := match custom_location custom with
                 | Some l => Some (JString l)
                 | None => location base
                 end;
     locations := locations base;
     remote := match custom_remote custom with Some r => r | None => remote base end;
     experienceYears := experienceYears base;
     salaryMin := match custom_salaryMin custom with
                  | Some m => Some m
                  | None => salaryMin base
                  end;
     salaryCurrency := salaryCurrency base |}.

Definition default_keywords (config : ScraperConfig) : ScraperConfig :=
  if (length (keywords config) =? 0)%nat then
    {| keywords := ["software engineer"%string];
       location := location config;
       locations := locations config;
       remote := remote config;
       experienceYears := experienceYears config;
       salaryMin := salaryMin config;
       salaryCurrency := salaryCurrency config |}
  else config.

(** ** Running one scraper *)

(** private async processJob(job: ScrapedJob): Promise<{ isNew: boolean }>.
    The value is [isNew]; the job data handed to the upsert copies every
    field of the scraped job. *)
Definition processJob `{Platform} (job : ScrapedJob) : M bool :=
  (* Check if job exists *)
  let* existing := job_findFirst (source job) (externalId job) in
  (* Upsert job *)
  let* _ := upsertFromScraper job in
  ret (match existing with Some _ => false | None => true end).

(** The loop of [runScraper] over the scraped jobs: a job that cannot be
    processed is logged and passed over. *)
Fixpoint process_jobs `{Platform} (jobs : list ScrapedJob) (jobsNew jobsUpdated : nat)
    : M (nat * nat) :=
  match jobs with
  | [] => ret (jobsNew, jobsUpdated)
  | job :: rest =>
      let* counts :=
        try_catch
          (let* isNew := processJob job in
           ret (if isNew : bool then (S jobsNew, jobsUpdated)
                else (jobsNew, S jobsUpdated)))
          (fun _ => ret (jobsNew, jobsUpdated)) in
      process_jobs rest (fst counts) (snd counts)
  end.

Definition run_succeeded (t : Instant) (found new updated : nat) (r : ScraperRun)
    : ScraperRun :=
  {| run_id := run_id r;
     run_source := run_source r;
     run_status := "success";
     run_startedAt := run_startedAt r;
     run_completedAt := Some t;
     run_jobsFound := found;
     run_jobsNew := new;
     run_jobsUpdated := updated;
     run_errorMessage := run_errorMessage r |}.

Definition run_failed (t : Instant) (message : string) (r : ScraperRun) : ScraperRun :=
  {| run_id := run_id r;
     run_source := run_source r;
     run_status := "failed";
     run_startedAt := run_startedAt r;
     run_completedAt := Some t;
     run_jobsFound := run_jobsFound r;
     run_jobsNew := run_jobsNew r;
     run_jobsUpdated := run_jobsUpdated r;
     run_errorMessage := Some message |}.

(** [await scraper.scrape(config)] *)
Definition call_scrape (scraper : IScraper) (config : ScraperConfig)
    : M (list ScrapedJob) :=
  fun w => (scrape scraper config (now w), w).

(** The block that [runScraper] guards with [try]. *)
Definition runScraper_try `{Platform} (scraper : IScraper) (config : ScraperConfig)
    (startTime : Z) (run : ScraperRun) : M ScraperResult :=
  let src := name scraper in
  (* Run scraper *)
  let* jobs := call_scrape scraper config in
  (* Process jobs *)
  let* '(jobsNew, jobsUpdated) := process_jobs jobs 0 0 in
  let* finished := Date_now in
  let duration := (finished - startTime)%Z in
  (* Update scraper run record *)
  let* completedAt := new_Date in
  let* _ := scraperRun_update (run_id run)
              (run_succeeded completedAt (length jobs) jobsNew jobsUpdated) in
  (* Update health *)
  let* _ := updateSourceHealth src true in
  ret {| result_source := src;
         success := true;
         jobsFound := length jobs;
         jobsNew := jobsNew;
         jobsUpdated := jobsUpdated;
         error := None;
         blocked := None;
         duration := duration |}.

(** Its [catch] block. *)
Definition runScraper_catch `{Platform} (scraper : IScraper) (startTime : Z)
    (run : ScraperRun) (errorMessage : string) : M ScraperResult :=
  let src := name scraper in
  let* finished := Date_now in
  let duration := (finished - startTime)%Z in
  (* Update scraper run record *)
  let* completedAt := new_Date in
  let* _ := scraperRun_update (run_id run) (run_failed completedAt errorMessage) in
  (* Update health *)
  let* blocked := updateSourceHealth src false in
  ret {| result_source := src;
         success := false;
         jobsFound := 0;
         jobsNew := 0;
         jobsUpdated := 0;
         error := Some errorMessage;
         blocked := Some blocked;
         duration := duration |}.

(** private async runScraper(scraper: IScraper, config: ScraperConfig) *)
Definition runScraper `{Platform} (scraper : IScraper) (config : ScraperConfig)
    : M ScraperResult :=
  let* startTime := Date_now in
  (* Create scraper run record *)
  let* startedAt := new_Date in
  let* run := scraperRun_create (name scraper) "running" startedAt in
  try_catch (runScraper_try scraper config startTime run)
            (runScraper_catch scraper startTime run).

(** ** Running the scrapers *)

(** The scrapers to run when the caller names the sources. *)
Fixpoint select_named (sources : list string) (scrapersToRun : list IScraper)
    : M (list IScraper) :=
  match sources with
  | [] => ret scrapersToRun
  | src :: rest =>
      fun w =>
        match registry_get (toLowerCase src) (scrapers w) with
        | Some scraper =>
            (let* available := isSourceAvailable src in
             if available : bool
             then select_named rest (scrapersToRun ++ [scraper])
             else select_named rest scrapersToRun) w
        | None => select_named rest scrapersToRun w
        end
  end.

(** The scrapers to run otherwise: all enabled ones. *)
Fixpoint select_enabled (entries : list (string * IScraper))
    (scrapersToRun : list IScraper) : M (list IScraper) :=
  match entries with
  | [] => ret scrapersToRun
  | (name_, scraper) :: rest =>
      if scraper_enabled scraper then
        let* available := isSourceAvailable name_ in
        if available : bool
        then select_enabled rest (scrapersToRun ++ [scraper])
        else select_enabled rest scrapersToRun
      else select_enabled rest scrapersToRun
  end.

Definition select_scrapers (sources : option (list string)) : M (list IScraper) :=
  match sources with
  | Some (s :: l) => select_named (s :: l) []
  | _ => fun w => select_enabled (scrapers w) [] w
  end.

Record ScrapeSummary := mkSummary {
  results : list ScraperResult;
  totalJobsNew : nat;
  totalJobsUpdated : nat
}.

Definition add_results (batchResults : list ScraperResult) (acc : ScrapeSummary)
    : ScrapeSummary :=
  fold_left
    (fun acc result =>
       {| results := results acc ++ [result];
          totalJobsNew := totalJobsNew acc + jobsNew result;
          totalJobsUpdated := totalJobsUpdated acc + jobsUpdated result |})
    batchResults acc.

(** The loop of [scrapeAll] over the batches, from index [i] on.  [fuel]
    bounds the number of rounds; the length of the list is enough, since
    every round moves [i] forward. *)
Fixpoint run_batches `{Platform} (fuel : nat) (i : nat) (scrapersToRun : list IScraper)
    (config : ScraperConfig) (acc : ScrapeSummary) : M ScrapeSummary :=
  match fuel with
  | O => ret acc
  | S fuel' =>
      if (i <? length scrapersToRun)%nat then
        let batch := slice i (i + maxConcurrency) scrapersToRun in
        let* batchResults :=
          Promise_all (map (fun scraper => runScraper scraper config) batch) in
        run_batches fuel' (i + maxConcurrency) scrapersToRun config
          (add_results batchResults acc)
      else ret acc
  end.

(** async scrapeAll(userId: string, sources?: string[],
    customConfig?: Partial<ScraperConfig>) *)
Definition scrapeAll `{Platform} (userId : string) (sources : option (list string))
    (customConfig : PartialConfig) : M ScrapeSummary :=
  (* Build config from user profile *)
  let* baseConfig := buildSearchConfig userId in
  let config := default_keywords (merge_config baseConfig customConfig) in
  (* Determine which scrapers to run *)
  let* scrapersToRun := select_scrapers sources in
  if (length scrapersToRun =? 0)%nat then ret (mkSummary [] 0 0)
  else
    (* Process in batches *)
    run_batches (length scrapersToRun) 0 scrapersToRun config (mkSummary [] 0 0).

(* ===================================================================== *)
(** * The other methods of the services *)
(* ===================================================================== *)

(** ** ScrapersService: scoring what was scraped *)

(** A job without a score of the user: [scores: { none: { userId } }]. *)
Definition unscored (userId : string) (d : Database) (j : Job) : bool :=
  match jobScores d !! (job_id j, userId) with
  | Some _ => false
  | None => true
  end.

(** prisma.job.findMany({ where: { scores: { none: { userId } } },
    take: limit, orderBy: { createdAt: 'desc' } }).  The table lists its
    rows in the order of their creation, so the newest come first in its
    reverse. *)
Definition job_findMany_unscored `{Platform} (userId : string) (limit : nat)
    : M (list Job) :=
  prisma JobFindMany (fun d =>
    (Ok (take limit (rev (List.filter (unscored userId d) (jobs d)))), d)).

(** The loop of [scoreNewJobs] over the unscored jobs. *)
Fixpoint score_loop `{Platform} (userId : string) (unscoredJobs : list Job) (scored : nat)
    : M nat :=
  match unscoredJobs with
  | [] => ret scored
  | job :: rest =>
      let* scored' :=
        try_catch
          (let* _ := scoreJob userId job in ret (S scored))
          (fun _ => ret scored) in
      score_loop userId rest scored'
  end.

(** async scoreNewJobs(userId: string, limit: number = 50): Promise<number> *)
Definition scoreNewJobs `{Platform} (userId : string) (limit : nat) : M nat :=
  (* Get unscored jobs for this user *)
  let* unscoredJobs := job_findMany_unscored userId limit in
  score_loop userId unscoredJobs 0.

(** ** ScrapersService: the operator's calls *)

(** What [testConnection] of an adapter answers is up to the portal; like
    [scrape], it may depend on when it is asked, and it may throw.  The one
    of [BaseScraper], which the portals override, answers yes. *)
Definition BaseScraper_testConnection : IScraper -> Instant -> outcome bool :=
  fun _ _ => Ok true.

(** [await scraper.testConnection()] *)
Definition call_testConnection (testConnection : IScraper -> Instant -> outcome bool)
    (scraper : IScraper) : M bool :=
  fun w => (testConnection scraper (now w), w).

(** async testScraper(source: string): Promise<{ success, message }> *)
Definition testScraper (testConnection : IScraper -> Instant -> outcome bool)
    (src : string) : M (bool * string) :=
  fun w =>
    match registry_get (toLowerCase src) (scrapers w) with
    | None => (Ok (false, ("Scraper '" ++ src ++ "' not found")%string), w)
    | Some scraper =>
        try_catch
          (let* success := call_testConnection testConnection scraper in
           ret (success,
                if success : bool then "Connection successful"%string
                else "Connection failed"%string))
          (fun message => ret (false, message)) w
    end.

(** getAvailableSources(): string[] *)
Definition getAvailableSources : M (list string) :=
  fun w => (Ok (map fst (scrapers w)), w).

(** ** ScrapersController (scrapers/scrapers.controller.ts) *)

(** class ScrapeJobsDto *)
Record ScrapeJobsDto := mkScrapeJobsDto {
  dto_sources : option (list string);
  dto_keywords : option (list string);
  dto_location : option string;
  dto_remoteOnly : option bool;
  dto_salaryMin : option Z;
  dto_scoreAfterScrape : option bool
}.

(** class ScrapeResultDto *)
Record ScrapeResultDto := mkScrapeResultDto {
  dto_results : list ScraperResult;
  dto_totalJobsNew : nat;
  dto_totalJobsUpdated : nat;
  sourcesSucceeded : nat;
  sourcesFailed : nat
}.

(** A string that is there and not empty. *)
Definition truthy_string (s : option string) : option string :=
  match s with
  | Some v => if String.eqb v "" then None else Some v
  | None => None
  end.

(** The overrides that [runScrapers] takes from the request. *)
Definition customConfig_of (dto : ScrapeJobsDto) : PartialConfig :=
  {| custom_keywords :=
       match dto_keywords dto with
       | Some (k :: l) => Some (k :: l)
       | _ => None
       end;
     custom_location := truthy_string (dto_location dto);
     custom_remote := dto_remoteOnly dto;
     custom_salaryMin :=
       if truthy (dto_salaryMin dto) then dto_salaryMin dto else None |}.

(** The overrides that [runSingleScraper] takes from the request: keywords
    and location only. *)
Definition customConfig_single (dto : ScrapeJobsDto) : PartialConfig :=
  {| custom_keywords :=
       match dto_keywords dto with
       | Some (k :: l) => Some (k :: l)
       | _ => None
       end;
     custom_location := truthy_string (dto_location dto);
     custom_remote := None;
     custom_salaryMin := None |}.

(** What both endpoints do with the overrides they took. *)
Definition run_and_score `{Platform} (userId : string) (sources : option (list string))
    (customConfig : PartialConfig) (dto : ScrapeJobsDto) : M ScrapeResultDto :=
  let* summary := scrapeAll userId sources customConfig in
  (* Score new jobs if requested *)
  let* _ :=
    if negb (match dto_scoreAfterScrape dto with Some false => true | _ => false end)
       && (0 <? totalJobsNew summary)%nat
    then scoreNewJobs userId 50
    else ret 0%nat in
  ret {| dto_results := results summary;
         dto_totalJobsNew := totalJobsNew summary;
         dto_totalJobsUpdated := totalJobsUpdated summary;
         sourcesSucceeded := length (List.filter success (results summary));
         sourcesFailed :=
           length (List.filter (fun r => negb (success r)) (results summary)) |}.

(** async runScrapers(user: User, dto: ScrapeJobsDto): Promise<ScrapeResultDto> *)
Definition runScrapers `{Platform} (userId : string) (dto : ScrapeJobsDto)
    : M ScrapeResultDto :=
  run_and_score userId (dto_sources dto) (customConfig_of dto) dto.

(** async runSingleScraper(user: User, source: string, dto: ScrapeJobsDto) *)
Definition runSingleScraper `{Platform} (userId : string) (src : string)
    (dto : ScrapeJobsDto) : M ScrapeResultDto :=
  run_and_score userId (Some [src]) (customConfig_single dto) dto.

(** ** JobsService: single jobs (jobs/jobs.service.ts) *)

(** The Prisma calls of these methods, by model and action, and whether the
    call number [n] of the process, which is the call [call], rejects. *)
Inductive JobsCall :=
| JobFindUnique
| JobCreate
| JobDelete
| JobScoreDeleteMany.

Class JobsPlatform := {
  jobs_call_rejects : nat -> JobsCall -> option string
}.

Definition prisma_jobs `{JobsPlatform} {A} (call : JobsCall)
    (query : Database -> outcome A * Database) : M A :=
  fun w =>
    let w' := set_tick (S (tick w)) w in
    match jobs_call_rejects (tick w) call with
    | Some message => (Throw message, w')
    | None => let (r, d) := query (db w) in (r, set_db d w')
    end.

(** The messages of Prisma's known request errors P2002 and P2025. *)
Definition unique_constraint_failed : string :=
  "Unique constraint failed on the fields: (`source`,`externalId`)".

Definition record_not_found : string :=
  "An operation failed because it depends on one or more records that were required but not found.".

(** prisma.job.findUnique({ where: { id } }) *)
Definition job_findUnique `{JobsPlatform} (id : nat) : M (option Job) :=
  prisma_jobs JobFindUnique (fun d =>
    (Ok (List.find (fun j => Nat.eqb (job_id j) id) (jobs d)), d)).

(** async findOne(id: string) *)
Definition findOne `{JobsPlatform} (id : nat) : M Job :=
  let* job := job_findUnique id in
  match job with
  | None => lift (Throw "Job not found")
  | Some j => ret j
  end.

(** class CreateJobDto *)
Record CreateJobDto := mkCreateJobDto {
  create_title : string;
  create_company : string;
  create_location : option string;
  create_isRemote : option bool;
  create_description : option string;
  create_requirements : option string;
  create_skillsRequired : option string;
  create_salaryMin : option Z;
  create_salaryMax : option Z;
  create_salaryCurrency : option string;
  create_sourceUrl : option string;
  create_employmentType : option string
}.

(** The data that [JobsController.create] hands to [JobsService.create]:
    [{ ...createJobDto, source, externalId }]. *)
Record JobCreateInput := mkJobCreateInput {
  input_dto : CreateJobDto;
  input_source : string;
  input_externalId : string
}.

(** The row [create: data] makes of it; columns without a value are NULL. *)
Definition job_of_input (i : nat) (data : JobCreateInput) : Job :=
  {| job_id := i;
     job_externalId := Some (input_externalId data);
     job_source := input_source data;
     job_sourceUrl := create_sourceUrl (input_dto data);
     job_title := create_title (input_dto data);
     job_company := create_company (input_dto data);
     job_companyLogoUrl := None;
     job_location := create_location (input_dto data);
     job_isRemote := create_isRemote (input_dto data);
     job_employmentType := create_employmentType (input_dto data);
     job_experienceMin := None;
     job_experienceMax := None;
     job_salaryMin := create_salaryMin (input_dto data);
     job_salaryMax := create_salaryMax (input_dto data);
     job_salaryCurrency := create_salaryCurrency (input_dto data);
     job_description := create_description (input_dto data);
     job_requirements := create_requirements (input_dto data);
     job_responsibilities := None;
     job_benefits := None;
     job_skillsRequired := create_skillsRequired (input_dto data);
     job_postedDate := None;
     job_companySize := None;
     job_industry := None |}.

(** prisma.job.create({ data }): the new row goes to the end of the table;
    the call rejects when a row holds the pair (source, externalId)
    already ([@@unique([source, externalId])]). *)
Definition job_create_call `{JobsPlatform} (data : JobCreateInput) : M Job :=
  prisma_jobs JobCreate (fun d =>
    if existsb (same_posting (input_source data) (input_externalId data)) (jobs d)
    then (Throw unique_constraint_failed, d)
    else
      let row := job_of_input (fresh_job_id (jobs d)) data in
      (Ok row, set_jobs (jobs d ++ [row]) d)).

(** async create(data: any) *)
Definition create `{JobsPlatform} (data : JobCreateInput) : M Job :=
  job_create_call data.

(** prisma.jobScore.deleteMany({ where: { jobId: id } }) *)
Definition jobScore_deleteMany `{JobsPlatform} (id : nat) : M unit :=
  prisma_jobs JobScoreDeleteMany (fun d =>
    (Ok tt,
     set_jobScores
       (filter (fun entry : nat * string * ScoreResult => entry.1.1 <> id) (jobScores d))
       d)).

(** prisma.job.delete({ where: { id } }): rejects when no row has the
    identifier. *)
Definition job_delete `{JobsPlatform} (id : nat) : M Job :=
  prisma_jobs JobDelete (fun d =>
    match List.find (fun j => Nat.eqb (job_id j) id) (jobs d) with
    | Some j =>
        (Ok j, set_jobs (List.filter (fun j => negb (Nat.eqb (job_id j) id)) (jobs d)) d)
    | None => (Throw record_not_found, d)
    end).

(** async delete(id: string) *)
Definition delete `{JobsPlatform} (id : nat) : M Job :=
  (* First delete any associated scores *)
  let* _ := jobScore_deleteMany id in
  (* Then delete the job *)
  job_delete id.

(** ** JobsController (jobs/jobs.controller.ts) *)

(** async create(@Body() createJobDto: CreateJobDto) *)
Definition JobsController_create `{JobsPlatform} (createJobDto : CreateJobDto) : M Job :=
  let* stamp := Date_now in
  create {| input_dto := createJobDto;
            input_source := "manual";
            input_externalId := ("manual-" ++ string_of_Z stamp)%string |}.

(* ===================================================================== *)
(** * BaseScraper (scrapers/portals/base.scraper.ts) *)
(* ===================================================================== *)

(** ** Text *)

(** [s.replace(/[class]+/g, by)]: every maximal run of characters of the
    class becomes one [by]; [in_run] says that the character before was
    of the class. *)
Fixpoint replace_runs (class : ascii -> bool) (by_ : ascii) (in_run : bool) (s : string)
    : string :=
  match s with
  | EmptyString => EmptyString
  | String c r =>
      if class c then
        if in_run then replace_runs class by_ true r
        else String by_ (replace_runs class by_ true r)
      else String c (replace_runs class by_ false r)
  end.

(** The class [[\r\n]] *)
Definition is_newline (c : ascii) : bool :=
  let n := nat_of_ascii c in (n =? 13)%nat || (n =? 10)%nat.

(** protected cleanText(text: string): string; the class [\s] is the white
    space of ASCII text. *)
Definition cleanText (text : string) : string :=
  trim (replace_runs is_newline (ascii_of_nat 10) false
          (replace_runs is_space " "%char false text)).

(** [arr.join(sep)] *)
Fixpoint join (sep : string) (arr : list string) : string :=
  match arr with
  | [] => ""
  | [s] => s
  | s :: rest => (s ++ sep ++ join sep rest)%string
  end.

(** protected buildSearchQuery(config: ScraperConfig): string *)
Definition buildSearchQuery (config : ScraperConfig) : string :=
  join " " (List.filter nonempty (keywords config)).

(** protected detectRemote(text: string): boolean *)
Definition detectRemote (text : string) : bool :=
  if String.eqb text "" then false
  else
    let lower := toLowerCase text in
    includes lower "remote" || includes lower "work from home" ||
    includes lower "wfh" || includes lower "anywhere".

(** ** Identifiers *)

(** [ToInt32]: the integer as a 32-bit integer in two's complement. *)
Definition ToInt32 (z : Z) : Z := ((z + 2 ^ 31) mod 2 ^ 32 - 2 ^ 31)%Z.

(** [x << n] and [x & y] on numbers *)
Definition shift_left (x : Z) (n : Z) : Z := ToInt32 (Z.shiftl (ToInt32 x) n).

Definition bit_and (x y : Z) : Z := ToInt32 (Z.land (ToInt32 x) (ToInt32 y)).

(** [combined.charCodeAt(i)], for every [i] in turn *)
Definition charCodes (s : string) : list Z :=
  map (fun c => Z.of_nat (nat_of_ascii c)) (list_ascii_of_string s).

(** One round of the loop of [generateExternalId]. *)
Definition hash_round (hash : Z) (char : Z) : Z :=
  let hash := (shift_left hash 5 - hash + char)%Z in
  bit_and hash hash.  (* Convert to 32bit integer *)

(** The digit of a value below 36, as [toString(36)] writes it. *)
Definition digit36 (d : Z) : ascii :=
  if (d <? 10)%Z then ascii_of_nat (48 + Z.to_nat d)
  else ascii_of_nat (87 + Z.to_nat d).

Fixpoint toString36_from (fuel : nat) (n : Z) (acc : string) : string :=
  match fuel with
  | O => acc
  | S fuel' =>
      let acc' := String (digit36 (n mod 36)) acc in
      if (n / 36 =? 0)%Z then acc' else toString36_from fuel' (n / 36) acc'
  end.

(** [n.toString(36)] for an integer that is not negative; a number has no
    more digits to the base 36 than to the base 2. *)
Definition toString36 (n : Z) : string :=
  toString36_from (S (Z.to_nat (Z.log2 n))) n "".

(** protected generateExternalId(title: string, company: string,
    url?: string): string *)
Definition generateExternalId (title company : string) (url : option string) : M string :=
  let* stamp :=
    match truthy_string url with
    | Some u => ret u
    | None => let* t := Date_now in ret (string_of_Z t)
    end in
  let combined := (title ++ "-" ++ company ++ "-" ++ stamp)%string in
  (* Simple hash function *)
  let hash := fold_left hash_round (charCodes combined) 0%Z in
  ret (toString36 (Z.abs hash)).

(* ===================================================================== *)
(** * A reference platform *)
(* ===================================================================== *)

(** A [JSON.parse] to run the services on concrete inputs: a recursive
    descent parser of the JSON grammar (ECMA-404).  A number is carried by
    its literal, which is how JavaScript prints the decimal integers that
    stored skill and location lists may hold ([-0] prints as [0]); an
    escape [\uXXXX] yields the UTF-8 bytes of its code unit. *)
Module ReferenceJson.

Definition code (c : ascii) : nat := nat_of_ascii c.

Definition is_ws (c : ascii) : bool :=
  let n := code c in
  (n =? 32)%nat || (n =? 9)%nat || (n =? 10)%nat || (n =? 13)%nat.

Fixpoint skip_ws (s : list ascii) : list ascii :=
  match s with
  | c :: r => if is_ws c then skip_ws r else s
  | [] => []
  end.

Definition is_digit (c : ascii) : bool :=
  let n := code c in (48 <=? n)%nat && (n <=? 57)%nat.

Fixpoint digits (s : list ascii) : list ascii * list ascii :=
  match s with
  | c :: r => if is_digit c then let (d, rest) := digits r in (c :: d, rest)
              else ([], s)
  | [] => ([], [])
  end.

Definition hex_value (c : ascii) : option nat :=
  let n := code c in
  if (48 <=? n)%nat && (n <=? 57)%nat then Some (n - 48)
  else if (65 <=? n)%nat && (n <=? 70)%nat then Some (n - 55)
  else if (97 <=? n)%nat && (n <=? 102)%nat then Some (n - 87)
  else None.

Definition utf8 (cu : nat) : list ascii :=
  if (cu <? 128)%nat then [ascii_of_nat cu]
  else if (cu <? 2048)%nat then
    [ascii_of_nat (192 + cu / 64); ascii_of_nat (128 + cu mod 64)]
  else
    [ascii_of_nat (224 + cu / 4096); ascii_of_nat (128 + (cu / 64) mod 64);
     ascii_of_nat (128 + cu mod 64)].

(** The characters of a string literal after its opening quote. *)
Fixpoint string_body (s : list ascii) (acc : list ascii)
    : option (list ascii * list ascii) :=
  match s with
  | [] => None
  | c :: r =>
      if (code c =? 34)%nat then Some (acc, r)
      else if (code c =? 92)%nat then
        match r with
        | e :: r1 =>
            let simple (x : nat) := string_body r1 (acc ++ [ascii_of_nat x]) in
            match code e with
            | 34 => simple 34
            | 92 => simple 92
            | 47 => simple 47
            | 98 => simple 8
            | 102 => simple 12
            | 110 => simple 10
            | 114 => simple 13
            | 116 => simple 9
            | 117 =>
                match r1 with
                | h1 :: h2 :: h3 :: h4 :: r2 =>
                    match hex_value h1, hex_value h2, hex_value h3, hex_value h4 with
                    | Some a, Some b, Some c', Some d =>
                        string_body r2 (acc ++ utf8 (((a * 16 + b) * 16 + c') * 16 + d))
                    | _, _, _, _ => None
                    end
                | _ => None
                end
            | _ => None
            end
        | [] => None
        end
      else if (code c <? 32)%nat then None
      else string_body r (acc ++ [c])
  end.

(** A number literal: its characters and what follows it. *)
Definition number (s : list ascii) : option (list ascii * list ascii) :=
  let (sign, s1) :=
    match s with
    | c :: r => if (code c =? 45)%nat then ([c], r) else ([], s)
    | [] => ([], s)
    end in
  let int_part :=
    match s1 with
    | c :: r =>
        if (code c =? 48)%nat then Some ([c], r)
        else if is_digit c then let (d, rest) := digits r in Some (c :: d, rest)
        else None
    | [] => None
    end in
  match int_part with
  | None => None
  | Some (int_digits, s2) =>
      let frac_part :=
        match s2 with
        | c :: r =>
            if (code c =? 46)%nat then
              match digits r with
              | ([], _) => None
              | (d, rest) => Some (c :: d, rest)
              end
            else Some ([], s2)
        | [] => Some ([], s2)
        end in
      match frac_part with
      | None => None
      | Some (frac, s3) =>
          let exp_part :=
            match s3 with
            | c :: r =>
                if (code c =? 101)%nat || (code c =? 69)%nat then
                  let (esign, r1) :=
                    match r with
                    | x :: r' =>
                        if (code x =? 43)%nat || (code x =? 45)%nat
                        then ([x], r') else ([], r)
                    | [] => ([], r)
                    end in
                  match digits r1 with
                  | ([], _) => None
                  | (d, rest) => Some (c :: esign ++ d, rest)
                  end
                else Some ([], s3)
            | [] => Some ([], s3)
            end in
          match exp_part with
          | None => None
          | Some (e, s4) => Some (sign ++ int_digits ++ frac ++ e, s4)
          end
      end
  end.

Definition number_repr (literal : list ascii) : string :=
  let text := string_of_list_ascii literal in
  if String.eqb text "-0" then "0"%string else text.

Definition literal (word : string) (v : json) (s : list ascii)
    : option (json * list ascii) :=
  let w := list_ascii_of_string word in
  if String.eqb (string_of_list_ascii (take (length w) s)) word
  then Some (v, drop (length w) s)
  else None.

(** A value, the elements of an array after the first, and the members of
    an object after the first.  Every call consumes a character before it
    recurses, so fuel beyond the length of the text is never used up. *)
Fixpoint value (fuel : nat) (s : list ascii) : option (json * list ascii) :=
  match fuel with
  | O => None
  | S f =>
      let elements :=
        fix elements (g : nat) (s : list ascii) (acc : list json)
            : option (json * list ascii) :=
          match g with
          | O => None
          | S g' =>
              match value f s with
              | None => None
              | Some (v, r) =>
                  match skip_ws r with
                  | c :: r' =>
                      if (code c =? 44)%nat then elements g' r' (acc ++ [v])
                      else if (code c =? 93)%nat then Some (JArray (acc ++ [v]), r')
                      else None
                  | [] => None
                  end
              end
          end in
      let members :=
        fix members (g : nat) (s : list ascii) (acc : list (string * json))
            : option (json * list ascii) :=
          match g with
          | O => None
          | S g' =>
              match skip_ws s with
              | q :: r0 =>
                  if (code q =? 34)%nat then
                    match string_body r0 [] with
                    | None => None
                    | Some (key, r1) =>
                        match skip_ws r1 with
                        | colon :: r2 =>
                            if (code colon =? 58)%nat then
                              match value f r2 with
                              | None => None
                              | Some (v, r3) =>
                                  let entry := (string_of_list_ascii key, v) in
                                  match skip_ws r3 with
                                  | c :: r4 =>
                                      if (code c =? 44)%nat
                                      then members g' r4 (acc ++ [entry])
                                      else if (code c =? 125)%nat
                                      then Some (JObject (acc ++ [entry]), r4)
                                      else None
                                  | [] => None
                                  end
                              end
                            else None
                        | [] => None
                        end
                    end
                  else None
              | [] => None
              end
          end in
      match skip_ws s with
      | [] => None
      | c :: r =>
          match code c with
          | 123 =>
              match skip_ws r with
              | x :: r' => if (code x =? 125)%nat then Some (JObject [], r')
                           else members (length s) r []
              | [] => None
              end
          | 91 =>
              match skip_ws r with
              | x :: r' => if (code x =? 93)%nat then Some (JArray [], r')
                           else elements (length s) r []
              | [] => None
              end
          | 34 =>
              match string_body r [] with
              | Some (body, r') => Some (JString (string_of_list_ascii body), r')
              | None => None
              end
          | 116 => literal "true" (JBool true) (c :: r)
          | 102 => literal "false" (JBool false) (c :: r)
          | 110 => literal "null" JNull (c :: r)
          | _ =>
              match number (c :: r) with
              | Some (lit, r') => Some (JNumber (number_repr lit), r')
              | None => None
              end
          end
      end
  end.

(** [JSON.parse(text)], [None] for a SyntaxError. *)
Definition parse (text : string) : option json :=
  let s := list_ascii_of_string text in
  match value (S (length s)) s with
  | Some (v, r) => match skip_ws r with [] => Some v | _ => None end
  | None => None
  end.

End ReferenceJson.

(** The platform with the reference parser; [rejects] says which Prisma
    calls reject. *)
Definition reference_platform (rejects : nat -> PrismaCall -> option string) : Platform :=
  {| JSON_parse := ReferenceJson.parse; prisma_rejects := rejects |}.

(** No Prisma call rejects. *)
Definition no_rejects : nat -> PrismaCall -> option string := fun _ _ => None.


(* ===================================================================== *)
(** * Vocabulary of the properties *)
(* ===================================================================== *)

(** A score lies between 0 and 100. *)
Definition in_range (x : Q) : Prop := (0 <= x <= 100)%Q.

(** The user's minimum salary target is not negative, as the DTO that
    writes it requires ([@IsInt() @Min(0) minSalary]). *)
Definition target_valid (targets : option JobTarget) : Prop :=
  (0 <= num (opt_field targets minSalary))%Z.

(** The breakdown of a scoring run that gets through, from the rows of the
    user and the date of the run. *)
Definition breakdown_of `{Platform} (userId : string) (job : Job) (d : Database) (today : Instant)
    (skillScore : SkillScore) : ScoreResult :=
  score_result skillScore
    (calculateExperienceMatch today job (user_experiences userId d))
    (calculateSalaryMatch job (user_target userId d))
    (calculateLocationMatch job (user_target userId d)).

Definition weighted_sum_of_components (r : ScoreResult) : Prop :=
  overallScore r =
  inject_Z (Math_round (semanticScore r * (3 # 10) + skillMatchScore r * (3 # 10) +
                        experienceMatchScore r * (2 # 10) +
                        salaryMatchScore r * (1 # 10) +
                        locationMatchScore r * (1 # 10))).

Definition scores_in_range (r : ScoreResult) : Prop :=
  in_range (overallScore r) /\ in_range (semanticScore r) /\
  in_range (skillMatchScore r) /\ in_range (experienceMatchScore r) /\
  in_range (salaryMatchScore r) /\ in_range (locationMatchScore r).

(** The neutral answer of a failed scoring run, field by field. *)
Definition is_neutral (r : ScoreResult) : Prop :=
  overallScore r = 50%Q /\ semanticScore r = 50%Q /\ skillMatchScore r = 50%Q /\
  experienceMatchScore r = 50%Q /\ salaryMatchScore r = 50%Q /\
  locationMatchScore r = 50%Q /\
  matchedSkills r = [] /\ missingSkills r = [] /\
  experienceAnalysis (breakdown r) = "Unable to analyze"%string /\
  salaryAnalysis (breakdown r) = "Unable to analyze"%string /\
  locationAnalysis (breakdown r) = "Unable to analyze"%string /\
  cons (breakdown r) = ["Error occurred during scoring"%string].

(** Two worlds hold the same profile of a user. *)
Definition same_profile (userId : string) (d1 d2 : Database) : Prop :=
  user_skills userId d1 = user_skills userId d2 /\
  user_target userId d1 = user_target userId d2 /\
  user_experiences userId d1 = user_experiences userId d2.

(** Two dates fall into the same calendar month. *)
Definition same_month (t1 t2 : Instant) : Prop :=
  getFullYear t1 = getFullYear t2 /\ getMonth t1 = getMonth t2.

(** The database with the score row of (jobId, userId) set to [r]. *)
Definition with_score (jobId : nat) (userId : string) (r : ScoreResult) (d : Database)
    : Database :=
  set_jobScores (<[(jobId, userId) := r]> (jobScores d)) d.

(** The recurrence that defines the Levenshtein distance, read from the
    last characters of the two words: [a] and [b] hold the characters of
    the words from the last to the first. *)
Fixpoint levenshtein (a : list ascii) : list ascii -> nat :=
  match a with
  | [] => fun b => length b
  | x :: a' =>
      fix with_last (b : list ascii) : nat :=
        match b with
        | [] => S (length a')
        | y :: b' =>
            if Ascii.eqb y x then levenshtein a' b'
            else S (Nat.min (levenshtein a' b')
                      (Nat.min (with_last b') (levenshtein a' b)))
        end
  end.

(** A row of the distance matrix as the recurrence has it: the distances
    of [b] to the prefixes of a word, from the prefix [p] (held from its
    last character to its first) on, which grows by the characters of
    [a]. *)
Fixpoint distance_row (p a b : list ascii) : list nat :=
  levenshtein p b ::
  match a with
  | [] => []
  | x :: a' => distance_row (x :: p) a' b
  end.

(** [sub] occurs in [s]. *)
Definition substring_of (sub s : string) : Prop :=
  exists before after, s = (before ++ sub ++ after)%string.

(** The synonyms the table lists for a canonical name. *)
Definition synonyms_of (skill : string) : list string :=
  match assoc skill SKILL_SYNONYMS with
  | Some l => l
  | None => []
  end.

(** A required skill is matched by the normalised skills of the user: by
    equality, through the synonym table, by containment either way, or by
    an edit distance of at most 2. *)
Definition matched_by (userSkills : list string) (required : string) : Prop :=
  let skill := normalizeSkill required in
  In skill userSkills \/
  (exists syn, In syn (synonyms_of skill) /\ In syn userSkills) \/
  (exists u, In u userSkills /\
     (substring_of skill u \/ substring_of u skill \/
      (levenshteinDistance skill u <= 2)%nat)).

(** The normalised form of a required skill is a member that the synonym
    table inherits and the user does not have: the one case in which the
    skill match throws. *)
Definition hits_inherited (userSkills : list string) (required : string) : Prop :=
  In (normalizeSkill required) Object_prototype_keys /\
  ~ In (normalizeSkill required) userSkills.

(** The test of the loop of [calculateSkillMatch], where it does not
    throw. *)
Definition matches_bool (userSkills : list string) (required : string) : bool :=
  match skillMatches (normalizeSkill required) userSkills with
  | Ok b => b
  | Throw _ => false
  end.

(** The health record of a source that has just been registered enabled,
    and the record of an enabled source that failed at [t] and before: what
    the tracker holds after [failures] failed runs, blocked or not. *)
Definition fresh_health (src : string) : SourceHealth :=
  mkSourceHealth src true false None 0 None None.

Definition failed_health (src : string) (failures : nat) (t : Instant)
    (blockedNow : bool) : SourceHealth :=
  mkSourceHealth src true blockedNow (if blockedNow then Some t else None)
    failures None (Some t).

(** The world in which the tracker holds [h] for [src]. *)
Definition with_health (src : string) (h : SourceHealth) (w : World) : World :=
  set_sourceHealth (<[src := h]> (sourceHealth w)) w.

(** The block of [src] stands at the time of the world: the source is
    blocked, and less than the block duration has passed since. *)
Definition block_stands (src : string) (w : World) : Prop :=
  exists h at_,
    sourceHealth w !! src = Some h /\ isBlocked h = true /\
    blockedAt h = Some at_ /\
    (getTime (now w) - getTime at_ < blockDuration)%Z.

(** The stored rows of the posting that [job] is: the rows with its source
    and external id. *)
Definition postings (job : ScrapedJob) (d : Database) : list Job :=
  List.filter (same_posting (source job) (externalId job)) (jobs d).

(** The Prisma call [call] never rejects. *)
Definition never_rejects `{Platform} (call : PrismaCall) : Prop :=
  forall n, prisma_rejects n call = None.

(** The number of jobs of a list that [processJob] gets through, from the
    world [w] on. *)
Fixpoint processed `{Platform} (jobs : list ScrapedJob) (w : World) : nat :=
  match jobs with
  | [] => 0
  | job :: rest =>
      match processJob job w with
      | (Ok _, w') => S (processed rest w')
      | (Throw _, w') => processed rest w'
      end
  end.

(** The run record that [runScraper] creates in [w], and the world with
    it, when the creating call does not reject. *)
Definition new_run (src : string) (w : World) : ScraperRun :=
  mkScraperRun (S (list_max (map run_id (scraperRuns (db w))))) src "running" (now w)
    None 0 0 0 None.

Definition run_started (src : string) (w : World) : World :=
  set_db (set_scraperRuns (scraperRuns (db w) ++ [new_run src w]) (db w))
    (set_tick (S (tick w)) w).

(** The result that a run of [scraper] at time [t] owes its caller: a
    failed result with the adapter's message and no counts when the adapter
    throws, a successful one that counts the adapter's jobs otherwise. *)
Definition result_of (config : ScraperConfig) (t : Instant) (scraper : IScraper)
    (r : ScraperResult) : Prop :=
  result_source r = name scraper /\
  match scrape scraper config t with
  | Throw message =>
      success r = false /\ error r = Some message /\
      jobsFound r = 0%nat /\ jobsNew r = 0%nat /\ jobsUpdated r = 0%nat
  | Ok jobs => success r = true /\ jobsFound r = length jobs
  end.

(** Two worlds track the health of the same sources. *)
Definition same_sources (w w' : World) : Prop :=
  forall k, is_Some (sourceHealth w' !! k) <-> is_Some (sourceHealth w !! k).

(** A piece of service code neither adds a source to the health map nor
    drops one, whether it returns or throws. *)
Definition keeps_sources {A} (m : M A) : Prop :=
  forall w, same_sources w (snd (m w)).

(** Every source of the health map has a lower-case name. *)
Definition lowercase_sources (w : World) : Prop :=
  forall k, is_Some (sourceHealth w !! k) -> toLowerCase k = k.

(** The states of the scrapers service: the constructor registers the seven
    portals; from then on scrapes run, the operator enables, disables and
    unblocks sources, and time and the database move on. *)
Inductive reachable `{Platform} : World -> Prop :=
| reach_constructor portal w :
    sourceHealth w = ∅ ->
    reachable (initializeScrapers (scraperInstances portal) w)
| reach_scrapeAll userId sources customConfig w :
    reachable w -> reachable (snd (scrapeAll userId sources customConfig w))
| reach_setSourceEnabled src b w :
    reachable w -> reachable (snd (setSourceEnabled src b w))
| reach_unblockSource src w :
    reachable w -> reachable (snd (unblockSource src w))
| reach_clock t w : reachable w -> reachable (set_now t w)
| reach_database d w : reachable w -> reachable (set_db d w).

(** An entry of a parsed list: not empty, and without white space around
    it. *)
Definition clean_entry (s : string) : Prop :=
  s <> ""%string /\ trim s = s.

(** The years of experience that a posting asks for: at least its minimum
    and, when it states one, at most its maximum.  A bound of 0 counts as
    not stated, as in [calculateExperienceMatch]. *)
Definition within_required_years (job : Job) (years : Q) : Prop :=
  (inject_Z (num (job_experienceMin job)) <= years)%Q /\
  (truthy (job_experienceMax job) = true ->
   (years <= inject_Z (num (job_experienceMax job)))%Q).

(** The health record of the source [k] is coherent: it carries the name
    of the source, and it is blocked exactly when it holds the time of the
    block, and exactly when the failures in a row have reached the
    threshold. *)
Definition coherent (k : string) (h : SourceHealth) : Prop :=
  health_source h = k /\
  (isBlocked h = true <-> blockedAt h <> None) /\
  (isBlocked h = true <-> (maxConsecutiveFailures <= consecutiveFailures h)%nat).

(** The two maps of the service agree: the registry holds the seven
    portals in the order of the constructor, each under its name and with
    a health record that has the same [enabled] flag; the health map holds
    coherent records of these sources and of no other. *)
Definition consistent (w : World) : Prop :=
  map fst (scrapers w) = portal_names /\
  (forall k s, In (k, s) (scrapers w) ->
     name s = k /\
     exists h, sourceHealth w !! k = Some h /\ enabled h = scraper_enabled s) /\
  (forall k h, sourceHealth w !! k = Some h -> In k portal_names /\ coherent k h).

(** A piece of service code keeps the property [I] of the world, whether
    it returns or throws. *)
Definition preserves (I : World -> Prop) {A} (m : M A) : Prop :=
  forall w, I w -> I (snd (m w)).

(** The states of a running scrapers service: the constructor fills the
    two empty maps; from then on its methods are called, the clock moves,
    and the rest of the application uses the database. *)
Inductive running `{Platform} : World -> Prop :=
| run_constructor portal w :
    scrapers w = [] -> sourceHealth w = ∅ ->
    running (initializeScrapers (scraperInstances portal) w)
| run_scrapeAll userId sources customConfig w :
    running w -> running (snd (scrapeAll userId sources customConfig w))
| run_scoreNewJobs userId limit w :
    running w -> running (snd (scoreNewJobs userId limit w))
| run_setSourceEnabled src b w :
    running w -> running (snd (setSourceEnabled src b w))
| run_unblockSource src w :
    running w -> running (snd (unblockSource src w))
| run_clock t w : running w -> running (set_now t w)
| run_elsewhere d n w : running w -> running (set_db d (set_tick n w)).

(** The health map holds the record [h] for the source [src]. *)
Definition tracks (src : string) (h : SourceHealth) (w : World) : Prop :=
  sourceHealth w !! src = Some h.

(** The adapter answers the search [config] at the time [t]: its [scrape]
    does not throw. *)
Definition answers (config : ScraperConfig) (t : Instant) (scraper : IScraper) : bool :=
  match scrape scraper config t with
  | Ok _ => true
  | Throw _ => false
  end.

(** The characters of a text that are not white space, in order. *)
Definition letters (s : string) : list ascii :=
  List.filter (fun c => negb (is_space c)) (list_ascii_of_string s).

(** The only white space of a text are blanks. *)
Definition blanks_only (s : string) : Prop :=
  Forall (fun c => is_space c = true -> c = " "%char) (list_ascii_of_string s).

(** No two white-space characters of a text stand in a row; [after_space]
    says that the character before the text was white space. *)
Fixpoint spaced_apart (after_space : bool) (s : string) : bool :=
  match s with
  | EmptyString => true
  | String c r =>
      if is_space c then negb after_space && spaced_apart true r
      else spaced_apart false r
  end.

(** The hash of Java's [String.hashCode], before it is cut to 32 bits: the
    character codes are the digits of a number to the base 31. *)
Definition hashCode (codes : list Z) : Z :=
  fold_left (fun hash char => (31 * hash + char)%Z) codes 0%Z.

(** The value of a digit to the base 36, and the number that a numeral to
    the base 36 stands for, which is what [parseInt(s, 36)] reads. *)
Definition digit_value (c : ascii) : option Z :=
  let n := Z.of_nat (nat_of_ascii c) in
  if ((48 <=? n) && (n <=? 57))%Z then Some (n - 48)%Z
  else if ((97 <=? n) && (n <=? 122))%Z then Some (n - 87)%Z
  else None.

Fixpoint value36 (s : string) (acc : Z) : option Z :=
  match s with
  | EmptyString => Some acc
  | String c r =>
      match digit_value c with
      | Some d => value36 r (acc * 36 + d)%Z
      | None => None
      end
  end.

Definition parseInt36 (s : string) : option Z :=
  match s with
  | EmptyString => None
  | _ => value36 s 0%Z
  end.

(** The weighted sum of the five component scores of a breakdown, in exact
    arithmetic. *)
Definition exact_weighted_sum (r : ScoreResult) : Q :=
  (semanticScore r * (3 # 10) + skillMatchScore r * (3 # 10) +
   experienceMatchScore r * (2 # 10) + salaryMatchScore r * (1 # 10) +
   locationMatchScore r * (1 # 10))%Q.

(** The same sum as the engine computes it, in doubles. *)
Definition double_weighted_sum (r : ScoreResult) : Q :=
  Binary64.weighted_sum (semanticScore r) (skillMatchScore r)
    (experienceMatchScore r) (salaryMatchScore r) (locationMatchScore r).

(** The overall score of a breakdown is [Math.round] of the weighted sum of
    its components, the sum being computed in doubles. *)
Definition rounded_double_sum (r : ScoreResult) : Prop :=
  overallScore r = inject_Z (Math_round (double_weighted_sum r)).

(** The rounding error that the sum in doubles may carry: 2^-40. *)
Definition rounding_error : Q := 1 # 1099511627776.

(** Whether the Prisma call number [n] of the process, which is the call
    [call], rejects. *)
Definition rejected `{Platform} (n : nat) (call : PrismaCall) : bool :=
  match prisma_rejects n call with
  | Some _ => true
  | None => false
  end.

(** The four Prisma calls of a scoring run that starts in the world [w],
    and whether each rejects: the three reads and the write. *)
Definition rejections `{Platform} (w : World) : list bool :=
  [rejected (tick w) SkillFindMany;
   rejected (1 + tick w) JobTargetFindUnique;
   rejected (2 + tick w) ExperienceFindMany;
   rejected (3 + tick w) JobScoreUpsert].

(** A name is written in lower case. *)
Definition is_lowercase (s : string) : bool := String.eqb (toLowerCase s) s.

(** The source [src] can run: a scraper of that name is registered under
    it, and its health record is enabled and not blocked. *)
Definition can_run (w : World) (src : string) : bool :=
  match registry_get src (scrapers w), sourceHealth w !! src with
  | Some scraper, Some h =>
      String.eqb (name scraper) src && enabled h && negb (isBlocked h)
  | _, _ => false
  end.

(* ===================================================================== *)
(** * Sample data *)
(* ===================================================================== *)

Module Sample.

Definition user : string := "user-1".

Definition june_2020 : Instant := mkInstant 1590969600000 2020 5.
Definition nov_2026 : Instant := mkInstant 1793577600000 2026 10.
Definition nov_2027 : Instant := mkInstant 1825113600000 2027 10.

(** A posting with nothing but the required columns. *)
Definition bare_job (i : nat) (ext : string) : Job :=
  {| job_id := i; job_externalId := Some ext; job_source := "linkedin";
     job_sourceUrl := None; job_title := "Backend Engineer"; job_company := "Acme";
     job_companyLogoUrl := None; job_location := None; job_isRemote := None;
     job_employmentType := None; job_experienceMin := None; job_experienceMax := None;
     job_salaryMin := None; job_salaryMax := None; job_salaryCurrency := None;
     job_description := None; job_requirements := None; job_responsibilities := None;
     job_benefits := None; job_skillsRequired := None; job_postedDate := None;
     job_companySize := None; job_industry := None |}.

Definition with_skills (required : string) (j : Job) : Job :=
  {| job_id := job_id j; job_externalId := job_externalId j; job_source := job_source j;
     job_sourceUrl := job_sourceUrl j; job_title := job_title j;
     job_company := job_company j; job_companyLogoUrl := job_companyLogoUrl j;
     job_location := job_location j; job_isRemote := job_isRemote j;
     job_employmentType := job_employmentType j;
     job_experienceMin := job_experienceMin j; job_experienceMax := job_experienceMax j;
     job_salaryMin := job_salaryMin j; job_salaryMax := job_salaryMax j;
     job_salaryCurrency := job_salaryCurrency j; job_description := job_description j;
     job_requirements := job_requirements j;
     job_responsibilities := job_responsibilities j; job_benefits := job_benefits j;
     job_skillsRequired := Some required; job_postedDate := job_postedDate j;
     job_companySize := job_companySize j; job_industry := job_industry j |}.

Definition with_salaryMax (top : Z) (j : Job) : Job :=
  {| job_id := job_id j; job_externalId := job_externalId j; job_source := job_source j;
     job_sourceUrl := job_sourceUrl j; job_title := job_title j;
     job_company := job_company j; job_companyLogoUrl := job_companyLogoUrl j;
     job_location := job_location j; job_isRemote := job_isRemote j;
     job_employmentType := job_employmentType j;
     job_experienceMin := job_experienceMin j; job_experienceMax := job_experienceMax j;
     job_salaryMin := job_salaryMin j; job_salaryMax := Some top;
     job_salaryCurrency := job_salaryCurrency j; job_description := job_description j;
     job_requirements := job_requirements j;
     job_responsibilities := job_responsibilities j; job_benefits := job_benefits j;
     job_skillsRequired := job_skillsRequired j; job_postedDate := job_postedDate j;
     job_companySize := job_companySize j; job_industry := job_industry j |}.

Definition with_experienceMin (years : Z) (j : Job) : Job :=
  {| job_id := job_id j; job_externalId := job_externalId j; job_source := job_source j;
     job_sourceUrl := job_sourceUrl j; job_title := job_title j;
     job_company := job_company j; job_companyLogoUrl := job_companyLogoUrl j;
     job_location := job_location j; job_isRemote := job_isRemote j;
     job_employmentType := job_employmentType j;
     job_experienceMin := Some years; job_experienceMax := job_experienceMax j;
     job_salaryMin := job_salaryMin j; job_salaryMax := job_salaryMax j;
     job_salaryCurrency := job_salaryCurrency j; job_description := job_description j;
     job_requirements := job_requirements j;
     job_responsibilities := job_responsibilities j; job_benefits := job_benefits j;
     job_skillsRequired := job_skillsRequired j; job_postedDate := job_postedDate j;
     job_companySize := job_companySize j; job_industry := job_industry j |}.

(** The profile of a Python developer in a role since June 2020, who asks
    for [target] as a minimum salary. *)
Definition profile (target : option Z) : Database :=
  {| skills := [mkSkill user "Python"];
     jobTargets := [mkJobTarget user None target None "INR" None None];
     experiences := [mkExperience user june_2020 None true];
     jobs := [];
     jobScores := ∅;
     scraperRuns := [] |}.

(** A world without scrapers. *)
Definition world (d : Database) (today : Instant) : World :=
  {| db := d; now := today; tick := 0; scrapers := []; sourceHealth := ∅ |}.

(** The JSON text of an array of two strings. *)
Definition quoted (s : string) : string :=
  (String (ascii_of_nat 34) s ++ String (ascii_of_nat 34) "")%string.

Definition json_pair (a b : string) : string :=
  ("[" ++ quoted a ++ ", " ++ quoted b ++ "]")%string.

(** The platform on which nothing goes wrong. *)
Definition platform : Platform := reference_platform no_rejects.

(** A posting that asks for eight years of experience, and three worlds
    that hold the same profile: one morning in November 2026, the evening
    of that day with another user's score in the table, and a year later. *)
Definition senior_job : Job := with_experienceMin 8 (bare_job 1 "p-1").

Definition morning : World := world (profile None) nov_2026.

Definition evening : World :=
  world (with_score 7 "user-2" neutral_result (profile None))
    (mkInstant 1793581200000 2026 10).

Definition next_year : World := world (profile None) nov_2027.

(** The portals: LinkedIn is down, the others find nothing. *)
Definition linkedin_down (portal : string) (config : ScraperConfig) (t : Instant)
    : outcome (list ScrapedJob) :=
  if String.eqb portal "linkedin" then Throw "portal down" else Ok [].

(** The service as its constructor leaves it, over the sample profile. *)
Definition service (today : Instant) : World :=
  initializeScrapers (scraperInstances linkedin_down) (world (profile None) today).

(** A caller that overrides nothing. *)
Definition no_overrides : PartialConfig := mkPartialConfig None None None None.

(** The search configuration of the sample profile in November 2026. *)
Definition search_config : ScraperConfig :=
  {| keywords := ["Python"%string]; location := None; locations := JArray [];
     remote := false; experienceYears := 6; salaryMin := None;
     salaryCurrency := "INR" |}.

(** The platform on which the Prisma call number [n] rejects. *)
Definition platform_rejecting (n : nat) : Platform :=
  reference_platform
    (fun i _ => if (i =? n)%nat then Some "connection lost"%string else None).

(** The platform on which the lookup of a job rejects when it is the Prisma
    call number 1, and nothing else does. *)
Definition platform_failing_lookup : Platform :=
  reference_platform
    (fun i call =>
       match call with
       | JobFindFirst => if (i =? 1)%nat then Some "connection lost"%string else None
       | _ => None
       end).

(** An hour later. *)
Definition hour_after (t : Instant) : Instant :=
  mkInstant (getTime t + 3600000) (getFullYear t) (getMonth t).

(** A day later, to the millisecond. *)
Definition day_after (t : Instant) : Instant :=
  mkInstant (getTime t + blockDuration) (getFullYear t) (getMonth t).

(** The service after three runs of the LinkedIn scraper, each of which
    failed, and after the operator has then disabled the source. *)
Definition after_three_failures : World :=
  snd (@scrapeAll platform user (Some ["linkedin"%string]) no_overrides
    (snd (@scrapeAll platform user (Some ["linkedin"%string]) no_overrides
      (snd (@scrapeAll platform user (Some ["linkedin"%string]) no_overrides
        (service nov_2026)))))).

Definition disabled_while_blocked : World :=
  snd (setSourceEnabled "linkedin" false after_three_failures).

(** A scraped posting. *)
Definition posting (ext : string) : ScrapedJob :=
  {| externalId := ext; source := "naukri"; sourceUrl := "https://example.org/job";
     title := "Backend Engineer"; company := "Acme"; sj_location := None;
     isRemote := None; description := None; requirements := None;
     responsibilities := None; skillsRequired := None; sj_salaryMin := None;
     salaryMax := None; sj_salaryCurrency := None; experienceMin := None;
     experienceMax := None; employmentType := None; postedDate := None;
     companyLogoUrl := None; benefits := None; industry := None;
     companySize := None |}.

(** An adapter that returns two postings. *)
Definition two_postings : IScraper :=
  mkScraper "naukri" true (fun _ _ => Ok [posting "n-1"; posting "n-2"]).


(** A posting that asks for Python, Django and Rust, pays 8.5 lakh at most
    and says nothing about experience or place; and the profile of a
    developer who knows the first two, asks for 25 lakh and wants to work
    remotely. *)
Definition rust_job : Job :=
  with_salaryMax 850000 (with_skills "Python, Django, Rust" (bare_job 1 "p-1")).

Definition remote_profile : Database :=
  {| skills := [mkSkill user "Python"; mkSkill user "Django"];
     jobTargets :=
       [mkJobTarget user None (Some 2500000%Z) None "INR" None (Some "remote"%string)];
     experiences := [mkExperience user june_2020 None true];
     jobs := [];
     jobScores := ∅;
     scraperRuns := [] |}.

(** The world after one scoring run in the morning. *)
Definition scored_once : World :=
  snd (@scoreJob platform user senior_job morning).

End Sample.

(** Further sample data. *)
Module Scenario.

(** The sample profile with two postings in the table, neither of them
    scored. *)
Definition two_jobs : Database :=
  set_jobs [Sample.bare_job 1 "p-1"; Sample.bare_job 2 "p-2"] (Sample.profile None).

(** The platform on which every write of a score rejects, and nothing
    else does. *)
Definition platform_without_scores : Platform :=
  reference_platform
    (fun _ call =>
       match call with
       | JobScoreUpsert => Some "database is read-only"%string
       | _ => None
       end).

(** The platform on which the calls of the single-job methods go
    through. *)
Definition jobs_platform : JobsPlatform :=
  {| jobs_call_rejects := fun _ _ => None |}.

(** The two postings, the first of them scored for two users. *)
Definition scored_jobs : Database :=
  set_jobScores
    (<[(1%nat, "user-2"%string) := neutral_result]>
       (<[(1%nat, Sample.user) := neutral_result]>
          (<[(2%nat, Sample.user) := neutral_result]> ∅)))
    two_jobs.

(** A job entered by hand. *)
Definition manual_job (title : string) : CreateJobDto :=
  {| create_title := title; create_company := "Acme"; create_location := None;
     create_isRemote := None; create_description := None; create_requirements := None;
     create_skillsRequired := None; create_salaryMin := None; create_salaryMax := None;
     create_salaryCurrency := None; create_sourceUrl := None;
     create_employmentType := None |}.

(** A request that overrides nothing. *)
Definition plain_request : ScrapeJobsDto :=
  mkScrapeJobsDto None None None None None None.

End Scenario.

(* ===================================================================== *)
(** * Properties *)
(* ===================================================================== *)

(** ** Numbers *)

Lemma Math_round_range (x : Q) :
  (0 <= x <= 100)%Q -> (0 <= inject_Z (Math_round x) <= 100)%Q.
Proof.
  intros [Hlo Hhi]. unfold Math_round. split.
  - change 0%Q with (inject_Z 0). rewrite <- Zle_Qle.
    change 0%Z with (Qfloor (1 # 2)). apply Qfloor_resp_le. lra.
  - change 100%Q with (inject_Z 100). rewrite <- Zle_Qle.
    change 100%Z with (Qfloor (100 + (1 # 2))). apply Qfloor_resp_le. lra.
Qed.

Lemma Math_max_range (lo x : Q) :
  (0 <= lo <= 100)%Q -> (x <= 100)%Q -> (0 <= Math_max lo x <= 100)%Q.
Proof.
  intros [H0 H1] Hx. unfold Math_max. split.
  - eapply Qle_trans; [exact H0 | apply Q.le_max_l].
  - apply Q.max_lub; assumption.
Qed.

Lemma ratio_range (a b : nat) :
  (a <= b)%nat -> (0 < b)%nat ->
  (0 <= inject_Z (Z.of_nat a) / inject_Z (Z.of_nat b) * 100 <= 100)%Q.
Proof.
  intros Hab Hb.
  assert (Hb' : (0 < inject_Z (Z.of_nat b))%Q).
  { change 0%Q with (inject_Z 0). rewrite <- Zlt_Qlt. lia. }
  assert (Ha' : (0 <= inject_Z (Z.of_nat a))%Q).
  { change 0%Q with (inject_Z 0). rewrite <- Zle_Qle. lia. }
  assert (Hle : (inject_Z (Z.of_nat a) <= inject_Z (Z.of_nat b))%Q).
  { rewrite <- Zle_Qle. lia. }
  assert (H0 : (0 <= inject_Z (Z.of_nat a) / inject_Z (Z.of_nat b))%Q).
  { apply Qle_shift_div_l; [exact Hb' | lra]. }
  assert (H1 : (inject_Z (Z.of_nat a) / inject_Z (Z.of_nat b) <= 1)%Q).
  { apply Qle_shift_div_r; [exact Hb' | lra]. }
  split; lra.
Qed.

Lemma Qlt_bool_iff (x y : Q) : Qlt_bool x y = true <-> (x < y)%Q.
Proof.
  unfold Qlt_bool. rewrite negb_true_iff. split.
  - intros H. apply Qnot_le_lt. intros Hle.
    apply Qle_bool_iff in Hle. congruence.
  - intros H. destruct (Qle_bool y x) eqn:E; [| reflexivity].
    apply Qle_bool_iff in E. lra.
Qed.

(** ** The component scores lie between 0 and 100 *)


Lemma in_range_const (x : Q) :
  Qle_bool 0 x && Qle_bool x 100 = true -> in_range x.
Proof.
  intros H. apply andb_true_iff in H as [H0 H1].
  split; apply Qle_bool_iff; assumption.
Qed.

Lemma match_loop_length us req : forall m ms m' ms',
  match_loop us req m ms = Ok (m', ms') ->
  (length m' + length ms' = length m + length ms + length req)%nat.
Proof.
  induction req as [| r req IH]; intros m ms m' ms' H; simpl in H.
  - injection H as <- <-. simpl. lia.
  - destruct (skillMatches (normalizeSkill r) us) as [[|] | e]; [| | discriminate].
    + apply IH in H. rewrite length_app in H. simpl in *. lia.
    + apply IH in H. rewrite length_app in H. simpl in *. lia.
Qed.

Section Scoring.
Context {P : Platform}.

Lemma calculateSkillMatch_range job us ss :
  calculateSkillMatch job us = Ok ss -> in_range (skill_score ss).
Proof.
  unfold calculateSkillMatch.
  destruct (length (parseSkillsString (job_skillsRequired job)) =? 0)%nat eqn:E.
  - intros [= <-]. simpl. apply in_range_const. reflexivity.
  - destruct (match_loop _ _ [] []) as [[m ms] | e] eqn:L; [| discriminate].
    intros [= <-]. simpl. apply match_loop_length in L. simpl in L.
    apply Nat.eqb_neq in E.
    apply Math_round_range, ratio_range; lia.
Qed.

Lemma calculateExperienceMatch_range today job exps :
  in_range (score (calculateExperienceMatch today job exps)).
Proof.
  unfold calculateExperienceMatch.
  destruct (negb (truthy (job_experienceMin job)) &&
            negb (truthy (job_experienceMax job))).
  { apply in_range_const. reflexivity. }
  set (years := calculateTotalYears today exps).
  set (lo := match job_experienceMin job with Some v => v | None => 0%Z end).
  destruct (Qle_bool (inject_Z lo) years && _) eqn:E1.
  { apply in_range_const. reflexivity. }
  destruct (Qlt_bool years (inject_Z lo)) eqn:E2.
  - simpl. apply Qlt_bool_iff in E2.
    apply Math_max_range; [split; lra | lra].
  - destruct (truthy (job_experienceMax job)) eqn:T;
      [| apply in_range_const; reflexivity].
    destruct (job_experienceMax job) as [hi |] eqn:M;
      [| apply in_range_const; reflexivity].
    simpl.
    assert (Hlo : (inject_Z lo <= years)%Q).
    { destruct (Qle_bool years (inject_Z lo)) eqn:E3.
      - unfold Qlt_bool in E2. apply negb_false_iff in E2.
        apply Qle_bool_iff in E2. exact E2.
      - unfold Qlt_bool in E2. apply negb_false_iff in E2.
        apply Qle_bool_iff in E2. exact E2. }
    apply Qle_bool_iff in Hlo. rewrite Hlo in E1. simpl in E1.
    assert (Hhi : (inject_Z hi < years)%Q).
    { apply Qlt_bool_iff. unfold Qlt_bool. rewrite E1. reflexivity. }
    apply Math_max_range; [split; lra | lra].
Qed.


(** The last branch of [calculateExperienceMatch] always has a maximum to
    compare with: every analysis is one of the three sentences of the
    source. *)
Lemma calculateExperienceMatch_analysed today job exps :
  analysis (calculateExperienceMatch today job exps) <> ""%string.
Proof.
  unfold calculateExperienceMatch.
  destruct (negb (truthy (job_experienceMin job)) &&
            negb (truthy (job_experienceMax job))); [discriminate |].
  set (years := calculateTotalYears today exps).
  set (lo := match job_experienceMin job with Some v => v | None => 0%Z end).
  destruct (Qle_bool (inject_Z lo) years) eqn:E0; simpl.
  - destruct (if truthy (job_experienceMax job) then job_experienceMax job else None)
      as [hi |]; [| discriminate].
    destruct (Qle_bool years (inject_Z hi)); [discriminate |].
    destruct (Qlt_bool years (inject_Z lo)); discriminate.
  - assert (Hlt : Qlt_bool years (inject_Z lo) = true)
      by (unfold Qlt_bool; rewrite E0; reflexivity).
    rewrite Hlt. discriminate.
Qed.

Lemma calculateSalaryMatch_range job targets :
  target_valid targets -> in_range (score (calculateSalaryMatch job targets)).
Proof.
  unfold target_valid, calculateSalaryMatch. intros Hv.
  destruct (negb (truthy (job_salaryMin job)) && negb (truthy (job_salaryMax job))).
  { apply in_range_const. reflexivity. }
  destruct (truthy (opt_field targets minSalary)) eqn:T; simpl;
    [| apply in_range_const; reflexivity].
  set (tmin := num (opt_field targets minSalary)) in *.
  assert (Hpos : (0 < tmin)%Z).
  { unfold tmin, truthy, num in *. destruct (opt_field targets minSalary); [| discriminate].
    apply negb_true_iff, Z.eqb_neq in T. lia. }
  destruct (truthy (job_salaryMax job) && (num (job_salaryMax job) <? tmin)%Z) eqn:E.
  - simpl. apply andb_true_iff in E as [_ E]. apply Z.ltb_lt in E.
    assert (Hq : (0 < inject_Z tmin)%Q).
    { change 0%Q with (inject_Z 0). rewrite <- Zlt_Qlt. exact Hpos. }
    assert (Hd : (0 <= inject_Z (tmin - num (job_salaryMax job)) / inject_Z tmin)%Q).
    { apply Qle_shift_div_l; [exact Hq |].
      rewrite Qmult_0_l. change 0%Q with (inject_Z 0). rewrite <- Zle_Qle. lia. }
    apply Math_max_range; [split; lra | lra].
  - destruct (_ && _ && _); apply in_range_const; reflexivity.
Qed.

Lemma calculateLocationMatch_range job targets :
  in_range (score (calculateLocationMatch job targets)).
Proof.
  unfold calculateLocationMatch.
  repeat match goal with
         | |- context [if ?b then _ else _] => destruct b
         | |- context [match ?x with _ => _ end] => destruct x
         end; apply in_range_const; reflexivity.
Qed.

End Scoring.

(** ** What [scoreJob] computes *)

Section ScoreJob.
Context {P : Platform}.


(** The guarded block, call by call: three reads, the skill match, the
    write. *)
Lemma scoreJob_try_run userId job w :
  scoreJob_try userId job w =
  match prisma_rejects (tick w) SkillFindMany,
        prisma_rejects (S (tick w)) JobTargetFindUnique,
        prisma_rejects (S (S (tick w))) ExperienceFindMany with
  | None, None, None =>
      match calculateSkillMatch job (user_skills userId (db w)) with
      | Throw e => (Throw e, set_tick (3 + tick w) w)
      | Ok skillScore =>
          let r := breakdown_of userId job (db w) (now w) skillScore in
          match prisma_rejects (3 + tick w) JobScoreUpsert with
          | Some e => (Throw e, set_tick (4 + tick w) w)
          | None =>
              (Ok r,
               set_db (set_jobScores (<[(job_id job, userId) := r]> (jobScores (db w)))
                         (db w))
                 (set_tick (4 + tick w) w))
          end
      end
  | Some e, _, _ => (Throw e, set_tick (3 + tick w) w)
  | None, Some e, _ => (Throw e, set_tick (3 + tick w) w)
  | None, None, Some e => (Throw e, set_tick (3 + tick w) w)
  end.
Proof.
  destruct w as [d t n reg h].
  unfold scoreJob_try, bind, Promise_both, skill_findMany, jobTarget_findUnique,
    experience_findMany, jobScore_upsert, prisma, lift, new_Date, ret; simpl.
  destruct d as [sk jt ex jb sc rn].
  destruct (prisma_rejects n SkillFindMany); simpl;
    (destruct (prisma_rejects (S n) JobTargetFindUnique); simpl;
     (destruct (prisma_rejects (S (S n)) ExperienceFindMany); simpl; try reflexivity)).
  destruct (calculateSkillMatch job _); simpl; [| reflexivity].
  destruct (prisma_rejects (S (S (S n))) JobScoreUpsert); reflexivity.
Qed.

Lemma scoreJob_try_ok userId job w r w' :
  scoreJob_try userId job w = (Ok r, w') ->
  exists skillScore,
    calculateSkillMatch job (user_skills userId (db w)) = Ok skillScore /\
    r = breakdown_of userId job (db w) (now w) skillScore /\
    w' = set_db (set_jobScores (<[(job_id job, userId) := r]> (jobScores (db w))) (db w))
           (set_tick (4 + tick w) w).
Proof.
  rewrite scoreJob_try_run.
  destruct (prisma_rejects (tick w) SkillFindMany), (prisma_rejects (S (tick w)) JobTargetFindUnique),
    (prisma_rejects (S (S (tick w))) ExperienceFindMany); try discriminate.
  destruct (calculateSkillMatch job _) as [ss | e]; [| discriminate].
  simpl. destruct (prisma_rejects (S (S (S (tick w)))) JobScoreUpsert); [discriminate |].
  intros [= <- <-]. exists ss. auto.
Qed.

(** [scoreJob] always answers: with the breakdown of the guarded block, or
    with the neutral result when the block throws. *)
Lemma scoreJob_run userId job w :
  scoreJob userId job w =
  match scoreJob_try userId job w with
  | (Ok r, w') => (Ok r, w')
  | (Throw _, w') => (Ok neutral_result, w')
  end.
Proof. reflexivity. Qed.


End ScoreJob.

(** ** The arithmetic of doubles *)

Section Doubles.
Import Binary64.

Lemma pow2_pos (e : Z) : (0 < pow2 e)%Q.
Proof. apply Qpower_0_lt. reflexivity. Qed.

Lemma pow2_le (a b : Z) : (a <= b)%Z -> (pow2 a <= pow2 b)%Q.
Proof. intros H. apply Qpower_le_compat_l; [exact H | discriminate]. Qed.

Lemma pow2_lt (a b : Z) : (a < b)%Z -> (pow2 a < pow2 b)%Q.
Proof. intros H. apply Qpower_lt_compat_l; [exact H | reflexivity]. Qed.

Lemma pow2_le_inv (a b : Z) : (pow2 a <= pow2 b)%Q -> (a <= b)%Z.
Proof. intros H. apply (Qpower_le_compat_l_inv 2); [exact H | reflexivity]. Qed.

Lemma pow2_lt_inv (a b : Z) : (pow2 a < pow2 b)%Q -> (a < b)%Z.
Proof. intros H. apply (Qpower_lt_compat_l_inv 2); [exact H | reflexivity]. Qed.

Lemma pow2_plus (a b : Z) : (pow2 (a + b) == pow2 a * pow2 b)%Q.
Proof. apply Qpower_plus. discriminate. Qed.

Lemma pow2_minus (a b : Z) : (pow2 (a - b) == pow2 a / pow2 b)%Q.
Proof. apply Qpower_minus. discriminate. Qed.

Lemma pow2_inject (n : Z) : (0 <= n)%Z -> (pow2 n == inject_Z (2 ^ n))%Q.
Proof. intros H. unfold pow2. rewrite Zpower_Qpower by exact H. reflexivity. Qed.

(** The quotient of two powers of two whose exponents are in order is an
    integer. *)
Lemma pow2_quotient (a b : Z) :
  (b <= a)%Z -> (pow2 a / pow2 b == inject_Z (2 ^ (a - b)))%Q.
Proof.
  intros H. rewrite <- pow2_minus. apply pow2_inject. lia.
Qed.

(** *** The binary exponent *)

Lemma Z_log2_bounds (n : Z) : (0 < n)%Z -> (2 ^ Z.log2 n <= n < 2 ^ (Z.log2 n + 1))%Z.
Proof.
  intros H. pose proof (Z.log2_spec n H) as [H1 H2].
  rewrite <- Z.add_1_r in H2. auto.
Qed.

Lemma ilog2_spec (x : Q) :
  (0 < x)%Q -> (pow2 (ilog2 x) <= x < pow2 (ilog2 x + 1))%Q.
Proof.
  intros Hx. destruct x as [n d]. unfold ilog2. simpl Qnum. simpl Qden.
  assert (Hn : (0 < n)%Z).
  { unfold Qlt in Hx. simpl in Hx. lia. }
  pose proof (Z_log2_bounds n Hn) as [Hn1 Hn2].
  pose proof (Z_log2_bounds (Z.pos d) eq_refl) as [Hd1 Hd2].
  pose proof (Z.log2_nonneg n) as Ha. pose proof (Z.log2_nonneg (Z.pos d)) as Hb.
  set (a := Z.log2 n) in *. set (b := Z.log2 (Z.pos d)) in *.
  assert (Hq : (n # d == inject_Z n / inject_Z (Z.pos d))%Q) by apply Qmake_Qdiv.
  assert (Hdq : (0 < inject_Z (Z.pos d))%Q) by reflexivity.
  (* 2^(a-b-1) < n/d < 2^(a-b+1) *)
  assert (Hpa : forall k, (0 <= k)%Z -> (0 < inject_Z (2 ^ k))%Q).
  { intros k Hk. change 0%Q with (inject_Z 0). rewrite <- Zlt_Qlt.
    apply Z.pow_pos_nonneg; lia. }
  assert (Hlow : (pow2 (a - b - 1) <= n # d)%Q).
  { rewrite Hq. apply Qle_shift_div_l; [exact Hdq |].
    replace (a - b - 1)%Z with (a - (b + 1))%Z by lia.
    rewrite pow2_minus. rewrite !pow2_inject by lia.
    pose proof (Hpa (b + 1)%Z ltac:(lia)) as Hpb.
    assert (Hre : ((inject_Z (2 ^ a) / inject_Z (2 ^ (b + 1)) * inject_Z (Z.pos d)) == (inject_Z (2 ^ a) * inject_Z (Z.pos d) / inject_Z (2 ^ (b + 1))))%Q) by (field; lra).
    rewrite Hre.
    apply Qle_shift_div_r; [exact Hpb |].
    rewrite <- !inject_Z_mult, <- Zle_Qle.
    apply Z.mul_le_mono_nonneg; try lia. }
  assert (Hhigh : (n # d < pow2 (a - b + 1))%Q).
  { rewrite Hq. apply Qlt_shift_div_r; [exact Hdq |].
    replace (a - b + 1)%Z with (a + 1 - b)%Z by lia.
    rewrite pow2_minus. rewrite !pow2_inject by lia.
    pose proof (Hpa b Hb) as Hpb.
    assert (Hre : ((inject_Z (2 ^ (a + 1)) / inject_Z (2 ^ b) * inject_Z (Z.pos d)) == (inject_Z (2 ^ (a + 1)) * inject_Z (Z.pos d) / inject_Z (2 ^ b)))%Q) by (field; lra).
    rewrite Hre.
    apply Qlt_shift_div_l; [exact Hpb |].
    rewrite <- !inject_Z_mult, <- Zlt_Qlt.
    apply Z.le_lt_trans with (n * Z.pos d)%Z.
    - apply Z.mul_le_mono_nonneg_l; lia.
    - apply Z.mul_lt_mono_pos_r; lia. }
  destruct (Qle_bool (pow2 (a - b)) (n # d)) eqn:E.
  - apply Qle_bool_iff in E. split; [exact E | exact Hhigh].
  - split; [exact Hlow |].
    replace (a - b - 1 + 1)%Z with (a - b)%Z by lia.
    apply Qnot_le_lt. intros H. apply Qle_bool_iff in H. congruence.
Qed.

Lemma ilog2_le (x y : Q) : (0 < x)%Q -> (x <= y)%Q -> (ilog2 x <= ilog2 y)%Z.
Proof.
  intros Hx Hxy.
  pose proof (ilog2_spec x Hx) as [H1 _].
  pose proof (ilog2_spec y ltac:(lra)) as [_ H2].
  assert (H : (ilog2 x < ilog2 y + 1)%Z) by (apply pow2_lt_inv; lra).
  lia.
Qed.

(** *** Rounding to an integer *)

Lemma nearest_even_cases (t : Q) :
  nearest_even t = Qfloor t \/ nearest_even t = (Qfloor t + 1)%Z.
Proof.
  unfold nearest_even. destruct (_ ?= _)%Q; [destruct (Z.even _) | |]; auto.
Qed.

Lemma nearest_even_error (t : Q) :
  (Qabs (inject_Z (nearest_even t) - t) <= 1 # 2)%Q.
Proof.
  pose proof (Qfloor_le t) as H1. pose proof (Qlt_floor t) as H2.
  rewrite inject_Z_plus in H2. change (inject_Z 1) with 1%Q in H2.
  unfold nearest_even.
  destruct (Qcompare_spec (t - inject_Z (Qfloor t)) (1 # 2)) as [E | E | E].
  - destruct (Z.even _); [| rewrite inject_Z_plus; change (inject_Z 1) with 1%Q];
      apply Qabs_Qle_condition; split; lra.
  - apply Qabs_Qle_condition; split; lra.
  - rewrite inject_Z_plus. change (inject_Z 1) with 1%Q.
    apply Qabs_Qle_condition; split; lra.
Qed.

Lemma nearest_even_le_int (t : Q) (N : Z) :
  (t <= inject_Z N)%Q -> (nearest_even t <= N)%Z.
Proof.
  intros H. pose proof (Qfloor_resp_le _ _ H) as Hf. rewrite Qfloor_Z in Hf.
  destruct (Z.eq_dec (Qfloor t) N) as [E | E].
  - pose proof (Qfloor_le t) as H1. rewrite E in H1.
    unfold nearest_even. rewrite E.
    assert (Hc : (t - inject_Z N ?= 1 # 2)%Q = Lt) by (apply (proj1 (Qlt_alt _ _)); lra).
    rewrite Hc. lia.
  - destruct (nearest_even_cases t) as [-> | ->]; lia.
Qed.

Lemma nearest_even_ge_int (t : Q) (N : Z) :
  (inject_Z N <= t)%Q -> (N <= nearest_even t)%Z.
Proof.
  intros H. pose proof (Qfloor_resp_le _ _ H) as Hf. rewrite Qfloor_Z in Hf.
  destruct (nearest_even_cases t) as [-> | ->]; lia.
Qed.

Lemma nearest_even_mono (t t' : Q) :
  (t <= t')%Q -> (nearest_even t <= nearest_even t')%Z.
Proof.
  intros H. pose proof (Qfloor_resp_le _ _ H) as Hf.
  destruct (Z.eq_dec (Qfloor t) (Qfloor t')) as [E | E].
  - unfold nearest_even. rewrite <- E.
    destruct (Qcompare_spec (t - inject_Z (Qfloor t)) (1 # 2)) as [C | C | C];
      destruct (Qcompare_spec (t' - inject_Z (Qfloor t)) (1 # 2)) as [C' | C' | C'];
      try lra; try (destruct (Z.even _)); lia.
  - apply Z.le_trans with (Qfloor t')%Z.
    + destruct (nearest_even_cases t) as [-> | ->]; lia.
    + destruct (nearest_even_cases t') as [-> | ->]; lia.
Qed.

(** *** The nearest double *)

Lemma ulp_pos (x : Q) : (0 < ulp x)%Q.
Proof. apply pow2_pos. Qed.

Lemma nearest_double_eq (x : Q) :
  ~ (x == 0)%Q ->
  (nearest_double x == inject_Z (nearest_even (x / ulp x)) * ulp x)%Q.
Proof.
  intros H. unfold nearest_double.
  destruct (Qeq_bool x 0) eqn:E; [apply Qeq_bool_iff in E; contradiction |].
  apply Qred_correct.
Qed.

Lemma nearest_double_0 (x : Q) : (x == 0)%Q -> nearest_double x = 0%Q.
Proof.
  intros H. unfold nearest_double. apply Qeq_bool_iff in H. rewrite H. reflexivity.
Qed.

Lemma nearest_double_nonneg (x : Q) : (0 <= x)%Q -> (0 <= nearest_double x)%Q.
Proof.
  intros H. destruct (Qeq_dec x 0) as [E | E].
  - rewrite (nearest_double_0 x E). lra.
  - rewrite (nearest_double_eq x E). pose proof (ulp_pos x) as Hu.
    apply Qmult_le_0_compat; [| lra].
    change 0%Q with (inject_Z 0). rewrite <- Zle_Qle.
    apply nearest_even_ge_int. change (inject_Z 0) with 0%Q.
    apply Qle_shift_div_l; [exact Hu | lra].
Qed.

Lemma nearest_double_nonpos (x : Q) : (x <= 0)%Q -> (nearest_double x <= 0)%Q.
Proof.
  intros H. destruct (Qeq_dec x 0) as [E | E].
  - rewrite (nearest_double_0 x E). lra.
  - rewrite (nearest_double_eq x E). pose proof (ulp_pos x) as Hu.
    assert (Hn : (inject_Z (nearest_even (x / ulp x)) <= 0)%Q).
    { change 0%Q with (inject_Z 0). rewrite <- Zle_Qle.
      apply nearest_even_le_int. change (inject_Z 0) with 0%Q.
      apply Qle_shift_div_r; [exact Hu | lra]. }
    assert (Hre : (0 == 0 * ulp x)%Q) by ring.
    rewrite Hre.
    apply Qmult_le_compat_r; [exact Hn | lra].
Qed.

Lemma Qabs_pos_eq (x : Q) : (0 < x)%Q -> Qabs x = x.
Proof.
  destruct x as [[| p | p] d]; intros H; [reflexivity | reflexivity |].
  exfalso. unfold Qlt in H. simpl in H. lia.
Qed.

(** Rounding to the nearest double keeps the order. *)
Lemma nearest_double_mono_pos (x y : Q) :
  (0 < x)%Q -> (x <= y)%Q -> (nearest_double x <= nearest_double y)%Q.
Proof.
  intros Hx Hxy.
  assert (Hy : (0 < y)%Q) by lra.
  rewrite (nearest_double_eq x) by lra. rewrite (nearest_double_eq y) by lra.
  unfold ulp. rewrite (Qabs_pos_eq x Hx), (Qabs_pos_eq y Hy).
  pose proof (ilog2_le x y Hx Hxy) as He.
  pose proof (ilog2_spec x Hx) as [_ Hx2].
  pose proof (ilog2_spec y Hy) as [Hy1 _].
  set (ex := Z.max (ilog2 x) (-1022)). set (ey := Z.max (ilog2 y) (-1022)).
  assert (Hexy : (ex <= ey)%Z) by (unfold ex, ey; lia).
  pose proof (pow2_pos (ex - 52)) as Hux. pose proof (pow2_pos (ey - 52)) as Huy.
  destruct (Z.eq_dec ex ey) as [E | E].
  - rewrite <- E. apply Qmult_le_compat_r; [| lra].
    rewrite <- Zle_Qle. apply nearest_even_mono.
    unfold Qdiv. apply Qmult_le_compat_r; [exact Hxy |].
    apply Qlt_le_weak, Qinv_lt_0_compat. exact Hux.
  - (* the two numbers lie on either side of a power of two *)
    assert (Hey : ey = ilog2 y) by (unfold ex, ey in *; lia).
    assert (Hb1 : (x <= pow2 ey)%Q).
    { apply Qle_trans with (pow2 (ilog2 x + 1)); [lra |].
      apply pow2_le. unfold ex, ey in *. lia. }
    assert (Hb2 : (pow2 ey <= y)%Q) by (rewrite Hey; exact Hy1).
    apply Qle_trans with (pow2 ey).
    + assert (Hq : (pow2 ey == inject_Z (2 ^ (ey - (ex - 52))) * pow2 (ex - 52))%Q).
      { rewrite <- pow2_quotient by lia. field.
        intros H0. pose proof (pow2_pos (ex - 52)). lra. }
      rewrite Hq. apply Qmult_le_compat_r; [| lra].
      rewrite <- Zle_Qle. apply nearest_even_le_int.
      rewrite <- pow2_quotient by lia.
      unfold Qdiv. apply Qmult_le_compat_r; [exact Hb1 |].
      apply Qlt_le_weak, Qinv_lt_0_compat. exact Hux.
    + assert (Hq : (pow2 ey == inject_Z (2 ^ 52) * pow2 (ey - 52))%Q).
      { replace 52%Z with (ey - (ey - 52))%Z at 1 by lia.
        rewrite <- pow2_quotient by lia. field.
        intros H0. pose proof (pow2_pos (ey - 52)). lra. }
      rewrite Hq at 1. apply Qmult_le_compat_r; [| lra].
      rewrite <- Zle_Qle. apply nearest_even_ge_int.
      replace 52%Z with (ey - (ey - 52))%Z at 1 by lia.
      rewrite <- pow2_quotient by lia.
      unfold Qdiv. apply Qmult_le_compat_r; [exact Hb2 |].
      apply Qlt_le_weak, Qinv_lt_0_compat. exact Huy.
Qed.

Lemma nearest_double_mono (x y : Q) :
  (x <= y)%Q -> (0 <= y)%Q -> (nearest_double x <= nearest_double y)%Q.
Proof.
  intros Hxy Hy. destruct (Qlt_le_dec 0 x) as [Hx | Hx].
  - apply nearest_double_mono_pos; assumption.
  - apply Qle_trans with 0%Q;
      [apply nearest_double_nonpos; exact Hx | apply nearest_double_nonneg; exact Hy].
Qed.

Lemma ilog2_comp (x y : Q) : (0 < x)%Q -> (x == y)%Q -> ilog2 x = ilog2 y.
Proof.
  intros Hx H. apply Z.le_antisymm; apply ilog2_le; lra.
Qed.

Lemma Qabs_pos_iff (x : Q) : ~ (x == 0)%Q -> (0 < Qabs x)%Q.
Proof.
  intros E. pose proof (Qabs_nonneg x).
  destruct (Qeq_dec (Qabs x) 0) as [Z0 | Z0]; [| lra].
  exfalso. apply E. revert Z0. apply Qabs_case; intros; lra.
Qed.

Lemma nearest_double_comp (x y : Q) : (x == y)%Q -> (nearest_double x == nearest_double y)%Q.
Proof.
  intros H. destruct (Qeq_dec x 0) as [E | E].
  - rewrite (nearest_double_0 x E), (nearest_double_0 y); [reflexivity | lra].
  - rewrite (nearest_double_eq x E). rewrite (nearest_double_eq y) by lra.
    assert (Hu : ulp x = ulp y).
    { unfold ulp. f_equal. f_equal. f_equal.
      apply ilog2_comp; [apply Qabs_pos_iff; exact E | rewrite H; reflexivity]. }
    rewrite Hu.
    assert (Hn : nearest_even (x / ulp y) = nearest_even (y / ulp y)).
    { apply Z.le_antisymm; apply nearest_even_mono; rewrite H; lra. }
    rewrite Hn. reflexivity.
Qed.

(** The error of one rounding, for a number of at most 128 in absolute
    value. *)
Lemma nearest_double_error (x : Q) :
  (Qabs x <= 128)%Q -> (Qabs (nearest_double x - x) <= 1 # 70368744177664)%Q.
Proof.
  intros Hx. destruct (Qeq_dec x 0) as [E | E].
  - rewrite (nearest_double_0 x E). rewrite E. discriminate.
  - rewrite (nearest_double_eq x E).
    pose proof (Qabs_pos_iff x E) as Ha.
    pose proof (ilog2_spec (Qabs x) Ha) as [H1 _].
    assert (He : (ilog2 (Qabs x) <= 7)%Z).
    { apply pow2_le_inv. change (pow2 7) with 128%Q. lra. }
    pose proof (ulp_pos x) as Hu.
    assert (Hu2 : (ulp x <= 1 # 35184372088832)%Q).
    { unfold ulp. change (1 # 35184372088832)%Q with (pow2 (-45)).
      apply pow2_le. lia. }
    pose proof (nearest_even_error (x / ulp x)) as Hn.
    set (n := inject_Z (nearest_even (x / ulp x))) in *.
    assert (Hq : (n * ulp x - x == (n - x / ulp x) * ulp x)%Q).
    { field. lra. }
    rewrite Hq, Qabs_Qmult, (Qabs_pos (ulp x)) by lra.
    apply Qle_trans with ((1 # 2) * ulp x)%Q.
    + apply Qmult_le_compat_r; [exact Hn | lra].
    + lra.
Qed.

End Doubles.

(** ** The scores in double precision *)

Section DoubleScores.
Context {P : Platform}.

Lemma nearest_double_le_const (x c : Q) :
  (x <= c)%Q -> (0 <= c)%Q -> (Binary64.nearest_double c == c)%Q ->
  (Binary64.nearest_double x <= c)%Q.
Proof.
  intros Hx Hc Hr. rewrite <- Hr. apply nearest_double_mono; assumption.
Qed.

Lemma Qabs_bounds (x y e : Q) :
  (Qabs (x - y) <= e)%Q -> (y - e <= x <= y + e)%Q.
Proof. intros H. apply Qabs_Qle_condition in H. split; lra. Qed.

(** *** The component scores lie between 0 and 100 *)

Lemma double_calculateSkillMatch_range job us ss :
  Binary64.calculateSkillMatch job us = Ok ss -> in_range (skill_score ss).
Proof.
  unfold Binary64.calculateSkillMatch.
  destruct (length (parseSkillsString (job_skillsRequired job)) =? 0)%nat eqn:E.
  - intros [= <-]. simpl. apply in_range_const. reflexivity.
  - destruct (match_loop _ _ [] []) as [[m ms] | e] eqn:L; [| discriminate].
    intros [= <-]. simpl. apply match_loop_length in L. simpl in L.
    apply Nat.eqb_neq in E.
    set (t := length (parseSkillsString (job_skillsRequired job))) in *.
    assert (Hb : (0 < inject_Z (Z.of_nat t))%Q).
    { change 0%Q with (inject_Z 0). rewrite <- Zlt_Qlt. lia. }
    assert (Ha : (0 <= inject_Z (Z.of_nat (length m)))%Q).
    { change 0%Q with (inject_Z 0). rewrite <- Zle_Qle. lia. }
    assert (Hle : (inject_Z (Z.of_nat (length m)) <= inject_Z (Z.of_nat t))%Q).
    { rewrite <- Zle_Qle. lia. }
    set (q := (inject_Z (Z.of_nat (length m)) / inject_Z (Z.of_nat t))%Q).
    assert (Hq : (0 <= q <= 1)%Q).
    { unfold q. split.
      - apply Qle_shift_div_l; [exact Hb | lra].
      - apply Qle_shift_div_r; [exact Hb | lra]. }
    assert (Hr : (0 <= Binary64.div (inject_Z (Z.of_nat (length m)))
                         (inject_Z (Z.of_nat t)) <= 1)%Q).
    { unfold Binary64.div. fold q. split.
      - apply nearest_double_nonneg. lra.
      - apply nearest_double_le_const; [lra | lra | reflexivity]. }
    apply Math_round_range. unfold Binary64.mul. split.
    + apply nearest_double_nonneg. lra.
    + apply nearest_double_le_const; [lra | lra | reflexivity].
Qed.

(** A score of the form [Math.max(lo, 100 - x * c)], for a number [x] that
    is not negative. *)
Lemma penalty_range (lo x c : Q) :
  (0 <= lo <= 100)%Q -> (0 <= x)%Q -> (0 <= c)%Q ->
  in_range (Math_max lo (Binary64.sub 100 (Binary64.mul x c))).
Proof.
  intros Hlo Hx Hc. apply Math_max_range; [exact Hlo |].
  assert (Hm : (0 <= Binary64.mul x c)%Q).
  { apply nearest_double_nonneg. apply Qmult_le_0_compat; assumption. }
  unfold Binary64.sub. apply nearest_double_le_const; [lra | lra | reflexivity].
Qed.

Lemma double_calculateExperienceMatch_range today job exps :
  in_range (score (Binary64.calculateExperienceMatch today job exps)).
Proof.
  unfold Binary64.calculateExperienceMatch.
  destruct (negb (truthy (job_experienceMin job)) &&
            negb (truthy (job_experienceMax job))).
  { apply in_range_const. reflexivity. }
  set (years := Binary64.calculateTotalYears today exps).
  set (lo := match job_experienceMin job with Some v => v | None => 0%Z end).
  destruct (Qle_bool (inject_Z lo) years && _) eqn:E1.
  { apply in_range_const. reflexivity. }
  destruct (Qlt_bool years (inject_Z lo)) eqn:E2.
  - simpl. apply Qlt_bool_iff in E2.
    apply penalty_range; [split; lra | | lra].
    apply nearest_double_nonneg. lra.
  - destruct (truthy (job_experienceMax job)) eqn:T;
      [| apply in_range_const; reflexivity].
    destruct (job_experienceMax job) as [hi |] eqn:M;
      [| apply in_range_const; reflexivity].
    simpl.
    assert (Hlo : (inject_Z lo <= years)%Q).
    { unfold Qlt_bool in E2. apply negb_false_iff in E2.
      apply Qle_bool_iff in E2. exact E2. }
    apply Qle_bool_iff in Hlo. rewrite Hlo in E1. simpl in E1.
    assert (Hhi : (inject_Z hi < years)%Q).
    { apply Qlt_bool_iff. unfold Qlt_bool. rewrite E1. reflexivity. }
    apply penalty_range; [split; lra | | lra].
    apply nearest_double_nonneg. lra.
Qed.

Lemma double_calculateSalaryMatch_range job targets :
  target_valid targets -> in_range (score (Binary64.calculateSalaryMatch job targets)).
Proof.
  unfold target_valid, Binary64.calculateSalaryMatch. intros Hv.
  destruct (negb (truthy (job_salaryMin job)) && negb (truthy (job_salaryMax job))).
  { apply in_range_const. reflexivity. }
  destruct (truthy (opt_field targets minSalary)) eqn:T; simpl;
    [| apply in_range_const; reflexivity].
  set (tmin := num (opt_field targets minSalary)) in *.
  assert (Hpos : (0 < tmin)%Z).
  { unfold tmin, truthy, num in *. destruct (opt_field targets minSalary); [| discriminate].
    apply negb_true_iff, Z.eqb_neq in T. lia. }
  destruct (truthy (job_salaryMax job) && (num (job_salaryMax job) <? tmin)%Z) eqn:E.
  - simpl. apply andb_true_iff in E as [_ E]. apply Z.ltb_lt in E.
    assert (Hq : (0 < inject_Z tmin)%Q).
    { change 0%Q with (inject_Z 0). rewrite <- Zlt_Qlt. exact Hpos. }
    assert (Hlt : (inject_Z (num (job_salaryMax job)) < inject_Z tmin)%Q).
    { rewrite <- Zlt_Qlt. exact E. }
    assert (Hd : (0 <= Binary64.sub (inject_Z tmin) (inject_Z (num (job_salaryMax job))))%Q).
    { apply nearest_double_nonneg. lra. }
    assert (Hr : (0 <= Binary64.div
                        (Binary64.sub (inject_Z tmin) (inject_Z (num (job_salaryMax job))))
                        (inject_Z tmin))%Q).
    { apply nearest_double_nonneg. apply Qle_shift_div_l; [exact Hq | lra]. }
    assert (Hg : (0 <= Binary64.mul
                        (Binary64.div
                           (Binary64.sub (inject_Z tmin)
                              (inject_Z (num (job_salaryMax job))))
                           (inject_Z tmin)) 100)%Q).
    { apply nearest_double_nonneg. lra. }
    apply Math_max_range; [split; lra |].
    unfold Binary64.sub at 1. apply nearest_double_le_const; [lra | lra | reflexivity].
  - destruct (_ && _ && _); apply in_range_const; reflexivity.
Qed.

(** *** The weighted sum *)

Lemma literals :
  Binary64.literal_0_3 = (5404319552844595 # 18014398509481984)%Q /\
  Binary64.literal_0_2 = (3602879701896397 # 18014398509481984)%Q /\
  Binary64.literal_0_1 = (3602879701896397 # 36028797018963968)%Q.
Proof. vm_compute. repeat split. Qed.

Lemma double_step (x : Q) :
  (- 128 <= x <= 128)%Q ->
  (x - (1 # 70368744177664) <= Binary64.nearest_double x
   <= x + (1 # 70368744177664))%Q.
Proof.
  intros Hx. apply Qabs_bounds. apply nearest_double_error.
  apply Qabs_Qle_condition. lra.
Qed.

(** The sum in doubles is the exact sum up to the rounding error. *)
Lemma weighted_sum_close (a b c d e : Q) :
  in_range a -> in_range b -> in_range c -> in_range d -> in_range e ->
  (Qabs (Binary64.weighted_sum a b c d e -
         (a * (3 # 10) + b * (3 # 10) + c * (2 # 10) + d * (1 # 10) + e * (1 # 10)))
   <= rounding_error)%Q.
Proof.
  unfold in_range, rounding_error, Binary64.weighted_sum, Binary64.add, Binary64.mul.
  destruct literals as (-> & -> & ->).
  intros Ha Hb Hc Hd He.
  pose proof (double_step (a * (5404319552844595 # 18014398509481984)) ltac:(lra)) as P1.
  pose proof (double_step (b * (5404319552844595 # 18014398509481984)) ltac:(lra)) as P2.
  pose proof (double_step (c * (3602879701896397 # 18014398509481984)) ltac:(lra)) as P3.
  pose proof (double_step (d * (3602879701896397 # 36028797018963968)) ltac:(lra)) as P4.
  pose proof (double_step (e * (3602879701896397 # 36028797018963968)) ltac:(lra)) as P5.
  set (p1 := Binary64.nearest_double (a * _)) in *.
  set (p2 := Binary64.nearest_double (b * _)) in *.
  set (p3 := Binary64.nearest_double (c * _)) in *.
  set (p4 := Binary64.nearest_double (d * _)) in *.
  set (p5 := Binary64.nearest_double (e * _)) in *.
  pose proof (double_step (p1 + p2) ltac:(lra)) as S1.
  set (s1 := Binary64.nearest_double (p1 + p2)) in *.
  pose proof (double_step (s1 + p3) ltac:(lra)) as S2.
  set (s2 := Binary64.nearest_double (s1 + p3)) in *.
  pose proof (double_step (s2 + p4) ltac:(lra)) as S3.
  set (s3 := Binary64.nearest_double (s2 + p4)) in *.
  pose proof (double_step (s3 + p5) ltac:(lra)) as S4.
  set (s4 := Binary64.nearest_double (s3 + p5)) in *.
  apply Qabs_Qle_condition. split; lra.
Qed.

Lemma Math_round_close (x y : Q) :
  (Qabs (x - y) <= 1)%Q ->
  (Qabs (inject_Z (Math_round x) - inject_Z (Math_round y)) <= 1)%Q.
Proof.
  intros H. apply Qabs_Qle_condition in H. unfold Math_round.
  pose proof (Qfloor_le (x + (1 # 2))) as X1. pose proof (Qlt_floor (x + (1 # 2))) as X2.
  pose proof (Qfloor_le (y + (1 # 2))) as Y1. pose proof (Qlt_floor (y + (1 # 2))) as Y2.
  set (fx := Qfloor (x + (1 # 2))) in *. set (fy := Qfloor (y + (1 # 2))) in *.
  rewrite inject_Z_plus in X2, Y2. change (inject_Z 1) with 1%Q in X2, Y2.
  assert (H1 : (fx < fy + 2)%Z).
  { rewrite Zlt_Qlt, inject_Z_plus. change (inject_Z 2) with 2%Q. lra. }
  assert (H2 : (fy < fx + 2)%Z).
  { rewrite Zlt_Qlt, inject_Z_plus. change (inject_Z 2) with 2%Q. lra. }
  assert (E1 : (inject_Z fx < inject_Z fy + 2)%Q).
  { rewrite Zlt_Qlt, inject_Z_plus in H1. exact H1. }
  assert (E2 : (inject_Z fy < inject_Z fx + 2)%Q).
  { rewrite Zlt_Qlt, inject_Z_plus in H2. exact H2. }
  assert (L1 : (fx <= fy + 1)%Z) by lia.
  assert (L2 : (fy <= fx + 1)%Z) by lia.
  rewrite Zle_Qle, inject_Z_plus in L1, L2. change (inject_Z 1) with 1%Q in L1, L2.
  apply Qabs_Qle_condition. split; lra.
Qed.

(** What follows for a breakdown whose overall score is the rounded sum in
    doubles of components in range. *)
Lemma rounded_double_sum_scores (r : ScoreResult) :
  rounded_double_sum r ->
  in_range (semanticScore r) -> in_range (skillMatchScore r) ->
  in_range (experienceMatchScore r) -> in_range (salaryMatchScore r) ->
  in_range (locationMatchScore r) ->
  (Qabs (double_weighted_sum r - exact_weighted_sum r) <= rounding_error)%Q /\
  (Qabs (overallScore r - inject_Z (Math_round (exact_weighted_sum r))) <= 1)%Q /\
  scores_in_range r.
Proof.
  intros Hr H1 H2 H3 H4 H5.
  assert (Hc : (Qabs (double_weighted_sum r - exact_weighted_sum r) <= rounding_error)%Q).
  { unfold double_weighted_sum, exact_weighted_sum.
    exact (weighted_sum_close _ _ _ _ _ H1 H2 H3 H4 H5). }
  split; [exact Hc |].
  assert (Hx : (0 <= exact_weighted_sum r <= 100)%Q).
  { unfold exact_weighted_sum, in_range in *. split; lra. }
  unfold rounding_error in Hc. apply Qabs_bounds in Hc.
  split.
  - rewrite Hr. apply Math_round_close. apply Qabs_Qle_condition. split; lra.
  - unfold scores_in_range. split; [| tauto].
    rewrite Hr. unfold in_range, Math_round. split.
    + change 0%Q with (inject_Z 0). rewrite <- Zle_Qle.
      change 0%Z with (Qfloor (1 # 4)). apply Qfloor_resp_le. lra.
    + change 100%Q with (inject_Z 100). rewrite <- Zle_Qle.
      change 100%Z with (Qfloor (100 + (3 # 4))). apply Qfloor_resp_le. lra.
Qed.

(** *** What [scoreJob] returns *)

Lemma double_scoreJob_cases (userId : string) (job : Job) (w : World) :
  exists r w',
    Binary64.scoreJob userId job w = (Ok r, w') /\
    (r = neutral_result \/
     exists skillScore,
       Binary64.calculateSkillMatch job (user_skills userId (db w)) = Ok skillScore /\
       r = Binary64.score_result skillScore
             (Binary64.calculateExperienceMatch (now w) job (user_experiences userId (db w)))
             (Binary64.calculateSalaryMatch job (user_target userId (db w)))
             (calculateLocationMatch job (user_target userId (db w)))).
Proof.
  destruct w as [d t n reg h].
  unfold Binary64.scoreJob, try_catch, Binary64.scoreJob_try, bind, Promise_both,
    skill_findMany, jobTarget_findUnique, experience_findMany, jobScore_upsert,
    prisma, lift, new_Date, ret; simpl.
  destruct d as [sk jt ex jb sc rn].
  destruct (prisma_rejects n SkillFindMany); simpl;
    (destruct (prisma_rejects (S n) JobTargetFindUnique); simpl;
     (destruct (prisma_rejects (S (S n)) ExperienceFindMany); simpl;
      try (eexists; eexists; split; [reflexivity | left; reflexivity]))).
  destruct (Binary64.calculateSkillMatch job _) as [ss | e] eqn:Hss; simpl;
    [| eexists; eexists; split; [reflexivity | left; reflexivity]].
  destruct (prisma_rejects (S (S (S n))) JobScoreUpsert); simpl;
    [eexists; eexists; split; [reflexivity | left; reflexivity] |].
  eexists. eexists. split; [reflexivity |]. right. exists ss. split; reflexivity.
Qed.

End DoubleScores.

(** C1, as amended.  Whatever the job and the stored profile, provided the
    user's minimum salary target is not negative, [scoreJob] returns a
    breakdown whose six scores lie between 0 and 100 and whose overall score
    is [Math.round] of the weighted sum (weights 0.3, 0.3, 0.2, 0.1, 0.1) of
    its semantic, skill, experience, salary and location scores as the
    engine adds it up in doubles.  That sum is the exact weighted sum up to
    2^-40, so the overall score is the exactly rounded weighted sum up to
    one: the two differ when the exact sum is a half that the sum in doubles
    misses. *)
Theorem C1_scores_weighted_and_bounded `{P : Platform}
    (userId : string) (job : Job) (w : World) :
  target_valid (user_target userId (db w)) ->
  exists r w',
    Binary64.scoreJob userId job w = (Ok r, w') /\
    rounded_double_sum r /\
    (Qabs (double_weighted_sum r - exact_weighted_sum r) <= rounding_error)%Q /\
    (Qabs (overallScore r - inject_Z (Math_round (exact_weighted_sum r))) <= 1)%Q /\
    scores_in_range r.
Proof.
  intros Hv.
  destruct (double_scoreJob_cases userId job w) as (r & w' & Hrun & Hr).
  exists r, w'. split; [exact Hrun |].
  assert (Hsum : rounded_double_sum r).
  { destruct Hr as [-> | (ss & _ & ->)]; [vm_compute; reflexivity |].
    unfold rounded_double_sum, double_weighted_sum, Binary64.score_result.
    cbn [overallScore semanticScore skillMatchScore experienceMatchScore
         salaryMatchScore locationMatchScore].
    reflexivity. }
  split; [exact Hsum |].
  apply rounded_double_sum_scores; [exact Hsum | ..];
    destruct Hr as [-> | (ss & Hss & ->)];
    try (apply in_range_const; reflexivity); simpl.
  - eapply double_calculateSkillMatch_range; exact Hss.
  - apply double_calculateExperienceMatch_range.
  - apply double_calculateSalaryMatch_range; exact Hv.
  - apply calculateLocationMatch_range.
Qed.

(** A salary target of 25 lakh against a posting that pays 20 lakh at most:
    the salary score is 80, the overall score 77. *)
Lemma C1_scores_weighted_and_bounded_witness :
  target_valid (user_target Sample.user (db (Sample.world (Sample.profile (Some 2500000%Z)) Sample.nov_2026))) /\
  exists r w',
    @Binary64.scoreJob Sample.platform Sample.user
      (Sample.with_salaryMax 2000000 (Sample.bare_job 1 "p-1"))
      (Sample.world (Sample.profile (Some 2500000%Z)) Sample.nov_2026) = (Ok r, w') /\
    rounded_double_sum r /\ scores_in_range r.
Proof.
  assert (Hv : target_valid
                 (user_target Sample.user
                    (db (Sample.world (Sample.profile (Some 2500000%Z)) Sample.nov_2026))))
    by (vm_compute; discriminate).
  split; [exact Hv |].
  destruct (@C1_scores_weighted_and_bounded Sample.platform Sample.user
              (Sample.with_salaryMax 2000000 (Sample.bare_job 1 "p-1")) _ Hv)
    as (r & w' & Hrun & Hsum & _ & _ & Hrange).
  exists r, w'. split; [exact Hrun |]. split; [exact Hsum | exact Hrange].
Defined.

(** C1 as stated fails at a tie.  Two of three required skills matched
    (67), no experience requirement (80), a maximum salary 66 per cent below
    the target (34) and a posting that is not remote for a user who wants
    remote work (30): the weighted sum is 21 + 20.1 + 16 + 3.4 + 3 = 63.5,
    which rounds to 64; the engine adds the five products up to
    63.49999999999999 and answers 63. *)
Lemma C1_counterexample :
  target_valid (user_target Sample.user Sample.remote_profile) /\
  exists r w',
    @Binary64.scoreJob Sample.platform Sample.user Sample.rust_job
      (Sample.world Sample.remote_profile Sample.nov_2026) = (Ok r, w') /\
    semanticScore r = 70%Q /\ skillMatchScore r = 67%Q /\
    experienceMatchScore r = 80%Q /\ salaryMatchScore r = 34%Q /\
    locationMatchScore r = 30%Q /\
    (exact_weighted_sum r == 127 # 2)%Q /\
    (double_weighted_sum r < 127 # 2)%Q /\
    overallScore r = 63%Q /\
    inject_Z (Math_round (exact_weighted_sum r)) = 64%Q /\
    ~ weighted_sum_of_components r.
Proof.
  split; [vm_compute; discriminate |].
  eexists. eexists. split; [vm_compute; reflexivity |].
  do 9 (split; [vm_compute; reflexivity |]).
  intros H. vm_compute in H. discriminate.
Qed.

(** ** Failures of a scoring run *)

Section ScoreFailures.
Context {P : Platform}.

Lemma neutral_result_is_neutral : is_neutral neutral_result.
Proof. repeat split. Qed.

(** A rejected read, a rejected write and a TypeError of the skill match all
    end in the neutral result. *)
Lemma scoreJob_rejected_read userId job w e :
  prisma_rejects (tick w) SkillFindMany = Some e ->
  fst (scoreJob userId job w) = Ok neutral_result.
Proof.
  intros H. rewrite scoreJob_run, scoreJob_try_run, H. reflexivity.
Qed.

Lemma scoreJob_skill_match_throws userId job w e :
  (forall n call, prisma_rejects n call = None) ->
  calculateSkillMatch job (user_skills userId (db w)) = Throw e ->
  fst (scoreJob userId job w) = Ok neutral_result.
Proof.
  intros H E. rewrite scoreJob_run, scoreJob_try_run, !H, E. reflexivity.
Qed.

Lemma scoreJob_rejected_write userId job w e :
  prisma_rejects (tick w) SkillFindMany = None ->
  prisma_rejects (S (tick w)) JobTargetFindUnique = None ->
  prisma_rejects (S (S (tick w))) ExperienceFindMany = None ->
  prisma_rejects (3 + tick w) JobScoreUpsert = Some e ->
  fst (scoreJob userId job w) = Ok neutral_result.
Proof.
  intros H0 H1 H2 H3. rewrite scoreJob_run, scoreJob_try_run, H0, H1, H2.
  destruct (calculateSkillMatch job _); [| reflexivity].
  simpl. simpl in H3. rewrite H3. reflexivity.
Qed.

(** The loop of the batch entry point gets through every job. *)
Lemma scoreJobs_loop_total userId jobs : forall results w,
  exists scored w',
    scoreJobs_loop userId jobs results w = (Ok (results ++ scored), w') /\
    map fst scored = map job_id jobs.
Proof.
  induction jobs as [| job jobs IH]; intros results w; simpl.
  - exists [], w. rewrite app_nil_r. split; reflexivity.
  - unfold bind. rewrite scoreJob_run.
    destruct (scoreJob_try userId job w) as [[r | e] w1].
    + destruct (IH (results ++ [(job_id job, r)]) w1) as (scored & w' & E & Hm).
      exists ((job_id job, r) :: scored), w'. rewrite E, <- app_assoc.
      split; [reflexivity | simpl; rewrite Hm; reflexivity].
    + destruct (IH (results ++ [(job_id job, neutral_result)]) w1) as (scored & w' & E & Hm).
      exists ((job_id job, neutral_result) :: scored), w'. rewrite E, <- app_assoc.
      split; [reflexivity | simpl; rewrite Hm; reflexivity].
Qed.

End ScoreFailures.

(** C2.  [scoreJob] never throws: it returns the breakdown its guarded block
    computed or, when anything in that block threw, the neutral result (six
    scores of 50, no matched and no missing skills, the three analyses
    "Unable to analyze", an error note in the cons); and so the scoring loop
    of a batch returns one entry per job, whatever happens to single jobs. *)
Theorem C2_scoreJob_never_throws `{P : Platform}
    (userId : string) (job : Job) (w : World) :
  (exists r w',
     scoreJob userId job w = (Ok r, w') /\
     (scoreJob_try userId job w = (Ok r, w') \/
      (exists e, scoreJob_try userId job w = (Throw e, w')) /\ is_neutral r)) /\
  (forall jobs, exists scored w',
     scoreJobs_loop userId jobs [] w = (Ok scored, w') /\
     map fst scored = map job_id jobs).
Proof.
  split.
  - rewrite scoreJob_run.
    destruct (scoreJob_try userId job w) as [[r | e] w'].
    + exists r, w'. split; [reflexivity | left; reflexivity].
    + exists neutral_result, w'. split; [reflexivity |]. right.
      split; [exists e; reflexivity | apply neutral_result_is_neutral].
  - intros jobs. destruct (scoreJobs_loop_total userId jobs [] w) as (s & w' & E & H).
    exists s, w'. split; assumption.
Qed.

(** ** Determinism and effects of [scoreJob] *)

Lemma months_of_same_month t1 t2 exp :
  same_month t1 t2 -> months_of t1 exp = months_of t2 exp.
Proof.
  intros [Hy Hm]. unfold months_of.
  destruct (isCurrent exp); [rewrite Hy, Hm; reflexivity |].
  destruct (endDate exp); [reflexivity | rewrite Hy, Hm; reflexivity].
Qed.

Lemma calculateTotalYears_same_month t1 t2 exps :
  same_month t1 t2 -> calculateTotalYears t1 exps = calculateTotalYears t2 exps.
Proof.
  intros H. unfold calculateTotalYears.
  assert (Hfold : forall acc,
    fold_left (fun total exp =>
                 if (0 <? months_of t1 exp)%Z then (total + months_of t1 exp)%Z
                 else total) exps acc =
    fold_left (fun total exp =>
                 if (0 <? months_of t2 exp)%Z then (total + months_of t2 exp)%Z
                 else total) exps acc).
  { induction exps as [| e exps IH]; intros acc; simpl.
    - reflexivity.
    - rewrite (months_of_same_month t1 t2 e H). apply IH. }
  rewrite Hfold. reflexivity.
Qed.

Lemma calculateExperienceMatch_same_month t1 t2 job exps :
  same_month t1 t2 ->
  calculateExperienceMatch t1 job exps = calculateExperienceMatch t2 job exps.
Proof.
  intros H. unfold calculateExperienceMatch.
  rewrite (calculateTotalYears_same_month t1 t2 exps H). reflexivity.
Qed.

Section Effects.
Context {P : Platform}.

Lemma breakdown_not_neutral userId job d today skillScore :
  ~ is_neutral (breakdown_of userId job d today skillScore).
Proof. intros (_ & H & _). simpl in H. discriminate. Qed.

Lemma scoreJob_deterministic userId job w1 w2 :
  same_profile userId (db w1) (db w2) ->
  same_month (now w1) (now w2) ->
  rejections w1 = rejections w2 ->
  fst (scoreJob userId job w1) = fst (scoreJob userId job w2).
Proof.
  intros (Hs & Ht & He) Hm Hr.
  rewrite !scoreJob_run, !scoreJob_try_run. unfold breakdown_of.
  rewrite Hs, Ht, He, (calculateExperienceMatch_same_month _ _ _ _ Hm).
  unfold rejections, rejected in Hr. simpl in Hr.
  destruct (prisma_rejects (tick w1) SkillFindMany),
    (prisma_rejects (tick w2) SkillFindMany),
    (prisma_rejects (S (tick w1)) JobTargetFindUnique),
    (prisma_rejects (S (tick w2)) JobTargetFindUnique),
    (prisma_rejects (S (S (tick w1))) ExperienceFindMany),
    (prisma_rejects (S (S (tick w2))) ExperienceFindMany);
    try discriminate; try reflexivity.
  destruct (calculateSkillMatch job _); [| reflexivity].
  simpl.
  destruct (prisma_rejects (S (S (S (tick w1)))) JobScoreUpsert),
    (prisma_rejects (S (S (S (tick w2)))) JobScoreUpsert);
    try discriminate; reflexivity.
Qed.

(** The run of [scoreJob]: it answers with the neutral result and leaves
    the database as it was, or it answers with the breakdown and has stored
    it; the second it does when none of its four calls rejects and the skill
    match goes through. *)
Lemma scoreJob_effect userId job w :
  exists r n,
    (scoreJob userId job w = (Ok r, set_tick n w) /\ r = neutral_result \/
     scoreJob userId job w
     = (Ok r, set_db (with_score (job_id job) userId r (db w)) (set_tick n w)) /\
     rejections w = [false; false; false; false] /\
     exists skillScore,
       calculateSkillMatch job (user_skills userId (db w)) = Ok skillScore /\
       r = breakdown_of userId job (db w) (now w) skillScore) /\
    (rejections w = [false; false; false; false] ->
     forall skillScore,
       calculateSkillMatch job (user_skills userId (db w)) = Ok skillScore ->
       r = breakdown_of userId job (db w) (now w) skillScore).
Proof.
  rewrite scoreJob_run, scoreJob_try_run. unfold rejections, rejected. simpl.
  destruct (prisma_rejects (tick w) SkillFindMany);
    [eexists _, _; split; [left; split; reflexivity | discriminate] |].
  destruct (prisma_rejects (S (tick w)) JobTargetFindUnique);
    [eexists _, _; split; [left; split; reflexivity | discriminate] |].
  destruct (prisma_rejects (S (S (tick w))) ExperienceFindMany);
    [eexists _, _; split; [left; split; reflexivity | discriminate] |].
  destruct (calculateSkillMatch job _) as [ss | e] eqn:Hss;
    [| eexists _, _; split; [left; split; reflexivity | intros _ ss; discriminate]].
  simpl.
  destruct (prisma_rejects (S (S (S (tick w)))) JobScoreUpsert);
    [eexists _, _; split; [left; split; reflexivity | discriminate] |].
  eexists _, _. split.
  - right. split; [reflexivity |]. split; [reflexivity |]. exists ss. split; reflexivity.
  - intros _ ss' [= <-]. reflexivity.
Qed.

End Effects.

(** C5, as amended.  [scoreJob] is deterministic in the job, the stored
    profile of the user, the calendar month of the call and the Prisma calls
    of the run that reject: two invocations that agree on these return the
    same breakdown, whatever else the world holds and however many calls
    went before; so does a second run right after the first.  It is not
    free of effects.  When it answers with the neutral result, it leaves
    the database as it was; otherwise it has set the score row of
    (jobId, userId) to the breakdown it returns, and this it does whenever
    none of its four calls rejects and the skill match goes through.  It
    touches nothing else. *)
Theorem C5_scoreJob_deterministic_and_framed `{P : Platform}
    (userId : string) (job : Job) (w1 w2 : World) :
  same_profile userId (db w1) (db w2) ->
  same_month (now w1) (now w2) ->
  rejections w1 = rejections w2 ->
  fst (scoreJob userId job w1) = fst (scoreJob userId job w2) /\
  exists r w',
    scoreJob userId job w1 = (Ok r, w') /\
    now w' = now w1 /\ scrapers w' = scrapers w1 /\
    sourceHealth w' = sourceHealth w1 /\
    (is_neutral r -> db w' = db w1) /\
    (~ is_neutral r ->
     db w' = with_score (job_id job) userId r (db w1) /\
     jobScores (db w') !! (job_id job, userId) = Some r) /\
    (rejections w1 = [false; false; false; false] ->
     forall skillScore,
       calculateSkillMatch job (user_skills userId (db w1)) = Ok skillScore ->
       r = breakdown_of userId job (db w1) (now w1) skillScore /\ ~ is_neutral r) /\
    (rejections w' = rejections w1 -> fst (scoreJob userId job w') = Ok r).
Proof.
  intros Hp Hm Hr. split; [exact (scoreJob_deterministic userId job w1 w2 Hp Hm Hr) |].
  destruct (scoreJob_effect userId job w1) as (r & n & Hrun & Hforced).
  assert (Hfirst : forall w', scoreJob userId job w1 = (Ok r, w') ->
            now w' = now w1 -> same_profile userId (db w1) (db w') ->
            rejections w' = rejections w1 -> fst (scoreJob userId job w') = Ok r).
  { intros w' Hw' Hn Hsame Hrej.
    rewrite <- (scoreJob_deterministic userId job w1 w' Hsame); [rewrite Hw'; reflexivity | |].
    - rewrite Hn. split; reflexivity.
    - symmetry. exact Hrej. }
  destruct Hrun as [[Hrun ->] | (Hrun & Hnone & ss & Hss & Hb)].
  - exists neutral_result, (set_tick n w1). split; [exact Hrun |].
    assert (Hd : db (set_tick n w1) = db w1) by (destruct w1; reflexivity).
    split; [destruct w1; reflexivity |]. split; [destruct w1; reflexivity |].
    split; [destruct w1; reflexivity |].
    split; [intros _; exact Hd |].
    split; [intros Hnot; exfalso; apply Hnot, neutral_result_is_neutral |].
    split.
    + intros Hnone ss Hss. exfalso.
      pose proof (Hforced Hnone ss Hss) as E.
      apply (breakdown_not_neutral userId job (db w1) (now w1) ss).
      rewrite <- E. apply neutral_result_is_neutral.
    + apply Hfirst; [exact Hrun | destruct w1; reflexivity |].
      rewrite Hd. repeat split.
  - set (w' := set_db (with_score (job_id job) userId r (db w1)) (set_tick n w1)).
    exists r, w'. split; [exact Hrun |].
    assert (Hnot : ~ is_neutral r)
      by (rewrite Hb; apply breakdown_not_neutral).
    split; [destruct w1; reflexivity |]. split; [destruct w1; reflexivity |].
    split; [destruct w1; reflexivity |].
    split; [intros Hn; contradiction |].
    split.
    + intros _. split; [destruct w1; reflexivity |].
      unfold w'. destruct w1 as [d t k reg h]. simpl. destruct d. simpl.
      apply lookup_insert_eq.
    + split.
      * intros _ ss' Hss'. split; [| exact Hnot]. congruence.
      * apply Hfirst; [exact Hrun | destruct w1; reflexivity |].
        unfold w'. destruct w1 as [d t k reg h]. destruct d. repeat split.
Qed.

(** Two runs in a row in November 2026: the second starts four Prisma
    calls after the first and finds the score of the first in the table. *)
Lemma C5_scoreJob_deterministic_and_framed_witness :
  same_profile Sample.user (db Sample.morning) (db Sample.scored_once) /\
  same_month (now Sample.morning) (now Sample.scored_once) /\
  @rejections Sample.platform Sample.morning
    = @rejections Sample.platform Sample.scored_once /\
  tick Sample.morning = 0%nat /\ tick Sample.scored_once = 4%nat /\
  fst (@scoreJob Sample.platform Sample.user Sample.senior_job Sample.morning) =
  fst (@scoreJob Sample.platform Sample.user Sample.senior_job Sample.scored_once).
Proof.
  assert (Hp : same_profile Sample.user (db Sample.morning) (db Sample.scored_once))
    by (repeat split).
  assert (Hm : same_month (now Sample.morning) (now Sample.scored_once))
    by (split; reflexivity).
  assert (Hr : @rejections Sample.platform Sample.morning
               = @rejections Sample.platform Sample.scored_once) by reflexivity.
  split; [exact Hp |]. split; [exact Hm |]. split; [exact Hr |].
  split; [reflexivity |]. split; [reflexivity |].
  exact (proj1 (@C5_scoreJob_deterministic_and_framed Sample.platform
                  Sample.user Sample.senior_job _ _ Hp Hm Hr)).
Defined.

(** C5 as stated fails twice: a scoring run writes the score row, and the
    same job and profile score differently a year later (an ongoing role
    counts up to the current date). *)
Lemma C5_counterexample :
  db (snd (@scoreJob Sample.platform Sample.user Sample.senior_job Sample.morning))
    <> db Sample.morning /\
  fst (@scoreJob Sample.platform Sample.user Sample.senior_job Sample.morning) <>
  fst (@scoreJob Sample.platform Sample.user Sample.senior_job Sample.next_year).
Proof.
  split.
  - intros H.
    apply (f_equal (fun d => match jobScores d !! (1%nat, Sample.user) with
                             | Some _ => true
                             | None => false
                             end)) in H.
    vm_compute in H. discriminate.
  - intros H.
    apply (f_equal (fun o => match o with
                             | Ok r => Qnum (experienceMatchScore r)
                             | Throw _ => 0%Z
                             end)) in H.
    vm_compute in H. discriminate.
Qed.

(** ** Skill matching *)

Lemma append_cons (c : ascii) (s t : string) :
  (String c s ++ t)%string = String c (s ++ t)%string.
Proof. reflexivity. Qed.

Lemma append_empty (t : string) : ("" ++ t)%string = t.
Proof. reflexivity. Qed.

Lemma prefix_spec (s1 s2 : string) :
  String.prefix s1 s2 = true <-> exists after, s2 = (s1 ++ after)%string.
Proof.
  revert s2. induction s1 as [| a s1 IH]; intros s2.
  - split; [intros _; exists s2; reflexivity | intros _; destruct s2; reflexivity].
  - destruct s2 as [| b s2]; simpl.
    + split; [discriminate | intros [x Hx]; discriminate].
    + destruct (ascii_dec a b) as [-> | Hne].
      * rewrite IH. split; intros [x Hx]; exists x; rewrite append_cons in *; congruence.
      * split; [discriminate | intros [x Hx]; rewrite append_cons in Hx; congruence].
Qed.

Lemma includes_spec (s sub : string) :
  includes s sub = true <-> substring_of sub s.
Proof.
  unfold substring_of. induction s as [| c s IH].
  - change (includes "" sub) with (if String.prefix sub "" then true else false).
    destruct (String.prefix sub "") eqn:E.
    + apply prefix_spec in E as [x Hx]. split; [| reflexivity].
      intros _. exists ""%string, x. exact Hx.
    + split; [discriminate |]. intros (pre & post & H).
      destruct pre; [| discriminate].
      assert (String.prefix sub "" = true) by (apply prefix_spec; exists post; exact H).
      congruence.
  - change (includes (String c s) sub)
      with (if String.prefix sub (String c s) then true else includes s sub).
    destruct (String.prefix sub (String c s)) eqn:E.
    + apply prefix_spec in E as [x Hx]. split; [| reflexivity].
      intros _. exists ""%string, x. exact Hx.
    + rewrite IH. split.
      * intros (pre & post & ->). exists (String c pre), post. reflexivity.
      * intros (pre & post & H). destruct pre as [| c' pre].
        -- assert (String.prefix sub (String c s) = true)
             by (apply prefix_spec; exists post; exact H).
           congruence.
        -- rewrite append_cons in H. injection H as _ ->. exists pre, post. reflexivity.
Qed.

(** *** The matrix of [levenshteinDistance] holds the Levenshtein distances *)

Lemma levenshtein_nil_r (a : list ascii) : levenshtein a [] = length a.
Proof. destruct a; reflexivity. Qed.

Lemma levenshtein_cons (x y : ascii) (a b : list ascii) :
  levenshtein (x :: a) (y :: b) =
  if Ascii.eqb y x then levenshtein a b
  else S (Nat.min (levenshtein a b)
            (Nat.min (levenshtein (x :: a) b) (levenshtein a (y :: b)))).
Proof. reflexivity. Qed.

Lemma distance_row_head (p a b : list ascii) :
  exists rest, distance_row p a b = levenshtein p b :: rest.
Proof. destruct a; eexists; reflexivity. Qed.

(** A step of [lev_row] along row i yields the cells that the recurrence
    defines. *)
Lemma lev_row_spec (c : ascii) (b : list ascii) (a : list ascii) :
  forall p,
    levenshtein p (c :: b) :: lev_row c a (distance_row p a b) (levenshtein p (c :: b))
    = distance_row p a (c :: b).
Proof.
  induction a as [| x a IH]; intros p; [reflexivity |].
  cbn [distance_row lev_row].
  destruct (distance_row_head (x :: p) a b) as [rest E].
  rewrite E. rewrite <- E.
  assert (Hcell : (if Ascii.eqb c x then levenshtein p b
                   else Nat.min (levenshtein p b + 1)
                          (Nat.min (levenshtein p (c :: b) + 1)
                             (levenshtein (x :: p) b + 1)))
                  = levenshtein (x :: p) (c :: b)).
  { rewrite levenshtein_cons. destruct (Ascii.eqb c x); [reflexivity | lia]. }
  rewrite Hcell. f_equal. apply IH.
Qed.

Lemma lev_rows_spec (a : list ascii) (b : list ascii) :
  forall done,
    lev_rows b a (length done) (distance_row [] a done)
    = distance_row [] a (rev b ++ done).
Proof.
  induction b as [| c b IH]; intros done; [reflexivity |].
  cbn [lev_rows rev]. rewrite <- app_assoc. cbn [app].
  rewrite <- (IH (c :: done)). cbn [length]. f_equal.
  exact (lev_row_spec c done a []).
Qed.

Lemma distance_row_nil (a : list ascii) :
  forall p, distance_row p a [] = seq (length p) (S (length a)).
Proof.
  induction a as [| x a IH]; intros p; cbn [distance_row].
  - rewrite levenshtein_nil_r. reflexivity.
  - rewrite levenshtein_nil_r, IH. reflexivity.
Qed.

Lemma distance_row_last (a b : list ascii) :
  forall p d, List.last (distance_row p a b) d = levenshtein (rev a ++ p) b.
Proof.
  induction a as [| x a IH]; intros p d; [reflexivity |].
  cbn [distance_row rev]. rewrite <- app_assoc. cbn [app].
  rewrite <- IH with (d := d).
  destruct (distance_row_head (x :: p) a b) as [rest E]. rewrite E. reflexivity.
Qed.

Lemma length_list_ascii (s : string) :
  length (list_ascii_of_string s) = String.length s.
Proof. induction s; simpl; congruence. Qed.

(** [levenshteinDistance] computes the Levenshtein distance of its
    arguments. *)
Theorem levenshteinDistance_spec (a b : string) :
  levenshteinDistance a b
  = levenshtein (rev (list_ascii_of_string a)) (rev (list_ascii_of_string b)).
Proof.
  unfold levenshteinDistance.
  destruct (String.length a =? 0)%nat eqn:Ea.
  { apply Nat.eqb_eq in Ea. destruct a; [| discriminate].
    simpl. rewrite length_rev, length_list_ascii. reflexivity. }
  destruct (String.length b =? 0)%nat eqn:Eb.
  { apply Nat.eqb_eq in Eb. destruct b; [| discriminate].
    simpl. rewrite levenshtein_nil_r, length_rev, length_list_ascii. reflexivity. }
  change (seq 0 (S (length (list_ascii_of_string a))))
    with (seq (length (@nil ascii)) (S (length (list_ascii_of_string a)))).
  rewrite <- (distance_row_nil (list_ascii_of_string a) []).
  change 0%nat with (length (@nil ascii)) at 1.
  rewrite (lev_rows_spec (list_ascii_of_string a) (list_ascii_of_string b) []).
  rewrite distance_row_last, !app_nil_r. reflexivity.
Qed.

Lemma arr_includes_spec (arr : list string) (x : string) :
  arr_includes arr x = true <-> In x arr.
Proof.
  unfold arr_includes. rewrite existsb_exists. split.
  - intros (y & Hy & E). apply String.eqb_eq in E. subst. exact Hy.
  - intros H. exists x. split; [exact H | apply String.eqb_refl].
Qed.

Lemma fuzzy_spec (skill u : string) :
  fuzzy skill u = true <->
  substring_of skill u \/ substring_of u skill \/ (levenshteinDistance skill u <= 2)%nat.
Proof.
  unfold fuzzy. rewrite !orb_true_iff, !includes_spec, Nat.leb_le. tauto.
Qed.

Lemma SKILL_SYNONYMS_get_inherited (skill : string) :
  SKILL_SYNONYMS_get skill = Inherited <-> In skill Object_prototype_keys.
Proof.
  unfold SKILL_SYNONYMS_get. destruct (assoc skill SKILL_SYNONYMS) as [l |] eqn:E.
  - split; [discriminate |]. intros H. exfalso.
    simpl in H.
    repeat (destruct H as [<- | H]; [vm_compute in E; discriminate |]).
    exact H.
  - rewrite <- arr_includes_spec.
    destruct (arr_includes Object_prototype_keys skill); split; congruence.
Qed.

(** [skillMatches] throws exactly on an inherited member that is not a skill
    of the user. *)
Lemma skillMatches_throws (skill : string) (us : list string) :
  (exists e, skillMatches skill us = Throw e) <->
  In skill Object_prototype_keys /\ ~ In skill us.
Proof.
  unfold skillMatches. rewrite <- SKILL_SYNONYMS_get_inherited.
  destruct (arr_includes us skill) eqn:E.
  - apply arr_includes_spec in E. split; [intros [e H]; discriminate | tauto].
  - assert (~ In skill us) by (rewrite <- arr_includes_spec; congruence).
    destruct (SKILL_SYNONYMS_get skill).
    + split; [| intros [? _]; discriminate].
      destruct (existsb _ _); intros [e He]; discriminate.
    + split; [auto | intros _; eexists; reflexivity].
    + split; [| intros [? _]; discriminate].
      destruct (existsb _ _); intros [e He]; discriminate.
Qed.

(** Where it does not throw, [skillMatches] decides [matched_by]. *)
Lemma skillMatches_spec (required : string) (us : list string) (b : bool) :
  skillMatches (normalizeSkill required) us = Ok b ->
  (b = true <-> matched_by us required).
Proof.
  unfold matched_by, skillMatches, synonyms_of, SKILL_SYNONYMS_get.
  set (skill := normalizeSkill required).
  destruct (arr_includes us skill) eqn:E.
  { intros [= <-]. apply arr_includes_spec in E. tauto. }
  assert (Hn : ~ In skill us) by (rewrite <- arr_includes_spec; congruence).
  assert (Hfuzzy : existsb (fuzzy skill) us = true <->
            exists u, In u us /\
              (substring_of skill u \/ substring_of u skill \/
               (levenshteinDistance skill u <= 2)%nat)).
  { rewrite existsb_exists. split; intros (u & Hu & H); exists u;
      (split; [exact Hu | apply fuzzy_spec; exact H]). }
  destruct (assoc skill SKILL_SYNONYMS) as [l |].
  - destruct (existsb (arr_includes us) l) eqn:Es.
    + intros [= <-]. split; [| reflexivity]. intros _. right. left.
      apply existsb_exists in Es as (syn & Hs & Hi).
      exists syn. split; [exact Hs | apply arr_includes_spec; exact Hi].
    + intros [= <-]. rewrite Hfuzzy. split; [tauto |].
      intros [H | [(syn & Hs & Hi) | H]]; [tauto | | exact H].
      exfalso. assert (existsb (arr_includes us) l = true); [| congruence].
      apply existsb_exists. exists syn. split; [exact Hs | apply arr_includes_spec; exact Hi].
  - destruct (arr_includes Object_prototype_keys skill); [discriminate |].
    simpl. intros [= <-]. rewrite Hfuzzy. split; [tauto |].
    intros [H | [(syn & [] & _) | H]]; [tauto | exact H].
Qed.

Lemma match_loop_spec (us : list string) (req : list string) :
  Forall (fun r => ~ hits_inherited us r) req ->
  forall matched missing,
    match_loop us req matched missing =
    Ok (matched ++ List.filter (matches_bool us) req,
        missing ++ List.filter (fun r => negb (matches_bool us r)) req).
Proof.
  induction 1 as [| r req Hr _ IH]; intros matched missing; simpl.
  - rewrite !app_nil_r. reflexivity.
  - assert (Hm : forall b, skillMatches (normalizeSkill r) us = Ok b ->
                        matches_bool us r = b).
    { intros b E. unfold matches_bool. rewrite E. reflexivity. }
    destruct (skillMatches (normalizeSkill r) us) as [[|] | e] eqn:E.
    + rewrite (Hm true eq_refl). simpl. rewrite IH, <- app_assoc. reflexivity.
    + rewrite (Hm false eq_refl). simpl. rewrite IH, <- app_assoc. reflexivity.
    + exfalso. apply Hr. apply skillMatches_throws. exists e. exact E.
Qed.

Lemma match_loop_throws (us : list string) (req : list string) :
  Exists (hits_inherited us) req ->
  forall matched missing, exists e, match_loop us req matched missing = Throw e.
Proof.
  induction 1 as [r req Hr | r req _ IH]; intros matched missing; simpl.
  - apply skillMatches_throws in Hr as [e ->]. exists e. reflexivity.
  - destruct (skillMatches (normalizeSkill r) us) as [[|] | e].
    + apply IH.
    + apply IH.
    + exists e. reflexivity.
Qed.

Lemma filter_partition {A} (f : A -> bool) (l : list A) :
  Permutation (List.filter f l ++ List.filter (fun x => negb (f x)) l) l.
Proof.
  induction l as [| x l IH]; simpl; [constructor |].
  destruct (f x); simpl.
  - constructor. exact IH.
  - rewrite <- Permutation_middle. constructor. exact IH.
Qed.

Section SkillMatch.
Context {P : Platform}.

(** What [calculateSkillMatch] computes.  Without required skills the score
    is 75.  Otherwise, unless a required skill hits an inherited member of
    the synonym table, the score is the rounded percentage of matched
    skills, the matched and the missing skills partition the required ones,
    and a skill is among the matched ones exactly when the user's skills
    match it.  A required skill that hits an inherited member makes the
    function throw. *)
Theorem calculateSkillMatch_spec (job : Job) (us : list Skill) :
  let req := parseSkillsString (job_skillsRequired job) in
  let names := map (fun s => normalizeSkill (skill_name s)) us in
  (req = [] -> calculateSkillMatch job us = Ok (mkSkillScore 75 [] [])) /\
  (req <> [] -> Forall (fun r => ~ hits_inherited names r) req ->
   exists matched missing,
     calculateSkillMatch job us =
       Ok (mkSkillScore
             (inject_Z (Math_round (inject_Z (Z.of_nat (length matched)) /
                                    inject_Z (Z.of_nat (length req)) * 100)))
             matched missing) /\
     Permutation (matched ++ missing) req /\
     (forall r, In r matched <-> In r req /\ matched_by names r) /\
     (forall r, In r missing <-> In r req /\ ~ matched_by names r)) /\
  (req <> [] -> Exists (hits_inherited names) req ->
   exists e, calculateSkillMatch job us = Throw e).
Proof.
  intros req names. unfold calculateSkillMatch. fold req. fold names.
  split; [| split].
  - intros ->. reflexivity.
  - intros Hne Hall. destruct req as [| r0 req0] eqn:Ereq; [congruence |].
    rewrite <- Ereq in *. replace (length req =? 0)%nat with false
      by (rewrite Ereq; reflexivity).
    rewrite (match_loop_spec names req Hall [] []). simpl.
    exists (List.filter (matches_bool names) req),
      (List.filter (fun r => negb (matches_bool names r)) req).
    split; [reflexivity |]. split; [apply filter_partition |].
    assert (Hdec : forall r, In r req ->
              (matches_bool names r = true <-> matched_by names r)).
    { intros r Hr. unfold matches_bool.
      destruct (skillMatches (normalizeSkill r) names) as [b | e] eqn:E.
      - apply skillMatches_spec. exact E.
      - exfalso. rewrite Forall_forall in Hall. apply (Hall r).
        + apply list_elem_of_In. exact Hr.
        + apply skillMatches_throws. exists e. exact E. }
    split; intros r; rewrite filter_In.
    + split; intros [Hr Hm]; (split; [exact Hr | apply Hdec; assumption]).
    + rewrite negb_true_iff. split; intros [Hr Hm]; (split; [exact Hr |]).
      * intros Hmb. apply Hdec in Hmb; [congruence | exact Hr].
      * destruct (matches_bool names r) eqn:Eb; [| reflexivity].
        exfalso. apply Hm, Hdec; assumption.
  - intros Hne Hex. destruct req as [| r0 req0] eqn:Ereq; [congruence |].
    rewrite <- Ereq in *. replace (length req =? 0)%nat with false
      by (rewrite Ereq; reflexivity).
    destruct (match_loop_throws names req Hex [] []) as [e ->].
    exists e. reflexivity.
Qed.

End SkillMatch.

(** The scenario of the design document: the user has the skill Python, the
    posting asks for Python and Django (as a JSON array, or comma
    separated). *)
Example python_django_scenario :
  @calculateSkillMatch Sample.platform
    (Sample.with_skills (Sample.json_pair "Python" "Django") (Sample.bare_job 1 "p-1"))
    [mkSkill Sample.user "Python"] = Ok (mkSkillScore 50 ["Python"] ["Django"])%string /\
  @calculateSkillMatch Sample.platform
    (Sample.with_skills "Python, Django" (Sample.bare_job 1 "p-1"))
    [mkSkill Sample.user "Python"] = Ok (mkSkillScore 50 ["Python"] ["Django"])%string.
Proof. split; vm_compute; reflexivity. Qed.

(** Synonyms: a posting that asks for JS, k8s and Postgres is matched in
    full by the skills JavaScript, Kubernetes and PostgreSQL. *)
Example synonym_scenario :
  @calculateSkillMatch Sample.platform
    (Sample.with_skills "JS, k8s, Postgres" (Sample.bare_job 1 "p-1"))
    [mkSkill Sample.user "JavaScript"; mkSkill Sample.user "Kubernetes";
     mkSkill Sample.user "PostgreSQL"]
  = Ok (mkSkillScore 100 ["JS"; "k8s"; "Postgres"] [])%string.
Proof. vm_compute. reflexivity. Qed.

(** C6 fails on the code.  A posting whose required skills are the single
    word Constructor, scored for a user whose only skill is Python: the
    normalised skill is an inherited member of the synonym table,
    [calculateSkillMatch] throws a TypeError instead of returning the score
    0 with the skill among the missing ones, and [scoreJob] answers with
    the neutral result, a skill score of 50 and empty skill lists. *)
Theorem C6_inherited_member_breaks_skill_match :
  @parseSkillsString Sample.platform (Some "Constructor"%string)
    = ["Constructor"%string] /\
  @calculateSkillMatch Sample.platform
    (Sample.with_skills "Constructor" (Sample.bare_job 1 "p-1"))
    [mkSkill Sample.user "Python"] = Throw "synonyms is not iterable" /\
  fst (@scoreJob Sample.platform Sample.user
         (Sample.with_skills "Constructor" (Sample.bare_job 1 "p-1"))
         Sample.morning) = Ok neutral_result.
Proof.
  split; [vm_compute; reflexivity |].
  split; vm_compute; reflexivity.
Qed.

(** ** Source health *)

Lemma isSourceAvailable_blocked (src : string) (w : World) :
  block_stands src w -> isSourceAvailable src w = (Ok false, w).
Proof.
  intros (h & at_ & Hh & Hb & Ha & Ht). unfold isSourceAvailable.
  rewrite Hh, Hb, Ha.
  destruct (blockDuration <=? getTime (now w) - getTime at_)%Z eqn:E; [| reflexivity].
  apply Z.leb_le in E. lia.
Qed.

(** A check of another source leaves the record of [src] alone; no check
    throws or moves the clock. *)
Lemma isSourceAvailable_frame (k : string) (w : World) :
  exists b w',
    isSourceAvailable k w = (Ok b, w') /\
    now w' = now w /\ scrapers w' = scrapers w /\ db w' = db w /\ tick w' = tick w /\
    (forall src, src <> k -> sourceHealth w' !! src = sourceHealth w !! src).
Proof.
  unfold isSourceAvailable.
  destruct (sourceHealth w !! k) as [h |]; [| exists false, w; auto 10].
  destruct (isBlocked h); [| exists (enabled h), w; auto 10].
  destruct (blockedAt h) as [at_ |]; [| exists false, w; auto 10].
  destruct (blockDuration <=? _)%Z; [| exists false, w; auto 10].
  eexists true, _. split; [reflexivity |]. destruct w; simpl.
  repeat split. intros src Hne. rewrite lookup_insert_ne; congruence.
Qed.

Lemma select_named_blocked (src : string) (w : World) (acc : list IScraper) :
  block_stands src w -> select_named [src] acc w = (Ok acc, w).
Proof.
  intros H. simpl. destruct (registry_get (toLowerCase src) (scrapers w)); [| reflexivity].
  unfold bind. rewrite (isSourceAvailable_blocked src w H). reflexivity.
Qed.

(** While the block of [src] stands, the run over all enabled scrapers
    takes no scraper that is registered under [src]. *)
Lemma select_enabled_blocked (src : string) (entries : list (string * IScraper)) :
  forall (acc : list IScraper) (w : World),
    block_stands src w ->
    exists chosen w',
      select_enabled entries acc w = (Ok (acc ++ chosen), w') /\
      (forall s, In s chosen -> exists k, In (k, s) entries /\ k <> src).
Proof.
  induction entries as [| [k s] entries IH]; intros acc w Hb; simpl.
  - exists [], w. rewrite app_nil_r. split; [reflexivity | intros s []].
  - assert (Hrest : forall acc' w',
              now w' = now w ->
              sourceHealth w' !! src = sourceHealth w !! src ->
              exists chosen w'',
                select_enabled entries acc' w' = (Ok (acc' ++ chosen), w'') /\
                (forall s0, In s0 chosen -> exists k0, In (k0, s0) entries /\ k0 <> src)).
    { intros acc' w' Hn Hh. apply IH.
      destruct Hb as (h & at_ & H1 & H2 & H3 & H4).
      exists h, at_. rewrite Hh, Hn. auto. }
    destruct (scraper_enabled s).
    + unfold bind. destruct (String.eqb_spec k src) as [-> | Hne].
      * rewrite (isSourceAvailable_blocked src w Hb).
        destruct (Hrest acc w eq_refl eq_refl) as (chosen & w' & E & Hc).
        exists chosen, w'. split; [exact E |].
        intros s0 Hs0. destruct (Hc s0 Hs0) as (k0 & Hin & Hk).
        exists k0. split; [right; exact Hin | exact Hk].
      * destruct (isSourceAvailable_frame k w) as (b & w1 & -> & Hn & _ & _ & _ & Hh).
        destruct b.
        -- destruct (Hrest (acc ++ [s]) w1 Hn (Hh src ltac:(congruence)))
             as (chosen & w' & E & Hc).
           exists (s :: chosen), w'. rewrite E, <- app_assoc. split; [reflexivity |].
           intros s0 [<- | Hs0].
           ++ exists k. split; [left; reflexivity | exact Hne].
           ++ destruct (Hc s0 Hs0) as (k0 & Hin & Hk).
              exists k0. split; [right; exact Hin | exact Hk].
        -- destruct (Hrest acc w1 Hn (Hh src ltac:(congruence)))
             as (chosen & w' & E & Hc).
           exists chosen, w'. split; [exact E |].
           intros s0 Hs0. destruct (Hc s0 Hs0) as (k0 & Hin & Hk).
           exists k0. split; [right; exact Hin | exact Hk].
    + destruct (Hrest acc w eq_refl eq_refl) as (chosen & w' & E & Hc).
      exists chosen, w'. split; [exact E |].
      intros s0 Hs0. destruct (Hc s0 Hs0) as (k0 & Hin & Hk).
      exists k0. split; [right; exact Hin | exact Hk].
Qed.

(** C3.  From the health record of a freshly registered, enabled source,
    the first two failed runs leave it available and report no block; the
    third sets [isBlocked], stamps [blockedAt] with the time of that run and
    reports the new block.  From then on, and until 24 hours have passed
    since [blockedAt], the availability check answers no and changes
    nothing, so neither a run of the named source nor a run of all enabled
    scrapers takes it.  Once 24 hours have passed the check itself resets
    the failure count, clears the block and answers yes; a manual unblock
    makes the same reset at any time. *)
Theorem C3_three_failures_block (src : string) (w : World) (t1 t2 t3 : Instant) :
  exists w1 w2 w3,
    updateSourceHealth src false (set_now t1 (with_health src (fresh_health src) w))
      = (Ok false, w1) /\
    sourceHealth w1 !! src = Some (failed_health src 1 t1 false) /\
    updateSourceHealth src false (set_now t2 w1) = (Ok false, w2) /\
    sourceHealth w2 !! src = Some (failed_health src 2 t2 false) /\
    updateSourceHealth src false (set_now t3 w2) = (Ok true, w3) /\
    sourceHealth w3 !! src = Some (failed_health src 3 t3 true) /\
    (forall t, (getTime t - getTime t3 < blockDuration)%Z ->
       isSourceAvailable src (set_now t w3) = (Ok false, set_now t w3) /\
       select_scrapers (Some [src]) (set_now t w3) = (Ok [], set_now t w3) /\
       exists chosen w',
         select_scrapers None (set_now t w3) = (Ok chosen, w') /\
         forall s, In s chosen -> exists k, In (k, s) (scrapers w) /\ k <> src) /\
    (forall t, (blockDuration <= getTime t - getTime t3)%Z ->
       isSourceAvailable src (set_now t w3)
         = (Ok true, with_health src (mkSourceHealth src true false None 0 None (Some t3))
                       (set_now t w3))) /\
    unblockSource src w3
      = (Ok true, with_health src (mkSourceHealth src true false None 0 None (Some t3)) w3) /\
    (forall t,
       isSourceAvailable src
         (set_now t (with_health src (mkSourceHealth src true false None 0 None (Some t3)) w3))
       = (Ok true,
          set_now t (with_health src (mkSourceHealth src true false None 0 None (Some t3)) w3))).
Proof.
  set (w0 := with_health src (fresh_health src) w).
  set (w1 := with_health src (failed_health src 1 t1 false) (set_now t1 w0)).
  set (w2 := with_health src (failed_health src 2 t2 false) (set_now t2 w1)).
  set (w3 := with_health src (failed_health src 3 t3 true) (set_now t3 w2)).
  set (reset := mkSourceHealth src true false None 0 None (Some t3)).
  exists w1, w2, w3.
  assert (H0 : sourceHealth (set_now t1 w0) !! src = Some (fresh_health src))
    by apply lookup_insert_eq.
  assert (H1 : sourceHealth w1 !! src = Some (failed_health src 1 t1 false))
    by apply lookup_insert_eq.
  assert (H2 : sourceHealth w2 !! src = Some (failed_health src 2 t2 false))
    by apply lookup_insert_eq.
  assert (H3 : sourceHealth w3 !! src = Some (failed_health src 3 t3 true))
    by apply lookup_insert_eq.
  split; [unfold updateSourceHealth; rewrite H0; reflexivity |].
  split; [exact H1 |].
  split; [unfold updateSourceHealth; change (sourceHealth (set_now t2 w1)) with
            (sourceHealth w1); rewrite H1; reflexivity |].
  split; [exact H2 |].
  split; [unfold updateSourceHealth; change (sourceHealth (set_now t3 w2)) with
            (sourceHealth w2); rewrite H2; reflexivity |].
  split; [exact H3 |].
  split; [| split; [| split]].
  - intros t Ht.
    assert (Hb : block_stands src (set_now t w3)).
    { exists (failed_health src 3 t3 true), t3.
      split; [exact H3 |]. split; [reflexivity |]. split; [reflexivity | exact Ht]. }
    split; [apply isSourceAvailable_blocked; exact Hb |].
    split; [apply (select_named_blocked src _ [] Hb) |].
    destruct (select_enabled_blocked src (scrapers w) [] _ Hb) as (chosen & w' & E & Hc).
    exists chosen, w'. split; [exact E | exact Hc].
  - intros t Ht. unfold isSourceAvailable.
    change (sourceHealth (set_now t w3)) with (sourceHealth w3). rewrite H3. simpl.
    apply Z.leb_le in Ht. rewrite Ht. reflexivity.
  - unfold unblockSource. rewrite H3. reflexivity.
  - intros t. unfold isSourceAvailable.
    change (sourceHealth (set_now t (with_health src reset w3)) !! src)
      with (<[src := reset]> (sourceHealth w3) !! src).
    rewrite lookup_insert_eq. reflexivity.
Qed.

(** LinkedIn after three failed runs in a row: an hour after the third the
    source is not available, a day after it is. *)
Lemma C3_three_failures_block_witness :
  exists w3,
    sourceHealth w3 !! "linkedin"%string
      = Some (failed_health "linkedin" 3 Sample.nov_2026 true) /\
    (getTime (Sample.hour_after Sample.nov_2026) - getTime Sample.nov_2026
       < blockDuration)%Z /\
    isSourceAvailable "linkedin" (set_now (Sample.hour_after Sample.nov_2026) w3)
      = (Ok false, set_now (Sample.hour_after Sample.nov_2026) w3) /\
    (blockDuration
       <= getTime (Sample.day_after Sample.nov_2026) - getTime Sample.nov_2026)%Z /\
    fst (isSourceAvailable "linkedin"
           (set_now (Sample.day_after Sample.nov_2026) w3)) = Ok true.
Proof.
  destruct (C3_three_failures_block "linkedin" (Sample.service Sample.nov_2026)
              Sample.nov_2026 Sample.nov_2026 Sample.nov_2026)
    as (w1 & w2 & w3 & _ & _ & _ & _ & _ & H3 & Hin & Hout & _).
  assert (H1 : (getTime (Sample.hour_after Sample.nov_2026) - getTime Sample.nov_2026
                < blockDuration)%Z) by (vm_compute; reflexivity).
  assert (H2 : (blockDuration
                <= getTime (Sample.day_after Sample.nov_2026)
                   - getTime Sample.nov_2026)%Z) by (vm_compute; discriminate).
  exists w3. split; [exact H3 |]. split; [exact H1 |].
  split; [exact (proj1 (Hin _ H1)) |]. split; [exact H2 |].
  rewrite (Hout _ H2). reflexivity.
Defined.

(** ** Upsert of a scraped job *)

Lemma same_posting_create (data : ScrapedJob) (i : nat) :
  same_posting (source data) (externalId data) (job_create i data) = true.
Proof. unfold same_posting. simpl. rewrite !String.eqb_refl. reflexivity. Qed.

Lemma same_posting_update (data : ScrapedJob) (j : Job) :
  same_posting (source data) (externalId data) (job_update j data) = true.
Proof. unfold same_posting. simpl. rewrite !String.eqb_refl. reflexivity. Qed.

(** An upsert leaves one row of the posting where there was none, and as
    many as there were otherwise. *)
Lemma upsert_rows_postings (data : ScrapedJob) (fresh : nat) (l : list Job) :
  length (List.filter (same_posting (source data) (externalId data))
            (upsert_rows data fresh l)) =
  Nat.max 1 (length (List.filter (same_posting (source data) (externalId data)) l)).
Proof.
  induction l as [| j l IH]; simpl.
  - rewrite same_posting_create. reflexivity.
  - destruct (same_posting (source data) (externalId data) j) eqn:E; simpl.
    + rewrite same_posting_update. simpl. lia.
    + rewrite E. exact IH.
Qed.

Lemma upsert_rows_found (data : ScrapedJob) (fresh : nat) (l : list Job) :
  List.find (same_posting (source data) (externalId data)) (upsert_rows data fresh l)
  <> None.
Proof.
  induction l as [| j l IH]; simpl.
  - rewrite same_posting_create. discriminate.
  - destruct (same_posting (source data) (externalId data) j) eqn:E; simpl.
    + rewrite same_posting_update. discriminate.
    + rewrite E. exact IH.
Qed.

Lemma upsert_rows_length_found (data : ScrapedJob) (fresh : nat) (l : list Job) :
  List.find (same_posting (source data) (externalId data)) l <> None ->
  length (upsert_rows data fresh l) = length l.
Proof.
  induction l as [| j l IH]; simpl; [congruence |].
  destruct (same_posting (source data) (externalId data) j); simpl; [reflexivity |].
  intros H. rewrite (IH H). reflexivity.
Qed.

Lemma find_none_filter {A} (f : A -> bool) (l : list A) :
  List.find f l = None <-> List.filter f l = [].
Proof.
  induction l as [| x l IH]; simpl; [tauto |].
  destruct (f x); [split; discriminate | exact IH].
Qed.

Section ProcessJob.
Context {P : Platform}.

(** [processJob], call by call: the lookup, then the upsert. *)
Lemma processJob_run (job : ScrapedJob) (w : World) :
  processJob job w =
  match prisma_rejects (tick w) JobFindFirst with
  | Some e => (Throw e, set_tick (1 + tick w) w)
  | None =>
      match prisma_rejects (S (tick w)) JobUpsert with
      | Some e => (Throw e, set_tick (2 + tick w) w)
      | None =>
          (Ok (match List.find (same_posting (source job) (externalId job))
                       (jobs (db w)) with
               | Some _ => false
               | None => true
               end),
           set_db (set_jobs (upsert_rows job (fresh_job_id (jobs (db w))) (jobs (db w)))
                     (db w))
             (set_tick (2 + tick w) w))
      end
  end.
Proof.
  destruct w as [d t n reg h]. destruct d as [sk jt ex jb sc rn].
  unfold processJob, bind, job_findFirst, upsertFromScraper, job_upsert, prisma, ret; simpl.
  destruct (prisma_rejects n JobFindFirst); simpl; [reflexivity |].
  destruct (prisma_rejects (S n) JobUpsert); reflexivity.
Qed.

(** Whatever happens to a job, processing it touches the jobs table and the
    call counter only. *)
Lemma processJob_frame (job : ScrapedJob) (w : World) :
  let w' := snd (processJob job w) in
  now w' = now w /\ scrapers w' = scrapers w /\ sourceHealth w' = sourceHealth w /\
  scraperRuns (db w') = scraperRuns (db w).
Proof.
  rewrite processJob_run. destruct w as [d t n reg h].
  destruct (prisma_rejects _ _); simpl; [auto |].
  destruct (prisma_rejects _ _); simpl; auto.
Qed.

End ProcessJob.

(** C7.  When the lookup and the upsert do not reject and the table holds
    at most one row of a posting (the unique key on source and external id),
    processing the posting twice leaves exactly one row of it: the second
    call finds the
    row the first one left, updates it without adding a row, and reports
    [isNew = false], so that the loop of a run counts the posting as
    updated, not as new.  The first call reports [isNew] exactly when the
    table held no row of the posting. *)
Theorem C7_upsert_idempotent `{P : Platform} (job : ScrapedJob) (w : World) :
  never_rejects JobFindFirst -> never_rejects JobUpsert ->
  (length (postings job (db w)) <= 1)%nat ->
  exists w1 w2,
    processJob job w = (Ok (length (postings job (db w)) =? 0)%nat, w1) /\
    processJob job w1 = (Ok false, w2) /\
    length (postings job (db w1)) = 1%nat /\
    length (postings job (db w2)) = 1%nat /\
    length (jobs (db w2)) = length (jobs (db w1)) /\
    process_jobs [job] 0 0 w1 = (Ok (0, 1)%nat, w2).
Proof.
  intros Hfind Hups Huniq. unfold postings in *.
  set (step := fun w0 : World =>
         set_db (set_jobs (upsert_rows job (fresh_job_id (jobs (db w0))) (jobs (db w0)))
                   (db w0))
           (set_tick (2 + tick w0) w0)).
  assert (Hrun : forall w0,
            processJob job w0 =
            (Ok (match List.find (same_posting (source job) (externalId job))
                         (jobs (db w0)) with
                 | Some _ => false
                 | None => true
                 end), step w0)).
  { intros w0. rewrite processJob_run, Hfind, Hups. reflexivity. }
  assert (Hjobs : forall w0,
            jobs (db (step w0)) =
            upsert_rows job (fresh_job_id (jobs (db w0))) (jobs (db w0))).
  { intros [d t n reg h]. destruct d. reflexivity. }
  assert (Hfound : List.find (same_posting (source job) (externalId job))
                     (jobs (db (step w))) <> None).
  { rewrite Hjobs. apply upsert_rows_found. }
  exists (step w), (step (step w)).
  split.
  { rewrite Hrun. f_equal. f_equal.
    destruct (List.find _ (jobs (db w))) eqn:E.
    - destruct (List.filter _ (jobs (db w))) eqn:F; [| reflexivity].
      apply find_none_filter in F. congruence.
    - apply find_none_filter in E. rewrite E. reflexivity. }
  split.
  { rewrite Hrun. destruct (List.find _ (jobs (db (step w)))); [reflexivity | congruence]. }
  assert (H1 : length (List.filter (same_posting (source job) (externalId job))
                         (jobs (db (step w)))) = 1%nat).
  { rewrite Hjobs, upsert_rows_postings. lia. }
  split; [exact H1 |].
  split; [| split].
  - rewrite Hjobs, upsert_rows_postings. lia.
  - rewrite (Hjobs (step w)). apply upsert_rows_length_found. exact Hfound.
  - simpl. unfold bind, try_catch, ret. rewrite Hrun.
    destruct (List.find _ (jobs (db (step w)))); [reflexivity | congruence].
Qed.

(** ** One run of a scraper *)

Section RunScraper.
Context {P : Platform}.

(** The loop over the scraped jobs never throws; its two counters add up to
    the number of jobs that were processed; it touches the jobs table and
    the call counter only. *)
Lemma process_jobs_total (jobs : list ScrapedJob) :
  forall (n u : nat) (w : World),
  exists n' u' w',
    process_jobs jobs n u w = (Ok (n', u'), w') /\
    (n' + u' = n + u + processed jobs w)%nat /\
    (processed jobs w <= length jobs)%nat /\
    now w' = now w /\ scrapers w' = scrapers w /\ sourceHealth w' = sourceHealth w /\
    scraperRuns (db w') = scraperRuns (db w).
Proof.
  induction jobs as [| job jobs IH]; intros n u w; simpl.
  - exists n, u, w. repeat split; lia.
  - unfold bind, try_catch, ret.
    pose proof (processJob_frame job w) as Hf. simpl in Hf.
    destruct (processJob job w) as [[isNew | e] w1]; simpl in Hf;
      destruct Hf as (Hn & Hs & Hh & Hr).
    + destruct isNew; simpl.
      * destruct (IH (S n) u w1) as (n' & u' & w' & -> & Hc & Hl & Hn' & Hs' & Hh' & Hr').
        exists n', u', w'. repeat split; try congruence; lia.
      * destruct (IH n (S u) w1) as (n' & u' & w' & -> & Hc & Hl & Hn' & Hs' & Hh' & Hr').
        exists n', u', w'. repeat split; try congruence; lia.
    + simpl. destruct (IH n u w1) as (n' & u' & w' & -> & Hc & Hl & Hn' & Hs' & Hh' & Hr').
      exists n', u', w'. repeat split; try congruence; lia.
Qed.

(** [runScraper] up to its [try]: the run record is created, unless the
    creating call rejects. *)
Lemma runScraper_run (scraper : IScraper) (config : ScraperConfig) (w : World) :
  runScraper scraper config w =
  match prisma_rejects (tick w) ScraperRunCreate with
  | Some e => (Throw e, set_tick (S (tick w)) w)
  | None =>
      try_catch
        (runScraper_try scraper config (getTime (now w)) (new_run (name scraper) w))
        (runScraper_catch scraper (getTime (now w)) (new_run (name scraper) w))
        (run_started (name scraper) w)
  end.
Proof.
  destruct w as [d t n reg h].
  unfold runScraper, bind, Date_now, new_Date, scraperRun_create, prisma; simpl.
  destruct (prisma_rejects n ScraperRunCreate); reflexivity.
Qed.

(** The [catch] block answers with a failed result, if it answers. *)
Lemma runScraper_catch_result scraper startTime run message w r w' :
  runScraper_catch scraper startTime run message w = (Ok r, w') ->
  result_source r = name scraper /\ success r = false /\ error r = Some message /\
  jobsFound r = 0%nat /\ jobsNew r = 0%nat /\ jobsUpdated r = 0%nat.
Proof.
  unfold runScraper_catch, bind, Date_now, new_Date, ret.
  destruct (scraperRun_update _ _ w) as [[[] | e] w1]; [| discriminate].
  destruct (updateSourceHealth (name scraper) false w1) as [[b | e] w2]; [| discriminate].
  intros [= <- <-]. simpl. auto 10.
Qed.

(** The guarded block answers with the counts of the loop, if it answers. *)
Lemma runScraper_try_result scraper config startTime run w r w' :
  runScraper_try scraper config startTime run w = (Ok r, w') ->
  exists jobs,
    scrape scraper config (now w) = Ok jobs /\
    result_source r = name scraper /\ success r = true /\
    jobsFound r = length jobs /\
    (jobsNew r + jobsUpdated r = processed jobs w)%nat.
Proof.
  unfold runScraper_try, bind, call_scrape.
  destruct (scrape scraper config (now w)) as [jobs | e]; [| discriminate].
  destruct (process_jobs_total jobs 0 0 w) as (n & u & w1 & -> & Hc & _).
  unfold Date_now, new_Date, ret.
  destruct (scraperRun_update _ _ w1) as [[[] | e] w2]; [| discriminate].
  destruct (updateSourceHealth (name scraper) true w2) as [[b | e] w3]; [| discriminate].
  intros [= <- <-]. exists jobs. simpl. repeat split. lia.
Qed.

Lemma processed_le (jobs : list ScrapedJob) (w : World) :
  (processed jobs w <= length jobs)%nat.
Proof. destruct (process_jobs_total jobs 0 0 w) as (? & ? & ? & _ & _ & H & _). exact H. Qed.

Lemma updateSourceHealth_total (src : string) (ok : bool) (w : World) :
  exists b w',
    updateSourceHealth src ok w = (Ok b, w') /\
    now w' = now w /\ scrapers w' = scrapers w /\ db w' = db w /\ tick w' = tick w.
Proof.
  unfold updateSourceHealth. destruct (sourceHealth w !! src) as [h |].
  - destruct ok.
    + eexists _, _. split; [reflexivity |]. destruct w; auto.
    + destruct (_ <=? _)%nat; eexists _, _; (split; [reflexivity |]); destruct w; auto.
  - exists false, w. auto.
Qed.

End RunScraper.

Section RunScraperSuccess.
Context {P : Platform}.

Lemma scraperRun_update_new_run (src : string) (w w1 : World)
    (data : ScraperRun -> ScraperRun) :
  scraperRuns (db w1) = scraperRuns (db (run_started src w)) ->
  never_rejects ScraperRunUpdate ->
  exists w2,
    scraperRun_update (run_id (new_run src w)) data w1 = (Ok tt, w2) /\
    now w2 = now w1 /\ scrapers w2 = scrapers w1 /\ sourceHealth w2 = sourceHealth w1.
Proof.
  intros Hr Hp. unfold scraperRun_update, prisma. rewrite Hp, Hr.
  replace (scraperRuns (db (run_started src w)))
    with (scraperRuns (db w) ++ [new_run src w])
    by (destruct w as [d t n reg h]; destruct d; reflexivity).
  rewrite existsb_app. simpl. rewrite Nat.eqb_refl, orb_true_r.
  eexists. split; [reflexivity |]. destruct w1; auto.
Qed.

(** A run whose adapter answers and whose run record can be created and
    updated succeeds, however many of its jobs cannot be processed. *)
Lemma runScraper_succeeds (scraper : IScraper) (config : ScraperConfig) (w : World)
    (jobs : list ScrapedJob) :
  scrape scraper config (now w) = Ok jobs ->
  never_rejects ScraperRunCreate -> never_rejects ScraperRunUpdate ->
  exists r w',
    runScraper scraper config w = (Ok r, w') /\
    result_source r = name scraper /\ success r = true /\
    jobsFound r = length jobs /\
    (jobsNew r + jobsUpdated r = processed jobs (run_started (name scraper) w))%nat /\
    now w' = now w /\ scrapers w' = scrapers w.
Proof.
  intros Hs Hc Hu. rewrite runScraper_run, Hc.
  set (w0 := run_started (name scraper) w) in *.
  assert (Hnow : now w0 = now w) by (destruct w; reflexivity).
  assert (Hreg : scrapers w0 = scrapers w) by (destruct w; reflexivity).
  unfold try_catch, runScraper_try, bind, call_scrape. rewrite Hnow, Hs.
  destruct (process_jobs_total jobs 0 0 w0)
    as (n & u & w1 & E & Hcount & _ & Hn1 & Hs1 & Hh1 & Hr1).
  rewrite E. unfold Date_now, new_Date, ret.
  destruct (scraperRun_update_new_run (name scraper) w w1
              (run_succeeded (now w1) (length jobs) n u) Hr1 Hu)
    as (w2 & -> & Hn2 & Hs2 & _).
  destruct (updateSourceHealth_total (name scraper) true w2)
    as (b & w3 & -> & Hn3 & Hs3 & _).
  eexists _, w3. split; [reflexivity |]. simpl.
  repeat split; try congruence. lia.
Qed.

End RunScraperSuccess.

(** C8.  A run that returns [success = true] reports as [jobsFound] the
    number of jobs its adapter returned, and as [jobsNew + jobsUpdated] the
    number of those that were processed without an exception, which is at
    most [jobsFound].  A job that cannot be processed is passed over: when
    the adapter answers and the run record can be created and updated, the
    run succeeds with these counts, however many of the jobs failed. *)
Theorem C8_counts_bounded `{P : Platform}
    (scraper : IScraper) (config : ScraperConfig) (w : World) :
  (forall r w',
     runScraper scraper config w = (Ok r, w') -> success r = true ->
     exists jobs,
       scrape scraper config (now w) = Ok jobs /\
       jobsFound r = length jobs /\
       (jobsNew r + jobsUpdated r = processed jobs (run_started (name scraper) w))%nat /\
       (jobsNew r + jobsUpdated r <= jobsFound r)%nat) /\
  (forall jobs,
     scrape scraper config (now w) = Ok jobs ->
     never_rejects ScraperRunCreate -> never_rejects ScraperRunUpdate ->
     exists r w',
       runScraper scraper config w = (Ok r, w') /\ success r = true /\
       jobsFound r = length jobs /\
       (jobsNew r + jobsUpdated r = processed jobs (run_started (name scraper) w))%nat).
Proof.
  split.
  - intros r w'. rewrite runScraper_run.
    destruct (prisma_rejects (tick w) ScraperRunCreate); [discriminate |].
    unfold try_catch.
    destruct (runScraper_try _ _ _ _ _) as [[r1 | e] w1] eqn:E.
    + intros [= <- <-] Hsucc.
      apply runScraper_try_result in E as (jobs & Hs & _ & _ & Hf & Hc).
      exists jobs. replace (now (run_started (name scraper) w)) with (now w) in Hs
        by (destruct w; reflexivity).
      repeat split; try assumption.
      rewrite Hc, Hf. apply processed_le.
    + intros Hc Hsucc. apply runScraper_catch_result in Hc as (_ & Hfalse & _).
      congruence.
  - intros jobs Hs Hc Hu.
    destruct (runScraper_succeeds scraper config w jobs Hs Hc Hu)
      as (r & w' & E & _ & H1 & H2 & H3 & _).
    exists r, w'. auto.
Qed.

(** Two postings, of which the first cannot be looked up: the run succeeds,
    finds two and processes one. *)
Lemma C8_counts_bounded_witness :
  scrape Sample.two_postings Sample.search_config (now (Sample.service Sample.nov_2026))
    = Ok [Sample.posting "n-1"; Sample.posting "n-2"] /\
  @never_rejects Sample.platform_failing_lookup ScraperRunCreate /\
  @never_rejects Sample.platform_failing_lookup ScraperRunUpdate /\
  @processed Sample.platform_failing_lookup
    [Sample.posting "n-1"; Sample.posting "n-2"]
    (run_started "naukri" (Sample.service Sample.nov_2026)) = 1%nat /\
  exists r w',
    @runScraper Sample.platform_failing_lookup Sample.two_postings Sample.search_config
      (Sample.service Sample.nov_2026) = (Ok r, w') /\
    success r = true /\ jobsFound r = 2%nat /\
    (jobsNew r + jobsUpdated r
     = @processed Sample.platform_failing_lookup
         [Sample.posting "n-1"; Sample.posting "n-2"]
         (run_started "naukri" (Sample.service Sample.nov_2026)))%nat.
Proof.
  assert (Hs : scrape Sample.two_postings Sample.search_config
                 (now (Sample.service Sample.nov_2026))
               = Ok [Sample.posting "n-1"; Sample.posting "n-2"]) by reflexivity.
  assert (Hc : @never_rejects Sample.platform_failing_lookup ScraperRunCreate)
    by (intros n; reflexivity).
  assert (Hu : @never_rejects Sample.platform_failing_lookup ScraperRunUpdate)
    by (intros n; reflexivity).
  split; [exact Hs |]. split; [exact Hc |]. split; [exact Hu |].
  split; [vm_compute; reflexivity |].
  exact (proj2 (@C8_counts_bounded Sample.platform_failing_lookup Sample.two_postings
                  Sample.search_config (Sample.service Sample.nov_2026))
           _ Hs Hc Hu).
Defined.

(** ** A scrape over several sources *)

Section ScrapeAll.
Context {P : Platform}.

(** On a platform whose Prisma calls do not reject, a run always answers,
    with the result it owes. *)
Lemma runScraper_reliable (scraper : IScraper) (config : ScraperConfig) (w : World) :
  never_rejects ScraperRunCreate -> never_rejects ScraperRunUpdate ->
  exists r w',
    runScraper scraper config w = (Ok r, w') /\
    result_of config (now w) scraper r /\
    now w' = now w /\ scrapers w' = scrapers w.
Proof.
  intros Hc Hu. unfold result_of.
  destruct (scrape scraper config (now w)) as [jobs | message] eqn:Hs.
  - destruct (runScraper_succeeds scraper config w jobs Hs Hc Hu)
      as (r & w' & E & H1 & H2 & H3 & _ & Hn & Hr).
    exists r, w'. auto 10.
  - rewrite runScraper_run, Hc.
    set (w0 := run_started (name scraper) w).
    assert (Hnow : now w0 = now w) by (destruct w; reflexivity).
    assert (Hreg : scrapers w0 = scrapers w) by (destruct w; reflexivity).
    unfold try_catch, runScraper_try, bind, call_scrape. rewrite Hnow, Hs.
    unfold runScraper_catch, bind, Date_now, new_Date, ret.
    destruct (scraperRun_update_new_run (name scraper) w w0
                (run_failed (now w0) message) eq_refl Hu)
      as (w2 & -> & Hn2 & Hs2 & _).
    destruct (updateSourceHealth_total (name scraper) false w2)
      as (b & w3 & -> & Hn3 & Hs3 & _).
    eexists _, w3. split; [reflexivity |]. simpl.
    repeat split; congruence.
Qed.

Lemma Promise_all_reliable (config : ScraperConfig) (batch : list IScraper) :
  never_rejects ScraperRunCreate -> never_rejects ScraperRunUpdate ->
  forall w,
  exists rs w',
    Promise_all (map (fun s => runScraper s config) batch) w = (Ok rs, w') /\
    Forall2 (result_of config (now w)) batch rs /\
    now w' = now w /\ scrapers w' = scrapers w.
Proof.
  intros Hc Hu. induction batch as [| s batch IH]; intros w; simpl.
  - exists [], w. repeat split. constructor.
  - unfold Promise_both.
    destruct (runScraper_reliable s config w Hc Hu) as (r & w1 & -> & Hr & Hn1 & Hs1).
    destruct (IH w1) as (rs & w2 & -> & Hrs & Hn2 & Hs2).
    exists (r :: rs), w2. split; [reflexivity |].
    split; [| split; congruence].
    constructor; [exact Hr |]. rewrite <- Hn1. exact Hrs.
Qed.

Lemma add_results_app (rs1 rs2 : list ScraperResult) (acc : ScrapeSummary) :
  add_results rs2 (add_results rs1 acc) = add_results (rs1 ++ rs2) acc.
Proof. unfold add_results. rewrite fold_left_app. reflexivity. Qed.

Lemma add_results_summary (rs : list ScraperResult) :
  forall acc,
    results (add_results rs acc) = results acc ++ rs /\
    totalJobsNew (add_results rs acc) = (totalJobsNew acc + list_sum (map jobsNew rs))%nat /\
    totalJobsUpdated (add_results rs acc)
      = (totalJobsUpdated acc + list_sum (map jobsUpdated rs))%nat.
Proof.
  induction rs as [| r rs IH]; intros acc; simpl.
  - rewrite app_nil_r. repeat split; lia.
  - destruct (IH {| results := results acc ++ [r];
                    totalJobsNew := totalJobsNew acc + jobsNew r;
                    totalJobsUpdated := totalJobsUpdated acc + jobsUpdated r |})
      as (H1 & H2 & H3).
    unfold add_results in *. simpl in *. rewrite H1, H2, H3, <- app_assoc.
    repeat split; lia.
Qed.

(** The loop over the batches gets through the whole list: the fuel it is
    given is never what stops it. *)
Lemma run_batches_reliable (config : ScraperConfig) (l : list IScraper) :
  never_rejects ScraperRunCreate -> never_rejects ScraperRunUpdate ->
  forall fuel i acc w,
    (length l - i <= fuel)%nat ->
    exists rs w',
      run_batches fuel i l config acc w = (Ok (add_results rs acc), w') /\
      Forall2 (result_of config (now w)) (drop i l) rs.
Proof.
  intros Hc Hu. induction fuel as [| fuel IH]; intros i acc w Hf; simpl.
  - exists [], w. split; [reflexivity |].
    rewrite drop_ge by lia. constructor.
  - destruct (i <? length l)%nat eqn:E.
    + unfold bind, slice.
      replace (i + maxConcurrency - i)%nat with maxConcurrency by lia.
      destruct (Promise_all_reliable config (take maxConcurrency (drop i l)) Hc Hu w)
        as (rs1 & w1 & -> & H1 & Hn1 & _).
      destruct (IH (i + maxConcurrency)%nat (add_results rs1 acc) w1) as (rs2 & w2 & -> & H2).
      { unfold maxConcurrency. lia. }
      exists (rs1 ++ rs2), w2. rewrite add_results_app. split; [reflexivity |].
      rewrite <- (take_drop maxConcurrency (drop i l)).
      apply Forall2_app; [exact H1 |].
      rewrite drop_drop, <- Hn1. exact H2.
    + apply Nat.ltb_ge in E. exists [], w. split; [reflexivity |].
      rewrite drop_ge by lia. constructor.
Qed.

(** Choosing the scrapers never throws and leaves clock and registry
    alone. *)
Lemma select_named_total (sources : list string) :
  forall acc w,
  exists chosen w',
    select_named sources acc w = (Ok chosen, w') /\
    now w' = now w /\ scrapers w' = scrapers w.
Proof.
  induction sources as [| src sources IH]; intros acc w; simpl.
  - exists acc, w. auto.
  - destruct (registry_get (toLowerCase src) (scrapers w)) as [s |].
    + unfold bind.
      destruct (isSourceAvailable_frame src w) as (b & w1 & -> & Hn & Hs & _).
      destruct b.
      * destruct (IH (acc ++ [s]) w1) as (c & w' & -> & Hn' & Hs').
        exists c, w'. repeat split; congruence.
      * destruct (IH acc w1) as (c & w' & -> & Hn' & Hs').
        exists c, w'. repeat split; congruence.
    + apply IH.
Qed.

Lemma select_enabled_total (entries : list (string * IScraper)) :
  forall acc w,
  exists chosen w',
    select_enabled entries acc w = (Ok chosen, w') /\
    now w' = now w /\ scrapers w' = scrapers w.
Proof.
  induction entries as [| [k s] entries IH]; intros acc w; simpl.
  - exists acc, w. auto.
  - destruct (scraper_enabled s); [| apply IH].
    unfold bind.
    destruct (isSourceAvailable_frame k w) as (b & w1 & -> & Hn & Hs & _).
    destruct b.
    + destruct (IH (acc ++ [s]) w1) as (c & w' & -> & Hn' & Hs').
      exists c, w'. repeat split; congruence.
    + destruct (IH acc w1) as (c & w' & -> & Hn' & Hs').
      exists c, w'. repeat split; congruence.
Qed.

Lemma select_scrapers_total (sources : option (list string)) (w : World) :
  exists chosen w',
    select_scrapers sources w = (Ok chosen, w') /\
    now w' = now w /\ scrapers w' = scrapers w.
Proof.
  destruct sources as [[| s l] |]; unfold select_scrapers.
  - apply select_enabled_total.
  - exact (select_named_total (s :: l) [] w).
  - apply select_enabled_total.
Qed.

(** Building the search configuration only reads. *)
Lemma buildSearchConfig_frame (userId : string) (w : World) :
  exists n, snd (buildSearchConfig userId w) = set_tick n w.
Proof.
  destruct w as [d t n reg h]. destruct d as [sk jt ex jb sc rn].
  unfold buildSearchConfig, bind, jobTarget_findUnique, skill_names, skill_findMany,
    experience_findMany, prisma, new_Date, lift, ret; simpl.
  destruct (prisma_rejects n _); simpl; [eexists; reflexivity |].
  unfold bind; simpl.
  destruct (prisma_rejects (S n) _); simpl; [eexists; reflexivity |].
  destruct (prisma_rejects (S (S n)) _); simpl; [eexists; reflexivity |].
  destruct (filter_keywords _); simpl; [| eexists; reflexivity].
  destruct (element0 _); simpl; eexists; reflexivity.
Qed.

End ScrapeAll.

(** C4, as amended.  When the creation and the update of a run record do
    not reject, and once the search configuration has been built,
    [scrapeAll] returns a summary and does not throw, whatever the adapters
    and the processing of single jobs do: its result list has one entry per scheduled
    scraper, in order, and the entry of an adapter that threw has
    [success = false], the adapter's message and zero counts, next to the
    entries of the other scrapers of its batch; the totals add up the
    entries. *)
Theorem C4_adapter_failure_contained `{P : Platform}
    (userId : string) (sources : option (list string)) (customConfig : PartialConfig)
    (w w1 : World) (base : ScraperConfig) :
  never_rejects ScraperRunCreate -> never_rejects ScraperRunUpdate ->
  buildSearchConfig userId w = (Ok base, w1) ->
  exists scheduled w2 summary w',
    select_scrapers sources w1 = (Ok scheduled, w2) /\
    scrapeAll userId sources customConfig w = (Ok summary, w') /\
    Forall2 (result_of (default_keywords (merge_config base customConfig)) (now w))
      scheduled (results summary) /\
    totalJobsNew summary = list_sum (map jobsNew (results summary)) /\
    totalJobsUpdated summary = list_sum (map jobsUpdated (results summary)).
Proof.
  intros Hc Hu Hb.
  assert (Hn1 : now w1 = now w).
  { destruct (buildSearchConfig_frame userId w) as [n Hn]. rewrite Hb in Hn.
    simpl in Hn. subst w1. destruct w; reflexivity. }
  destruct (select_scrapers_total sources w1) as (scheduled & w2 & Hsel & Hn2 & _).
  exists scheduled, w2. unfold scrapeAll, bind. rewrite Hb, Hsel.
  destruct scheduled as [| s0 rest] eqn:Esch.
  - simpl. exists (mkSummary [] 0 0), w2. repeat split. constructor.
  - rewrite <- Esch in *.
    replace (length scheduled =? 0)%nat with false by (rewrite Esch; reflexivity).
    destruct (run_batches_reliable (default_keywords (merge_config base customConfig))
                scheduled Hc Hu (length scheduled) 0 (mkSummary [] 0 0) w2 ltac:(lia))
      as (rs & w' & -> & Hrs).
    destruct (add_results_summary rs (mkSummary [] 0 0)) as (H1 & H2 & H3).
    exists (add_results rs (mkSummary [] 0 0)), w'.
    split; [reflexivity |]. split; [reflexivity |].
    rewrite H1, H2, H3. simpl. rewrite drop_0, Hn2, Hn1 in Hrs.
    repeat split; assumption.
Qed.

(** Over the seven portals, with LinkedIn down, the batch returns seven
    results. *)
Lemma C4_adapter_failure_contained_witness :
  @never_rejects Sample.platform ScraperRunCreate /\
  @never_rejects Sample.platform ScraperRunUpdate /\
  @buildSearchConfig Sample.platform Sample.user (Sample.service Sample.nov_2026)
    = (Ok Sample.search_config, set_tick 3 (Sample.service Sample.nov_2026)) /\
  exists scheduled w2 summary w',
    select_scrapers None (set_tick 3 (Sample.service Sample.nov_2026))
      = (Ok scheduled, w2) /\
    @scrapeAll Sample.platform Sample.user None Sample.no_overrides
      (Sample.service Sample.nov_2026) = (Ok summary, w') /\
    Forall2 (result_of (default_keywords (merge_config Sample.search_config
                                            Sample.no_overrides))
               (now (Sample.service Sample.nov_2026)))
      scheduled (results summary) /\
    totalJobsNew summary = list_sum (map jobsNew (results summary)) /\
    totalJobsUpdated summary = list_sum (map jobsUpdated (results summary)).
Proof.
  assert (Hc : @never_rejects Sample.platform ScraperRunCreate)
    by (intros n; reflexivity).
  assert (Hu : @never_rejects Sample.platform ScraperRunUpdate)
    by (intros n; reflexivity).
  assert (Hb : @buildSearchConfig Sample.platform Sample.user
                 (Sample.service Sample.nov_2026)
               = (Ok Sample.search_config, set_tick 3 (Sample.service Sample.nov_2026)))
    by (vm_compute; reflexivity).
  split; [exact Hc |]. split; [exact Hu |]. split; [exact Hb |].
  exact (@C4_adapter_failure_contained Sample.platform Sample.user None
           Sample.no_overrides _ _ _ Hc Hu Hb).
Defined.

(** C4 as stated fails when persistence fails: the LinkedIn adapter throws,
    the update of the run record in the [catch] block of [runScraper]
    rejects (it is the Prisma call number 4 of the run, after the three
    reads of the configuration and the creation of the run record), and the
    rejection leaves [runScraper] and [scrapeAll] as an exception. *)
Lemma C4_counterexample :
  (exists scraper,
     registry_get "linkedin" (scrapers (Sample.service Sample.nov_2026)) = Some scraper /\
     scrape scraper Sample.search_config Sample.nov_2026 = Throw "portal down") /\
  fst (@scrapeAll (Sample.platform_rejecting 4) Sample.user (Some ["linkedin"%string])
         Sample.no_overrides (Sample.service Sample.nov_2026))
  = Throw "connection lost".
Proof.
  split.
  - eexists. split; vm_compute; reflexivity.
  - vm_compute. reflexivity.
Qed.

(** A posting that is new to an empty table. *)
Lemma C7_upsert_idempotent_witness :
  @never_rejects Sample.platform JobFindFirst /\
  @never_rejects Sample.platform JobUpsert /\
  (length (postings (Sample.posting "n-1") (db Sample.morning)) <= 1)%nat /\
  exists w1 w2,
    @processJob Sample.platform (Sample.posting "n-1") Sample.morning
      = (Ok (length (postings (Sample.posting "n-1") (db Sample.morning)) =? 0)%nat, w1) /\
    @processJob Sample.platform (Sample.posting "n-1") w1 = (Ok false, w2) /\
    length (postings (Sample.posting "n-1") (db w1)) = 1%nat /\
    length (postings (Sample.posting "n-1") (db w2)) = 1%nat /\
    length (jobs (db w2)) = length (jobs (db w1)) /\
    @process_jobs Sample.platform [Sample.posting "n-1"] 0 0 w1 = (Ok (0, 1)%nat, w2).
Proof.
  assert (Hf : @never_rejects Sample.platform JobFindFirst) by (intros n; reflexivity).
  assert (Hp : @never_rejects Sample.platform JobUpsert) by (intros n; reflexivity).
  assert (Hu : (length (postings (Sample.posting "n-1") (db Sample.morning)) <= 1)%nat)
    by (vm_compute; lia).
  split; [exact Hf |]. split; [exact Hp |]. split; [exact Hu |].
  exact (@C7_upsert_idempotent Sample.platform (Sample.posting "n-1") Sample.morning
           Hf Hp Hu).
Defined.

(** Two postings, of which the first cannot be looked up: the run succeeds
    and counts two found, one new. *)
Example run_with_a_failed_job :
  fst (@runScraper (Sample.platform_rejecting 1) Sample.two_postings
         Sample.search_config (Sample.service Sample.nov_2026))
  = Ok {| result_source := "naukri"; success := true; jobsFound := 2; jobsNew := 1;
          jobsUpdated := 0; error := None; blocked := None; duration := 0 |}.
Proof. vm_compute. reflexivity. Qed.

(** The scenario of the design document: one of the adapters of a batch
    throws, the others report their results. *)
Example one_of_seven_fails :
  match fst (@scrapeAll Sample.platform Sample.user None Sample.no_overrides
               (Sample.service Sample.nov_2026)) with
  | Ok summary =>
      map (fun r => (result_source r, success r)) (results summary)
  | Throw _ => []
  end
  = [("indeed", true); ("naukri", true); ("linkedin", false); ("wellfound", true);
     ("foundit", true); ("hirist", true); ("cutshort", true)]%string.
Proof. vm_compute. reflexivity. Qed.

(** ** A disabled source *)

(** C9 fails on the code.  LinkedIn fails three runs in a row and is
    blocked; the operator then disables it; a day later a scrape of the
    source by name runs its adapter all the same, because the availability
    check answers yes when it lifts an expired block, without looking at
    [enabled].  The scrape of all enabled sources, which tests the
    scraper's own flag first, leaves the source out. *)
Theorem C9_disabled_source_runs_once_block_expires :
  (sourceHealth Sample.disabled_while_blocked !! "linkedin"%string
   = Some {| health_source := "linkedin"; enabled := false; isBlocked := true;
             blockedAt := Some Sample.nov_2026; consecutiveFailures := 3;
             lastSuccess := None; lastRun := Some Sample.nov_2026 |}) /\
  fst (isSourceAvailable "linkedin"
         (set_now (Sample.day_after Sample.nov_2026) Sample.disabled_while_blocked))
    = Ok true /\
  match fst (select_scrapers (Some ["linkedin"%string])
               (set_now (Sample.day_after Sample.nov_2026)
                  Sample.disabled_while_blocked)) with
  | Ok scheduled => map name scheduled = ["linkedin"%string]
  | Throw _ => False
  end /\
  match fst (@scrapeAll Sample.platform Sample.user (Some ["linkedin"%string])
               Sample.no_overrides
               (set_now (Sample.day_after Sample.nov_2026)
                  Sample.disabled_while_blocked)) with
  | Ok summary =>
      map (fun r => (result_source r, error r)) (results summary)
      = [("linkedin", Some "portal down")]%string
  | Throw _ => False
  end /\
  match fst (select_scrapers None
               (set_now (Sample.day_after Sample.nov_2026)
                  Sample.disabled_while_blocked)) with
  | Ok scheduled =>
      map name scheduled
      = ["indeed"; "naukri"; "wellfound"; "foundit"; "hirist"; "cutshort"]%string
  | Throw _ => False
  end.
Proof.
  split; [vm_compute; reflexivity |].
  split; [vm_compute; reflexivity |].
  split; [vm_compute; reflexivity |].
  split; vm_compute; reflexivity.
Qed.

(** ** The spelling of a source name *)

Lemma lower_char_idempotent (c : ascii) : lower_char (lower_char c) = lower_char c.
Proof. destruct c as [[] [] [] [] [] [] [] []]; reflexivity. Qed.

Lemma toLowerCase_idempotent (s : string) : toLowerCase (toLowerCase s) = toLowerCase s.
Proof.
  induction s as [| c s IH]; simpl; [reflexivity |].
  rewrite lower_char_idempotent, IH. reflexivity.
Qed.

(** The keys of the health map are the names of the registered scrapers. *)
Lemma initializeScrapers_keys (instances : list IScraper) :
  forall (w : World) (k : string),
    is_Some (sourceHealth (initializeScrapers instances w) !! k) ->
    is_Some (sourceHealth w !! k) \/ In k (map name instances).
Proof.
  unfold initializeScrapers.
  induction instances as [| s instances IH]; intros w k H; simpl in *.
  - left. exact H.
  - apply IH in H as [H | H]; [| right; right; exact H].
    destruct w as [d t n reg h]; simpl in H.
    destruct (decide (name s = k)) as [-> | Hne]; [right; left; reflexivity |].
    rewrite lookup_insert_ne in H by exact Hne. left. exact H.
Qed.

Lemma service_keys_lowercase
    (portal : string -> ScraperConfig -> Instant -> outcome (list ScrapedJob))
    (w : World) (k : string) :
  sourceHealth w = ∅ ->
  is_Some (sourceHealth (initializeScrapers (scraperInstances portal) w) !! k) ->
  toLowerCase k = k.
Proof.
  intros He H. apply initializeScrapers_keys in H as [H | H].
  - rewrite He, lookup_empty in H. destruct H; discriminate.
  - simpl in H. repeat (destruct H as [<- | H]; [reflexivity |]). destruct H.
Qed.

(** ** The sources of the health map *)

Lemma same_sources_refl (w : World) : same_sources w w.
Proof. intros k. reflexivity. Qed.

Lemma same_sources_trans (w1 w2 w3 : World) :
  same_sources w1 w2 -> same_sources w2 w3 -> same_sources w1 w3.
Proof. intros H1 H2 k. specialize (H1 k). specialize (H2 k). tauto. Qed.

Lemma same_sources_health (w w' : World) :
  sourceHealth w' = sourceHealth w -> same_sources w w'.
Proof. intros E k. rewrite E. reflexivity. Qed.

(** Writing the record of a known source keeps the sources. *)
Lemma same_sources_insert (src : string) (h h' : SourceHealth) (w : World) :
  sourceHealth w !! src = Some h ->
  same_sources w (set_sourceHealth (<[src := h']> (sourceHealth w)) w).
Proof.
  intros Hh k. destruct w as [d t n reg m]; simpl in *.
  destruct (decide (src = k)) as [<- | Hne].
  - rewrite lookup_insert_eq, Hh. split; intros _; eexists; reflexivity.
  - rewrite lookup_insert_ne by exact Hne. reflexivity.
Qed.

Lemma keeps_ret {A} (a : A) : keeps_sources (ret a).
Proof. intros w. apply same_sources_refl. Qed.

Lemma keeps_lift {A} (o : outcome A) : keeps_sources (lift o).
Proof. intros w. apply same_sources_refl. Qed.

Lemma keeps_bind {A B} (m : M A) (k : A -> M B) :
  keeps_sources m -> (forall a, keeps_sources (k a)) -> keeps_sources (bind m k).
Proof.
  intros Hm Hk w. unfold bind. specialize (Hm w).
  destruct (m w) as [[a | e] w1]; simpl in *; [| exact Hm].
  eapply same_sources_trans; [exact Hm | apply Hk].
Qed.

Lemma keeps_try_catch {A} (body : M A) (handler : string -> M A) :
  keeps_sources body -> (forall e, keeps_sources (handler e)) ->
  keeps_sources (try_catch body handler).
Proof.
  intros Hb Hh w. unfold try_catch. specialize (Hb w).
  destruct (body w) as [[a | e] w1]; simpl in *; [exact Hb |].
  eapply same_sources_trans; [exact Hb | apply Hh].
Qed.

Lemma keeps_Promise_both {A B} (p : M A) (q : M B) :
  keeps_sources p -> keeps_sources q -> keeps_sources (Promise_both p q).
Proof.
  intros Hp Hq w. unfold Promise_both. specialize (Hp w).
  destruct (p w) as [r1 w1]. specialize (Hq w1). destruct (q w1) as [r2 w2].
  simpl in *. eapply same_sources_trans; eassumption.
Qed.

Lemma keeps_Promise_all {A} (ps : list (M A)) :
  Forall keeps_sources ps -> keeps_sources (Promise_all ps).
Proof.
  induction 1 as [| p ps Hp _ IH]; simpl; [apply keeps_ret |].
  intros w. pose proof (keeps_Promise_both p (Promise_all ps) Hp IH w) as H.
  destruct (Promise_both p (Promise_all ps) w) as [[[a l] | e] w']; exact H.
Qed.

Lemma keeps_prisma `{P : Platform} {A} (call : PrismaCall)
    (query : Database -> outcome A * Database) :
  keeps_sources (prisma call query).
Proof.
  intros w. unfold prisma. apply same_sources_health.
  destruct (prisma_rejects (tick w) call); [destruct w; reflexivity |].
  destruct (query (db w)). destruct w; reflexivity.
Qed.

Lemma keeps_new_Date : keeps_sources new_Date.
Proof. intros w. apply same_sources_refl. Qed.

Lemma keeps_Date_now : keeps_sources Date_now.
Proof. intros w. apply same_sources_refl. Qed.

Lemma keeps_call_scrape scraper config : keeps_sources (call_scrape scraper config).
Proof. intros w. apply same_sources_refl. Qed.

Lemma keeps_isSourceAvailable (src : string) : keeps_sources (isSourceAvailable src).
Proof.
  intros w. unfold isSourceAvailable.
  destruct (sourceHealth w !! src) as [h |] eqn:Hh; [| apply same_sources_refl].
  destruct (isBlocked h); [| apply same_sources_refl].
  destruct (blockedAt h); [| apply same_sources_refl].
  destruct (_ <=? _)%Z; [| apply same_sources_refl].
  eapply same_sources_insert. exact Hh.
Qed.

Lemma keeps_updateSourceHealth (src : string) (ok : bool) :
  keeps_sources (updateSourceHealth src ok).
Proof.
  intros w. unfold updateSourceHealth.
  destruct (sourceHealth w !! src) as [h |] eqn:Hh; [| apply same_sources_refl].
  destruct ok; [eapply same_sources_insert; exact Hh |].
  destruct (_ <=? _)%nat; eapply same_sources_insert; exact Hh.
Qed.

Lemma keeps_unblockSource (src : string) : keeps_sources (unblockSource src).
Proof.
  intros w. unfold unblockSource.
  destruct (sourceHealth w !! src) as [h |] eqn:Hh; [| apply same_sources_refl].
  eapply same_sources_insert. exact Hh.
Qed.

Lemma keeps_setSourceEnabled (src : string) (b : bool) :
  keeps_sources (setSourceEnabled src b).
Proof.
  intros w. unfold setSourceEnabled.
  destruct (sourceHealth w !! src) as [h |] eqn:Hh; [| apply same_sources_refl].
  pose proof (same_sources_insert src h (set_enabled b h) w Hh) as H.
  destruct (registry_get src _); [| exact H].
  eapply same_sources_trans; [exact H |].
  apply same_sources_health. destruct w; reflexivity.
Qed.

Create HintDb keeps discriminated.
#[local] Hint Resolve keeps_ret keeps_lift keeps_bind keeps_try_catch keeps_Promise_both
  keeps_prisma keeps_new_Date keeps_Date_now keeps_call_scrape keeps_isSourceAvailable
  keeps_updateSourceHealth : keeps.

Section KeepsSources.
Context {P : Platform}.

Lemma keeps_processJob (job : ScrapedJob) : keeps_sources (processJob job).
Proof.
  unfold processJob, job_findFirst, upsertFromScraper, job_upsert.
  auto 10 with keeps.
Qed.

Lemma keeps_process_jobs (jobs : list ScrapedJob) :
  forall n u, keeps_sources (process_jobs jobs n u).
Proof.
  induction jobs as [| job jobs IH]; intros n u; simpl; [apply keeps_ret |].
  apply keeps_bind; [| intros a; apply IH].
  apply keeps_try_catch; [| intros e; apply keeps_ret].
  apply keeps_bind; [apply keeps_processJob | intros a; apply keeps_ret].
Qed.

Lemma keeps_runScraper (scraper : IScraper) (config : ScraperConfig) :
  keeps_sources (runScraper scraper config).
Proof.
  unfold runScraper, runScraper_try, runScraper_catch, scraperRun_create,
    scraperRun_update.
  repeat (first [ apply keeps_bind; [| intros ?]
                | apply keeps_try_catch; [| intros ?]
                | apply keeps_process_jobs
                | match goal with |- keeps_sources (let '(_, _) := ?p in _) =>
                    destruct p end
                | solve [auto with keeps] ]).
Qed.

Lemma keeps_run_batches (l : list IScraper) (config : ScraperConfig) :
  forall fuel i acc, keeps_sources (run_batches fuel i l config acc).
Proof.
  induction fuel as [| fuel IH]; intros i acc; simpl; [apply keeps_ret |].
  destruct (i <? length l)%nat; [| apply keeps_ret].
  apply keeps_bind; [| intros rs; apply IH].
  apply keeps_Promise_all. apply Forall_map, Forall_forall.
  intros s _. apply keeps_runScraper.
Qed.

Lemma keeps_select_named (sources : list string) :
  forall acc, keeps_sources (select_named sources acc).
Proof.
  induction sources as [| src sources IH]; intros acc; simpl; [apply keeps_ret |].
  intros w. destruct (registry_get _ _); [| apply IH].
  apply keeps_bind; [apply keeps_isSourceAvailable |].
  intros [|]; apply IH.
Qed.

Lemma keeps_select_enabled (entries : list (string * IScraper)) :
  forall acc, keeps_sources (select_enabled entries acc).
Proof.
  induction entries as [| [k s] entries IH]; intros acc; simpl; [apply keeps_ret |].
  destruct (scraper_enabled s); [| apply IH].
  apply keeps_bind; [apply keeps_isSourceAvailable |].
  intros [|]; apply IH.
Qed.

Lemma keeps_select_scrapers (sources : option (list string)) :
  keeps_sources (select_scrapers sources).
Proof.
  destruct sources as [[| s l] |]; unfold select_scrapers.
  - intros w. apply keeps_select_enabled.
  - apply (keeps_select_named (s :: l)).
  - intros w. apply keeps_select_enabled.
Qed.

Lemma keeps_buildSearchConfig (userId : string) :
  keeps_sources (buildSearchConfig userId).
Proof.
  intros w. destruct (buildSearchConfig_frame userId w) as [n ->].
  apply same_sources_health. destruct w; reflexivity.
Qed.

Lemma keeps_scrapeAll userId sources customConfig :
  keeps_sources (scrapeAll userId sources customConfig).
Proof.
  unfold scrapeAll.
  apply keeps_bind; [apply keeps_buildSearchConfig | intros base].
  apply keeps_bind; [apply keeps_select_scrapers | intros l].
  destruct (length l =? 0)%nat; [apply keeps_ret | apply keeps_run_batches].
Qed.

(** In every state of the service the sources of the health map have
    lower-case names: they are the names of the seven portals. *)
Lemma reachable_lowercase_sources (w : World) :
  reachable w -> lowercase_sources w.
Proof.
  induction 1 as [portal w He | userId sources custom w _ IH | src b w _ IH
                 | src w _ IH | t w _ IH | d w _ IH]; intros k Hk.
  - exact (service_keys_lowercase portal w k He Hk).
  - apply IH, (keeps_scrapeAll userId sources custom w). exact Hk.
  - apply IH, (keeps_setSourceEnabled src b w). exact Hk.
  - apply IH, (keeps_unblockSource src w). exact Hk.
  - apply IH. destruct w; exact Hk.
  - apply IH. destruct w; exact Hk.
Qed.

End KeepsSources.

(* ===================================================================== *)
(** * Further properties of the scoring service *)
(* ===================================================================== *)

(** ** Trimming and lower case *)

Lemma is_space_lower_char (c : ascii) : is_space (lower_char c) = is_space c.
Proof. destruct c as [[] [] [] [] [] [] [] []]; reflexivity. Qed.

Lemma trimEnd_idempotent (s : string) : trimEnd (trimEnd s) = trimEnd s.
Proof.
  induction s as [| c r IH]; [reflexivity |].
  simpl. destruct (trimEnd r) as [| c' r'] eqn:E.
  - destruct (is_space c) eqn:Ec; [reflexivity |]. simpl. rewrite Ec. reflexivity.
  - change (trimEnd (String c (String c' r')))
      with (match trimEnd (String c' r') with
            | EmptyString => if is_space c then EmptyString else String c EmptyString
            | r0 => String c r0
            end).
    rewrite IH. reflexivity.
Qed.

Lemma trimEnd_head (c : ascii) (r : string) :
  is_space c = false -> exists r', trimEnd (String c r) = String c r'.
Proof.
  intros Hc. simpl. destruct (trimEnd r) as [| c' r'].
  - rewrite Hc. exists ""%string. reflexivity.
  - exists (String c' r'). reflexivity.
Qed.

Lemma trimStart_head (s : string) :
  trimStart s = ""%string \/
  exists c r, trimStart s = String c r /\ is_space c = false.
Proof.
  induction s as [| c r IH]; [left; reflexivity |].
  simpl. destruct (is_space c) eqn:Ec; [exact IH |].
  right. exists c, r. split; [reflexivity | exact Ec].
Qed.

Lemma trim_idempotent (s : string) : trim (trim s) = trim s.
Proof.
  unfold trim. destruct (trimStart_head s) as [-> | (c & r & -> & Hc)]; [reflexivity |].
  destruct (trimEnd_head c r Hc) as [r' E]. rewrite E.
  simpl trimStart. rewrite Hc. rewrite <- E. apply trimEnd_idempotent.
Qed.

Lemma toLowerCase_trimStart (s : string) :
  toLowerCase (trimStart s) = trimStart (toLowerCase s).
Proof.
  induction s as [| c r IH]; [reflexivity |].
  simpl. rewrite is_space_lower_char. destruct (is_space c); [exact IH | reflexivity].
Qed.

Lemma toLowerCase_trimEnd (s : string) :
  toLowerCase (trimEnd s) = trimEnd (toLowerCase s).
Proof.
  induction s as [| c r IH]; [reflexivity |].
  simpl. rewrite <- IH, is_space_lower_char.
  destruct (trimEnd r) as [| c' r']; simpl; [destruct (is_space c) |]; reflexivity.
Qed.

Lemma toLowerCase_trim (s : string) : toLowerCase (trim s) = trim (toLowerCase s).
Proof. unfold trim. rewrite toLowerCase_trimEnd, toLowerCase_trimStart. reflexivity. Qed.

Lemma trim_nonempty_head (s : string) :
  nonempty (trim s) = true ->
  exists c r, trim s = String c r /\ is_space c = false.
Proof.
  unfold trim. destruct (trimStart_head s) as [-> | (c & r & -> & Hc)]; [discriminate |].
  intros _. destruct (trimEnd_head c r Hc) as [r' E]. exists c, r'. split; assumption.
Qed.

(** ** Stored lists *)

Lemma nonempty_spec (s : string) : nonempty s = true <-> s <> ""%string.
Proof.
  destruct s as [| c r]; unfold nonempty.
  - split; [discriminate | congruence].
  - split; [discriminate | reflexivity].
Qed.

Lemma filter_trimmed_clean {A} (f : A -> string) (l : list A) :
  Forall clean_entry (List.filter nonempty (map (fun e => trim (f e)) l)).
Proof.
  apply List.Forall_forall. intros s Hs. apply List.filter_In in Hs as [Hin Hne].
  apply List.in_map_iff in Hin as (e & <- & _). split.
  - apply nonempty_spec. exact Hne.
  - apply trim_idempotent.
Qed.

Lemma parsed_entries_clean `{P : Platform} :
  (forall stored, Forall clean_entry (parseLocationsString stored)) /\
  (forall stored, Forall clean_entry (parseSkillsString stored)).
Proof.
  assert (H : forall stored, Forall clean_entry (parseSkillsString stored)).
  { intros [s |]; [| constructor]. unfold parseSkillsString.
    destruct (String.eqb s "" || String.eqb (trim s) ""); [constructor |].
    destruct (JSON_parse s) as [[| | | parsed | parsed |] |]; try constructor.
    - apply (filter_trimmed_clean (fun x => x)).
    - apply filter_trimmed_clean.
    - apply (filter_trimmed_clean (fun x => x)). }
  split; exact H.
Qed.

(** X1.  Whatever text is stored and whatever [JSON.parse] makes of it,
    every entry that [parseSkillsString] returns is non-empty and carries no
    white space around it; a missing or blank text gives the empty list;
    and [parseLocationsString] is the same function. *)
Theorem parsed_lists_are_clean `{P : Platform} :
  (forall stored, Forall clean_entry (parseSkillsString stored)) /\
  parseSkillsString None = [] /\
  (forall s, trim s = ""%string -> parseSkillsString (Some s) = []) /\
  (forall stored, parseLocationsString stored = parseSkillsString stored).
Proof.
  split; [| split; [reflexivity | split; [| reflexivity]]].
  - apply parsed_entries_clean.
  - intros s Hs. unfold parseSkillsString. rewrite Hs.
    rewrite orb_true_r. reflexivity.
Qed.

(** ** Normal forms of skill names *)

Lemma normalize_in_cases (table : list (string * list string)) (lower : string) :
  normalize_in table lower = lower \/ In (normalize_in table lower) (map fst table).
Proof.
  induction table as [| [canonical synonyms] rest IH]; [left; reflexivity |].
  simpl. destruct (String.eqb lower canonical || arr_includes synonyms lower).
  - right. left. reflexivity.
  - destruct IH as [IH | IH]; [left; exact IH | right; right; exact IH].
Qed.

Lemma trim_toLowerCase_stable (s : string) :
  trim (toLowerCase (trim (toLowerCase s))) = trim (toLowerCase s).
Proof.
  rewrite toLowerCase_trim, toLowerCase_idempotent. apply trim_idempotent.
Qed.

Lemma canonical_names_normal (c : string) :
  In c (map fst SKILL_SYNONYMS) -> normalizeSkill c = c.
Proof.
  assert (H : forallb (fun c => String.eqb (normalizeSkill c) c) (map fst SKILL_SYNONYMS)
              = true) by (vm_compute; reflexivity).
  rewrite forallb_forall in H. intros Hc. apply String.eqb_eq. apply H. exact Hc.
Qed.

(** X2.  [normalizeSkill] yields a normal form: normalising twice is
    normalising once; capitals and white space around a name do not
    matter; and every synonym of the table is taken to the canonical name
    it is listed under. *)
Theorem normalizeSkill_normal_form :
  (forall s, normalizeSkill (normalizeSkill s) = normalizeSkill s) /\
  (forall s, normalizeSkill (toLowerCase s) = normalizeSkill s) /\
  (forall s, normalizeSkill (trim s) = normalizeSkill s) /\
  (forall canonical synonyms syn,
     In (canonical, synonyms) SKILL_SYNONYMS -> In syn synonyms ->
     normalizeSkill syn = canonical /\ normalizeSkill canonical = canonical).
Proof.
  split; [| split; [| split]].
  - intros s. unfold normalizeSkill at 2.
    destruct (normalize_in_cases SKILL_SYNONYMS (trim (toLowerCase s))) as [E | Hin].
    + rewrite E. unfold normalizeSkill. rewrite trim_toLowerCase_stable. reflexivity.
    + rewrite (canonical_names_normal _ Hin). reflexivity.
  - intros s. unfold normalizeSkill. rewrite toLowerCase_idempotent. reflexivity.
  - intros s. unfold normalizeSkill. rewrite toLowerCase_trim, trim_idempotent. reflexivity.
  - intros canonical synonyms syn Hc Hs.
    assert (H : forallb (fun e : string * list string =>
                           String.eqb (normalizeSkill (fst e)) (fst e) &&
                           forallb (fun syn => String.eqb (normalizeSkill syn) (fst e))
                             (snd e))
                  SKILL_SYNONYMS = true) by (vm_compute; reflexivity).
    rewrite forallb_forall in H. specialize (H _ Hc). simpl in H.
    apply andb_true_iff in H as [H1 H2]. rewrite forallb_forall in H2.
    split; apply String.eqb_eq; [apply H2; exact Hs | exact H1].
Qed.

(** ** The edit distance *)

Lemma levenshtein_refl (a : list ascii) : levenshtein a a = 0%nat.
Proof.
  induction a as [| x a IH]; [reflexivity |].
  rewrite levenshtein_cons, Ascii.eqb_refl. exact IH.
Qed.

Lemma levenshtein_zero (a : list ascii) :
  forall b, levenshtein a b = 0%nat -> a = b.
Proof.
  induction a as [| x a IH]; intros b H.
  - destruct b; [reflexivity | discriminate].
  - destruct b as [| y b]; [discriminate |].
    rewrite levenshtein_cons in H. destruct (Ascii.eqb y x) eqn:E; [| discriminate].
    apply Ascii.eqb_eq in E. subst y. f_equal. apply IH. exact H.
Qed.

Lemma levenshtein_sym (a : list ascii) :
  forall b, levenshtein a b = levenshtein b a.
Proof.
  induction a as [| x a IHa]; intros b.
  - rewrite levenshtein_nil_r. reflexivity.
  - induction b as [| y b IHb].
    + rewrite levenshtein_nil_r. reflexivity.
    + rewrite !levenshtein_cons, (Ascii.eqb_sym x y).
      rewrite (IHa b), (IHa (y :: b)), IHb.
      destruct (Ascii.eqb y x); [reflexivity |]. f_equal.
      rewrite (Nat.min_comm (levenshtein b (x :: a))). reflexivity.
Qed.

Lemma levenshtein_upper (a : list ascii) :
  forall b, (levenshtein a b <= Nat.max (length a) (length b))%nat.
Proof.
  induction a as [| x a IHa]; intros b.
  - simpl. lia.
  - destruct b as [| y b].
    + rewrite levenshtein_nil_r. simpl. lia.
    + rewrite levenshtein_cons. specialize (IHa b). simpl length.
      destruct (Ascii.eqb y x); lia.
Qed.

Lemma levenshtein_lower (a : list ascii) :
  forall b, (length a - length b <= levenshtein a b)%nat /\
            (length b - length a <= levenshtein a b)%nat.
Proof.
  induction a as [| x a IHa]; intros b.
  - simpl. lia.
  - induction b as [| y b IHb].
    + rewrite levenshtein_nil_r. simpl. lia.
    + rewrite levenshtein_cons.
      pose proof (IHa b) as H1. pose proof (IHa (y :: b)) as H2.
      simpl length in *. destruct (Ascii.eqb y x); lia.
Qed.

Lemma list_ascii_of_string_inj (a b : string) :
  list_ascii_of_string a = list_ascii_of_string b -> a = b.
Proof.
  intros H. rewrite <- (string_of_list_ascii_of_string a),
    <- (string_of_list_ascii_of_string b), H. reflexivity.
Qed.

(** X3.  [levenshteinDistance] is the Levenshtein distance of its
    arguments: it obeys the recurrence that defines the distance, is 0
    exactly for equal strings, is symmetric, and lies between the
    difference of the two lengths and the larger of them. *)
Theorem levenshteinDistance_is_a_distance (a b : string) :
  levenshteinDistance a b
    = levenshtein (rev (list_ascii_of_string a)) (rev (list_ascii_of_string b)) /\
  (levenshteinDistance a b = 0%nat <-> a = b) /\
  levenshteinDistance a b = levenshteinDistance b a /\
  (String.length a - String.length b <= levenshteinDistance a b)%nat /\
  (String.length b - String.length a <= levenshteinDistance a b)%nat /\
  (levenshteinDistance a b <= Nat.max (String.length a) (String.length b))%nat.
Proof.
  rewrite !levenshteinDistance_spec.
  pose proof (levenshtein_lower (rev (list_ascii_of_string a))
                (rev (list_ascii_of_string b))) as [Hl1 Hl2].
  pose proof (levenshtein_upper (rev (list_ascii_of_string a))
                (rev (list_ascii_of_string b))) as Hu.
  rewrite !length_rev, !length_list_ascii in *.
  split; [reflexivity |]. split; [| split; [apply levenshtein_sym | lia]].
  split.
  - intros H. apply levenshtein_zero in H. apply list_ascii_of_string_inj.
    rewrite <- (rev_involutive (list_ascii_of_string a)), H. apply rev_involutive.
  - intros ->. apply levenshtein_refl.
Qed.

Lemma inherited_keys_long (skill : string) :
  In skill Object_prototype_keys -> (2 < String.length skill)%nat.
Proof.
  assert (H : forallb (fun k => 2 <? String.length k)%nat Object_prototype_keys = true)
    by (vm_compute; reflexivity).
  rewrite forallb_forall in H. intros Hin. apply Nat.ltb_lt. apply H. exact Hin.
Qed.

(** X4.  Names of at most two characters always match each other: when
    the user holds a skill whose normalised name has at most two
    characters, every required skill whose normalised name has at most two
    characters counts as matched, whatever the two names are, because their
    edit distance cannot exceed 2. *)
Theorem short_names_always_match (skill userSkill : string) (userSkills : list string) :
  (String.length skill <= 2)%nat -> (String.length userSkill <= 2)%nat ->
  In userSkill userSkills ->
  skillMatches skill userSkills = Ok true.
Proof.
  intros Hs Hu Hin. unfold skillMatches.
  destruct (arr_includes userSkills skill); [reflexivity |].
  assert (Hfuzzy : existsb (fuzzy skill) userSkills = true).
  { apply existsb_exists. exists userSkill. split; [exact Hin |].
    apply fuzzy_spec. right. right.
    rewrite levenshteinDistance_spec.
    pose proof (levenshtein_upper (rev (list_ascii_of_string skill))
                  (rev (list_ascii_of_string userSkill))) as H.
    rewrite !length_rev, !length_list_ascii in H. lia. }
  destruct (SKILL_SYNONYMS_get skill) as [synonyms | |] eqn:E.
  - destruct (existsb (arr_includes userSkills) synonyms); [reflexivity |].
    rewrite Hfuzzy. reflexivity.
  - apply SKILL_SYNONYMS_get_inherited in E. apply inherited_keys_long in E. lia.
  - simpl. rewrite Hfuzzy. reflexivity.
Qed.

(** A required skill "C" is matched by a user whose only skill is "R". *)
Lemma short_names_always_match_witness :
  (String.length (normalizeSkill "C") <= 2)%nat /\
  (String.length (normalizeSkill "R") <= 2)%nat /\
  In (normalizeSkill "R") [normalizeSkill "R"] /\
  skillMatches (normalizeSkill "C") [normalizeSkill "R"] = Ok true.
Proof.
  assert (H1 : (String.length (normalizeSkill "C") <= 2)%nat) by (vm_compute; lia).
  assert (H2 : (String.length (normalizeSkill "R") <= 2)%nat) by (vm_compute; lia).
  assert (H3 : In (normalizeSkill "R") [normalizeSkill "R"]) by (left; reflexivity).
  split; [exact H1 |]. split; [exact H2 |]. split; [exact H3 |].
  exact (short_names_always_match _ _ _ H1 H2 H3).
Defined.

(** ** The reach of the overall score *)

Lemma calculateLocationMatch_floor `{P : Platform} job targets :
  (30 <= score (calculateLocationMatch job targets))%Q.
Proof.
  unfold calculateLocationMatch.
  repeat match goal with
         | |- context [if ?b then _ else _] => destruct b
         | |- context [match ?x with _ => _ end] => destruct x
         end; apply Qle_bool_iff; reflexivity.
Qed.

Lemma weighted_reach (skill experience salary loc : Q) :
  in_range skill -> in_range experience -> in_range salary ->
  (30 <= loc <= 100)%Q ->
  (24 <= weighted 70 skill experience salary loc <= 91)%Q.
Proof.
  unfold in_range, weighted, Math_round. intros Hs He Ha Hl. split.
  - change 24%Q with (inject_Z 24). rewrite <- Zle_Qle.
    change 24%Z with (Qfloor (24 + (1 # 2))). apply Qfloor_resp_le. lra.
  - change 91%Q with (inject_Z 91). rewrite <- Zle_Qle.
    change 91%Z with (Qfloor (91 + (1 # 2))). apply Qfloor_resp_le. lra.
Qed.

(** X5.  No job is rated below 24 or above 91: for a user whose minimum
    salary target is not negative, the overall score that [scoreJob]
    returns lies between 24 and 91, because the semantic score is the
    constant 70 and the location score is never below 30. *)
Theorem overallScore_between_24_and_91 `{P : Platform}
    (userId : string) (job : Job) (w : World) :
  target_valid (user_target userId (db w)) ->
  exists r w',
    scoreJob userId job w = (Ok r, w') /\ (24 <= overallScore r <= 91)%Q.
Proof.
  intros Hv. rewrite scoreJob_run.
  destruct (scoreJob_try userId job w) as [[r | e] w'] eqn:E.
  - exists r, w'. split; [reflexivity |].
    apply scoreJob_try_ok in E as (ss & Hss & -> & _).
    unfold breakdown_of, score_result. simpl. apply weighted_reach.
    + eapply calculateSkillMatch_range; exact Hss.
    + apply calculateExperienceMatch_range.
    + apply calculateSalaryMatch_range. exact Hv.
    + split; [apply calculateLocationMatch_floor |].
      apply (calculateLocationMatch_range job (user_target userId (db w))).
  - exists neutral_result, w'. split; [reflexivity |].
    simpl. split; apply Qle_bool_iff; reflexivity.
Qed.

(** The Python developer against a posting that asks for nothing: every
    component is at its default, and the overall score is 76. *)
Lemma overallScore_between_24_and_91_witness :
  target_valid (user_target Sample.user (db Sample.morning)) /\
  exists r w',
    @scoreJob Sample.platform Sample.user (Sample.bare_job 1 "p-1") Sample.morning
      = (Ok r, w') /\
    (24 <= overallScore r <= 91)%Q.
Proof.
  assert (Hv : target_valid (user_target Sample.user (db Sample.morning)))
    by (vm_compute; discriminate).
  split; [exact Hv |].
  exact (@overallScore_between_24_and_91 Sample.platform Sample.user
           (Sample.bare_job 1 "p-1") Sample.morning Hv).
Defined.

(** ** Experience *)

(** X6.  When a posting states a minimum or a maximum of experience, the
    experience score is 100 exactly when the user's total years lie within
    the stated range; any shortfall and any excess cost points. *)
Theorem experience_perfect_iff_within_range (today : Instant) (job : Job)
    (exps : list Experience) :
  truthy (job_experienceMin job) || truthy (job_experienceMax job) = true ->
  (score (calculateExperienceMatch today job exps) == 100)%Q <->
  within_required_years job (calculateTotalYears today exps).
Proof.
  intros Hreq. unfold calculateExperienceMatch, within_required_years.
  assert (Hnone : negb (truthy (job_experienceMin job)) &&
                  negb (truthy (job_experienceMax job)) = false).
  { destruct (truthy (job_experienceMin job)), (truthy (job_experienceMax job));
      simpl in *; congruence. }
  rewrite Hnone. clear Hnone Hreq.
  set (years := calculateTotalYears today exps).
  assert (Hmin : match job_experienceMin job with Some v => v | None => 0%Z end
                 = num (job_experienceMin job)) by reflexivity.
  rewrite Hmin. clear Hmin.
  set (lo := num (job_experienceMin job)).
  destruct (Qle_bool (inject_Z lo) years) eqn:E0.
  - assert (Hlo : (inject_Z lo <= years)%Q) by (apply Qle_bool_iff; exact E0).
    assert (Hnlt : Qlt_bool years (inject_Z lo) = false).
    { unfold Qlt_bool. rewrite E0. reflexivity. }
    destruct (truthy (job_experienceMax job)) eqn:T.
    + destruct (job_experienceMax job) as [hi |]; [| discriminate]. simpl.
      destruct (Qle_bool years (inject_Z hi)) eqn:E1; simpl.
      * apply Qle_bool_iff in E1. split; [intros _ | intros _; reflexivity].
        split; [exact Hlo | intros _; exact E1].
      * rewrite Hnlt. simpl.
        assert (Hhi : (inject_Z hi < years)%Q).
        { apply Qlt_bool_iff. unfold Qlt_bool. rewrite E1. reflexivity. }
        split.
        -- intros H. exfalso. unfold Math_max in H.
           destruct (Q.max_spec 60 (100 - (years - inject_Z hi) * 5)) as [[_ M] | [_ M]];
             rewrite M in H; lra.
        -- intros [_ H]. specialize (H eq_refl). lra.
    + simpl. split; [intros _ | intros _; reflexivity].
      split; [exact Hlo | discriminate].
  - assert (Hlt : (years < inject_Z lo)%Q).
    { apply Qlt_bool_iff. unfold Qlt_bool. rewrite E0. reflexivity. }
    assert (Hb : Qlt_bool years (inject_Z lo) = true)
      by (unfold Qlt_bool; rewrite E0; reflexivity).
    simpl. rewrite Hb. simpl. split.
    + intros H. exfalso. unfold Math_max in H.
      destruct (Q.max_spec 0 (100 - (inject_Z lo - years) * 15)) as [[_ M] | [_ M]];
        rewrite M in H; lra.
    + intros [H _]. lra.
Qed.

(** Six years and five months against a posting that asks for eight
    years. *)
Lemma experience_perfect_iff_within_range_witness :
  truthy (job_experienceMin Sample.senior_job)
    || truthy (job_experienceMax Sample.senior_job) = true /\
  ((score (calculateExperienceMatch Sample.nov_2026 Sample.senior_job
             (experiences (Sample.profile None))) == 100)%Q <->
   within_required_years Sample.senior_job
     (calculateTotalYears Sample.nov_2026 (experiences (Sample.profile None)))).
Proof.
  assert (H : truthy (job_experienceMin Sample.senior_job)
              || truthy (job_experienceMax Sample.senior_job) = true) by reflexivity.
  split; [exact H |].
  exact (experience_perfect_iff_within_range Sample.nov_2026 Sample.senior_job
           (experiences (Sample.profile None)) H).
Defined.

Lemma total_months_sum (today : Instant) (exps : list Experience) :
  forall acc,
    fold_left (fun total exp =>
                 let months := months_of today exp in
                 if (0 <? months)%Z then (total + months)%Z else total) exps acc
    = (acc + Z.of_nat (list_sum (map (fun exp => Z.to_nat (months_of today exp)) exps)))%Z.
Proof.
  induction exps as [| e exps IH]; intros acc; simpl.
  - lia.
  - rewrite IH. destruct (0 <? months_of today e)%Z eqn:E.
    + apply Z.ltb_lt in E. lia.
    + apply Z.ltb_ge in E. lia.
Qed.

Lemma calculateTotalYears_sum (today : Instant) (exps : list Experience) :
  calculateTotalYears today exps =
  (inject_Z (Math_round
     ((inject_Z (Z.of_nat (list_sum (map (fun exp => Z.to_nat (months_of today exp)) exps)))
       / 12) * 10)) / 10)%Q.
Proof.
  unfold calculateTotalYears. rewrite total_months_sum. reflexivity.
Qed.

Lemma list_sum_permutation (l l' : list nat) :
  Permutation l l' -> list_sum l = list_sum l'.
Proof. induction 1; simpl; lia. Qed.

(** X7.  The total of [calculateTotalYears] does not depend on the order
    of the experience entries, is never negative, and ignores every entry
    that ends in the month it starts in or earlier. *)
Theorem calculateTotalYears_counts_spans (today : Instant) :
  (forall exps exps',
     Permutation exps exps' ->
     calculateTotalYears today exps = calculateTotalYears today exps') /\
  (forall exps, (0 <= calculateTotalYears today exps)%Q) /\
  (forall e exps,
     (months_of today e <= 0)%Z ->
     calculateTotalYears today (e :: exps) = calculateTotalYears today exps).
Proof.
  split; [| split].
  - intros exps exps' Hp. rewrite !calculateTotalYears_sum.
    rewrite (list_sum_permutation _ _
               (Permutation_map (fun exp => Z.to_nat (months_of today exp)) Hp)).
    reflexivity.
  - intros exps. rewrite calculateTotalYears_sum.
    set (n := list_sum _).
    assert (Hn : (0 <= inject_Z (Z.of_nat n))%Q).
    { change 0%Q with (inject_Z 0). rewrite <- Zle_Qle. lia. }
    assert (Hr : (0 <= inject_Z (Math_round (inject_Z (Z.of_nat n) / 12 * 10)))%Q).
    { unfold Math_round. change 0%Q with (inject_Z 0). rewrite <- Zle_Qle.
      change 0%Z with (Qfloor (1 # 2)). apply Qfloor_resp_le.
      assert ((0 <= inject_Z (Z.of_nat n) / 12)%Q)
        by (apply Qle_shift_div_l; [reflexivity | lra]).
      lra. }
    apply Qle_shift_div_l; [reflexivity | lra].
  - intros e exps He. rewrite !calculateTotalYears_sum. simpl map. simpl list_sum.
    replace (Z.to_nat (months_of today e)) with 0%nat by lia. reflexivity.
Qed.

(** ** Location *)

Lemma includes_empty_string (sub : string) :
  sub <> ""%string -> includes "" sub = false.
Proof. destruct sub; [congruence | reflexivity]. Qed.

Lemma toLowerCase_nonempty (s : string) : s <> ""%string -> toLowerCase s <> ""%string.
Proof. destruct s; [congruence | discriminate]. Qed.

(** X8.  The location score is one of 30, 40, 80, 90 and 100.  A posting
    that names no location, scored for a user who prefers neither remote
    work nor any place, gets 40 as soon as the user lists one preferred
    location, and 80 when the user lists none. *)
Theorem location_score_cases `{P : Platform} (job : Job) (targets : option JobTarget) :
  (score (calculateLocationMatch job targets) = 30%Q \/
   score (calculateLocationMatch job targets) = 40%Q \/
   score (calculateLocationMatch job targets) = 80%Q \/
   score (calculateLocationMatch job targets) = 90%Q \/
   score (calculateLocationMatch job targets) = 100%Q) /\
  (is_string (opt_field targets remotePreference) "remote" = false ->
   is_string (opt_field targets remotePreference) "any" = false ->
   job_location job = None ->
   score (calculateLocationMatch job targets) =
   match parseLocationsString (opt_field targets preferredLocations) with
   | [] => 80%Q
   | _ :: _ => 40%Q
   end).
Proof.
  split.
  - unfold calculateLocationMatch.
    repeat match goal with
           | |- context [if ?b then _ else _] => destruct b
           | |- context [match ?x with _ => _ end] => destruct x
           end; simpl; tauto.
  - intros Hr Ha Hl. unfold calculateLocationMatch. rewrite Hr, Ha, Hl.
    destruct (opt_field targets preferredLocations) as [stored |]; [| reflexivity].
    destruct (String.eqb stored "") eqn:E.
    { apply String.eqb_eq in E. subst stored. reflexivity. }
    pose proof (proj1 parsed_entries_clean (Some stored)) as Hclean.
    destruct (parseLocationsString (Some stored)) as [| loc rest] eqn:Ep; [reflexivity |].
    simpl length. simpl Nat.eqb. cbv iota.
    assert (Hx : existsb (fun loc => includes "" (toLowerCase loc)) (loc :: rest) = false).
    { apply not_true_is_false. intros Hex. apply existsb_exists in Hex as (x & Hin & Hx).
      rewrite List.Forall_forall in Hclean. destruct (Hclean x Hin) as [Hne _].
      rewrite includes_empty_string in Hx; [discriminate |].
      apply toLowerCase_nonempty. exact Hne. }
    rewrite Hx. reflexivity.
Qed.

(* ===================================================================== *)
(** * The state of the scrapers service *)
(* ===================================================================== *)

(** ** The registry *)

Lemma registry_get_In (k : string) (r : list (string * IScraper)) (s : IScraper) :
  registry_get k r = Some s -> In (k, s) r.
Proof.
  unfold registry_get. destruct (List.find _ r) as [[k' s'] |] eqn:E; [| discriminate].
  intros [= <-]. apply List.find_some in E as [Hin Hk]. simpl in Hk.
  apply String.eqb_eq in Hk. subst k'. exact Hin.
Qed.

Lemma registry_get_first (k : string) (r : list (string * IScraper)) (s : IScraper) :
  NoDup (map fst r) -> In (k, s) r -> registry_get k r = Some s.
Proof.
  unfold registry_get. induction r as [| [k0 s0] r IH]; intros Hnd Hin; [destruct Hin |].
  simpl. inversion Hnd as [| ? ? Hk0 Hnd']; subst.
  destruct Hin as [[= -> ->] | Hin].
  - rewrite String.eqb_refl. reflexivity.
  - destruct (String.eqb k0 k) eqn:E.
    + apply String.eqb_eq in E. subst k0. exfalso. apply Hk0.
      apply list_elem_of_In, List.in_map_iff.
      exists (k, s). split; [reflexivity | exact Hin].
    + apply IH; assumption.
Qed.

Lemma registry_set_keys (k : string) (s : IScraper) (r : list (string * IScraper)) :
  In k (map fst r) -> map fst (registry_set k s r) = map fst r.
Proof.
  induction r as [| [k0 s0] r IH]; intros Hin; [destruct Hin |].
  simpl. destruct (String.eqb k0 k) eqn:E; [reflexivity |].
  simpl. f_equal. apply IH. destruct Hin as [Hin | Hin]; [| exact Hin].
  simpl in Hin. subst k0. rewrite String.eqb_refl in E. discriminate.
Qed.

Lemma registry_set_entries (k : string) (s : IScraper) (r : list (string * IScraper))
    (k' : string) (s' : IScraper) :
  NoDup (map fst r) -> In (k', s') (registry_set k s r) ->
  (k' = k /\ s' = s) \/ (k' <> k /\ In (k', s') r).
Proof.
  induction r as [| [k0 s0] r IH]; intros Hnd Hin.
  - destruct Hin as [[= <- <-] | []]. left. split; reflexivity.
  - inversion Hnd as [| ? ? Hk0 Hnd']; subst. simpl in Hin.
    destruct (String.eqb k0 k) eqn:E.
    + apply String.eqb_eq in E. subst k0.
      destruct Hin as [[= <- <-] | Hin]; [left; split; reflexivity |].
      right. split; [| right; exact Hin].
      intros ->. apply Hk0. apply list_elem_of_In, List.in_map_iff.
      exists (k, s'). split; [reflexivity | exact Hin].
    + destruct Hin as [[= <- <-] | Hin].
      * right. split; [| left; reflexivity].
        intros ->. rewrite String.eqb_refl in E. discriminate.
      * destruct (IH Hnd' Hin) as [H | [H1 H2]]; [left; exact H |].
        right. split; [exact H1 | right; exact H2].
Qed.

Lemma registry_set_same (k : string) (s : IScraper) (r : list (string * IScraper)) :
  registry_get k r = Some s -> registry_set k s r = r.
Proof.
  unfold registry_get. induction r as [| [k0 s0] r IH]; [discriminate |].
  simpl. destruct (String.eqb k0 k) eqn:E.
  - intros [= <-]. apply String.eqb_eq in E. subst k0. reflexivity.
  - intros H. rewrite IH; [reflexivity | exact H].
Qed.

Lemma registry_set_twice (k : string) (s1 s2 : IScraper) (r : list (string * IScraper)) :
  registry_set k s2 (registry_set k s1 r) = registry_set k s2 r.
Proof.
  induction r as [| [k0 s0] r IH]; simpl.
  - rewrite String.eqb_refl. reflexivity.
  - destruct (String.eqb k0 k) eqn:E; simpl; rewrite E; [reflexivity |].
    rewrite IH. reflexivity.
Qed.

Lemma registry_get_set (k : string) (s : IScraper) (r : list (string * IScraper)) :
  registry_get k (registry_set k s r) = Some s.
Proof.
  unfold registry_get. induction r as [| [k0 s0] r IH]; simpl.
  - rewrite String.eqb_refl. reflexivity.
  - destruct (String.eqb k0 k) eqn:E; simpl; rewrite E; [reflexivity | exact IH].
Qed.

Lemma portal_names_NoDup : NoDup portal_names.
Proof. compute_done. Qed.

(** ** Properties that service code keeps *)

Section Preserves.

Variable I : World -> Prop.

Hypothesis I_frame :
  forall w w', scrapers w' = scrapers w -> sourceHealth w' = sourceHealth w -> I w -> I w'.

Lemma preserves_ret {A} (a : A) : preserves I (ret a).
Proof. intros w H. exact H. Qed.

Lemma preserves_lift {A} (o : outcome A) : preserves I (lift o).
Proof. intros w H. exact H. Qed.

Lemma preserves_bind {A B} (m : M A) (k : A -> M B) :
  preserves I m -> (forall a, preserves I (k a)) -> preserves I (bind m k).
Proof.
  intros Hm Hk w H. unfold bind. specialize (Hm w H).
  destruct (m w) as [[a | e] w1]; simpl in *; [| exact Hm].
  apply Hk. exact Hm.
Qed.

Lemma preserves_try_catch {A} (body : M A) (handler : string -> M A) :
  preserves I body -> (forall e, preserves I (handler e)) ->
  preserves I (try_catch body handler).
Proof.
  intros Hb Hh w H. unfold try_catch. specialize (Hb w H).
  destruct (body w) as [[a | e] w1]; simpl in *; [exact Hb |].
  apply Hh. exact Hb.
Qed.

Lemma preserves_Promise_both {A B} (p : M A) (q : M B) :
  preserves I p -> preserves I q -> preserves I (Promise_both p q).
Proof.
  intros Hp Hq w H. unfold Promise_both. specialize (Hp w H).
  destruct (p w) as [r1 w1]. specialize (Hq w1 Hp). destruct (q w1) as [r2 w2].
  exact Hq.
Qed.

Lemma preserves_Promise_all {A} (ps : list (M A)) :
  Forall (preserves I) ps -> preserves I (Promise_all ps).
Proof.
  induction 1 as [| p ps Hp _ IH]; simpl; [apply preserves_ret |].
  intros w H. pose proof (preserves_Promise_both p (Promise_all ps) Hp IH w H) as H'.
  destruct (Promise_both p (Promise_all ps) w) as [[[a l] | e] w']; exact H'.
Qed.

Lemma preserves_prisma `{P : Platform} {A} (call : PrismaCall)
    (query : Database -> outcome A * Database) :
  preserves I (prisma call query).
Proof.
  intros w H. unfold prisma.
  destruct (prisma_rejects (tick w) call).
  - apply (I_frame w); [| | exact H]; destruct w; reflexivity.
  - destruct (query (db w)). apply (I_frame w); [| | exact H]; destruct w; reflexivity.
Qed.

Lemma preserves_new_Date : preserves I new_Date.
Proof. intros w H. exact H. Qed.

Lemma preserves_Date_now : preserves I Date_now.
Proof. intros w H. exact H. Qed.

Lemma preserves_call_scrape scraper config : preserves I (call_scrape scraper config).
Proof. intros w H. exact H. Qed.

Hypothesis I_isSourceAvailable : forall src, preserves I (isSourceAvailable src).

(** The sources whose health the code may update. *)
Variable allowed : string -> Prop.

Hypothesis I_updateSourceHealth :
  forall src ok, allowed src -> preserves I (updateSourceHealth src ok).

Context {P : Platform}.

Ltac preserved :=
  repeat (first [ apply preserves_bind; [| intros ?]
                | apply preserves_try_catch; [| intros ?]
                | apply preserves_Promise_both
                | apply preserves_prisma
                | apply preserves_ret
                | apply preserves_lift
                | apply preserves_new_Date
                | apply preserves_Date_now
                | apply preserves_call_scrape
                | apply I_isSourceAvailable
                | apply I_updateSourceHealth; assumption
                | match goal with |- preserves _ (let '(_, _) := ?p in _) =>
                    destruct p end ]).

Lemma preserves_processJob (job : ScrapedJob) : preserves I (processJob job).
Proof.
  unfold processJob, job_findFirst, upsertFromScraper, job_upsert. preserved.
Qed.

Lemma preserves_process_jobs (jobs : list ScrapedJob) :
  forall n u, preserves I (process_jobs jobs n u).
Proof.
  induction jobs as [| job jobs IH]; intros n u; simpl; [apply preserves_ret |].
  apply preserves_bind; [| intros a; apply IH].
  apply preserves_try_catch; [| intros e; apply preserves_ret].
  apply preserves_bind; [apply preserves_processJob | intros a; apply preserves_ret].
Qed.

Lemma preserves_runScraper (scraper : IScraper) (config : ScraperConfig) :
  allowed (name scraper) -> preserves I (runScraper scraper config).
Proof.
  intros Ha. unfold runScraper, runScraper_try, runScraper_catch, scraperRun_create,
    scraperRun_update.
  repeat (first [ apply preserves_process_jobs | progress preserved ]).
Qed.

Lemma preserves_run_batches (l : list IScraper) (config : ScraperConfig) :
  Forall (fun s => allowed (name s)) l ->
  forall fuel i acc, preserves I (run_batches fuel i l config acc).
Proof.
  intros Hl. induction fuel as [| fuel IH]; intros i acc; simpl; [apply preserves_ret |].
  destruct (i <? length l)%nat; [| apply preserves_ret].
  apply preserves_bind; [| intros rs; apply IH].
  apply preserves_Promise_all. apply Forall_map. unfold slice.
  eapply Forall_impl; [apply Forall_take, Forall_drop; exact Hl |].
  intros s Hs. apply preserves_runScraper. exact Hs.
Qed.

Lemma preserves_select_named (sources : list string) :
  forall acc, preserves I (select_named sources acc).
Proof.
  induction sources as [| src sources IH]; intros acc; simpl; [apply preserves_ret |].
  intros w. destruct (registry_get _ _); [| apply IH].
  apply preserves_bind; [apply I_isSourceAvailable |].
  intros [|]; apply IH.
Qed.

Lemma preserves_select_enabled (entries : list (string * IScraper)) :
  forall acc, preserves I (select_enabled entries acc).
Proof.
  induction entries as [| [k s] entries IH]; intros acc; simpl; [apply preserves_ret |].
  destruct (scraper_enabled s); [| apply IH].
  apply preserves_bind; [apply I_isSourceAvailable |].
  intros [|]; apply IH.
Qed.

Lemma preserves_select_scrapers (sources : option (list string)) :
  preserves I (select_scrapers sources).
Proof.
  destruct sources as [[| s l] |]; unfold select_scrapers.
  - intros w. apply preserves_select_enabled.
  - apply (preserves_select_named (s :: l)).
  - intros w. apply preserves_select_enabled.
Qed.

Lemma preserves_buildSearchConfig (userId : string) :
  preserves I (buildSearchConfig userId).
Proof.
  intros w H. destruct (buildSearchConfig_frame userId w) as [n ->].
  apply (I_frame w); [| | exact H]; destruct w; reflexivity.
Qed.

Lemma preserves_scrapeAll userId sources customConfig :
  (forall src, allowed src) -> preserves I (scrapeAll userId sources customConfig).
Proof.
  intros Ha. unfold scrapeAll.
  apply preserves_bind; [apply preserves_buildSearchConfig | intros base].
  apply preserves_bind; [apply preserves_select_scrapers | intros l].
  destruct (length l =? 0)%nat; [apply preserves_ret |].
  apply preserves_run_batches. apply Forall_forall. intros s _. apply Ha.
Qed.

Lemma preserves_scoreJob (userId : string) (job : Job) :
  preserves I (scoreJob userId job).
Proof.
  unfold scoreJob, scoreJob_try, skill_findMany, jobTarget_findUnique,
    experience_findMany, jobScore_upsert.
  preserved.
Qed.

Lemma preserves_score_loop (userId : string) (jobs : list Job) :
  forall scored, preserves I (score_loop userId jobs scored).
Proof.
  induction jobs as [| job jobs IH]; intros scored; simpl; [apply preserves_ret |].
  apply preserves_bind; [| intros n; apply IH].
  apply preserves_try_catch; [| intros e; apply preserves_ret].
  apply preserves_bind; [apply preserves_scoreJob | intros r; apply preserves_ret].
Qed.

Lemma preserves_scoreNewJobs (userId : string) (limit : nat) :
  preserves I (scoreNewJobs userId limit).
Proof.
  unfold scoreNewJobs, job_findMany_unscored.
  apply preserves_bind; [apply preserves_prisma | intros l; apply preserves_score_loop].
Qed.

End Preserves.

(** ** The two maps agree *)

Lemma consistent_frame (w w' : World) :
  scrapers w' = scrapers w -> sourceHealth w' = sourceHealth w ->
  consistent w -> consistent w'.
Proof. unfold consistent. intros -> ->. tauto. Qed.

(** Replacing the record of a source by a coherent one with the same
    [enabled] flag. *)
Lemma consistent_update (src : string) (h h' : SourceHealth) (w : World) :
  consistent w -> sourceHealth w !! src = Some h ->
  enabled h' = enabled h -> coherent src h' ->
  consistent (set_sourceHealth (<[src := h']> (sourceHealth w)) w).
Proof.
  intros (Hkeys & Hreg & Hhealth) Hh He Hc.
  assert (Hs : scrapers (set_sourceHealth (<[src := h']> (sourceHealth w)) w) = scrapers w)
    by (destruct w; reflexivity).
  assert (Hm : sourceHealth (set_sourceHealth (<[src := h']> (sourceHealth w)) w)
               = <[src := h']> (sourceHealth w)) by (destruct w; reflexivity).
  unfold consistent. rewrite Hs, Hm. split; [exact Hkeys |]. split.
  - intros k s Hin. destruct (Hreg k s Hin) as (Hn & h0 & Hh0 & He0).
    split; [exact Hn |]. destruct (decide (k = src)) as [-> | Hne].
    + exists h'. rewrite lookup_insert_eq. split; [reflexivity | congruence].
    + exists h0. rewrite lookup_insert_ne by congruence. split; assumption.
  - intros k h0 Hk. destruct (decide (k = src)) as [-> | Hne].
    + rewrite lookup_insert_eq in Hk. injection Hk as <-.
      split; [exact (proj1 (Hhealth src h Hh)) | exact Hc].
    + rewrite lookup_insert_ne in Hk by congruence. apply Hhealth. exact Hk.
Qed.

Lemma coherent_reset_block (k : string) (h : SourceHealth) :
  coherent k h -> coherent k (reset_block h).
Proof.
  intros (Hn & _ & _). unfold coherent, maxConsecutiveFailures. simpl.
  split; [exact Hn |]. split; split; intros H; (discriminate || congruence || lia).
Qed.

Lemma coherent_record_success (k : string) (t : Instant) (h : SourceHealth) :
  coherent k h -> coherent k (record_success t h).
Proof.
  intros (Hn & _ & _). unfold coherent, maxConsecutiveFailures. simpl.
  split; [exact Hn |]. split; split; intros H; (discriminate || congruence || lia).
Qed.

Lemma coherent_block (k : string) (t : Instant) (h : SourceHealth) :
  coherent k h ->
  (maxConsecutiveFailures <= S (consecutiveFailures h))%nat ->
  coherent k (block t (record_failure t h)).
Proof.
  intros (Hn & _ & _) Hf. unfold coherent. simpl.
  split; [exact Hn |]. split; split; intros H; (discriminate || assumption || reflexivity).
Qed.

Lemma coherent_record_failure (k : string) (t : Instant) (h : SourceHealth) :
  coherent k h ->
  ~ (maxConsecutiveFailures <= S (consecutiveFailures h))%nat ->
  coherent k (record_failure t h).
Proof.
  intros (Hn & Hb & Hf) Hlt. unfold coherent in *. simpl.
  split; [exact Hn |]. split; [exact Hb |].
  unfold maxConsecutiveFailures in *. split; intros H; [| lia].
  apply Hf in H. lia.
Qed.

Lemma coherent_set_enabled (k : string) (b : bool) (h : SourceHealth) :
  coherent k h -> coherent k (set_enabled b h).
Proof. intros H. exact H. Qed.

Lemma consistent_isSourceAvailable (src : string) :
  preserves consistent (isSourceAvailable src).
Proof.
  intros w H. unfold isSourceAvailable.
  destruct (sourceHealth w !! src) as [h |] eqn:Hh; [| exact H].
  destruct (isBlocked h); [| exact H].
  destruct (blockedAt h); [| exact H].
  destruct (_ <=? _)%Z; [| exact H].
  simpl. apply (consistent_update src h); [exact H | exact Hh | reflexivity |].
  apply coherent_reset_block. apply (proj2 (proj2 H) src h Hh).
Qed.

Lemma consistent_updateSourceHealth (src : string) (ok : bool) :
  preserves consistent (updateSourceHealth src ok).
Proof.
  intros w H. unfold updateSourceHealth.
  destruct (sourceHealth w !! src) as [h |] eqn:Hh; [| exact H].
  pose proof (proj2 (proj2 (proj2 H) src h Hh)) as Hc.
  destruct ok.
  - simpl. apply (consistent_update src h); [exact H | exact Hh | reflexivity |].
    apply coherent_record_success. exact Hc.
  - destruct (maxConsecutiveFailures <=? consecutiveFailures (record_failure (now w) h))%nat
      eqn:E; simpl.
    + apply Nat.leb_le in E.
      apply (consistent_update src h); [exact H | exact Hh | reflexivity |].
      apply coherent_block; [exact Hc | exact E].
    + apply Nat.leb_gt in E.
      apply (consistent_update src h); [exact H | exact Hh | reflexivity |].
      apply coherent_record_failure; [exact Hc |]. simpl in E. lia.
Qed.

Lemma consistent_unblockSource (src : string) :
  preserves consistent (unblockSource src).
Proof.
  intros w H. unfold unblockSource.
  destruct (sourceHealth w !! src) as [h |] eqn:Hh; [| exact H].
  simpl. apply (consistent_update src h); [exact H | exact Hh | reflexivity |].
  apply coherent_reset_block. apply (proj2 (proj2 H) src h Hh).
Qed.

Lemma consistent_registry (w : World) (k : string) (s : IScraper) :
  consistent w -> registry_get k (scrapers w) = Some s ->
  name s = k /\ exists h, sourceHealth w !! k = Some h /\ enabled h = scraper_enabled s.
Proof.
  intros (_ & Hreg & _) Hg. apply Hreg. apply registry_get_In. exact Hg.
Qed.

Lemma consistent_health (w : World) (k : string) (h : SourceHealth) :
  consistent w -> sourceHealth w !! k = Some h ->
  coherent k h /\
  exists s, registry_get k (scrapers w) = Some s /\ name s = k /\
            scraper_enabled s = enabled h.
Proof.
  intros (Hkeys & Hreg & Hhealth) Hh. destruct (Hhealth k h Hh) as [Hin Hc].
  split; [exact Hc |].
  rewrite <- Hkeys in Hin. apply List.in_map_iff in Hin as ([k' s] & Hk & Hin).
  simpl in Hk. subst k'. exists s.
  assert (Hnd : NoDup (map fst (scrapers w))) by (rewrite Hkeys; apply portal_names_NoDup).
  split; [apply registry_get_first; assumption |].
  destruct (Hreg k s Hin) as (Hn & h0 & Hh0 & He). split; [exact Hn | congruence].
Qed.

Lemma consistent_setSourceEnabled (src : string) (b : bool) :
  preserves consistent (setSourceEnabled src b).
Proof.
  intros w H. unfold setSourceEnabled.
  destruct (sourceHealth w !! src) as [h |] eqn:Hh; [| exact H].
  destruct (consistent_health w src h H Hh) as (Hc & s & Hg & Hn & He).
  destruct H as (Hkeys & Hreg & Hhealth).
  assert (Hs : scrapers (set_sourceHealth (<[src := set_enabled b h]> (sourceHealth w)) w)
               = scrapers w) by (destruct w; reflexivity).
  rewrite Hs, Hg. simpl.
  assert (Hnd : NoDup (map fst (scrapers w))) by (rewrite Hkeys; apply portal_names_NoDup).
  unfold consistent.
  replace (scrapers (set_scrapers _ _))
    with (registry_set src (mkScraper (name s) b (scrape s)) (scrapers w))
    by (destruct w; reflexivity).
  replace (sourceHealth (set_scrapers _ _))
    with (<[src := set_enabled b h]> (sourceHealth w))
    by (destruct w; reflexivity).
  split; [| split].
  - rewrite registry_set_keys; [exact Hkeys |].
    apply List.in_map_iff. exists (src, s). split; [reflexivity |].
    apply registry_get_In. exact Hg.
  - intros k s' Hin.
    destruct (registry_set_entries _ _ _ _ _ Hnd Hin) as [[-> ->] | [Hne Hin']].
    + simpl. split; [exact Hn |]. exists (set_enabled b h).
      rewrite lookup_insert_eq. split; reflexivity.
    + destruct (Hreg k s' Hin') as (Hn' & h0 & Hh0 & He0).
      split; [exact Hn' |]. exists h0.
      rewrite lookup_insert_ne by congruence. split; assumption.
  - intros k h0 Hk. destruct (decide (k = src)) as [-> | Hne].
    + rewrite lookup_insert_eq in Hk. injection Hk as <-.
      split; [exact (proj1 (Hhealth src h Hh)) | exact Hc].
    + rewrite lookup_insert_ne in Hk by congruence. apply Hhealth. exact Hk.
Qed.

(** The constructor leaves the two maps in agreement. *)
Lemma consistent_constructor
    (portal : string -> ScraperConfig -> Instant -> outcome (list ScrapedJob))
    (w : World) :
  scrapers w = [] -> sourceHealth w = ∅ ->
  consistent (initializeScrapers (scraperInstances portal) w).
Proof.
  intros Hs Hh. destruct w as [d t n r m]. simpl in Hs, Hh. subst r m.
  split; [reflexivity |]. split.
  - intros k s Hin. vm_compute in Hin.
    repeat (destruct Hin as [Hin | Hin];
            [injection Hin as <- <-; split; [reflexivity |];
             eexists; split; [reflexivity | reflexivity] |]).
    destruct Hin.
  - intros k h Hk.
    assert (Hin : In k portal_names).
    { destruct (initializeScrapers_keys (scraperInstances portal)
                  (mkWorld d t n [] ∅) k) as [H | H].
      - rewrite Hk. eexists. reflexivity.
      - simpl in H. rewrite lookup_empty in H. destruct H as [? H]. discriminate.
      - exact H. }
    split; [exact Hin |].
    unfold portal_names in Hin. simpl in Hin.
    repeat (destruct Hin as [<- | Hin];
            [vm_compute in Hk; injection Hk as <-;
             split; [reflexivity |];
             split; split; intros H; unfold maxConsecutiveFailures in *; simpl in *;
             (discriminate || congruence || lia) |]).
    destruct Hin.
Qed.

Lemma running_consistent `{P : Platform} (w : World) : running w -> consistent w.
Proof.
  induction 1 as [portal w Hs Hh | userId sources custom w _ IH | userId limit w _ IH
                 | src b w _ IH | src w _ IH | t w _ IH | d n w _ IH].
  - apply consistent_constructor; assumption.
  - apply (preserves_scrapeAll consistent consistent_frame consistent_isSourceAvailable
             (fun _ => True) (fun src ok _ => consistent_updateSourceHealth src ok)
             userId sources custom (fun _ => Logic.I)).
    exact IH.
  - apply (preserves_scoreNewJobs consistent consistent_frame). exact IH.
  - apply consistent_setSourceEnabled. exact IH.
  - apply consistent_unblockSource. exact IH.
  - apply (consistent_frame w); [| | exact IH]; destruct w; reflexivity.
  - apply (consistent_frame w); [| | exact IH]; destruct w; reflexivity.
Qed.

(** X9.  The sources of a running service never change: whatever has been
    scraped, scored, enabled, disabled or unblocked, [getAvailableSources]
    answers with the seven portals in the order of the constructor, and
    the health map tracks exactly these seven. *)
Theorem sources_never_change `{P : Platform} (w : World) :
  running w ->
  getAvailableSources w = (Ok portal_names, w) /\
  (forall k, is_Some (sourceHealth w !! k) <-> In k portal_names).
Proof.
  intros Hr. apply running_consistent in Hr. destruct Hr as (Hkeys & Hreg & Hhealth).
  split; [unfold getAvailableSources; rewrite Hkeys; reflexivity |].
  intros k. split.
  - intros [h Hh]. apply (Hhealth k h Hh).
  - intros Hin. rewrite <- Hkeys in Hin.
    apply List.in_map_iff in Hin as ([k' s] & Hk & Hin). simpl in Hk. subst k'.
    destruct (Hreg k s Hin) as (_ & h & Hh & _). exists h. exact Hh.
Qed.

(** After three failed runs of LinkedIn and the operator's disabling it,
    the sources are the seven portals still. *)
Lemma sources_never_change_witness :
  @running Sample.platform Sample.disabled_while_blocked /\
  getAvailableSources Sample.disabled_while_blocked
    = (Ok portal_names, Sample.disabled_while_blocked).
Proof.
  assert (Hr : @running Sample.platform Sample.disabled_while_blocked).
  { unfold Sample.disabled_while_blocked, Sample.after_three_failures, Sample.service.
    apply run_setSourceEnabled. do 3 apply run_scrapeAll.
    apply run_constructor; reflexivity. }
  split; [exact Hr |].
  exact (proj1 (@sources_never_change Sample.platform Sample.disabled_while_blocked Hr)).
Defined.

(** X10.  In a running service every health record is coherent, and every
    block ends: a blocked source always carries the time of its block, so
    that 24 hours after that time the availability check lets it through
    again; a source is blocked exactly when its failures in a row have
    reached 3; and the [enabled] flag of the record is the flag of the
    registered scraper. *)
Theorem every_block_ends `{P : Platform} (w : World) (src : string) (h : SourceHealth) :
  running w -> sourceHealth w !! src = Some h ->
  coherent src h /\
  (exists s, registry_get src (scrapers w) = Some s /\ name s = src /\
             scraper_enabled s = enabled h) /\
  (isBlocked h = true ->
   exists at_,
     blockedAt h = Some at_ /\
     forall t, (getTime at_ + blockDuration <= getTime t)%Z ->
       fst (isSourceAvailable src (set_now t w)) = Ok true).
Proof.
  intros Hr Hh. apply running_consistent in Hr.
  destruct (consistent_health w src h Hr Hh) as (Hc & Hs).
  split; [exact Hc |]. split; [exact Hs |].
  intros Hb. destruct Hc as (_ & Hat & _).
  destruct (blockedAt h) as [at_ |] eqn:Eat; [| exfalso; apply (proj1 Hat Hb); reflexivity].
  exists at_. split; [reflexivity |]. intros t Ht.
  unfold isSourceAvailable.
  replace (sourceHealth (set_now t w) !! src) with (Some h) by (destruct w; exact (eq_sym Hh)).
  rewrite Hb, Eat.
  replace (now (set_now t w)) with t by (destruct w; reflexivity).
  replace (blockDuration <=? getTime t - getTime at_)%Z with true
    by (symmetry; apply Z.leb_le; lia).
  reflexivity.
Qed.

(** LinkedIn after three failed runs: blocked since the third, and let
    through again a day later. *)
Lemma every_block_ends_witness :
  @running Sample.platform Sample.after_three_failures /\
  sourceHealth Sample.after_three_failures !! "linkedin"%string
    = Some (failed_health "linkedin" 3 Sample.nov_2026 true) /\
  fst (isSourceAvailable "linkedin"
         (set_now (Sample.day_after Sample.nov_2026) Sample.after_three_failures))
    = Ok true.
Proof.
  assert (Hr : @running Sample.platform Sample.after_three_failures).
  { unfold Sample.after_three_failures, Sample.service.
    do 3 apply run_scrapeAll. apply run_constructor; reflexivity. }
  assert (Hh : sourceHealth Sample.after_three_failures !! "linkedin"%string
               = Some (failed_health "linkedin" 3 Sample.nov_2026 true))
    by (vm_compute; reflexivity).
  split; [exact Hr |]. split; [exact Hh |].
  destruct (@every_block_ends Sample.platform _ _ _ Hr Hh) as (_ & _ & Hend).
  destruct (Hend eq_refl) as (at_ & Hat & Ht).
  simpl in Hat. injection Hat as <-. apply Ht. vm_compute. discriminate.
Defined.

(** X11.  Disabling an enabled source and enabling it again restores the
    state of the service, health record and registry entry alike. *)
Theorem disable_then_enable_restores `{P : Platform} (w : World) (src : string)
    (h : SourceHealth) :
  running w -> sourceHealth w !! src = Some h -> enabled h = true ->
  exists w1,
    setSourceEnabled src false w = (Ok true, w1) /\
    (exists h1, sourceHealth w1 !! src = Some h1 /\ enabled h1 = false) /\
    setSourceEnabled src true w1 = (Ok true, w).
Proof.
  intros Hr Hh He. apply running_consistent in Hr.
  destruct (consistent_health w src h Hr Hh) as (_ & s & Hg & Hn & Hes).
  unfold setSourceEnabled at 1. rewrite Hh.
  replace (scrapers (set_sourceHealth (<[src := set_enabled false h]> (sourceHealth w)) w))
    with (scrapers w) by (destruct w; reflexivity).
  rewrite Hg. eexists. split; [reflexivity |]. split.
  - exists (set_enabled false h). split; [| reflexivity].
    destruct w; simpl. apply lookup_insert_eq.
  - unfold setSourceEnabled. destruct w as [d t n r m]. simpl in *.
    rewrite lookup_insert_eq. simpl. rewrite registry_get_set. simpl.
    rewrite registry_set_twice, insert_insert_eq.
    assert (E1 : set_enabled true (set_enabled false h) = h).
    { destruct h; simpl in *. subst. reflexivity. }
    assert (E2 : mkScraper (name s) true (scrape s) = s).
    { destruct s; simpl in *. rewrite He in Hes. subst. reflexivity. }
    rewrite E1, E2, (registry_set_same _ _ _ Hg), (insert_id _ _ _ Hh). reflexivity.
Qed.

(** Naukri, disabled and enabled again in the service as its constructor
    leaves it. *)
Lemma disable_then_enable_restores_witness :
  @running Sample.platform (Sample.service Sample.nov_2026) /\
  sourceHealth (Sample.service Sample.nov_2026) !! "naukri"%string
    = Some (fresh_health "naukri") /\
  enabled (fresh_health "naukri") = true /\
  exists w1,
    setSourceEnabled "naukri" false (Sample.service Sample.nov_2026) = (Ok true, w1) /\
    (exists h1, sourceHealth w1 !! "naukri"%string = Some h1 /\ enabled h1 = false) /\
    setSourceEnabled "naukri" true w1 = (Ok true, Sample.service Sample.nov_2026).
Proof.
  assert (Hr : @running Sample.platform (Sample.service Sample.nov_2026))
    by (unfold Sample.service; apply run_constructor; reflexivity).
  assert (Hh : sourceHealth (Sample.service Sample.nov_2026) !! "naukri"%string
               = Some (fresh_health "naukri")) by (vm_compute; reflexivity).
  split; [exact Hr |]. split; [exact Hh |]. split; [reflexivity |].
  exact (@disable_then_enable_restores Sample.platform _ _ _ Hr Hh eq_refl).
Defined.

(** ** A disabled source is left alone *)

Lemma portal_names_lowercase (k : string) : In k portal_names -> toLowerCase k = k.
Proof.
  intros Hin. unfold portal_names in Hin. simpl in Hin.
  repeat (destruct Hin as [<- | Hin]; [reflexivity |]). destruct Hin.
Qed.

Section LeftAlone.

Context {P : Platform}.

Variables (src : string) (h : SourceHealth).

Hypothesis Hdisabled : enabled h = false.

Hypothesis Hunblocked : isBlocked h = false.

Lemma tracks_frame (w w' : World) :
  scrapers w' = scrapers w -> sourceHealth w' = sourceHealth w ->
  tracks src h w -> tracks src h w'.
Proof. unfold tracks. intros _ ->. tauto. Qed.

Lemma tracks_isSourceAvailable (k : string) : preserves (tracks src h) (isSourceAvailable k).
Proof.
  intros w H. unfold tracks in *. unfold isSourceAvailable.
  destruct (decide (k = src)) as [-> | Hne].
  - rewrite H, Hunblocked. exact H.
  - destruct (sourceHealth w !! k) as [h0 |]; [| exact H].
    destruct (isBlocked h0); [| exact H].
    destruct (blockedAt h0); [| exact H].
    destruct (_ <=? _)%Z; [| exact H].
    destruct w; simpl in *. rewrite lookup_insert_ne by congruence. exact H.
Qed.

Lemma tracks_updateSourceHealth (k : string) (ok : bool) :
  k <> src -> preserves (tracks src h) (updateSourceHealth k ok).
Proof.
  intros Hne w H. unfold tracks in *. unfold updateSourceHealth.
  destruct (sourceHealth w !! k) as [h0 |]; [| exact H].
  destruct ok; [| destruct (_ <=? _)%nat];
    destruct w; simpl in *; rewrite lookup_insert_ne by congruence; exact H.
Qed.

Lemma isSourceAvailable_disabled (w : World) :
  tracks src h w -> isSourceAvailable src w = (Ok false, w).
Proof.
  unfold tracks, isSourceAvailable. intros ->.
  rewrite Hunblocked, Hdisabled. reflexivity.
Qed.

Lemma select_named_avoids (sources : list string) :
  forall acc w chosen w',
    consistent w -> tracks src h w ->
    Forall (fun s => name s <> src) acc ->
    select_named sources acc w = (Ok chosen, w') ->
    Forall (fun s => name s <> src) chosen.
Proof.
  induction sources as [| s0 sources IH]; intros acc w chosen w' Hc Ht Hacc Hsel.
  - injection Hsel as <- <-. exact Hacc.
  - simpl in Hsel. destruct (registry_get (toLowerCase s0) (scrapers w)) as [scraper |] eqn:Hg.
    + unfold bind in Hsel.
      pose proof (consistent_isSourceAvailable s0 w Hc) as Hc1.
      pose proof (tracks_isSourceAvailable s0 w Ht) as Ht1.
      destruct (isSourceAvailable_frame s0 w) as (b & w1 & Ha & _).
      rewrite Ha in Hsel, Hc1, Ht1. simpl in Hsel, Hc1, Ht1.
      destruct b; [| eapply IH; eassumption].
      eapply IH; [exact Hc1 | exact Ht1 | | exact Hsel].
      apply Forall_app. split; [exact Hacc |]. constructor; [| constructor].
      intros Hn. destruct (consistent_registry w _ _ Hc Hg) as (Hname & _).
      assert (Hk : is_Some (sourceHealth w !! s0)).
      { unfold isSourceAvailable in Ha.
        destruct (sourceHealth w !! s0); [eexists; reflexivity | discriminate]. }
      destruct Hk as [h0 Hh0].
      pose proof (proj1 (proj2 (proj2 Hc) s0 h0 Hh0)) as Hin.
      apply portal_names_lowercase in Hin. rewrite Hin in Hname.
      assert (Hs0 : s0 = src) by congruence.
      rewrite Hs0, (isSourceAvailable_disabled w Ht) in Ha. discriminate.
    + eapply IH; eassumption.
Qed.

Lemma select_enabled_avoids (entries : list (string * IScraper)) :
  forall acc w chosen w',
    consistent w -> tracks src h w ->
    (forall e, In e entries -> In e (scrapers w)) ->
    Forall (fun s => name s <> src) acc ->
    select_enabled entries acc w = (Ok chosen, w') ->
    Forall (fun s => name s <> src) chosen.
Proof.
  induction entries as [| [k s] entries IH]; intros acc w chosen w' Hc Ht Hsub Hacc Hsel.
  - injection Hsel as <- <-. exact Hacc.
  - simpl in Hsel.
    assert (Hsub' : forall e, In e entries -> In e (scrapers w))
      by (intros e He; apply Hsub; right; exact He).
    destruct (scraper_enabled s) eqn:Es; [| eapply IH; eassumption].
    unfold bind in Hsel.
    pose proof (consistent_isSourceAvailable k w Hc) as Hc1.
    pose proof (tracks_isSourceAvailable k w Ht) as Ht1.
    destruct (isSourceAvailable_frame k w) as (b & w1 & Ha & _ & Hs1 & _).
    rewrite Ha in Hsel, Hc1, Ht1. simpl in *.
    assert (Hsub1 : forall e, In e entries -> In e (scrapers w1))
      by (rewrite Hs1; exact Hsub').
    destruct b; [| eapply IH; eassumption].
    eapply IH; [exact Hc1 | exact Ht1 | exact Hsub1 | | exact Hsel].
    apply Forall_app. split; [exact Hacc |]. constructor; [| constructor].
    intros Hn. destruct Hc as (_ & Hreg & _).
    destruct (Hreg k s (Hsub _ (or_introl eq_refl))) as (Hname & h0 & Hh0 & He0).
    assert (Hk : k = src) by congruence.
    unfold tracks in Ht. rewrite Hk, Ht in Hh0. injection Hh0 as <-. congruence.
Qed.

Lemma select_scrapers_avoids (sources : option (list string)) (w : World)
    (chosen : list IScraper) (w' : World) :
  consistent w -> tracks src h w ->
  select_scrapers sources w = (Ok chosen, w') ->
  Forall (fun s => name s <> src) chosen.
Proof.
  intros Hc Ht Hsel. destruct sources as [[| s l] |]; unfold select_scrapers in Hsel.
  - eapply select_enabled_avoids; [exact Hc | exact Ht | | constructor | exact Hsel]; auto.
  - eapply (select_named_avoids (s :: l)); [exact Hc | exact Ht | constructor | exact Hsel].
  - eapply select_enabled_avoids; [exact Hc | exact Ht | | constructor | exact Hsel]; auto.
Qed.

End LeftAlone.

Lemma runScraper_source `{P : Platform} (scraper : IScraper) (config : ScraperConfig)
    (w : World) (r : ScraperResult) (w' : World) :
  runScraper scraper config w = (Ok r, w') -> result_source r = name scraper.
Proof.
  rewrite runScraper_run. destruct (prisma_rejects (tick w) ScraperRunCreate);
    [discriminate |].
  unfold try_catch.
  destruct (runScraper_try _ _ _ _ _) as [[r0 | e] w1] eqn:Et.
  - intros [= <- <-]. apply runScraper_try_result in Et as (jobs & _ & Hs & _). exact Hs.
  - intros Hc. apply runScraper_catch_result in Hc. apply Hc.
Qed.

Lemma Promise_all_sources `{P : Platform} (config : ScraperConfig) (batch : list IScraper) :
  forall w rs w',
    Promise_all (map (fun s => runScraper s config) batch) w = (Ok rs, w') ->
    map result_source rs = map name batch.
Proof.
  induction batch as [| s batch IH]; intros w rs w' H; simpl in H.
  - injection H as <- <-. reflexivity.
  - unfold Promise_both in H.
    destruct (runScraper s config w) as [[r | e] w1] eqn:Er;
      destruct (Promise_all (map (fun s => runScraper s config) batch) w1)
        as [[l | e'] w2] eqn:El; try discriminate.
    injection H as <- <-. simpl. f_equal.
    + eapply runScraper_source. exact Er.
    + eapply IH. exact El.
Qed.

Lemma run_batches_sources `{P : Platform} (config : ScraperConfig) (l : list IScraper) :
  forall fuel i acc w summary w',
    run_batches fuel i l config acc w = (Ok summary, w') ->
    forall r, In r (results summary) ->
      In r (results acc) \/ In (result_source r) (map name l).
Proof.
  induction fuel as [| fuel IH]; intros i acc w summary w' H r Hr; simpl in H.
  - injection H as <- <-. left. exact Hr.
  - destruct (i <? length l)%nat; [| injection H as <- <-; left; exact Hr].
    unfold bind in H.
    destruct (Promise_all _ w) as [[rs | e] w1] eqn:Ep; [| discriminate].
    destruct (IH _ _ _ _ _ H r Hr) as [Hacc | Hl]; [| right; exact Hl].
    destruct (add_results_summary rs acc) as (Hres & _). rewrite Hres in Hacc.
    apply List.in_app_or in Hacc as [Hacc | Hrs]; [left; exact Hacc |].
    right. apply Promise_all_sources in Ep.
    assert (Hin : In (result_source r) (map result_source rs))
      by (apply List.in_map; exact Hrs).
    rewrite Ep in Hin. apply List.in_map_iff in Hin as (s & Hs & Hin).
    apply List.in_map_iff. exists s. split; [exact Hs |].
    unfold slice in Hin. apply list_elem_of_In in Hin.
    apply list_elem_of_In.
    eapply elem_of_sublist; [| apply (sublist_drop l i)].
    eapply elem_of_sublist; [exact Hin | apply sublist_take].
Qed.

(** X12.  A source that is disabled and not blocked is left alone by
    [scrapeAll], whichever sources are named: its health record is the
    same afterwards, and no result carries its name. *)
Theorem disabled_source_is_left_alone `{P : Platform}
    (userId : string) (sources : option (list string)) (customConfig : PartialConfig)
    (w : World) (src : string) (h : SourceHealth) :
  running w -> sourceHealth w !! src = Some h ->
  enabled h = false -> isBlocked h = false ->
  sourceHealth (snd (scrapeAll userId sources customConfig w)) !! src = Some h /\
  (forall summary w',
     scrapeAll userId sources customConfig w = (Ok summary, w') ->
     ~ In src (map result_source (results summary))).
Proof.
  intros Hr Hh He Hb. apply running_consistent in Hr.
  assert (Hc1 : consistent (snd (buildSearchConfig userId w))).
  { apply (preserves_buildSearchConfig consistent consistent_frame). exact Hr. }
  assert (Ht1 : tracks src h (snd (buildSearchConfig userId w))).
  { apply (preserves_buildSearchConfig (tracks src h) (tracks_frame src h)). exact Hh. }
  unfold scrapeAll, bind.
  destruct (buildSearchConfig userId w) as [[base | e] w1]; simpl in *;
    [| split; [exact Ht1 | discriminate]].
  pose proof (preserves_select_scrapers (tracks src h) (tracks_isSourceAvailable src h Hb)
                sources w1 Ht1) as Ht2.
  destruct (select_scrapers sources w1) as [[chosen | e] w2] eqn:Hsel; simpl in *;
    [| split; [exact Ht2 | discriminate]].
  pose proof (select_scrapers_avoids src h He Hb sources w1 chosen w2 Hc1 Ht1 Hsel) as Hav.
  destruct (length chosen =? 0)%nat.
  { split; [exact Ht2 |]. intros summary w' [= <- <-]. simpl. tauto. }
  split.
  - apply (preserves_run_batches (tracks src h) (tracks_frame src h)
             (fun k => k <> src) (tracks_updateSourceHealth src h)); assumption.
  - intros summary w' Hrun Hin.
    apply List.in_map_iff in Hin as (r & Hsrc & Hin).
    destruct (run_batches_sources _ _ _ _ _ _ _ _ Hrun r Hin) as [[] | Hl].
    rewrite Hsrc in Hl. apply List.in_map_iff in Hl as (s & Hs & Hl).
    rewrite List.Forall_forall in Hav. exact (Hav s Hl Hs).
Qed.

(** Naukri disabled: a scrape over all sources, and one that names it,
    leave its record as it is and return no result for it. *)
Lemma disabled_source_is_left_alone_witness :
  @running Sample.platform
    (snd (setSourceEnabled "naukri" false (Sample.service Sample.nov_2026))) /\
  sourceHealth (snd (setSourceEnabled "naukri" false (Sample.service Sample.nov_2026)))
    !! "naukri"%string = Some (set_enabled false (fresh_health "naukri")) /\
  sourceHealth
    (snd (@scrapeAll Sample.platform Sample.user (Some ["naukri"%string])
            Sample.no_overrides
            (snd (setSourceEnabled "naukri" false (Sample.service Sample.nov_2026)))))
    !! "naukri"%string = Some (set_enabled false (fresh_health "naukri")) /\
  (forall summary w',
     @scrapeAll Sample.platform Sample.user (Some ["naukri"%string]) Sample.no_overrides
       (snd (setSourceEnabled "naukri" false (Sample.service Sample.nov_2026)))
     = (Ok summary, w') ->
     ~ In "naukri"%string (map result_source (results summary))).
Proof.
  assert (Hr : @running Sample.platform
                 (snd (setSourceEnabled "naukri" false (Sample.service Sample.nov_2026)))).
  { unfold Sample.service. apply run_setSourceEnabled. apply run_constructor; reflexivity. }
  assert (Hh : sourceHealth
                 (snd (setSourceEnabled "naukri" false (Sample.service Sample.nov_2026)))
                 !! "naukri"%string = Some (set_enabled false (fresh_health "naukri")))
    by (vm_compute; reflexivity).
  split; [exact Hr |]. split; [exact Hh |].
  exact (@disabled_source_is_left_alone Sample.platform Sample.user
           (Some ["naukri"%string]) Sample.no_overrides _ _ _ Hr Hh eq_refl eq_refl).
Defined.

(** ** Which scrapers a call schedules *)

Lemma select_named_healthy (w : World) (sources : list string) :
  consistent w ->
  Forall (fun src => exists h, sourceHealth w !! src = Some h /\
                               enabled h = true /\ isBlocked h = false) sources ->
  forall acc,
  exists chosen,
    select_named sources acc w = (Ok (acc ++ chosen), w) /\ map name chosen = sources.
Proof.
  intros Hc. induction 1 as [| src sources (h & Hh & He & Hb) _ IH]; intros acc.
  - exists []. rewrite app_nil_r. split; reflexivity.
  - destruct (consistent_health w src h Hc Hh) as (_ & s & Hg & Hn & _).
    assert (Hl : toLowerCase src = src).
    { apply portal_names_lowercase. apply (proj2 (proj2 Hc) src h Hh). }
    destruct (IH (acc ++ [s])) as (chosen & Hsel & Hnames).
    exists (s :: chosen). simpl. rewrite Hl, Hg. unfold bind, isSourceAvailable.
    rewrite Hh, Hb, He, Hsel, <- app_assoc. simpl. split; [reflexivity | congruence].
Qed.

(** X13.  Named sources that are enabled and not blocked are scheduled in
    the order in which the caller names them, once for every mention: a
    source that is named twice runs twice. *)
Theorem named_sources_run_once_per_mention `{P : Platform} (w : World)
    (sources : list string) :
  running w -> sources <> [] ->
  Forall (fun src => exists h, sourceHealth w !! src = Some h /\
                               enabled h = true /\ isBlocked h = false) sources ->
  exists chosen,
    select_scrapers (Some sources) w = (Ok chosen, w) /\ map name chosen = sources.
Proof.
  intros Hr Hne Hs. apply running_consistent in Hr.
  destruct (select_named_healthy w sources Hr Hs []) as (chosen & Hsel & Hn).
  exists chosen. split; [| exact Hn].
  destruct sources as [| s l]; [congruence |]. exact Hsel.
Qed.

(** Naukri named twice. *)
Lemma named_sources_run_once_per_mention_witness :
  @running Sample.platform (Sample.service Sample.nov_2026) /\
  ["naukri"; "naukri"]%string <> [] /\
  exists chosen,
    select_scrapers (Some ["naukri"; "naukri"]%string) (Sample.service Sample.nov_2026)
      = (Ok chosen, Sample.service Sample.nov_2026) /\
    map name chosen = ["naukri"; "naukri"]%string.
Proof.
  assert (Hr : @running Sample.platform (Sample.service Sample.nov_2026))
    by (unfold Sample.service; apply run_constructor; reflexivity).
  assert (Hne : ["naukri"; "naukri"]%string <> []) by discriminate.
  split; [exact Hr |]. split; [exact Hne |].
  apply (@named_sources_run_once_per_mention Sample.platform _ _ Hr Hne).
  repeat constructor; exists (fresh_health "naukri");
    (split; [vm_compute; reflexivity | split; reflexivity]).
Defined.

(** ** Failures count in a row *)

(** X14.  A successful run starts the count of failures afresh, whatever
    the record of the source held before: it clears a block, sets the
    count to 0 and notes the time; of the failed runs that follow, the
    first two do not block the source, and the third does. *)
Theorem success_restarts_the_count (w : World) (src : string) (h : SourceHealth)
    (t0 t1 t2 t3 : Instant) :
  sourceHealth w !! src = Some h ->
  exists w0 w1 w2 w3,
    updateSourceHealth src true (set_now t0 w) = (Ok false, w0) /\
    sourceHealth w0 !! src
      = Some (mkSourceHealth (health_source h) (enabled h) false None 0
                (Some t0) (Some t0)) /\
    updateSourceHealth src false (set_now t1 w0) = (Ok false, w1) /\
    updateSourceHealth src false (set_now t2 w1) = (Ok false, w2) /\
    sourceHealth w2 !! src
      = Some (mkSourceHealth (health_source h) (enabled h) false None 2
                (Some t0) (Some t2)) /\
    isSourceAvailable src w2 = (Ok (enabled h), w2) /\
    updateSourceHealth src false (set_now t3 w2) = (Ok true, w3) /\
    sourceHealth w3 !! src
      = Some (mkSourceHealth (health_source h) (enabled h) true (Some t3) 3
                (Some t0) (Some t3)).
Proof.
  intros Hh.
  set (h0 := mkSourceHealth (health_source h) (enabled h) false None 0 (Some t0) (Some t0)).
  set (h1 := mkSourceHealth (health_source h) (enabled h) false None 1 (Some t0) (Some t1)).
  set (h2 := mkSourceHealth (health_source h) (enabled h) false None 2 (Some t0) (Some t2)).
  set (h3 := mkSourceHealth (health_source h) (enabled h) true (Some t3) 3
               (Some t0) (Some t3)).
  set (w0 := with_health src h0 (set_now t0 w)).
  set (w1 := with_health src h1 (set_now t1 w0)).
  set (w2 := with_health src h2 (set_now t2 w1)).
  set (w3 := with_health src h3 (set_now t3 w2)).
  exists w0, w1, w2, w3.
  assert (H0 : sourceHealth w0 !! src = Some h0) by apply lookup_insert_eq.
  assert (H1 : sourceHealth w1 !! src = Some h1) by apply lookup_insert_eq.
  assert (H2 : sourceHealth w2 !! src = Some h2) by apply lookup_insert_eq.
  assert (H3 : sourceHealth w3 !! src = Some h3) by apply lookup_insert_eq.
  split; [unfold updateSourceHealth;
          change (sourceHealth (set_now t0 w)) with (sourceHealth w);
          rewrite Hh; reflexivity |].
  split; [exact H0 |].
  split; [unfold updateSourceHealth;
          change (sourceHealth (set_now t1 w0)) with (sourceHealth w0);
          rewrite H0; reflexivity |].
  split; [unfold updateSourceHealth;
          change (sourceHealth (set_now t2 w1)) with (sourceHealth w1);
          rewrite H1; reflexivity |].
  split; [exact H2 |].
  split; [unfold isSourceAvailable; rewrite H2; reflexivity |].
  split; [unfold updateSourceHealth;
          change (sourceHealth (set_now t3 w2)) with (sourceHealth w2);
          rewrite H2; reflexivity |].
  exact H3.
Qed.

(** LinkedIn, blocked after three failed runs, then run with success. *)
Lemma success_restarts_the_count_witness :
  sourceHealth Sample.after_three_failures !! "linkedin"%string
    = Some (failed_health "linkedin" 3 Sample.nov_2026 true) /\
  exists w0,
    updateSourceHealth "linkedin" true
      (set_now (Sample.day_after Sample.nov_2026) Sample.after_three_failures)
      = (Ok false, w0) /\
    sourceHealth w0 !! "linkedin"%string
      = Some (mkSourceHealth "linkedin" true false None 0
                (Some (Sample.day_after Sample.nov_2026))
                (Some (Sample.day_after Sample.nov_2026))).
Proof.
  assert (Hh : sourceHealth Sample.after_three_failures !! "linkedin"%string
               = Some (failed_health "linkedin" 3 Sample.nov_2026 true))
    by (vm_compute; reflexivity).
  split; [exact Hh |].
  destruct (success_restarts_the_count Sample.after_three_failures "linkedin" _
              (Sample.day_after Sample.nov_2026) Sample.nov_2026 Sample.nov_2026
              Sample.nov_2026 Hh)
    as (w0 & _ & _ & _ & H0 & H1 & _).
  exists w0. split; [exact H0 | exact H1].
Defined.

(** ** The operator's calls *)

(** X15.  [testScraper] never throws and changes nothing: it answers with
    success exactly when a scraper is registered under the lower-case form
    of the name and its connection test answers yes; a test that throws is
    reported with its message, an unknown name with the name as it was
    given. *)
Theorem testScraper_always_answers
    (testConnection : IScraper -> Instant -> outcome bool) (src : string) (w : World) :
  exists success message,
    testScraper testConnection src w = (Ok (success, message), w) /\
    (success = true <->
     exists scraper,
       registry_get (toLowerCase src) (scrapers w) = Some scraper /\
       testConnection scraper (now w) = Ok true) /\
    (forall scraper e,
       registry_get (toLowerCase src) (scrapers w) = Some scraper ->
       testConnection scraper (now w) = Throw e -> message = e) /\
    (registry_get (toLowerCase src) (scrapers w) = None ->
     message = ("Scraper '" ++ src ++ "' not found")%string).
Proof.
  unfold testScraper.
  destruct (registry_get (toLowerCase src) (scrapers w)) as [scraper |] eqn:Hg.
  - unfold try_catch, bind, call_testConnection, ret.
    destruct (testConnection scraper (now w)) as [[|] | e] eqn:Ht.
    + exists true, "Connection successful"%string. split; [reflexivity |].
      split; [| split; [intros s e [= <-]; congruence | discriminate]].
      split; [intros _; exists scraper; split; [reflexivity | exact Ht] | reflexivity].
    + exists false, "Connection failed"%string. split; [reflexivity |].
      split; [| split; [intros s e [= <-]; congruence | discriminate]].
      split; [discriminate | intros (s & [= <-] & H); congruence].
    + exists false, e. split; [reflexivity |].
      split; [| split; [intros s e' [= <-]; congruence | discriminate]].
      split; [discriminate | intros (s & [= <-] & H); congruence].
  - exists false, ("Scraper '" ++ src ++ "' not found")%string. split; [reflexivity |].
    split; [| split; [discriminate | reflexivity]].
    split; [discriminate | intros (s & H & _); discriminate].
Qed.

(** X16.  The operator's calls differ in how they read a name.  In a
    running service [setSourceEnabled] and [unblockSource] refuse a name
    that is not written in lower case: they answer false and change
    nothing.  [testScraper] takes the same name for its lower-case form. *)
Theorem operator_calls_and_spelling `{P : Platform} (w : World) (src : string) :
  running w -> toLowerCase src <> src ->
  (forall b, setSourceEnabled src b w = (Ok false, w)) /\
  unblockSource src w = (Ok false, w) /\
  (forall testConnection scraper,
     registry_get (toLowerCase src) (scrapers w) = Some scraper ->
     testScraper testConnection src w = testScraper testConnection (toLowerCase src) w).
Proof.
  intros Hr Hne. apply running_consistent in Hr.
  assert (Hnone : sourceHealth w !! src = None).
  { destruct (sourceHealth w !! src) as [h |] eqn:Hh; [| reflexivity].
    exfalso. apply Hne. apply portal_names_lowercase.
    apply (proj2 (proj2 Hr) src h Hh). }
  split; [| split].
  - intros b. unfold setSourceEnabled. rewrite Hnone. reflexivity.
  - unfold unblockSource. rewrite Hnone. reflexivity.
  - intros tc scraper Hg. unfold testScraper.
    rewrite toLowerCase_idempotent, Hg. reflexivity.
Qed.

(** LinkedIn, written with capitals. *)
Lemma operator_calls_and_spelling_witness :
  @running Sample.platform (Sample.service Sample.nov_2026) /\
  toLowerCase "LinkedIn" <> "LinkedIn"%string /\
  setSourceEnabled "LinkedIn" false (Sample.service Sample.nov_2026)
    = (Ok false, Sample.service Sample.nov_2026) /\
  unblockSource "LinkedIn" (Sample.service Sample.nov_2026)
    = (Ok false, Sample.service Sample.nov_2026).
Proof.
  assert (Hr : @running Sample.platform (Sample.service Sample.nov_2026))
    by (unfold Sample.service; apply run_constructor; reflexivity).
  assert (Hne : toLowerCase "LinkedIn" <> "LinkedIn"%string) by (vm_compute; discriminate).
  split; [exact Hr |]. split; [exact Hne |].
  destruct (@operator_calls_and_spelling Sample.platform _ _ Hr Hne) as (H1 & H2 & _).
  split; [exact (H1 false) | exact H2].
Defined.

(* ===================================================================== *)
(** * Scoring in batches *)
(* ===================================================================== *)

Section Batches.

Context {P : Platform}.

Lemma score_loop_total (userId : string) (jobs : list Job) :
  forall scored w,
  exists w', score_loop userId jobs scored w = (Ok (scored + length jobs)%nat, w').
Proof.
  induction jobs as [| job jobs IH]; intros scored w; simpl.
  - exists w. unfold ret. f_equal. f_equal. lia.
  - unfold bind, try_catch. rewrite scoreJob_run.
    destruct (scoreJob_try userId job w) as [[r | e] w1]; simpl;
      destruct (IH (S scored) w1) as (w' & ->); exists w'; f_equal; f_equal; lia.
Qed.

(** What a scoring run does to the database: nothing, or it sets the score
    row of the job and the user. *)
Lemma scoreJob_db (userId : string) (job : Job) (w : World) :
  db (snd (scoreJob userId job w)) = db w \/
  (prisma_rejects (3 + tick w) JobScoreUpsert = None /\
   exists r, db (snd (scoreJob userId job w)) = with_score (job_id job) userId r (db w)).
Proof.
  rewrite scoreJob_run, scoreJob_try_run.
  destruct (prisma_rejects (tick w) SkillFindMany);
    [left; destruct w; reflexivity |].
  destruct (prisma_rejects (S (tick w)) JobTargetFindUnique);
    [left; destruct w; reflexivity |].
  destruct (prisma_rejects (S (S (tick w))) ExperienceFindMany);
    [left; destruct w; reflexivity |].
  destruct (calculateSkillMatch job (user_skills userId (db w)));
    [| left; destruct w; reflexivity].
  destruct (prisma_rejects (3 + tick w) JobScoreUpsert);
    [left; destruct w; reflexivity |].
  right. split; [reflexivity |]. eexists. destruct w; reflexivity.
Qed.

Lemma scoreJob_stores (userId : string) (job : Job) (w : World) (ss : SkillScore) :
  (forall n call, prisma_rejects n call = None) ->
  calculateSkillMatch job (user_skills userId (db w)) = Ok ss ->
  exists r,
    scoreJob userId job w
    = (Ok r, set_db (with_score (job_id job) userId r (db w)) (set_tick (4 + tick w) w)).
Proof.
  intros Hn Hs. rewrite scoreJob_run, scoreJob_try_run, !Hn, Hs.
  eexists. reflexivity.
Qed.

Lemma score_loop_db_kept (userId : string) (jobs : list Job) :
  (forall n, prisma_rejects n JobScoreUpsert <> None) ->
  forall scored w, db (snd (score_loop userId jobs scored w)) = db w.
Proof.
  intros Hrej. induction jobs as [| job jobs IH]; intros scored w; simpl; [reflexivity |].
  unfold bind, try_catch.
  destruct (scoreJob_db userId job w) as [Hd | [Hn _]]; [| exfalso; exact (Hrej _ Hn)].
  rewrite scoreJob_run in *.
  destruct (scoreJob_try userId job w) as [[r | e] w1]; simpl in *;
    rewrite IH; exact Hd.
Qed.

End Batches.

(** X17.  [scoreNewJobs] counts attempts, not scores: unless its query
    rejects, it answers with the number of jobs it fetched, the smaller of
    the limit and the number of jobs without a score of the user, whether
    or not a score could be stored for any of them; when every write of a
    score rejects, the database is left as it was and the count is the
    same. *)
Theorem scoreNewJobs_counts_attempts `{P : Platform} (userId : string) (limit : nat)
    (w : World) :
  match prisma_rejects (tick w) JobFindMany with
  | Some e => fst (scoreNewJobs userId limit w) = Throw e
  | None =>
      fst (scoreNewJobs userId limit w)
      = Ok (Nat.min limit (length (List.filter (unscored userId (db w)) (jobs (db w)))))
  end /\
  ((forall n, prisma_rejects n JobScoreUpsert <> None) ->
   db (snd (scoreNewJobs userId limit w)) = db w).
Proof.
  unfold scoreNewJobs, job_findMany_unscored, bind, prisma. split.
  - destruct (prisma_rejects (tick w) JobFindMany); [reflexivity |].
    set (l := take limit (rev (List.filter (unscored userId (db w)) (jobs (db w))))).
    destruct (score_loop_total userId l 0 (set_db (db w) (set_tick (S (tick w)) w)))
      as (w' & ->).
    simpl. f_equal. unfold l. rewrite length_take, length_rev. lia.
  - intros Hrej. destruct (prisma_rejects (tick w) JobFindMany);
      [destruct w; reflexivity |].
    rewrite score_loop_db_kept by exact Hrej. destruct w; reflexivity.
Qed.

(** Two unscored postings on a platform that cannot store a score: the
    answer is 2, and no score is stored. *)
Lemma scoreNewJobs_counts_attempts_witness :
  (forall n, @prisma_rejects Scenario.platform_without_scores n JobScoreUpsert <> None) /\
  fst (@scoreNewJobs Scenario.platform_without_scores Sample.user 50
         (Sample.world Scenario.two_jobs Sample.nov_2026)) = Ok 2%nat /\
  db (snd (@scoreNewJobs Scenario.platform_without_scores Sample.user 50
             (Sample.world Scenario.two_jobs Sample.nov_2026)))
  = Scenario.two_jobs.
Proof.
  assert (Hrej : forall n,
             @prisma_rejects Scenario.platform_without_scores n JobScoreUpsert <> None)
    by (intros n; discriminate).
  split; [exact Hrej |].
  pose proof (@scoreNewJobs_counts_attempts Scenario.platform_without_scores
                Sample.user 50 (Sample.world Scenario.two_jobs Sample.nov_2026))
    as [Hcount Hdb].
  split; [exact Hcount | exact (Hdb Hrej)].
Defined.

Section Completes.

Context {P : Platform}.

Hypothesis reliable : forall n call, prisma_rejects n call = None.

Lemma score_loop_stores (userId : string) (l : list Job) :
  forall scored w,
    Forall (fun j => exists ss,
              calculateSkillMatch j (user_skills userId (db w)) = Ok ss) l ->
    exists w',
      score_loop userId l scored w = (Ok (scored + length l)%nat, w') /\
      jobs (db w') = jobs (db w) /\ skills (db w') = skills (db w) /\
      (forall key, is_Some (jobScores (db w) !! key) ->
                   is_Some (jobScores (db w') !! key)) /\
      (forall j, In j l -> is_Some (jobScores (db w') !! (job_id j, userId))).
Proof.
  induction l as [| job l IH]; intros scored w Hl.
  - exists w. simpl. unfold ret. split; [f_equal; f_equal; lia |].
    repeat split; auto. intros j [].
  - apply List.Forall_cons_iff in Hl as [[ss Hss] Hl].
    destruct (scoreJob_stores userId job w ss reliable Hss) as (r & Hrun).
    set (w1 := set_db (with_score (job_id job) userId r (db w)) (set_tick (4 + tick w) w))
      in *.
    assert (Hj : jobs (db w1) = jobs (db w)) by (destruct w; reflexivity).
    assert (Hs : skills (db w1) = skills (db w)) by (destruct w; reflexivity).
    assert (Hm : jobScores (db w1) = <[(job_id job, userId) := r]> (jobScores (db w)))
      by (destruct w; reflexivity).
    assert (Hl1 : Forall (fun j => exists ss,
                            calculateSkillMatch j (user_skills userId (db w1)) = Ok ss) l).
    { unfold user_skills in *. rewrite Hs. exact Hl. }
    destruct (IH (S scored) w1 Hl1) as (w' & Hloop & Hj' & Hs' & Hold & Hnew).
    exists w'. simpl. unfold bind, try_catch. rewrite Hrun. simpl.
    rewrite Hloop. split; [f_equal; f_equal; lia |].
    split; [congruence |]. split; [congruence |]. split.
    + intros key Hk. apply Hold. rewrite Hm.
      destruct (decide (key = (job_id job, userId))) as [-> | Hne].
      * rewrite lookup_insert_eq. eexists. reflexivity.
      * rewrite lookup_insert_ne by congruence. exact Hk.
    + intros j [<- | Hin]; [| apply Hnew; exact Hin].
      apply Hold. rewrite Hm, lookup_insert_eq. eexists. reflexivity.
Qed.

End Completes.

(** X18.  When no Prisma call rejects and the skill match of every job of
    the table goes through, one call of [scoreNewJobs] with a limit that
    covers the unscored jobs scores them all: it answers with their number
    and leaves the table as it was, every job of it has a score of the
    user afterwards, and a second call finds nothing to do and answers
    0. *)
Theorem scoreNewJobs_completes `{P : Platform} (userId : string) (limit limit' : nat)
    (w : World) :
  (forall n call, prisma_rejects n call = None) ->
  Forall (fun j => exists ss,
            calculateSkillMatch j (user_skills userId (db w)) = Ok ss) (jobs (db w)) ->
  (length (List.filter (unscored userId (db w)) (jobs (db w))) <= limit)%nat ->
  exists w1 w2,
    scoreNewJobs userId limit w
      = (Ok (length (List.filter (unscored userId (db w)) (jobs (db w)))), w1) /\
    jobs (db w1) = jobs (db w) /\
    Forall (fun j => unscored userId (db w1) j = false) (jobs (db w1)) /\
    scoreNewJobs userId limit' w1 = (Ok 0%nat, w2).
Proof.
  intros Hrel Hok Hlimit.
  set (pending := List.filter (unscored userId (db w)) (jobs (db w))).
  set (w0 := set_db (db w) (set_tick (S (tick w)) w)).
  assert (Hd0 : db w0 = db w) by (destruct w; reflexivity).
  assert (Hfetch : take limit (rev pending) = rev pending).
  { apply take_ge. rewrite length_rev. exact Hlimit. }
  assert (Hpend : Forall (fun j => exists ss,
                            calculateSkillMatch j (user_skills userId (db w0)) = Ok ss)
                    (rev pending)).
  { rewrite Hd0. apply List.Forall_forall. intros j Hj.
    apply List.in_rev in Hj. apply List.filter_In in Hj as [Hj _].
    rewrite List.Forall_forall in Hok. apply Hok. exact Hj. }
  destruct (score_loop_stores Hrel userId (rev pending) 0 w0 Hpend)
    as (w1 & Hloop & Hj1 & _ & Hold & Hnew).
  assert (Hall : Forall (fun j => unscored userId (db w1) j = false) (jobs (db w1))).
  { rewrite Hj1, Hd0. apply List.Forall_forall. intros j Hj. unfold unscored.
    destruct (jobScores (db w) !! (job_id j, userId)) as [r |] eqn:E.
    - destruct (Hold (job_id j, userId)) as [r' ->]; [| reflexivity].
      rewrite Hd0, E. eexists. reflexivity.
    - destruct (Hnew j) as [r' ->]; [| reflexivity].
      apply List.in_rev. rewrite rev_involutive. apply List.filter_In.
      split; [exact Hj |]. unfold unscored. rewrite E. reflexivity. }
  assert (Hnone : List.filter (unscored userId (db w1)) (jobs (db w1)) = []).
  { apply find_none_filter. destruct (List.find _ _) as [j |] eqn:E; [| reflexivity].
    apply List.find_some in E as [Hin Hu]. rewrite List.Forall_forall in Hall.
    rewrite (Hall j Hin) in Hu. discriminate. }
  exists w1, (set_db (db w1) (set_tick (S (tick w1)) w1)).
  split; [| split; [| split]].
  - unfold scoreNewJobs, job_findMany_unscored, bind, prisma. rewrite Hrel.
    fold pending. rewrite Hfetch. fold w0. rewrite Hloop, length_rev. reflexivity.
  - rewrite Hj1, Hd0. reflexivity.
  - exact Hall.
  - unfold scoreNewJobs, job_findMany_unscored, bind, prisma. rewrite Hrel, Hnone.
    simpl rev. rewrite take_nil. reflexivity.
Qed.

(** The two unscored postings of the sample table. *)
Lemma scoreNewJobs_completes_witness :
  (forall n call, @prisma_rejects Sample.platform n call = None) /\
  (length (List.filter (unscored Sample.user Scenario.two_jobs) (jobs Scenario.two_jobs))
   <= 50)%nat /\
  exists w1 w2,
    @scoreNewJobs Sample.platform Sample.user 50
      (Sample.world Scenario.two_jobs Sample.nov_2026) = (Ok 2%nat, w1) /\
    Forall (fun j => unscored Sample.user (db w1) j = false) (jobs (db w1)) /\
    @scoreNewJobs Sample.platform Sample.user 50 w1 = (Ok 0%nat, w2).
Proof.
  assert (Hrel : forall n call, @prisma_rejects Sample.platform n call = None)
    by (intros n call; reflexivity).
  assert (Hlimit : (length (List.filter (unscored Sample.user Scenario.two_jobs)
                              (jobs Scenario.two_jobs)) <= 50)%nat)
    by (vm_compute; lia).
  split; [exact Hrel |]. split; [exact Hlimit |].
  destruct (@scoreNewJobs_completes Sample.platform Sample.user 50 50
              (Sample.world Scenario.two_jobs Sample.nov_2026) Hrel)
    as (w1 & w2 & H1 & _ & H3 & H4).
  - repeat constructor; exists (mkSkillScore 75 [] []); reflexivity.
  - exact Hlimit.
  - exists w1, w2. split; [exact H1 |]. split; [exact H3 | exact H4].
Defined.

(** X19.  [scoreJobs] scores the jobs of the table, in the order of the
    table, and answers with one entry for each: with identifiers given,
    the jobs that carry one of them, each once, and nothing for an
    identifier that no job carries; without identifiers the first hundred
    jobs.  It throws only when its query rejects. *)
Theorem scoreJobs_selects `{P : Platform} (userId : string) (jobIds : option (list nat))
    (w : World) :
  match prisma_rejects (tick w) JobFindMany with
  | Some e => fst (scoreJobs userId jobIds w) = Throw e
  | None =>
      exists scored w',
        scoreJobs userId jobIds w = (Ok scored, w') /\
        map fst scored =
        match jobIds with
        | Some ids =>
            List.filter (fun i => existsb (Nat.eqb i) ids) (map job_id (jobs (db w)))
        | None => take 100 (map job_id (jobs (db w)))
        end
  end.
Proof.
  unfold scoreJobs, bind.
  destruct jobIds as [ids |]; unfold job_findMany_in, job_findMany_take, prisma;
    destruct (prisma_rejects (tick w) JobFindMany); try reflexivity.
  - destruct (scoreJobs_loop_total userId
                (List.filter (fun j => existsb (Nat.eqb (job_id j)) ids) (jobs (db w)))
                [] (set_db (db w) (set_tick (S (tick w)) w)))
      as (scored & w' & Hloop & Hids).
    exists scored, w'. split; [exact Hloop |]. rewrite Hids.
    clear. induction (jobs (db w)) as [| j l IH]; [reflexivity |]. simpl.
    destruct (existsb (Nat.eqb (job_id j)) ids); simpl; rewrite IH; reflexivity.
  - destruct (scoreJobs_loop_total userId (take 100 (jobs (db w)))
                [] (set_db (db w) (set_tick (S (tick w)) w)))
      as (scored & w' & Hloop & Hids).
    exists scored, w'. split; [exact Hloop |]. rewrite Hids.
    clear. generalize 100%nat.
    induction (jobs (db w)) as [| j l IH]; intros [| n]; simpl; try reflexivity.
    rewrite IH. reflexivity.
Qed.

(* ===================================================================== *)
(** * Single jobs *)
(* ===================================================================== *)

Lemma filter_none_with_id (id : nat) (l : list Job) :
  List.find (fun j => Nat.eqb (job_id j) id) l = None ->
  List.filter (fun j => negb (Nat.eqb (job_id j) id)) l = l.
Proof.
  induction l as [| j l IH]; [reflexivity |]. simpl.
  destruct (Nat.eqb (job_id j) id); [discriminate |].
  intros H. simpl. rewrite IH; [reflexivity | exact H].
Qed.

Lemma find_after_filter (id : nat) (l : list Job) :
  List.find (fun j => Nat.eqb (job_id j) id)
    (List.filter (fun j => negb (Nat.eqb (job_id j) id)) l) = None.
Proof.
  induction l as [| j l IH]; [reflexivity |]. simpl.
  destruct (Nat.eqb (job_id j) id) eqn:E; simpl; [exact IH |].
  rewrite E. exact IH.
Qed.

(** X20.  [delete] removes the job and every score of it, of whatever
    user, and nothing else: the other jobs stay in their order and the
    other scores stay.  It answers with the job it removed; for an
    identifier that no job carries it throws Prisma's error of the missing
    record.  After it [findOne] of the identifier throws Job not found. *)
Theorem delete_removes_job_and_scores `{JP : JobsPlatform} (id : nat) (w : World) :
  jobs_call_rejects (tick w) JobScoreDeleteMany = None ->
  jobs_call_rejects (S (tick w)) JobDelete = None ->
  jobs_call_rejects (S (S (tick w))) JobFindUnique = None ->
  (forall u, jobScores (db (snd (delete id w))) !! (id, u) = None) /\
  (forall i u, i <> id ->
     jobScores (db (snd (delete id w))) !! (i, u) = jobScores (db w) !! (i, u)) /\
  jobs (db (snd (delete id w)))
    = List.filter (fun j => negb (Nat.eqb (job_id j) id)) (jobs (db w)) /\
  fst (delete id w)
    = match List.find (fun j => Nat.eqb (job_id j) id) (jobs (db w)) with
      | Some j => Ok j
      | None => Throw record_not_found
      end /\
  fst (findOne id (snd (delete id w))) = Throw "Job not found".
Proof.
  intros H1 H2 H3.
  set (scores' := filter (fun entry : nat * string * ScoreResult => entry.1.1 <> id)
                    (jobScores (db w))).
  set (jobs' := List.filter (fun j => negb (Nat.eqb (job_id j) id)) (jobs (db w))).
  assert (Hrun : delete id w
                 = (match List.find (fun j => Nat.eqb (job_id j) id) (jobs (db w)) with
                    | Some j => Ok j
                    | None => Throw record_not_found
                    end,
                    set_db (set_jobs jobs' (set_jobScores scores' (db w)))
                      (set_tick (2 + tick w) w))).
  { unfold delete, bind, jobScore_deleteMany, job_delete, prisma_jobs.
    rewrite H1. simpl. rewrite H2. fold scores'.
    destruct (List.find _ (jobs (db w))) as [j |] eqn:E; simpl.
    - destruct w; reflexivity.
    - unfold jobs'. rewrite (filter_none_with_id id _ E). destruct w as [[] ? ? ? ?].
      reflexivity. }
  rewrite Hrun. cbn [fst snd].
  assert (Hs : jobScores (db (set_db (set_jobs jobs' (set_jobScores scores' (db w)))
                                (set_tick (2 + tick w) w))) = scores')
    by (destruct w; reflexivity).
  assert (Hj : jobs (db (set_db (set_jobs jobs' (set_jobScores scores' (db w)))
                           (set_tick (2 + tick w) w))) = jobs')
    by (destruct w; reflexivity).
  rewrite Hs, Hj. split; [| split; [| split; [reflexivity | split; [reflexivity |]]]].
  - intros u. unfold scores'. apply map_lookup_filter_None. right.
    intros r _ Hp. apply Hp. reflexivity.
  - intros i u Hne. unfold scores'.
    destruct (jobScores (db w) !! (i, u)) as [r |] eqn:E.
    + apply map_lookup_filter_Some. split; [exact E | exact Hne].
    + apply map_lookup_filter_None. left. exact E.
  - unfold findOne, bind, job_findUnique, prisma_jobs.
    replace (tick (set_db (set_jobs jobs' (set_jobScores scores' (db w)))
                     (set_tick (2 + tick w) w))) with (S (S (tick w)))
      by (destruct w; reflexivity).
    rewrite H3.
    replace (db (set_db (set_jobs jobs' (set_jobScores scores' (db w)))
                   (set_tick (2 + tick w) w)))
      with (set_jobs jobs' (set_jobScores scores' (db w))) by (destruct w; reflexivity).
    replace (jobs (set_jobs jobs' (set_jobScores scores' (db w)))) with jobs'
      by reflexivity.
    unfold jobs'. rewrite find_after_filter. reflexivity.
Qed.

(** The first of the two postings, scored for two users, is deleted. *)
Lemma delete_removes_job_and_scores_witness :
  @jobs_call_rejects Scenario.jobs_platform 0 JobScoreDeleteMany = None /\
  @jobs_call_rejects Scenario.jobs_platform 1 JobDelete = None /\
  @jobs_call_rejects Scenario.jobs_platform 2 JobFindUnique = None /\
  fst (@delete Scenario.jobs_platform 1 (Sample.world Scenario.scored_jobs Sample.nov_2026))
    = Ok (Sample.bare_job 1 "p-1") /\
  jobs (db (snd (@delete Scenario.jobs_platform 1
                   (Sample.world Scenario.scored_jobs Sample.nov_2026))))
    = [Sample.bare_job 2 "p-2"] /\
  fst (@findOne Scenario.jobs_platform 1
         (snd (@delete Scenario.jobs_platform 1
                 (Sample.world Scenario.scored_jobs Sample.nov_2026))))
    = Throw "Job not found".
Proof.
  split; [reflexivity |]. split; [reflexivity |]. split; [reflexivity |].
  destruct (@delete_removes_job_and_scores Scenario.jobs_platform 1
              (Sample.world Scenario.scored_jobs Sample.nov_2026)
              eq_refl eq_refl eq_refl) as (_ & _ & Hj & Hr & Hf).
  split; [exact Hr |]. split; [exact Hj | exact Hf].
Defined.

(** ** Jobs entered by hand *)

Lemma string_of_Z_inj (a b : Z) : string_of_Z a = string_of_Z b -> a = b.
Proof.
  unfold string_of_Z. intros H. apply to_int_inj.
  assert (Hnn : forall z, Z.to_int z <> Decimal.Pos Decimal.Nil /\
                          Z.to_int z <> Decimal.Neg Decimal.Nil).
  { intros [| p | p]; simpl; split; try discriminate;
      intros [= E]; exact (Unsigned.to_uint_nonnil p E). }
  apply (f_equal NilZero.int_of_string) in H.
  rewrite !NilZero.isi in H by apply Hnn. congruence.
Qed.

Lemma append_inj_r (p a b : string) : (p ++ a)%string = (p ++ b)%string -> a = b.
Proof.
  induction p as [| c p IH]; intros H; [exact H |].
  rewrite !append_cons in H. injection H as H. exact (IH H).
Qed.

Lemma manual_stamp_inj (a b : Z) :
  String.eqb ("manual-" ++ string_of_Z a) ("manual-" ++ string_of_Z b) = true -> a = b.
Proof.
  intros H. apply String.eqb_eq in H. apply string_of_Z_inj.
  exact (append_inj_r _ _ _ H).
Qed.

Lemma find_fresh_row (l : list Job) (row : Job) :
  job_id row = fresh_job_id l ->
  List.find (fun j => Nat.eqb (job_id j) (job_id row)) (l ++ [row]) = Some row.
Proof.
  intros Hid.
  assert (Hmax : forall j, In j l -> (job_id j < job_id row)%nat).
  { rewrite Hid. unfold fresh_job_id. intros j Hin.
    assert (job_id j <= list_max (map job_id l))%nat; [| lia].
    pose proof (proj1 (List.list_max_le (map job_id l) (list_max (map job_id l)))
                  (Nat.le_refl _)) as Hall.
    rewrite List.Forall_forall in Hall. apply Hall. apply List.in_map. exact Hin. }
  clear Hid. induction l as [| j l IH]; simpl.
  - rewrite Nat.eqb_refl. reflexivity.
  - destruct (Nat.eqb (job_id j) (job_id row)) eqn:E.
    + apply Nat.eqb_eq in E. specialize (Hmax j (or_introl eq_refl)). lia.
    + apply IH. intros j' Hin. apply Hmax. right. exact Hin.
Qed.

(** X21.  A job entered by hand is stored under the external identifier
    manual-t, where t is the time of the request in milliseconds, and
    [findOne] finds it under its new identifier.  Hence two jobs entered
    within the same millisecond collide on the unique pair of source and
    external identifier: the second request fails with Prisma's
    unique-constraint error, whatever the two jobs are; at any other
    millisecond it succeeds. *)
Theorem manual_jobs_collide_within_a_millisecond `{JP : JobsPlatform}
    (first second : CreateJobDto) (w : World) :
  (forall n call, jobs_call_rejects n call = None) ->
  (forall t,
     existsb (same_posting "manual" ("manual-" ++ string_of_Z (getTime t))) (jobs (db w))
     = false) ->
  exists j w1,
    JobsController_create first w = (Ok j, w1) /\
    j = job_of_input (fresh_job_id (jobs (db w)))
          (mkJobCreateInput first "manual"
             ("manual-" ++ string_of_Z (getTime (now w)))) /\
    jobs (db w1) = jobs (db w) ++ [j] /\
    fst (findOne (job_id j) w1) = Ok j /\
    fst (JobsController_create second w1) = Throw unique_constraint_failed /\
    (forall t, getTime t <> getTime (now w) ->
       exists j2 w2,
         JobsController_create second (set_now t w1) = (Ok j2, w2) /\
         jobs (db w2) = jobs (db w) ++ [j; j2]).
Proof.
  intros Hrel Hfree.
  set (ext := ("manual-" ++ string_of_Z (getTime (now w)))%string).
  set (j := job_of_input (fresh_job_id (jobs (db w))) (mkJobCreateInput first "manual" ext)).
  set (w1 := set_db (set_jobs (jobs (db w) ++ [j]) (db w)) (set_tick (S (tick w)) w)).
  assert (Hj1 : jobs (db w1) = jobs (db w) ++ [j]) by (destruct w; reflexivity).
  assert (Hn1 : now w1 = now w) by (destruct w; reflexivity).
  assert (Hmatch : forall t,
            same_posting "manual" ("manual-" ++ string_of_Z (getTime t)) j
            = String.eqb ext ("manual-" ++ string_of_Z (getTime t))).
  { intros t. reflexivity. }
  exists j, w1. split; [| split; [reflexivity | split; [exact Hj1 | split; [| split]]]].
  - unfold JobsController_create, bind, Date_now, create, job_create_call, prisma_jobs.
    rewrite Hrel. cbn [input_source input_externalId].
    rewrite (Hfree (now w)). reflexivity.
  - unfold findOne, bind, job_findUnique, prisma_jobs. rewrite Hrel, Hj1.
    rewrite find_fresh_row by reflexivity. reflexivity.
  - unfold JobsController_create, bind, Date_now, create, job_create_call, prisma_jobs.
    rewrite Hrel, Hn1. cbn [input_source input_externalId].
    rewrite Hj1, existsb_app. cbn [existsb].
    rewrite (Hmatch (now w)). unfold ext. rewrite String.eqb_refl.
    rewrite !orb_true_r. reflexivity.
  - intros t Ht.
    unfold JobsController_create, bind, Date_now, create, job_create_call, prisma_jobs.
    rewrite Hrel. cbn [input_source input_externalId].
    replace (now (set_now t w1)) with t by (destruct w; reflexivity).
    replace (db (set_now t w1)) with (db w1) by (destruct w; reflexivity).
    rewrite Hj1, existsb_app, (Hfree t). cbn [existsb]. rewrite (Hmatch t).
    destruct (String.eqb ext ("manual-" ++ string_of_Z (getTime t))) eqn:E.
    + apply manual_stamp_inj in E. congruence.
    + cbn [orb]. eexists _, _. split; [reflexivity |].
      destruct w; simpl. rewrite <- app_assoc. reflexivity.
Qed.

(** Two jobs entered by hand into the empty table of the sample
    profile. *)
Lemma manual_jobs_collide_within_a_millisecond_witness :
  (forall n call, @jobs_call_rejects Scenario.jobs_platform n call = None) /\
  (forall t,
     existsb (same_posting "manual" ("manual-" ++ string_of_Z (getTime t)))
       (jobs (db Sample.morning)) = false) /\
  exists j w1,
    @JobsController_create Scenario.jobs_platform (Scenario.manual_job "Data Engineer")
      Sample.morning = (Ok j, w1) /\
    fst (@JobsController_create Scenario.jobs_platform
           (Scenario.manual_job "Site Reliability Engineer") w1)
    = Throw unique_constraint_failed.
Proof.
  assert (Hrel : forall n call, @jobs_call_rejects Scenario.jobs_platform n call = None)
    by (intros n call; reflexivity).
  assert (Hfree : forall t,
            existsb (same_posting "manual" ("manual-" ++ string_of_Z (getTime t)))
              (jobs (db Sample.morning)) = false)
    by (intros t; reflexivity).
  split; [exact Hrel |]. split; [exact Hfree |].
  destruct (@manual_jobs_collide_within_a_millisecond Scenario.jobs_platform
              (Scenario.manual_job "Data Engineer")
              (Scenario.manual_job "Site Reliability Engineer")
              Sample.morning Hrel Hfree)
    as (j & w1 & H1 & _ & _ & _ & H2 & _).
  exists j, w1. split; [exact H1 | exact H2].
Defined.

(* ===================================================================== *)
(** * The scrape endpoints *)
(* ===================================================================== *)

Section Endpoints.

Context {P : Platform}.

Lemma scrapeAll_reliable (userId : string) (sources : option (list string))
    (customConfig : PartialConfig) (w w1 : World) (base : ScraperConfig) :
  never_rejects ScraperRunCreate -> never_rejects ScraperRunUpdate ->
  buildSearchConfig userId w = (Ok base, w1) ->
  exists scheduled w2 summary w',
    select_scrapers sources w1 = (Ok scheduled, w2) /\
    scrapeAll userId sources customConfig w = (Ok summary, w') /\
    Forall2 (result_of (default_keywords (merge_config base customConfig)) (now w))
      scheduled (results summary) /\
    totalJobsNew summary = list_sum (map jobsNew (results summary)) /\
    totalJobsUpdated summary = list_sum (map jobsUpdated (results summary)).
Proof.
  intros Hc Hu Hb.
  assert (Hn1 : now w1 = now w).
  { destruct (buildSearchConfig_frame userId w) as [n Hn]. rewrite Hb in Hn.
    simpl in Hn. subst w1. destruct w; reflexivity. }
  destruct (select_scrapers_total sources w1) as (scheduled & w2 & Hsel & Hn2 & _).
  exists scheduled, w2. unfold scrapeAll, bind. rewrite Hb, Hsel.
  destruct scheduled as [| s0 rest] eqn:Esch.
  - simpl. exists (mkSummary [] 0 0), w2. repeat split. constructor.
  - rewrite <- Esch in *.
    replace (length scheduled =? 0)%nat with false by (rewrite Esch; reflexivity).
    destruct (run_batches_reliable (default_keywords (merge_config base customConfig))
                scheduled Hc Hu (length scheduled) 0 (mkSummary [] 0 0) w2 ltac:(lia))
      as (rs & w' & -> & Hrs).
    destruct (add_results_summary rs (mkSummary [] 0 0)) as (H1 & H2 & H3).
    exists (add_results rs (mkSummary [] 0 0)), w'.
    split; [reflexivity |]. split; [reflexivity |].
    rewrite H1, H2, H3. simpl. rewrite drop_0, Hn2, Hn1 in Hrs.
    repeat split; assumption.
Qed.

Lemma scoreNewJobs_total (userId : string) (limit : nat) (w : World) :
  never_rejects JobFindMany ->
  exists n w', scoreNewJobs userId limit w = (Ok n, w').
Proof.
  intros Hf. unfold scoreNewJobs, job_findMany_unscored, bind, prisma. rewrite Hf.
  destruct (score_loop_total userId
              (take limit (rev (List.filter (unscored userId (db w)) (jobs (db w)))))
              0 (set_db (db w) (set_tick (S (tick w)) w))) as (w' & ->).
  eexists _, w'. reflexivity.
Qed.

Lemma results_by_outcome (config : ScraperConfig) (t : Instant)
    (scheduled : list IScraper) (rs : list ScraperResult) :
  Forall2 (result_of config t) scheduled rs ->
  map result_source rs = map name scheduled /\
  length (List.filter success rs) = length (List.filter (answers config t) scheduled) /\
  length (List.filter (fun r => negb (success r)) rs)
    = length (List.filter (fun s => negb (answers config t s)) scheduled).
Proof.
  induction 1 as [| s r scheduled rs [Hs Hr] _ (IH1 & IH2 & IH3)];
    [repeat split |].
  simpl. destruct (scrape s config t) as [jobs | e] eqn:E.
  - assert (Ha : answers config t s = true) by (unfold answers; rewrite E; reflexivity).
    destruct Hr as [-> _]. rewrite Ha. simpl. repeat split; congruence.
  - assert (Ha : answers config t s = false) by (unfold answers; rewrite E; reflexivity).
    destruct Hr as [-> _]. rewrite Ha. simpl. repeat split; congruence.
Qed.

Lemma filter_complement_length {A} (f : A -> bool) (l : list A) :
  (length (List.filter f l) + length (List.filter (fun x => negb (f x)) l) = length l)%nat.
Proof. induction l as [| x l IH]; simpl; [reflexivity |]. destruct (f x); simpl; lia. Qed.

Lemma run_and_score_reliable (userId : string) (sources : option (list string))
    (customConfig : PartialConfig) (dto : ScrapeJobsDto) (w w1 : World)
    (base : ScraperConfig) :
  never_rejects ScraperRunCreate -> never_rejects ScraperRunUpdate ->
  never_rejects JobFindMany ->
  buildSearchConfig userId w = (Ok base, w1) ->
  exists scheduled w2 response w',
    select_scrapers sources w1 = (Ok scheduled, w2) /\
    run_and_score userId sources customConfig dto w = (Ok response, w') /\
    map result_source (dto_results response) = map name scheduled /\
    sourcesSucceeded response
      = length (List.filter
                  (answers (default_keywords (merge_config base customConfig)) (now w))
                  scheduled) /\
    (sourcesSucceeded response + sourcesFailed response = length scheduled)%nat /\
    dto_totalJobsNew response = list_sum (map jobsNew (dto_results response)) /\
    dto_totalJobsUpdated response = list_sum (map jobsUpdated (dto_results response)).
Proof.
  intros Hc Hu Hf Hb.
  destruct (scrapeAll_reliable userId sources customConfig w w1 base Hc Hu Hb)
    as (scheduled & w2 & summary & w3 & Hsel & Hrun & Hres & Hnew & Hupd).
  destruct (results_by_outcome _ _ _ _ Hres) as (Hnames & Hok & Hko).
  exists scheduled, w2. unfold run_and_score, bind. rewrite Hrun.
  assert (Hscore : exists n w',
            (if negb (match dto_scoreAfterScrape dto with
                      | Some false => true
                      | _ => false
                      end) && (0 <? totalJobsNew summary)%nat
             then scoreNewJobs userId 50 else ret 0%nat) w3 = (Ok n, w')).
  { destruct (_ && _); [apply scoreNewJobs_total; exact Hf |].
    exists 0%nat, w3. reflexivity. }
  destruct Hscore as (n & w' & ->).
  eexists _, w'. split; [exact Hsel |]. split; [reflexivity |]. simpl.
  split; [exact Hnames |]. split; [exact Hok |].
  split; [| split; assumption].
  rewrite Hok, Hko. apply filter_complement_length.
Qed.

End Endpoints.

(** X22.  When the run records can be written, the jobs can be read and
    the search configuration can be built, the endpoint [runScrapers]
    answers, whatever the adapters do: its response carries one result for
    every scheduled scraper, in order; [sourcesSucceeded] is the number of
    adapters that answered and [sourcesFailed] the number of those that
    threw, so that the two add up to the number of scheduled scrapers; and
    the totals are the sums over the results. *)
Theorem runScrapers_reports_every_source `{P : Platform}
    (userId : string) (dto : ScrapeJobsDto) (w w1 : World) (base : ScraperConfig) :
  never_rejects ScraperRunCreate -> never_rejects ScraperRunUpdate ->
  never_rejects JobFindMany ->
  buildSearchConfig userId w = (Ok base, w1) ->
  exists scheduled w2 response w',
    select_scrapers (dto_sources dto) w1 = (Ok scheduled, w2) /\
    runScrapers userId dto w = (Ok response, w') /\
    map result_source (dto_results response) = map name scheduled /\
    sourcesSucceeded response
      = length (List.filter
                  (answers (default_keywords (merge_config base (customConfig_of dto)))
                     (now w))
                  scheduled) /\
    (sourcesSucceeded response + sourcesFailed response = length scheduled)%nat /\
    dto_totalJobsNew response = list_sum (map jobsNew (dto_results response)) /\
    dto_totalJobsUpdated response = list_sum (map jobsUpdated (dto_results response)).
Proof.
  intros Hc Hu Hf Hb. unfold runScrapers.
  exact (run_and_score_reliable userId (dto_sources dto) (customConfig_of dto) dto
           w w1 base Hc Hu Hf Hb).
Qed.

(** The seven portals with LinkedIn down: six sources succeed, one
    fails. *)
Lemma runScrapers_reports_every_source_witness :
  @never_rejects Sample.platform ScraperRunCreate /\
  @never_rejects Sample.platform ScraperRunUpdate /\
  @never_rejects Sample.platform JobFindMany /\
  @buildSearchConfig Sample.platform Sample.user (Sample.service Sample.nov_2026)
    = (Ok Sample.search_config, set_tick 3 (Sample.service Sample.nov_2026)) /\
  exists response w',
    @runScrapers Sample.platform Sample.user Scenario.plain_request
      (Sample.service Sample.nov_2026) = (Ok response, w') /\
    sourcesSucceeded response = 6%nat /\
    (sourcesSucceeded response + sourcesFailed response = 7)%nat.
Proof.
  assert (Hc : @never_rejects Sample.platform ScraperRunCreate) by (intros n; reflexivity).
  assert (Hu : @never_rejects Sample.platform ScraperRunUpdate) by (intros n; reflexivity).
  assert (Hf : @never_rejects Sample.platform JobFindMany) by (intros n; reflexivity).
  assert (Hb : @buildSearchConfig Sample.platform Sample.user
                 (Sample.service Sample.nov_2026)
               = (Ok Sample.search_config, set_tick 3 (Sample.service Sample.nov_2026)))
    by (vm_compute; reflexivity).
  split; [exact Hc |]. split; [exact Hu |]. split; [exact Hf |]. split; [exact Hb |].
  destruct (@runScrapers_reports_every_source Sample.platform Sample.user
              Scenario.plain_request _ _ _ Hc Hu Hf Hb)
    as (scheduled & w2 & response & w' & Hsel & Hrun & _ & Hok & Hsum & _).
  exists response, w'. split; [exact Hrun |].
  assert (Hsched : select_scrapers None (set_tick 3 (Sample.service Sample.nov_2026))
                   = (Ok (scraperInstances Sample.linkedin_down),
                      set_tick 3 (Sample.service Sample.nov_2026)))
    by (vm_compute; reflexivity).
  change (dto_sources Scenario.plain_request) with (@None (list string)) in Hsel.
  rewrite Hsched in Hsel. injection Hsel as <- <-.
  split; [rewrite Hok; vm_compute; reflexivity | rewrite Hsum; reflexivity].
Defined.

(* ===================================================================== *)
(** * The helpers of the portal scrapers *)
(* ===================================================================== *)

(** ** Clean text *)

Lemma is_newline_is_space (c : ascii) : is_newline c = true -> is_space c = true.
Proof.
  unfold is_newline, is_space. intros H.
  apply orb_true_iff in H as [H | H]; apply Nat.eqb_eq in H; rewrite H; reflexivity.
Qed.

Lemma replace_runs_blanks (b : bool) (s : string) :
  blanks_only (replace_runs is_space " " b s).
Proof.
  unfold blanks_only. revert b. induction s as [| c r IH]; intros b; simpl; [constructor |].
  destruct (is_space c) eqn:E.
  - destruct b; [apply IH |]. simpl. constructor; [reflexivity | apply IH].
  - simpl. constructor; [congruence | apply IH].
Qed.

Lemma replace_runs_apart (b : bool) (s : string) :
  spaced_apart b (replace_runs is_space " " b s) = true.
Proof.
  revert b. induction s as [| c r IH]; intros b; simpl; [reflexivity |].
  destruct (is_space c) eqn:E.
  - destruct b; [apply IH |]. simpl. apply IH.
  - simpl. rewrite E. apply IH.
Qed.

Lemma replace_runs_letters (b : bool) (s : string) :
  letters (replace_runs is_space " " b s) = letters s.
Proof.
  unfold letters. revert b. induction s as [| c r IH]; intros b; simpl; [reflexivity |].
  destruct (is_space c) eqn:E; simpl.
  - destruct b; [apply IH |]. simpl. apply IH.
  - rewrite E. simpl. f_equal. apply IH.
Qed.

(** A replacement has nothing to do in a text without characters of its
    class. *)
Lemma replace_runs_none (class : ascii -> bool) (by_ : ascii) (s : string) :
  Forall (fun c => class c = false) (list_ascii_of_string s) ->
  forall b, replace_runs class by_ b s = s.
Proof.
  induction s as [| c r IH]; intros H b; simpl; [reflexivity |].
  simpl in H. apply List.Forall_cons_iff in H as [Hc Hr]. rewrite Hc, IH; auto.
Qed.

Lemma blanks_only_no_newline (s : string) :
  blanks_only s -> Forall (fun c => is_newline c = false) (list_ascii_of_string s).
Proof.
  unfold blanks_only. intros H. eapply Forall_impl; [exact H |].
  intros c Hc. simpl in Hc. destruct (is_newline c) eqn:E; [| reflexivity].
  rewrite (Hc (is_newline_is_space c E)) in E. discriminate.
Qed.

(** In a text of words with single blanks between them the first
    replacement has nothing to do either. *)
Lemma replace_runs_single (s : string) :
  blanks_only s -> forall b, spaced_apart b s = true ->
  replace_runs is_space " " b s = s.
Proof.
  unfold blanks_only. induction s as [| c r IH]; intros Hb b Ha; simpl; [reflexivity |].
  simpl in Hb. apply List.Forall_cons_iff in Hb as [Hc Hr]. simpl in Ha.
  destruct (is_space c) eqn:E.
  - apply andb_true_iff in Ha as [Hnb Ha]. apply negb_true_iff in Hnb. subst b.
    rewrite (Hc eq_refl), IH; auto.
  - rewrite IH; auto.
Qed.

Lemma spaced_apart_weaken (b : bool) (s : string) :
  spaced_apart b s = true -> spaced_apart false s = true.
Proof.
  destruct s as [| c r]; [reflexivity |]. simpl.
  destruct (is_space c); [| tauto]. destruct b; [discriminate | tauto].
Qed.

Lemma trimStart_kept (s : string) :
  (blanks_only s -> blanks_only (trimStart s)) /\
  (forall b, spaced_apart b s = true -> spaced_apart false (trimStart s) = true) /\
  letters (trimStart s) = letters s.
Proof.
  unfold blanks_only, letters. induction s as [| c r (IH1 & IH2 & IH3)]; simpl.
  - repeat split; auto.
  - destruct (is_space c) eqn:E; simpl.
    + split; [intros H; apply IH1; apply List.Forall_cons_iff in H; tauto |].
      split; [| exact IH3].
      intros b H. apply andb_true_iff in H as [_ H]. eapply IH2. exact H.
    + rewrite E. simpl. split; [tauto |]. split; [| reflexivity].
      intros b H. exact H.
Qed.

Lemma trimEnd_kept (s : string) :
  (blanks_only s -> blanks_only (trimEnd s)) /\
  (forall b, spaced_apart b s = true -> spaced_apart b (trimEnd s) = true) /\
  letters (trimEnd s) = letters s.
Proof.
  unfold blanks_only, letters. induction s as [| c r (IH1 & IH2 & IH3)].
  - repeat split; auto.
  - change (trimEnd (String c r))
      with (match trimEnd r with
            | EmptyString => if is_space c then EmptyString else String c EmptyString
            | r' => String c r'
            end).
    destruct (trimEnd r) as [| c' r'] eqn:Er.
    + simpl in IH3. destruct (is_space c) eqn:E; simpl.
      * repeat split; auto. rewrite E. simpl. exact IH3.
      * rewrite E. simpl. rewrite <- IH3. repeat split; auto.
        intros H. apply List.Forall_cons_iff in H as [Hc _].
        constructor; [exact Hc | constructor].
    + split; [| split].
      * intros H. simpl in H. apply List.Forall_cons_iff in H as [Hc Hr].
        simpl. constructor; [exact Hc | apply IH1; exact Hr].
      * intros b H. simpl in H |- *. destruct (is_space c).
        -- apply andb_true_iff in H as [Hb H]. rewrite Hb. simpl.
           apply (IH2 true). exact H.
        -- apply (IH2 false). exact H.
      * simpl. destruct (is_space c); simpl; [exact IH3 | f_equal; exact IH3].
Qed.

Lemma spaced_apart_no_double (s : string) :
  forall b, spaced_apart b s = true -> ~ substring_of "  " s.
Proof.
  intros b Ha (before & after & Hs). revert b s Ha Hs.
  induction before as [| c pre IH]; intros b s Ha Hs.
  - subst s. change (("" ++ "  " ++ after)%string)
      with (String " " (String " " after)) in Ha.
    simpl in Ha. rewrite andb_false_r in Ha. discriminate.
  - rewrite append_cons in Hs. subst s. simpl in Ha.
    destruct (is_space c).
    + apply andb_true_iff in Ha as [_ Ha]. exact (IH true _ Ha eq_refl).
    + exact (IH false _ Ha eq_refl).
Qed.

Lemma cleanText_collapsed (text : string) :
  cleanText text = trim (replace_runs is_space " " false text).
Proof.
  unfold cleanText. rewrite replace_runs_none; [reflexivity |].
  apply blanks_only_no_newline, replace_runs_blanks.
Qed.

Lemma cleanText_shape (text : string) :
  blanks_only (cleanText text) /\ spaced_apart false (cleanText text) = true.
Proof.
  rewrite cleanText_collapsed. unfold trim.
  set (o := replace_runs is_space " " false text).
  pose proof (replace_runs_blanks false text) as Hb.
  pose proof (replace_runs_apart false text) as Ha. fold o in Hb, Ha.
  destruct (trimStart_kept o) as (S1 & S2 & _).
  destruct (trimEnd_kept (trimStart o)) as (E1 & E2 & _).
  split; [apply E1, S1, Hb | apply E2, (S2 false), Ha].
Qed.

(** X23.  [cleanText] returns the words of the text with single blanks
    between them: the result has no white space at its ends, no white
    space other than blanks and no two blanks in a row; it holds the
    characters of the text that are not white space, in their order;
    cleaning a clean text changes nothing; and the second replacement of
    the method, of line breaks, never has anything to replace. *)
Theorem cleanText_single_spaced (text : string) :
  trim (cleanText text) = cleanText text /\
  blanks_only (cleanText text) /\
  ~ substring_of "  " (cleanText text) /\
  letters (cleanText text) = letters text /\
  cleanText (cleanText text) = cleanText text /\
  replace_runs is_newline (ascii_of_nat 10) false
    (replace_runs is_space " " false text)
  = replace_runs is_space " " false text.
Proof.
  destruct (cleanText_shape text) as [Hb Ha].
  split; [rewrite cleanText_collapsed; apply trim_idempotent |].
  split; [exact Hb |].
  split; [exact (spaced_apart_no_double _ false Ha) |].
  split; [| split].
  - rewrite cleanText_collapsed. unfold trim.
    rewrite (proj2 (proj2 (trimEnd_kept _))), (proj2 (proj2 (trimStart_kept _))).
    apply replace_runs_letters.
  - rewrite (cleanText_collapsed (cleanText text)).
    rewrite (replace_runs_single _ Hb false Ha).
    rewrite cleanText_collapsed. apply trim_idempotent.
  - apply replace_runs_none. apply blanks_only_no_newline, replace_runs_blanks.
Qed.

(** ** Identifiers *)

Lemma ToInt32_range (z : Z) : (- 2 ^ 31 <= ToInt32 z < 2 ^ 31)%Z.
Proof.
  unfold ToInt32. pose proof (Z.mod_pos_bound (z + 2 ^ 31) (2 ^ 32) eq_refl). lia.
Qed.

Lemma ToInt32_small (z : Z) : (- 2 ^ 31 <= z < 2 ^ 31)%Z -> ToInt32 z = z.
Proof.
  intros H. unfold ToInt32. rewrite Z.mod_small; lia.
Qed.

Lemma ToInt32_idem (z : Z) : ToInt32 (ToInt32 z) = ToInt32 z.
Proof. apply ToInt32_small, ToInt32_range. Qed.

Lemma ToInt32_add_mul (z k : Z) : ToInt32 (z + k * 2 ^ 32) = ToInt32 z.
Proof.
  unfold ToInt32. replace (z + k * 2 ^ 32 + 2 ^ 31)%Z with (z + 2 ^ 31 + k * 2 ^ 32)%Z by ring.
  rewrite Z_mod_plus_full. reflexivity.
Qed.

Lemma ToInt32_eq (z : Z) : exists k, ToInt32 z = (z + k * 2 ^ 32)%Z.
Proof.
  exists (- ((z + 2 ^ 31) / 2 ^ 32))%Z. unfold ToInt32.
  rewrite Z.mod_eq by discriminate. ring.
Qed.

(** One round of the loop multiplies by 31 and adds the character, in
    32-bit arithmetic. *)
Lemma hash_round_spec (h char : Z) :
  hash_round (ToInt32 h) char = ToInt32 (31 * h + char).
Proof.
  unfold hash_round, bit_and, shift_left.
  rewrite Z.land_diag, !ToInt32_idem, Z.shiftl_mul_pow2 by discriminate.
  change (2 ^ 5)%Z with 32%Z.
  destruct (ToInt32_eq (ToInt32 h * 32)) as [k2 ->].
  destruct (ToInt32_eq h) as [k1 ->].
  replace ((h + k1 * 2 ^ 32) * 32 + k2 * 2 ^ 32 - (h + k1 * 2 ^ 32) + char)%Z
    with (31 * h + char + (31 * k1 + k2) * 2 ^ 32)%Z by ring.
  apply ToInt32_add_mul.
Qed.

Lemma hash_loop_spec (codes : list Z) :
  forall a h, a = ToInt32 h ->
  fold_left hash_round codes a
  = ToInt32 (fold_left (fun hash char => (31 * hash + char)%Z) codes h).
Proof.
  induction codes as [| c rest IH]; intros a h Ha; cbn [fold_left]; [exact Ha |].
  apply IH. rewrite Ha. apply hash_round_spec.
Qed.

Lemma generateExternalId_run
    (title company : string) (url : option string) (w : World) :
  generateExternalId title company url w
  = (Ok (toString36 (Z.abs (fold_left hash_round
           (charCodes (title ++ "-" ++ company ++ "-" ++
              match url with
              | Some u => if String.eqb u "" then string_of_Z (getTime (now w)) else u
              | None => string_of_Z (getTime (now w))
              end)) 0%Z))), w).
Proof.
  destruct url as [u |]; [destruct (String.eqb u "") eqn:E |];
    cbv beta iota zeta delta [generateExternalId bind ret Date_now truthy_string];
    rewrite ?E; reflexivity.
Qed.

(** X24.  The loop of [generateExternalId] computes the hash code that Java
    gives a string: the number whose digits to the base 31 are the
    character codes of the text, cut to a 32-bit integer.  The text is the
    title, the company and the URL joined by dashes, and the method reads
    the clock only when there is no URL, or an empty one; the state is
    never changed. *)
Theorem generateExternalId_is_hashCode
    (title company : string) (url : option string) (w : World) :
  let stamp := match url with
               | Some u => if String.eqb u "" then string_of_Z (getTime (now w)) else u
               | None => string_of_Z (getTime (now w))
               end in
  let combined := (title ++ "-" ++ company ++ "-" ++ stamp)%string in
  generateExternalId title company url w
  = (Ok (toString36 (Z.abs (ToInt32 (hashCode (charCodes combined))))), w).
Proof.
  intros stamp combined. rewrite generateExternalId_run. fold stamp. fold combined.
  unfold hashCode.
  rewrite (hash_loop_spec (charCodes combined) 0 0 eq_refl). reflexivity.
Qed.

Lemma digit_value_digit36 (d : Z) :
  (0 <= d < 36)%Z -> digit_value (digit36 d) = Some d.
Proof.
  intros Hd.
  assert (Hall : forallb (fun k => match digit_value (digit36 k) with
                                   | Some v => (v =? k)%Z
                                   | None => false
                                   end) (map Z.of_nat (seq 0 36)) = true)
    by (vm_compute; reflexivity).
  rewrite forallb_forall in Hall. specialize (Hall d).
  destruct (digit_value (digit36 d)) as [v |].
  - f_equal. apply Z.eqb_eq, Hall. apply List.in_map_iff. exists (Z.to_nat d).
    split; [lia |]. apply in_seq. lia.
  - exfalso. assert (false = true); [| discriminate].
    apply Hall. apply List.in_map_iff. exists (Z.to_nat d).
    split; [lia |]. apply in_seq. lia.
Qed.

Lemma value36_toString36_from (fuel : nat) :
  forall n acc, (0 <= n < 36 ^ Z.of_nat fuel)%Z ->
  value36 (toString36_from fuel n acc) 0 = value36 acc n.
Proof.
  induction fuel as [| fuel IH]; intros n acc Hn.
  - simpl in *. replace n with 0%Z by lia. reflexivity.
  - rewrite Nat2Z.inj_succ, Z.pow_succ_r in Hn by lia.
    pose proof (Z.mod_pos_bound n 36 eq_refl) as Hm.
    pose proof (Z.div_mod n 36 ltac:(discriminate)) as Hdm.
    cbn [toString36_from]. destruct (n / 36 =? 0)%Z eqn:E.
    + apply Z.eqb_eq in E. cbn [value36]. rewrite digit_value_digit36 by exact Hm.
      f_equal. lia.
    + apply Z.eqb_neq in E. rewrite IH.
      * cbn [value36]. rewrite digit_value_digit36 by exact Hm. f_equal. lia.
      * split; [apply Z.div_pos; lia | apply Z.div_lt_upper_bound; lia].
Qed.

Lemma toString36_from_length (fuel : nat) :
  forall n acc k, (0 <= n < 36 ^ Z.of_nat (S k))%Z ->
  (String.length acc + match fuel with O => 0 | S _ => 1 end
   <= String.length (toString36_from fuel n acc) <= String.length acc + S k)%nat.
Proof.
  induction fuel as [| fuel IH]; intros n acc k Hn; [simpl; lia |].
  cbn [toString36_from]. destruct (n / 36 =? 0)%Z eqn:E; [simpl; lia |].
  apply Z.eqb_neq in E.
  destruct k as [| k].
  - exfalso. apply E. apply Z.div_small. change (36 ^ Z.of_nat 1)%Z with 36%Z in Hn. lia.
  - rewrite Nat2Z.inj_succ, Z.pow_succ_r in Hn by lia.
    specialize (IH (n / 36)%Z (String (digit36 (n mod 36)) acc) k).
    cbn [String.length] in IH.
    assert (0 <= n / 36 < 36 ^ Z.of_nat (S k))%Z as Hq
      by (split; [apply Z.div_pos; lia | apply Z.div_lt_upper_bound; lia]).
    specialize (IH Hq). destruct fuel; lia.
Qed.

Lemma toString36_fuel (n : Z) :
  (0 <= n)%Z -> (n < 36 ^ Z.of_nat (S (Z.to_nat (Z.log2 n))))%Z.
Proof.
  intros Hn. pose proof (Z.log2_nonneg n) as Hl.
  rewrite Nat2Z.inj_succ, Z2Nat.id by exact Hl.
  destruct (Z.eq_dec n 0%Z) as [-> | Hne]; [reflexivity |].
  destruct (Z.log2_spec n ltac:(lia)) as [_ Hlt].
  eapply Z.lt_le_trans; [exact Hlt |].
  apply Z.pow_le_mono_l. lia.
Qed.

Lemma parseInt36_toString36 (n : Z) :
  (0 <= n)%Z -> parseInt36 (toString36 n) = Some n.
Proof.
  intros Hn. unfold parseInt36, toString36.
  pose proof (value36_toString36_from (S (Z.to_nat (Z.log2 n))) n ""
                (conj Hn (toString36_fuel n Hn))) as Hv.
  destruct (toString36_from _ n "") eqn:E; [| exact Hv].
  exfalso. revert E. cbn [toString36_from].
  destruct (n / 36 =? 0)%Z; [discriminate |].
  pose proof (toString36_from_length (Z.to_nat (Z.log2 n)) (n / 36)
                (String (digit36 (n mod 36)) "") (Z.to_nat (Z.log2 n))) as Hl.
  intros E. rewrite E in Hl. simpl in Hl.
  assert (0 <= n / 36 < 36 ^ Z.of_nat (S (Z.to_nat (Z.log2 n))))%Z as Hq.
  { pose proof (toString36_fuel n Hn).
    split; [apply Z.div_pos; lia |].
    eapply Z.le_lt_trans; [| eassumption].
    apply Z.div_le_upper_bound; lia. }
  specialize (Hl Hq). lia.
Qed.

Lemma generateExternalId_hash_value
    (title company : string) (url : option string) (w : World) :
  exists hash : Z,
    generateExternalId title company url w = (Ok (toString36 (Z.abs hash)), w) /\
    (- 2 ^ 31 <= hash < 2 ^ 31)%Z.
Proof.
  rewrite generateExternalId_run. eexists. split; [reflexivity |].
  rewrite (hash_loop_spec _ 0 0 eq_refl). apply ToInt32_range.
Qed.

(** X25.  The identifier that [generateExternalId] returns is a numeral to
    the base 36 of one to six digits, and reading it to the base 36 gives
    the absolute value of a 32-bit integer back: the sign of the hash is
    lost, nothing else of it. *)
Theorem generateExternalId_numeral
    (title company : string) (url : option string) (w : World) :
  exists (id : string) (hash : Z),
    generateExternalId title company url w = (Ok id, w) /\
    (- 2 ^ 31 <= hash < 2 ^ 31)%Z /\
    id = toString36 (Z.abs hash) /\
    parseInt36 id = Some (Z.abs hash) /\
    (1 <= String.length id <= 6)%nat.
Proof.
  pose proof (generateExternalId_hash_value title company url w) as (hash & Hrun & Hrange).
  exists (toString36 (Z.abs hash)), hash.
  split; [exact Hrun |]. split; [exact Hrange |]. split; [reflexivity |].
  split; [apply parseInt36_toString36; lia |].
  unfold toString36.
  pose proof (toString36_from_length (S (Z.to_nat (Z.log2 (Z.abs hash)))) (Z.abs hash) "" 5) as Hl.
  cbn [String.length] in Hl. apply Hl.
  change (36 ^ Z.of_nat 6)%Z with 2176782336%Z. lia.
Qed.

(** ** The search query *)

Lemma nonempty_trim (s : string) : nonempty (trim s) = true -> nonempty s = true.
Proof. destruct s; [intros H; exact H | reflexivity]. Qed.

Lemma filter_keywords_kept (ks : list json) (kept : list string) :
  filter_keywords ks = Ok kept -> Forall (fun k => nonempty (trim k) = true) kept.
Proof.
  revert kept. induction ks as [| k rest IH]; intros kept H; simpl in H.
  - injection H as <-. constructor.
  - destruct (keep_keyword k) as [o | e] eqn:Ek; [| discriminate].
    destruct (filter_keywords rest) as [l | e]; [| discriminate].
    injection H as <-. specialize (IH l eq_refl).
    destruct o as [s |]; [| exact IH]. constructor; [| exact IH].
    destruct k as [| [] | repr | s' | |]; simpl in Ek; try discriminate.
    + destruct (String.eqb repr "0"); discriminate.
    + destruct (nonempty (trim s')) eqn:En; [| discriminate].
      injection Ek as <-. exact En.
Qed.

Lemma filter_all {A} (f : A -> bool) (l : list A) :
  Forall (fun x => f x = true) l -> List.filter f l = l.
Proof.
  induction 1 as [| x l Hx _ IH]; simpl; [reflexivity |]. rewrite Hx, IH. reflexivity.
Qed.

Lemma join_nonempty (sep s : string) (rest : list string) :
  s <> ""%string -> join sep (s :: rest) <> ""%string.
Proof.
  intros Hs. destruct s as [| c s]; [congruence |].
  destruct rest; simpl; [discriminate |]. rewrite append_cons. discriminate.
Qed.

Section SearchQuery.

Context {P : Platform}.

Lemma buildSearchConfig_keywords (userId : string) (w w1 : World) (base : ScraperConfig) :
  buildSearchConfig userId w = (Ok base, w1) ->
  Forall (fun k => nonempty (trim k) = true) (keywords base).
Proof.
  destruct w as [d t n reg h]. destruct d as [sk jt ex jb sc rn].
  unfold buildSearchConfig, bind, jobTarget_findUnique, skill_names, skill_findMany,
    experience_findMany, prisma, new_Date, lift, ret; simpl.
  destruct (prisma_rejects n _); simpl; [discriminate |].
  unfold bind; simpl.
  destruct (prisma_rejects (S n) _); simpl; [discriminate |].
  destruct (prisma_rejects (S (S n)) _); simpl; [discriminate |].
  destruct (filter_keywords _) as [kept | e] eqn:Ek; simpl; [| discriminate].
  destruct (element0 _); simpl; [| discriminate].
  intros [= <- _]. simpl. exact (filter_keywords_kept _ _ Ek).
Qed.

End SearchQuery.

(** X26.  The query that the adapters build from the configuration of a
    request.  When the request brings no keyword, the keywords come from
    the profile, none of them is blank, the filter of [buildSearchQuery]
    drops nothing and the query is not empty; it is "software engineer"
    when the profile gives no keyword.  When the request brings keywords,
    they are taken as they are: a request whose keywords are all empty
    strings gets the empty query, the default is not used. *)
Theorem search_query_of_a_request `{P : Platform}
    (userId : string) (dto : ScrapeJobsDto) (w w1 : World) (base : ScraperConfig) :
  buildSearchConfig userId w = (Ok base, w1) ->
  let config := default_keywords (merge_config base (customConfig_of dto)) in
  match dto_keywords dto with
  | Some (k :: l) =>
      keywords config = k :: l /\
      (Forall (fun k' => k' = ""%string) (k :: l) -> buildSearchQuery config = ""%string)
  | _ =>
      Forall (fun k => nonempty (trim k) = true) (keywords config) /\
      List.filter nonempty (keywords config) = keywords config /\
      buildSearchQuery config <> ""%string /\
      (keywords base = [] -> buildSearchQuery config = "software engineer"%string)
  end.
Proof.
  intros Hb config. pose proof (buildSearchConfig_keywords userId w w1 base Hb) as Hk.
  assert (Hprofile :
            custom_keywords (customConfig_of dto) = None ->
            Forall (fun k => nonempty (trim k) = true) (keywords config) /\
            List.filter nonempty (keywords config) = keywords config /\
            buildSearchQuery config <> ""%string /\
            (keywords base = [] -> buildSearchQuery config = "software engineer"%string)).
  { intros Hnone.
    assert (Hcfg : keywords config
                   = match keywords base with
                     | [] => ["software engineer"%string]
                     | _ => keywords base
                     end).
    { assert (Hm : keywords (merge_config base (customConfig_of dto)) = keywords base)
        by (unfold merge_config; cbn [keywords]; rewrite Hnone; reflexivity).
      unfold config, default_keywords. rewrite Hm.
      destruct (keywords base) as [| k0 l0] eqn:E; cbn [length Nat.eqb];
        [reflexivity | exact Hm]. }
    assert (Hall : Forall (fun k => nonempty (trim k) = true) (keywords config)).
    { rewrite Hcfg. destruct (keywords base); [| exact Hk].
      constructor; [reflexivity | constructor]. }
    assert (Hfilter : List.filter nonempty (keywords config) = keywords config).
    { apply filter_all. eapply Forall_impl; [exact Hall |].
      intros k. apply nonempty_trim. }
    split; [exact Hall |]. split; [exact Hfilter |].
    unfold buildSearchQuery. rewrite Hfilter. split.
    - destruct (keywords config) as [| k l] eqn:E.
      + rewrite Hcfg in E. destruct (keywords base); discriminate.
      + apply join_nonempty. apply List.Forall_cons_iff in Hall as [Hk0 _].
        apply nonempty_trim in Hk0. destruct k; [discriminate | discriminate].
    - intros Hnil. rewrite Hcfg, Hnil. reflexivity. }
  destruct (dto_keywords dto) as [[| k l] |] eqn:Ed.
  - apply Hprofile. unfold customConfig_of. cbn [custom_keywords]. rewrite Ed. reflexivity.
  - assert (Hcfg : keywords config = k :: l).
    { assert (Hm : keywords (merge_config base (customConfig_of dto)) = k :: l)
        by (unfold merge_config, customConfig_of; cbn [keywords custom_keywords];
            rewrite Ed; reflexivity).
      unfold config, default_keywords. rewrite Hm. cbn [length Nat.eqb]. exact Hm. }
    split; [exact Hcfg |]. intros Hempty. unfold buildSearchQuery. rewrite Hcfg.
    assert (Hnone : List.filter nonempty (k :: l) = []).
    { clear -Hempty. induction Hempty as [| x xs -> _ IH]; [reflexivity | exact IH]. }
    rewrite Hnone. reflexivity.
  - apply Hprofile. unfold customConfig_of. cbn [custom_keywords]. rewrite Ed. reflexivity.
Qed.

(** A request without keywords for the sample profile: the query is made of
    the keywords of the profile. *)
Lemma search_query_of_a_request_witness :
  @buildSearchConfig Sample.platform Sample.user (Sample.service Sample.nov_2026)
    = (Ok Sample.search_config, set_tick 3 (Sample.service Sample.nov_2026)) /\
  buildSearchQuery
    (default_keywords (merge_config Sample.search_config
                         (customConfig_of Scenario.plain_request))) <> ""%string.
Proof.
  assert (Hb : @buildSearchConfig Sample.platform Sample.user
                 (Sample.service Sample.nov_2026)
               = (Ok Sample.search_config, set_tick 3 (Sample.service Sample.nov_2026)))
    by (vm_compute; reflexivity).
  split; [exact Hb |].
  pose proof (@search_query_of_a_request Sample.platform Sample.user
                Scenario.plain_request _ _ _ Hb) as H.
  change (dto_keywords Scenario.plain_request) with (@None (list string)) in H.
  exact (proj1 (proj2 (proj2 H))).
Defined.

(** ** Remote postings *)

Lemma toLowerCase_app (a b : string) :
  toLowerCase (a ++ b) = (toLowerCase a ++ toLowerCase b)%string.
Proof.
  induction a as [| c a IH]; [reflexivity |].
  rewrite append_cons. simpl. rewrite IH, append_cons. reflexivity.
Qed.

Lemma append_assoc (a b c : string) : ((a ++ b) ++ c = a ++ (b ++ c))%string.
Proof.
  induction a as [| x a IH]; [reflexivity |].
  rewrite !append_cons, IH. reflexivity.
Qed.

Lemma substring_of_app_l (sub a b : string) :
  substring_of sub a -> substring_of sub (a ++ b).
Proof.
  intros (before & after & ->). exists before, (after ++ b)%string.
  rewrite !append_assoc. reflexivity.
Qed.

Lemma substring_of_app_r (sub a b : string) :
  substring_of sub b -> substring_of sub (a ++ b).
Proof.
  intros (before & after & ->). exists (a ++ before)%string, after.
  rewrite !append_assoc. reflexivity.
Qed.

Lemma detectRemote_words (text : string) :
  detectRemote text = true <->
  exists word, In word ["remote"; "work from home"; "wfh"; "anywhere"]%string /\
               substring_of word (toLowerCase text).
Proof.
  unfold detectRemote. destruct text as [| c r].
  - split; [discriminate |]. intros (word & Hin & before & after & Hs).
    exfalso. simpl in Hin, Hs.
    destruct before; [| rewrite append_cons in Hs; discriminate].
    destruct Hin as [<- | [<- | [<- | [<- | []]]]]; discriminate.
  - change (String.eqb (String c r) "") with false. cbv iota.
    rewrite !orb_true_iff, !includes_spec. split.
    + intros [[[H | H] | H] | H]; eexists; (split; [| exact H]); simpl; tauto.
    + intros (word & Hin & H). simpl in Hin.
      destruct Hin as [<- | [<- | [<- | [<- | []]]]]; tauto.
Qed.

(** X27.  The adapters decide whether a posting is remote from its title
    and its location, joined by a blank.  The posting is remote as soon as
    the title or the location alone is; upper and lower case make no
    difference; and an empty text is never remote. *)
Theorem detectRemote_of_title_and_location (title location_ : string) :
  (detectRemote title = true \/ detectRemote location_ = true ->
   detectRemote (title ++ " " ++ location_) = true) /\
  detectRemote (toLowerCase title) = detectRemote title /\
  detectRemote "" = false.
Proof.
  split; [| split; [| reflexivity]].
  - rewrite !detectRemote_words. intros [(word & Hin & H) | (word & Hin & H)];
      exists word; (split; [exact Hin |]); rewrite !toLowerCase_app.
    + apply substring_of_app_l. exact H.
    + apply substring_of_app_r, substring_of_app_r. exact H.
  - destruct (detectRemote title) eqn:E.
    + apply detectRemote_words. apply detectRemote_words in E.
      rewrite toLowerCase_idempotent. exact E.
    + destruct (detectRemote (toLowerCase title)) eqn:E'; [| reflexivity].
      apply detectRemote_words in E'. rewrite toLowerCase_idempotent in E'.
      apply detectRemote_words in E'. congruence.
Qed.

(** ** One source *)

(** X28.  [runSingleScraper] does not report a source that cannot run as an
    error.  When no scraper is registered under the lower-case form of the
    name, when there is no health entry under the name as it was typed, or
    when the source is disabled and not blocked, the endpoint answers with
    an empty list of results and zeros, once the search configuration has
    been built; nothing is written, and no score is computed. *)
Theorem runSingleScraper_answers_for_a_source_that_cannot_run `{P : Platform}
    (userId src : string) (dto : ScrapeJobsDto) (w w1 : World) (base : ScraperConfig) :
  buildSearchConfig userId w = (Ok base, w1) ->
  registry_get (toLowerCase src) (scrapers w) = None \/
  sourceHealth w !! src = None \/
  (exists h, sourceHealth w !! src = Some h /\ isBlocked h = false /\ enabled h = false) ->
  runSingleScraper userId src dto w
  = (Ok {| dto_results := []; dto_totalJobsNew := 0; dto_totalJobsUpdated := 0;
           sourcesSucceeded := 0; sourcesFailed := 0 |}, w1).
Proof.
  intros Hb Hcannot.
  assert (Hw1 : scrapers w1 = scrapers w /\ sourceHealth w1 = sourceHealth w).
  { destruct (buildSearchConfig_frame userId w) as [n Hn]. rewrite Hb in Hn.
    simpl in Hn. subst w1. destruct w; split; reflexivity. }
  destruct Hw1 as [Hs Hh].
  assert (Hsel : select_scrapers (Some [src]) w1 = (Ok [], w1)).
  { unfold select_scrapers. cbn [select_named]. rewrite Hs.
    destruct (registry_get (toLowerCase src) (scrapers w)) as [scraper |];
      [| reflexivity].
    unfold bind, isSourceAvailable. rewrite Hh.
    destruct Hcannot as [Hnone | [Hnone | (h & Hsome & Hblocked & Hoff)]].
    - discriminate.
    - rewrite Hnone. reflexivity.
    - rewrite Hsome, Hblocked, Hoff. reflexivity. }
  unfold runSingleScraper, run_and_score, scrapeAll, bind. rewrite Hb, Hsel.
  cbn [length Nat.eqb ret]. destruct (dto_scoreAfterScrape dto) as [[|] |]; reflexivity.
Qed.

(** A source that nobody registered. *)
Lemma runSingleScraper_answers_for_a_source_that_cannot_run_witness :
  @buildSearchConfig Sample.platform Sample.user (Sample.service Sample.nov_2026)
    = (Ok Sample.search_config, set_tick 3 (Sample.service Sample.nov_2026)) /\
  registry_get (toLowerCase "monster") (scrapers (Sample.service Sample.nov_2026)) = None /\
  @runSingleScraper Sample.platform Sample.user "monster" Scenario.plain_request
    (Sample.service Sample.nov_2026)
  = (Ok {| dto_results := []; dto_totalJobsNew := 0; dto_totalJobsUpdated := 0;
           sourcesSucceeded := 0; sourcesFailed := 0 |},
     set_tick 3 (Sample.service Sample.nov_2026)).
Proof.
  assert (Hb : @buildSearchConfig Sample.platform Sample.user
                 (Sample.service Sample.nov_2026)
               = (Ok Sample.search_config, set_tick 3 (Sample.service Sample.nov_2026)))
    by (vm_compute; reflexivity).
  assert (Hg : registry_get (toLowerCase "monster")
                 (scrapers (Sample.service Sample.nov_2026)) = None)
    by (vm_compute; reflexivity).
  split; [exact Hb |]. split; [exact Hg |].
  exact (@runSingleScraper_answers_for_a_source_that_cannot_run Sample.platform
           Sample.user "monster" Scenario.plain_request _ _ _ Hb (or_introl Hg)).
Defined.

(* ===================================================================== *)
(** * The spelling of requested sources *)
(* ===================================================================== *)

Lemma is_lowercase_spec (s : string) : is_lowercase s = true <-> toLowerCase s = s.
Proof. unfold is_lowercase. apply String.eqb_eq. Qed.

Lemma lowercase_sources_frame (w w' : World) :
  same_sources w w' -> lowercase_sources w -> lowercase_sources w'.
Proof. intros Hs Hl k Hk. apply Hl, Hs. exact Hk. Qed.

(** A name that is not written in lower case misses the health map. *)
Lemma isSourceAvailable_misspelt (src : string) (w : World) :
  lowercase_sources w -> is_lowercase src = false ->
  isSourceAvailable src w = (Ok false, w).
Proof.
  intros Hl Hs. unfold isSourceAvailable.
  destruct (sourceHealth w !! src) eqn:L; [| reflexivity].
  exfalso. assert (E : toLowerCase src = src) by (apply Hl; rewrite L; eexists; reflexivity).
  apply is_lowercase_spec in E. congruence.
Qed.

(** The selection skips the names that are not written in lower case,
    wherever they stand in the list. *)
Lemma select_named_lowercase (sources : list string) :
  forall acc w,
    lowercase_sources w ->
    select_named sources acc w
    = select_named (List.filter is_lowercase sources) acc w.
Proof.
  induction sources as [| src sources IH]; intros acc w Hl; [reflexivity |].
  cbn [List.filter]. destruct (is_lowercase src) eqn:Es.
  - cbn [select_named].
    destruct (registry_get (toLowerCase src) (scrapers w)); [| apply IH; exact Hl].
    unfold bind. pose proof (keeps_isSourceAvailable src w) as Hk.
    destruct (isSourceAvailable src w) as [[[|] | e] w1]; [| | reflexivity];
      apply IH; exact (lowercase_sources_frame w w1 Hk Hl).
  - cbn [select_named].
    destruct (registry_get (toLowerCase src) (scrapers w)); [| apply IH; exact Hl].
    unfold bind. rewrite (isSourceAvailable_misspelt src w Hl Es). apply IH. exact Hl.
Qed.

(** Sources that can run are scheduled as they are named. *)
Lemma select_named_can_run (w : World) (sources : list string) :
  Forall (fun src => toLowerCase src = src /\ can_run w src = true) sources ->
  forall acc,
  exists chosen,
    select_named sources acc w = (Ok (acc ++ chosen), w) /\ map name chosen = sources.
Proof.
  induction 1 as [| src sources [Hl Hc] _ IH]; intros acc.
  - exists []. rewrite app_nil_r. split; reflexivity.
  - unfold can_run in Hc.
    destruct (registry_get src (scrapers w)) as [s |] eqn:Hg; [| discriminate].
    destruct (sourceHealth w !! src) as [h |] eqn:Hh; [| discriminate].
    apply andb_true_iff in Hc as [Hc Hb]. apply andb_true_iff in Hc as [Hn He].
    apply String.eqb_eq in Hn. apply negb_true_iff in Hb.
    destruct (IH (acc ++ [s])) as (chosen & Hsel & Hnames).
    exists (s :: chosen). cbn [select_named]. rewrite Hl, Hg.
    unfold bind, isSourceAvailable. rewrite Hh, Hb, He, Hsel, <- app_assoc.
    simpl. split; [reflexivity | congruence].
Qed.

Lemma can_run_frame (w w' : World) (src : string) :
  scrapers w' = scrapers w -> sourceHealth w' = sourceHealth w ->
  can_run w' src = can_run w src.
Proof. intros Hs Hh. unfold can_run. rewrite Hs, Hh. reflexivity. Qed.

Lemma select_scrapers_spelling (w : World) (sources : list string) :
  lowercase_sources w -> sources <> [] ->
  Forall (fun src => can_run w (toLowerCase src) = true) sources ->
  exists scheduled,
    select_scrapers (Some sources) w = (Ok scheduled, w) /\
    map name scheduled = List.filter is_lowercase sources.
Proof.
  intros Hl Hne Hrun.
  assert (Hsel : select_scrapers (Some sources) w = select_named sources [] w).
  { destruct sources; [contradiction | reflexivity]. }
  rewrite Hsel, (select_named_lowercase sources [] w Hl).
  destruct (select_named_can_run w (List.filter is_lowercase sources)) with (acc := @nil IScraper)
    as (chosen & Hc & Hn).
  - apply Forall_forall. intros src Hin. apply list_elem_of_In, List.filter_In in Hin as [Hin Hs].
    apply is_lowercase_spec in Hs. split; [exact Hs |].
    rewrite Forall_forall in Hrun. specialize (Hrun src (proj2 (list_elem_of_In _ _) Hin)).
    rewrite Hs in Hrun. exact Hrun.
  - exists chosen. split; [exact Hc | exact Hn].
Qed.

(** C10.  The health map of the service holds lower-case names only, and
    [scrapeAll] asks it for a requested name as the caller spelt it, while
    it asks the registry for the lower-case form.  So of the names of an
    explicit list the ones that are not written in lower case are skipped,
    wherever they stand and whatever else the list holds.  When every
    requested name is, in its lower-case form, a source that can run
    (registered, enabled, not blocked), the scrapers that are scheduled and
    the results that come back are those of the names written in lower
    case, in their order and one for each mention; a name spelt otherwise
    leaves no entry. *)
Theorem C10_spelling_excludes_source `{P : Platform}
    (userId : string) (sources : list string) (customConfig : PartialConfig) (w : World) :
  lowercase_sources w ->
  sources <> [] ->
  (forall src, In src sources -> is_lowercase src = false ->
     isSourceAvailable src w = (Ok false, w)) /\
  (forall acc,
     select_named sources acc w
     = select_named (List.filter is_lowercase sources) acc w) /\
  (Forall (fun src => can_run w (toLowerCase src) = true) sources ->
   (exists scheduled,
      select_scrapers (Some sources) w = (Ok scheduled, w) /\
      map name scheduled = List.filter is_lowercase sources) /\
   (exists scheduled,
      select_scrapers (Some (map toLowerCase sources)) w = (Ok scheduled, w) /\
      map name scheduled = map toLowerCase sources) /\
   (never_rejects ScraperRunCreate -> never_rejects ScraperRunUpdate ->
    forall base w1,
      buildSearchConfig userId w = (Ok base, w1) ->
      exists summary w',
        scrapeAll userId (Some sources) customConfig w = (Ok summary, w') /\
        map result_source (results summary) = List.filter is_lowercase sources)).
Proof.
  intros Hl Hne.
  split; [intros src _ Hs; apply isSourceAvailable_misspelt; assumption |].
  split; [intros acc; apply select_named_lowercase; exact Hl |].
  intros Hrun.
  split; [apply select_scrapers_spelling; assumption |].
  split.
  { destruct (select_scrapers_spelling w (map toLowerCase sources) Hl)
      as (scheduled & Hsel & Hnames).
    - destruct sources; [contradiction | discriminate].
    - apply Forall_map. eapply Forall_impl; [exact Hrun |].
      intros src Hsrc. simpl in *. rewrite toLowerCase_idempotent. exact Hsrc.
    - exists scheduled. split; [exact Hsel |]. rewrite Hnames.
      clear. induction sources as [| src sources IH]; [reflexivity |].
      cbn [map List.filter]. unfold is_lowercase at 1.
      rewrite toLowerCase_idempotent, String.eqb_refl, IH. reflexivity. }
  intros Hc Hu base w1 Hb.
  assert (Hw1 : scrapers w1 = scrapers w /\ sourceHealth w1 = sourceHealth w).
  { destruct (buildSearchConfig_frame userId w) as [n Hn]. rewrite Hb in Hn.
    simpl in Hn. subst w1. destruct w; split; reflexivity. }
  destruct Hw1 as [Hs Hh].
  assert (Hl1 : lowercase_sources w1).
  { intros k Hk. apply Hl. rewrite <- Hh. exact Hk. }
  assert (Hrun1 : Forall (fun src => can_run w1 (toLowerCase src) = true) sources).
  { eapply Forall_impl; [exact Hrun |]. intros src Hsrc. simpl in *.
    rewrite (can_run_frame w w1 _ Hs Hh). exact Hsrc. }
  destruct (select_scrapers_spelling w1 sources Hl1 Hne Hrun1) as (scheduled & Hsel & Hnames).
  destruct (scrapeAll_reliable userId (Some sources) customConfig w w1 base Hc Hu Hb)
    as (scheduled' & w2 & summary & w' & Hsel' & Hrunall & Hres & _).
  rewrite Hsel in Hsel'. injection Hsel' as <- <-.
  exists summary, w'. split; [exact Hrunall |].
  destruct (results_by_outcome _ _ _ _ Hres) as (Hsrc & _). congruence.
Qed.

(** The service as its constructor leaves it, with the adapter of LinkedIn
    down, and a request that names LinkedIn and Naukri twice each, once
    capitalised: two results come back, for the two lower-case names. *)
Lemma C10_spelling_excludes_source_witness :
  lowercase_sources (Sample.service Sample.nov_2026) /\
  ["LinkedIn"; "naukri"; "Naukri"; "linkedin"]%string <> [] /\
  isSourceAvailable "LinkedIn" (Sample.service Sample.nov_2026)
    = (Ok false, Sample.service Sample.nov_2026) /\
  exists summary w',
    @scrapeAll Sample.platform Sample.user
      (Some ["LinkedIn"; "naukri"; "Naukri"; "linkedin"]%string) Sample.no_overrides
      (Sample.service Sample.nov_2026) = (Ok summary, w') /\
    map result_source (results summary) = ["naukri"; "linkedin"]%string.
Proof.
  assert (Hk : lowercase_sources (Sample.service Sample.nov_2026)).
  { intros k.
    exact (service_keys_lowercase Sample.linkedin_down
             (Sample.world (Sample.profile None) Sample.nov_2026) k eq_refl). }
  assert (Hne : ["LinkedIn"; "naukri"; "Naukri"; "linkedin"]%string <> []) by discriminate.
  pose proof (@C10_spelling_excludes_source Sample.platform Sample.user
                ["LinkedIn"; "naukri"; "Naukri"; "linkedin"]%string
                Sample.no_overrides (Sample.service Sample.nov_2026) Hk Hne)
    as (Hmiss & _ & Hrun).
  split; [exact Hk |]. split; [exact Hne |].
  split; [apply Hmiss; [left; reflexivity | reflexivity] |].
  assert (Hcan : Forall (fun src => can_run (Sample.service Sample.nov_2026)
                                      (toLowerCase src) = true)
                   ["LinkedIn"; "naukri"; "Naukri"; "linkedin"]%string).
  { repeat (constructor; [vm_compute; reflexivity |]). constructor. }
  destruct (Hrun Hcan) as (_ & _ & Hall).
  assert (Hc : @never_rejects Sample.platform ScraperRunCreate) by (intros n; reflexivity).
  assert (Hu : @never_rejects Sample.platform ScraperRunUpdate) by (intros n; reflexivity).
  assert (Hb : @buildSearchConfig Sample.platform Sample.user
                 (Sample.service Sample.nov_2026)
               = (Ok Sample.search_config, set_tick 3 (Sample.service Sample.nov_2026)))
    by (vm_compute; reflexivity).
  destruct (Hall Hc Hu _ _ Hb) as (summary & w' & Hs & Hr).
  exists summary, w'. split; [exact Hs | exact Hr].
Defined.
